(** * Response normalisation and confidence scoring of the agent-orchestration backend

    A shallow embedding of the algorithmic core of
    [backend/src/services/geminiService.ts] (retry controller, confidence
    scorer, text extraction and diagram normalisation) and of
    [backend/src/services/promptTestingService.ts] (entity-match evaluator).

    Conventions.
    - A JavaScript string is a [string]: a sequence of code units, here the
      8-bit ones (the Latin-1 range of UTF-16).
    - A JavaScript number is the rational it stands for ([Q]); where the
      source can produce [NaN] or [Infinity] the type [JsNum] adds them.
      The operations of [Num] are the exact ones, for the scores that are
      sums of integers and for bounds that rounding keeps; those of
      [Binary64] round every result as the engine does, and [Scoring],
      [Matcher64] and the batch of [Testing] compute with them.
    - [Math.round x] is [Qfloor (x + 1/2)] (ties go up, as in ECMAScript).
    - A [throw] is the [Throw] outcome of the [Except] monad. *)

From Stdlib Require Import ZArith QArith Qround Qminmax Qpower Qreduction.
From Stdlib Require Import Qabs Lqa.
From Stdlib Require Qcanon.
From Stdlib Require Import List String Ascii Bool Arith Lia DecimalString.
Import ListNotations.

Local Open Scope string_scope.
Local Open Scope list_scope.
Local Open Scope Z_scope.

Set Implicit Arguments.

(* ===================================================================== *)
(** ** Exceptions *)
(* ===================================================================== *)

Inductive JsError : Type :=
| TypeError (msg : string)
| SyntaxError (msg : string)
| PlainError (msg : string).

Inductive Except (A : Type) : Type :=
| Ok (a : A)
| Throw (e : JsError).

Arguments Ok {A} a.
Arguments Throw {A} e.

Definition bind {A B} (c : Except A) (k : A -> Except B) : Except B :=
  match c with
  | Ok a => k a
  | Throw e => Throw e
  end.

Declare Scope except_scope.
Delimit Scope except_scope with except.
Notation "x <- c ;; k" := (bind c (fun x => k))
  (at level 61, c at next level, right associativity) : except_scope.

(** [xs.map(f)] where the callback may throw: the first exception aborts the
    whole map. *)
Fixpoint mapM {A B} (f : A -> Except B) (l : list A) : Except (list B) :=
  match l with
  | [] => Ok []
  | a :: l' =>
      match f a with
      | Throw e => Throw e
      | Ok b =>
          match mapM f l' with
          | Throw e => Throw e
          | Ok bs => Ok (b :: bs)
          end
      end
  end.

(** [try { body } catch (e) { handler(e) }] *)
Definition try_catch {A} (body : Except A) (handler : JsError -> Except A)
  : Except A :=
  match body with
  | Ok a => Ok a
  | Throw e => handler e
  end.

(* ===================================================================== *)
(** ** Strings *)
(* ===================================================================== *)

Module Str.

Definition code (c : ascii) : nat := nat_of_ascii c.

(** [s.length] *)
Definition len (s : string) : Z := Z.of_nat (String.length s).

(** [s.startsWith(p)] *)
Definition startsWith (s p : string) : bool := String.prefix p s.

(** [s.includes(sub)] *)
Fixpoint includes (s sub : string) : bool :=
  if String.prefix sub s then true
  else match s with
       | EmptyString => false
       | String _ r => includes r sub
       end.

(** The white space of [String.prototype.trim] and of the regex class
    [\s], within the 8-bit range: TAB, LF, VT, FF, CR, SP and NBSP. *)
Definition isSpace (c : ascii) : bool :=
  let n := code c in
  ((9 <=? n) && (n <=? 13) || (n =? 32) || (n =? 160))%nat.

(** The regex class [\w]: ASCII letters, digits and underscore. *)
Definition isWord (c : ascii) : bool :=
  let n := code c in
  ((48 <=? n) && (n <=? 57) || (65 <=? n) && (n <=? 90)
   || (97 <=? n) && (n <=? 122) || (n =? 95))%nat.

Fixpoint trimStart (s : string) : string :=
  match s with
  | String c r => if isSpace c then trimStart r else s
  | EmptyString => EmptyString
  end.

(** Drops the trailing white space: a character is kept unless everything
    from it to the end is white space. *)
Fixpoint trimEnd (s : string) : string :=
  match s with
  | EmptyString => EmptyString
  | String c r =>
      match trimEnd r with
      | EmptyString => if isSpace c then EmptyString else String c EmptyString
      | r' => String c r'
      end
  end.

(** [s.trim()] *)
Definition trim (s : string) : string := trimEnd (trimStart s).

Fixpoint last (s : string) : option ascii :=
  match s with
  | EmptyString => None
  | String c EmptyString => Some c
  | String _ r => last r
  end.

(** [s.endsWith(c)] for a one-character argument. *)
Definition endsWithChar (s : string) (c : ascii) : bool :=
  match last s with
  | Some d => Ascii.eqb c d
  | None => false
  end.

(** [s.toUpperCase()] on one code unit, as used by the regex flag [i]
    (Canonicalize): a-z and the Latin-1 letters with a one-unit upper
    case inside the range go to it; the others stay. *)
Definition canon (c : ascii) : ascii :=
  let n := code c in
  if ((97 <=? n) && (n <=? 122)
      || (224 <=? n) && (n <=? 254) && negb (n =? 247))%nat
  then ascii_of_nat (n - 32) else c.

(** [s.toLowerCase()] on one code unit. *)
Definition lower (c : ascii) : ascii :=
  let n := code c in
  if ((65 <=? n) && (n <=? 90)
      || (192 <=? n) && (n <=? 222) && negb (n =? 215))%nat
  then ascii_of_nat (n + 32) else c.

Fixpoint map (f : ascii -> ascii) (s : string) : string :=
  match s with
  | EmptyString => EmptyString
  | String c r => String (f c) (map f r)
  end.

Definition toLowerCase (s : string) : string := map lower s.

(** The character [c] stands somewhere in [s]. *)
Fixpoint occurs (c : ascii) (s : string) : bool :=
  match s with
  | EmptyString => false
  | String d r => Ascii.eqb d c || occurs c r
  end.

End Str.

(* ===================================================================== *)
(** ** Regular expressions *)
(* ===================================================================== *)

(** The expressions of the source are sequences of the items below.  They
    are matched the way a backtracking engine matches them: every item
    takes its first choice (a greedy star as much as it can, a lazy one as
    little), and a later failure sends it to its next one. *)
Module Regex.

Inductive item : Type :=
| Lit (p : string)                        (* the characters of [p] *)
| Opt (p : string)                        (* [(?:p)?] *)
| One (cls : ascii -> bool)               (* one character of a class *)
| Star (greedy : bool) (cls : ascii -> bool)  (* [cls*] or [cls*?] *)
| Mark.                                   (* a parenthesis of a group *)

(** The matched text, and for every [Mark] the part of the matched text
    from the mark on. *)
Definition result : Type := (string * list string)%type.

(** [[\s\S]] *)
Definition any (c : ascii) : bool := true.

(** The class of one character. *)
Definition only (c : ascii) (d : ascii) : bool := Ascii.eqb d c.

(** [s] without its prefix [p]. *)
Fixpoint dropPrefix (p s : string) : option string :=
  match p with
  | EmptyString => Some s
  | String a p' =>
      match s with
      | String b s' => if Ascii.eqb a b then dropPrefix p' s' else None
      | EmptyString => None
      end
  end.

Definition consume (c : string) (r : option result) : option result :=
  match r with
  | Some (m, marks) => Some ((c ++ m)%string, marks)
  | None => None
  end.

Definition orElse {A} (x : option A) (y : unit -> option A) : option A :=
  match x with
  | Some a => Some a
  | None => y tt
  end.

(** A star followed by the rest of the expression, [k]. *)
Fixpoint star (greedy : bool) (cls : ascii -> bool)
         (k : string -> option result) (s : string) : option result :=
  let more (_ : unit) :=
    match s with
    | String c s' =>
        if cls c then consume (String c EmptyString) (star greedy cls k s')
        else None
    | EmptyString => None
    end in
  if greedy then orElse (more tt) (fun _ => k s)
  else orElse (k s) more.

(** The expression matched at the head of [s]. *)
Fixpoint matchSeq (items : list item) (s : string) {struct items}
  : option result :=
  match items with
  | [] => Some (EmptyString, [])
  | Lit p :: rest =>
      match dropPrefix p s with
      | Some s' => consume p (matchSeq rest s')
      | None => None
      end
  | Opt p :: rest =>
      orElse (match dropPrefix p s with
              | Some s' => consume p (matchSeq rest s')
              | None => None
              end)
             (fun _ => matchSeq rest s)
  | One cls :: rest =>
      match s with
      | String c s' =>
          if cls c then consume (String c EmptyString) (matchSeq rest s')
          else None
      | EmptyString => None
      end
  | Mark :: rest =>
      match matchSeq rest s with
      | Some (m, marks) => Some (m, m :: marks)
      | None => None
      end
  | Star greedy cls :: rest => star greedy cls (matchSeq rest) s
  end.

(** [a|b|...] at the head of [s]. *)
Fixpoint firstAlt (alts : list (list item)) (s : string) : option result :=
  match alts with
  | [] => None
  | a :: rest => orElse (matchSeq a s) (fun _ => firstAlt rest s)
  end.

(** [s.match(re)] for an expression without the flag [g]: the match that
    starts first. *)
Fixpoint search (alts : list (list item)) (s : string) : option result :=
  match firstAlt alts s with
  | Some r => Some r
  | None =>
      match s with
      | String _ r => search alts r
      | EmptyString => None
      end
  end.

(** [match[0]] *)
Definition matched (r : option result) : option string := option_map fst r.

(** [match[1]]: the text between the first two marks. *)
Definition group1 (r : option result) : option string :=
  match r with
  | Some (_, a :: b :: _) =>
      Some (substring 0 (String.length a - String.length b) a)
  | _ => None
  end.

(** [re.test(s)] *)
Definition test (alts : list (list item)) (s : string) : bool :=
  match search alts s with
  | Some _ => true
  | None => false
  end.

(** [(s.match(re) || []).length] for an expression with the flag [g]: the
    matches are found from left to right, each search starting where the
    match before it ended, one character further after an empty match.
    [skip] counts the characters still covered by the last match. *)
Fixpoint countAll (alts : list (list item)) (skip : nat) (s : string) : Z :=
  match skip with
  | S k =>
      match s with
      | EmptyString => 0%Z
      | String _ r => countAll alts k r
      end
  | O =>
      match firstAlt alts s with
      | Some (m, _) =>
          match s with
          | EmptyString => 1%Z
          | String _ r => (1 + countAll alts (Nat.pred (String.length m)) r)%Z
          end
      | None =>
          match s with
          | EmptyString => 0%Z
          | String _ r => countAll alts O r
          end
      end
  end.

(** [s.replace(re, '')] for an expression with the flag [g]. *)
Fixpoint removeAll (alts : list (list item)) (skip : nat) (s : string)
  : string :=
  match s with
  | EmptyString => EmptyString
  | String c r =>
      match skip with
      | S k => removeAll alts k r
      | O =>
          match firstAlt alts s with
          | Some (m, _) =>
              match String.length m with
              | O => String c (removeAll alts O r)
              | S n => removeAll alts n r
              end
          | None => String c (removeAll alts O r)
          end
      end
  end.

End Regex.

(* ===================================================================== *)
(** ** Retry / backoff controller: [withRetry] *)
(* ===================================================================== *)

Module Retry.

Record RetryConfig := {
  maxRetries : nat;
  initialDelay : Z;
  maxDelay : Z
}.

Definition RETRY_CONFIG : RetryConfig :=
  {| maxRetries := 3; initialDelay := 1000; maxDelay := 8000 |}.

(** What an observer sees of one run: every call of the operation and
    every [setTimeout] wait with its length in milliseconds. *)
Inductive event : Type :=
| Invoke
| Sleep (ms : Z).

Section WithRetry.

(** [T]: the value the promise resolves to; [E]: what it rejects with;
    [W]: the state of the world the operation reads and changes. *)
Variables T E W : Type.

(** [error.message] *)
Variable message : E -> string.

(** [fn]: one invocation, threading the world. *)
Variable fn : W -> (T + E) * W.

Inductive outcome : Type :=
| Returned (v : T)
| Rejected (e : E).

Definition transient (e : E) : bool :=
  Str.includes (message e) "rate limit"
  || Str.includes (message e) "timeout".

(** The body of [while (true)], with the loop variables [retries] and
    [delay] as arguments.  [fuel] bounds the number of iterations;
    [withRetry_fuel] below shows that [maxRetries + 1] are enough. *)
Fixpoint loop (fuel : nat) (retries : nat) (delay : Z) (w : W)
         (trace : list event) : option (outcome * W * list event) :=
  match fuel with
  | O => None
  | S fuel' =>
      match fn w with
      | (inl v, w') => Some (Returned v, w', trace ++ [Invoke])
      | (inr e, w') =>
          let retries := S retries in
          if (maxRetries RETRY_CONFIG <? retries)%nat
             || negb (transient e)
          then Some (Rejected e, w', trace ++ [Invoke])
          else loop fuel' retries
                    (Z.min (delay * 2) (maxDelay RETRY_CONFIG)) w'
                    (trace ++ [Invoke; Sleep delay])
      end
  end.

Definition withRetry_from (fuel : nat) (w : W) :=
  loop fuel 0 (initialDelay RETRY_CONFIG) w [].

Definition withRetry (w : W) :=
  withRetry_from (S (maxRetries RETRY_CONFIG)) w.

Definition invocations (trace : list event) : nat :=
  List.length (List.filter
                 (fun ev => match ev with Invoke => true | _ => false end)
                 trace).

Definition sleeps (trace : list event) : list Z :=
  List.flat_map
    (fun ev => match ev with Sleep d => [d] | Invoke => [] end) trace.

End WithRetry.

End Retry.

(* ===================================================================== *)
(** ** Numbers *)
(* ===================================================================== *)

Module Num.

Local Open Scope Q_scope.

(** [Math.round]: the nearest integer, a tie going to the larger one. *)
Definition round (x : Q) : Z := Qfloor (x + (1 # 2)).

(** A length or a count as a number. *)
Definition ofZ (n : Z) : Q := inject_Z n.

(** [a > b] on numbers. *)
Definition gtb (a b : Q) : bool := negb (Qle_bool a b).

(** [xs.reduce((a, b) => a + b, 0)] *)
Definition sum (xs : list Q) : Q := fold_left Qplus xs 0.

(** A number where a division by zero is possible. *)
Inductive JsNum : Type :=
| NaN
| PInf
| NInf
| Fin (q : Q).

(** [a + b] *)
Definition add (a b : JsNum) : JsNum :=
  match a, b with
  | NaN, _ | _, NaN => NaN
  | PInf, NInf | NInf, PInf => NaN
  | PInf, _ | _, PInf => PInf
  | NInf, _ | _, NInf => NInf
  | Fin x, Fin y => Fin (x + y)
  end.

(** [a / n] for a count [n] (a length or a size). *)
Definition divCount (a : JsNum) (n : nat) : JsNum :=
  match a with
  | NaN => NaN
  | PInf => PInf
  | NInf => NInf
  | Fin x =>
      match n with
      | O => if Qeq_bool x 0 then NaN
             else if Qle_bool 0 x then PInf else NInf
      | S _ => Fin (x / inject_Z (Z.of_nat n))
      end
  end.

(** [a > b] *)
Definition gt (a b : JsNum) : bool :=
  match a, b with
  | NaN, _ | _, NaN => false
  | PInf, PInf => false
  | PInf, _ => true
  | _, PInf => false
  | NInf, _ => false
  | Fin _, NInf => true
  | Fin x, Fin y => gtb x y
  end.

Definition ofNat (n : nat) : JsNum := Fin (inject_Z (Z.of_nat n)).

Definition isNaN (a : JsNum) : bool :=
  match a with NaN => true | _ => false end.

(** Equality of numbers up to the representation of a rational. *)
Definition eqv (a b : JsNum) : Prop :=
  match a, b with
  | NaN, NaN | PInf, PInf | NInf, NInf => True
  | Fin x, Fin y => x == y
  | _, _ => False
  end.

(** A number that is not below zero: what a running best always is. *)
Definition atLeastZero (a : JsNum) : Prop :=
  isNaN a = false /\ gt (Fin 0) a = false.

(** The same outcome: the same exception, or the same number. *)
Definition sameOutcome (x y : Except JsNum) : Prop :=
  match x, y with
  | Ok a, Ok b => eqv a b
  | Throw e, Throw e' => e = e'
  | _, _ => False
  end.

End Num.

(* ===================================================================== *)
(** ** Binary64 arithmetic *)
(* ===================================================================== *)

(** The numbers of the engine are the binary64 ones: every sum, product
    and quotient is the exact result rounded to the nearest number with 53
    significant bits, a tie going to the even one; below [2^-1022] the
    last place stays at [2^-1074], and a result that rounds to [2^1024] or
    more is an infinity.  A number is kept as the rational it stands for
    (in lowest terms), and the two zeros as one. *)
Module Binary64.

Import Num.
Local Open Scope Q_scope.

(** [2^k] *)
Definition pow2 (k : Z) : Q := 2 ^ k.

(** The integer [e] with [2^e <= q < 2^(e+1)], for a positive [q]. *)
Definition ilog2 (q : Q) : Z :=
  let e := (Z.log2 (Qnum q) - Z.log2 (Zpos (Qden q)))%Z in
  if Qle_bool (pow2 e) q then e else (e - 1)%Z.

(** The nearest integer, a tie going to the even one. *)
Definition rne (x : Q) : Z :=
  let f := Qfloor x in
  match Qcompare (x - inject_Z f) (1 # 2) with
  | Lt => f
  | Gt => (f + 1)%Z
  | Eq => if Z.even f then f else (f + 1)%Z
  end.

(** The exponent of the last place of a positive [q]: 53 significant
    bits, and no place below [2^-1074]. *)
Definition lastPlace (q : Q) : Z := (Z.max (ilog2 q) (-1022) - 52)%Z.

(** The multiple of the last place nearest to a positive [q]. *)
Definition nearest (q : Q) : Q :=
  inject_Z (rne (q / pow2 (lastPlace q))) * pow2 (lastPlace q).

Definition rndPos (q : Q) : JsNum :=
  let r := nearest q in
  if Qle_bool (pow2 1024) r then PInf else Fin (Qred r).

(** [-a] *)
Definition neg (a : JsNum) : JsNum :=
  match a with
  | NaN => NaN
  | PInf => NInf
  | NInf => PInf
  | Fin q => Fin (- q)
  end.

(** The binary64 number nearest to [q], a tie going to the one with an
    even last place; past the largest of them, infinity. *)
Definition rnd (q : Q) : JsNum :=
  match Qcompare q 0 with
  | Eq => Fin 0
  | Gt => rndPos q
  | Lt => neg (rndPos (- q))
  end.

(** [a <= b] for two numbers, neither of them [NaN]. *)
Definition le (a b : JsNum) : Prop :=
  match a, b with
  | NaN, _ | _, NaN => False
  | NInf, _ => True
  | _, PInf => True
  | Fin x, Fin y => x <= y
  | PInf, _ => False
  | _, NInf => False
  end.

(** [a + b] *)
Definition add (a b : JsNum) : JsNum :=
  match a, b with
  | NaN, _ | _, NaN => NaN
  | PInf, NInf | NInf, PInf => NaN
  | PInf, _ | _, PInf => PInf
  | NInf, _ | _, NInf => NInf
  | Fin x, Fin y => rnd (x + y)
  end.

(** [a / n] for a count or a positive constant [n]. *)
Definition divCount (a : JsNum) (n : nat) : JsNum :=
  match a with
  | NaN => NaN
  | PInf => PInf
  | NInf => NInf
  | Fin x =>
      match n with
      | O => if Qeq_bool x 0 then NaN
             else if Qle_bool 0 x then PInf else NInf
      | S _ => rnd (x / inject_Z (Z.of_nat n))
      end
  end.

(** [k * a] for a positive constant [k]. *)
Definition times (k : positive) (a : JsNum) : JsNum :=
  match a with
  | Fin x => rnd (inject_Z (Zpos k) * x)
  | other => other
  end.

(** [Math.min(a, b)] *)
Definition min (a b : JsNum) : JsNum :=
  match a, b with
  | NaN, _ | _, NaN => NaN
  | NInf, _ | _, NInf => NInf
  | PInf, x | x, PInf => x
  | Fin x, Fin y => Fin (Qmin x y)
  end.

(** [Math.round(a)]: an integer is a binary64 number whenever the
    argument is one. *)
Definition round (a : JsNum) : JsNum :=
  match a with
  | Fin x => Fin (inject_Z (Num.round x))
  | other => other
  end.

(** [a || 0] *)
Definition orZero (a : JsNum) : JsNum :=
  match a with
  | NaN => Fin 0
  | Fin x => if Qeq_bool x 0 then Fin 0 else a
  | other => other
  end.

(** A length or a count as a number. *)
Definition ofZ (z : Z) : JsNum := Fin (inject_Z z).

(** [xs.reduce((a, b) => a + b, 0)] *)
Definition sum (xs : list JsNum) : JsNum := fold_left add xs (Fin 0).

(** A number from [lo] to [hi]. *)
Definition within (lo hi : Q) (a : JsNum) : Prop :=
  exists q, a = Fin q /\ lo <= q <= hi.

(** An integer from [lo] to [hi]. *)
Definition integerWithin (lo hi : Z) (a : JsNum) : Prop :=
  exists z, a = Fin (inject_Z z) /\ (lo <= z <= hi)%Z.

End Binary64.

(* ===================================================================== *)
(** ** Confidence scorer: [calculateConfidenceScores] and its helpers *)
(* ===================================================================== *)

(** The scorer on components typed as the prompt declares them, in exact
    arithmetic: the model for the per-entity formulas and for the bounds
    that rounding keeps.  [Scoring], further down, is the scorer on any
    parsed value, with the arithmetic of the engine. *)

Module Scorer.

Local Open Scope Q_scope.

(** The entities of the first-pass analysis, as the prompt of
    [processInitialDescription] asks the model to write them.  A field the
    model left out is [None] ([undefined] in the source). *)
Record Agent := {
  agent_name : option string;
  agent_role : option string;
  agent_description : option string
}.

Record Tool := {
  tool_name : option string;
  tool_purpose : option string
}.

Record Relationship := {
  rel_source : option string;
  rel_target : option string;
  rel_description : option string;
  rel_dataFlow : option string
}.

Record OrchestrationPattern := {
  pattern_type : option string;
  pattern_justification : option string
}.

Record Components := {
  agents : option (list Agent);
  tools : option (list Tool);
  relationships : option (list Relationship);
  orchestrationPattern : option OrchestrationPattern
}.

(** [{...entity, confidence}] *)
Record Scored (A : Type) := {
  entity : A;
  confidence : Z
}.

Record SystemConfidence := {
  overall : Z;
  completeness : Z;
  consistency : Z;
  clarity : Z
}.

(** [result] before [systemConfidence] is attached. *)
Record ScoredComponents := {
  s_agents : option (list (Scored Agent));
  s_tools : option (list (Scored Tool));
  s_relationships : option (list (Scored Relationship));
  s_orchestrationPattern : option OrchestrationPattern
}.

Record Result := {
  components : ScoredComponents;
  systemConfidence : SystemConfidence
}.

(** Truthiness of an optional string: [undefined] and [""] are falsy. *)
Definition truthy (s : option string) : bool :=
  match s with
  | Some EmptyString | None => false
  | Some _ => true
  end.

(** *** The regular expression built from an agent name *)

(** The class [[-\/\\^$*+?.()|[\]{}]] of the [replace] call. *)
Definition isSpecial (c : ascii) : bool :=
  Str.includes "-/\^$*+?.()|[]{}" (String c EmptyString).

(** [name.replace(/[-\/\\^$*+?.()|[\]{}]/g, '\\$&')]: a backslash in
    front of every character of the class. *)
Fixpoint escapeRegExp (s : string) : string :=
  match s with
  | EmptyString => EmptyString
  | String c r =>
      if isSpecial c
      then String "\" (String c (escapeRegExp r))
      else String c (escapeRegExp r)
  end.

(** The patterns [new RegExp] is given here are read in the fragment they
    belong to: a sequence of characters to match, each written as itself
    or, for one of the class above, after a backslash.  Anything else (an
    operator, a class escape) is outside the fragment: [None]. *)
Fixpoint literalPattern (p : string) : option (list ascii) :=
  match p with
  | EmptyString => Some []
  | String c r =>
      if Ascii.eqb c "\"
      then match r with
           | String c' r' =>
               if isSpecial c'
               then option_map (cons c') (literalPattern r')
               else None
           | EmptyString => None
           end
      else if isSpecial c then None
           else option_map (cons c) (literalPattern r)
  end.

(** One character of the pattern under the flag [i]. *)
Definition ignoringCase (c : ascii) : Regex.item :=
  Regex.One (fun d => Ascii.eqb (Str.canon d) (Str.canon c)).

(** [(systemDescription.match(new RegExp(escaped, 'gi')) || []).length] *)
Definition mentionCount (name systemDescription : string) : Z :=
  match literalPattern (escapeRegExp name) with
  | Some pat =>
      Regex.countAll [List.map ignoringCase pat] O systemDescription
  | None => 0%Z
  end.

(** *** Per-entity confidence *)

Definition baseline : Q := 70.

(** [entity.name.property] for the first property read: with no name the
    read throws. *)
Definition requireName (property : string) (n : option string)
  : Except string :=
  match n with
  | Some s => Ok s
  | None =>
      Throw (TypeError ("Cannot read properties of undefined (reading '"
                        ++ property ++ "')"))
  end.

(** The callback of [result.agents.map]. *)
Definition scoreAgent (systemDescription : string) (agent : Agent)
  : Except (Scored Agent) :=
  let detailScore :=
    match agent_description agent with
    | Some d =>
        if truthy (Some d)
        then Qmin 15 (Num.ofZ (Str.len d) / 20)
        else 0
    | None => 0
    end in
  match requireName "replace" (agent_name agent) with
  | Throw e => Throw e
  | Ok name =>
      let mentionScore := Z.min 10 (mentionCount name systemDescription * 2) in
      let roleScore :=
        match agent_role agent with
        | Some r =>
            if truthy (Some r) && (10 <? Str.len r)%Z then 10 else 0
        | None => 0
        end in
      Ok {| entity := agent;
            confidence :=
              Z.min 100 (Num.round (baseline + detailScore
                                    + Num.ofZ mentionScore + roleScore)) |}
  end.

(** The callback of [result.tools.map]. *)
Definition scoreTool (systemDescription : string) (tool : Tool)
  : Except (Scored Tool) :=
  match requireName "length" (tool_name tool) with
  | Throw e => Throw e
  | Ok name =>
      let specificityScore := if (3 <? Str.len name)%Z then 10 else 0 in
      let purposeScore :=
        match tool_purpose tool with
        | Some p =>
            if truthy (Some p) && (15 <? Str.len p)%Z then 15 else 0
        | None => 0
        end in
      let isExplicit :=
        Str.includes (Str.toLowerCase systemDescription)
                     (Str.toLowerCase name) in
      let explicitScore := if isExplicit then 15 else 0 in
      Ok {| entity := tool;
            confidence :=
              Z.min 100 (Num.round (baseline + specificityScore
                                    + purposeScore + explicitScore)) |}
  end.

(** The callback of [result.relationships.map]. *)
Definition scoreRelationship (rel : Relationship) : Scored Relationship :=
  let clarityScore :=
    match rel_description rel with
    | Some d => if truthy (Some d) && (20 <? Str.len d)%Z then 15 else 0
    | None => 0
    end in
  let sourceTargetScore :=
    if truthy (rel_source rel) && truthy (rel_target rel) then 15 else 0 in
  let dataFlowScore := if truthy (rel_dataFlow rel) then 10 else 0 in
  {| entity := rel;
     confidence :=
       Z.min 100 (Num.round (baseline + clarityScore
                             + sourceTargetScore + dataFlowScore)) |}.

(** *** System-level metrics *)

(** [xs && xs.length > 0] *)
Definition nonEmpty {A} (xs : option (list A)) : bool :=
  match xs with
  | Some (_ :: _) => true
  | _ => false
  end.

(** [a.confidence || 0] *)
Definition orZero (c : Z) : Z := if (c =? 0)%Z then 0%Z else c.

Definition calculateOverallConfidence (c : ScoredComponents)
           (systemDescription : string) : Z :=
  let score : Q := 65 in
  let score := score + Qmin 10 (Num.ofZ (Str.len systemDescription) / 200) in
  let score :=
    match s_agents c with
    | Some ((_ :: _) as ags) =>
        let agentScores :=
          List.map (fun a => Num.ofZ (orZero (confidence a))) ags in
        score + Qmin 10 (Num.sum agentScores
                         / Num.ofZ (Z.of_nat (List.length agentScores))
                         / 10)
    | _ => score - 15
    end in
  let score := if nonEmpty (s_tools c) then score + 5 else score in
  let score := if nonEmpty (s_relationships c) then score + 10 else score in
  Num.round score.

Definition isSome {A} (x : option A) : bool :=
  match x with Some _ => true | None => false end.

Definition assessCompleteness (c : ScoredComponents) : Z :=
  let score : Q := 50 in
  let score := if nonEmpty (s_agents c) then score + 15 else score in
  let score := if nonEmpty (s_tools c) then score + 10 else score in
  let score := if nonEmpty (s_relationships c) then score + 15 else score in
  let score := if isSome (s_orchestrationPattern c) then score + 10 else score in
  Num.round score.

Definition option_string_eqb (a b : option string) : bool :=
  match a, b with
  | Some x, Some y => String.eqb x y
  | None, None => true
  | _, _ => false
  end.

(** [agentNames.has(x)] for the [Set] of the agents' [name] values. *)
Definition has (names : list (option string)) (x : option string) : bool :=
  existsb (option_string_eqb x) names.

Definition assessConsistency (c : ScoredComponents) : Z :=
  let score : Q := 70 in
  let score :=
    match s_relationships c, s_agents c with
    | Some rels, Some ags =>
        let agentNames := List.map (fun a => agent_name (entity a)) ags in
        let totalRelations := Z.of_nat (List.length rels) in
        let validRelations :=
          Z.of_nat
            (List.length
               (List.filter
                  (fun r => has agentNames (rel_source (entity r))
                            && has agentNames (rel_target (entity r)))
                  rels)) in
        if (0 <? totalRelations)%Z
        then score
             + Num.ofZ (Num.round
                          (20 * (Num.ofZ validRelations
                                 / Num.ofZ totalRelations)))
        else score
    | _, _ => score
    end in
  Num.round score.

(** [/#+\s+\w+/gm] *)
Definition sectionHeading : list Regex.item :=
  [Regex.One (Regex.only "#"); Regex.Star true (Regex.only "#");
   Regex.One Str.isSpace; Regex.Star true Str.isSpace;
   Regex.One Str.isWord; Regex.Star true Str.isWord].

Definition hasSections (s : string) : bool := Regex.test [sectionHeading] s.

Definition assessClarity (systemDescription : string) : Z :=
  let score : Q := 60 in
  let score := if hasSections systemDescription then score + 15 else score in
  let score := score + Qmin 10 (Num.ofZ (Str.len systemDescription) / 300) in
  let score :=
    if Str.includes systemDescription "example"
       || Str.includes systemDescription "for instance"
    then score + 10 else score in
  Num.round score.

(** *** [calculateConfidenceScores] *)

(** [if (xs) { xs = xs.map(f) }] *)
Definition mapIfPresent {A B} (f : A -> Except B) (xs : option (list A))
  : Except (option (list B)) :=
  match xs with
  | None => Ok None
  | Some l =>
      match mapM f l with
      | Ok l' => Ok (Some l')
      | Throw e => Throw e
      end
  end.

Definition calculateConfidenceScores (c : Components)
           (systemDescription : string) : Except Result :=
  match mapIfPresent (scoreAgent systemDescription) (agents c) with
  | Throw e => Throw e
  | Ok ags =>
      match mapIfPresent (scoreTool systemDescription) (tools c) with
      | Throw e => Throw e
      | Ok tls =>
          let rels := option_map (List.map scoreRelationship)
                                 (relationships c) in
          let result :=
            {| s_agents := ags; s_tools := tls; s_relationships := rels;
               s_orchestrationPattern := orchestrationPattern c |} in
          Ok {| components := result;
                systemConfidence :=
                  {| overall :=
                       Z.min 95 (calculateOverallConfidence
                                   result systemDescription);
                     completeness := assessCompleteness result;
                     consistency := assessConsistency result;
                     clarity := assessClarity systemDescription |} |}
      end
  end.

(** The confidences of the scored agents, in order; none when the
    [agents] key is absent. *)
Definition agentConfidences (c : ScoredComponents) : list Z :=
  match s_agents c with
  | Some ags => List.map (@confidence Agent) ags
  | None => []
  end.

Definition hasName (n : option string) : Prop := exists s, n = Some s.

(** Every agent and every tool carries a name. *)
Definition allNamed (c : Components) : Prop :=
  (forall ags, agents c = Some ags ->
               Forall (fun a => hasName (agent_name a)) ags)
  /\ (forall tls, tools c = Some tls ->
                  Forall (fun t => hasName (tool_name t)) tls).

End Scorer.

(* ===================================================================== *)
(** ** JSON values *)
(* ===================================================================== *)

Module Js.

(** What [JSON.parse] returns.  An object is the list of its own
    properties in insertion order, one entry per key. *)
Local Unset Elimination Schemes.

Inductive Json : Type :=
| JNull
| JBool (b : bool)
| JNum (q : Q)
| JStr (s : string)
| JArr (items : list Json)
| JObj (fields : list (string * Json)).

Local Set Elimination Schemes.

(** A value read from a property: [None] is [undefined]. *)
Definition Value : Type := option Json.

Definition str (s : string) : Value := Some (JStr s).

Fixpoint lookup (k : string) (fields : list (string * Json)) : Value :=
  match fields with
  | [] => None
  | (k', v) :: rest => if String.eqb k k' then Some v else lookup k rest
  end.

(** [v.k] for the property names the diagram normaliser reads ([id],
    [label], [nodes], [from], ...): none of them is defined on the
    prototypes of strings, numbers, booleans or arrays, so on those the
    read gives [undefined]; on [null] it throws. *)
Definition get (v : Json) (k : string) : Except Value :=
  match v with
  | JNull =>
      Throw (TypeError ("Cannot read properties of null (reading '"
                        ++ k ++ "')"))
  | JObj fields => Ok (lookup k fields)
  | _ => Ok None
  end.

(** [ToBoolean] *)
Definition truthy (v : Value) : bool :=
  match v with
  | None | Some JNull => false
  | Some (JBool b) => b
  | Some (JNum q) => negb (Qeq_bool q 0)
  | Some (JStr s) => negb (String.eqb s "")
  | Some (JArr _) | Some (JObj _) => true
  end.

(** [a || b] *)
Definition or (a b : Value) : Value := if truthy a then a else b.

(** [Array.isArray(v)] together with the elements. *)
Definition asArray (v : Value) : option (list Json) :=
  match v with
  | Some (JArr items) => Some items
  | _ => None
  end.

(** The comparison of [Set.prototype.has] (SameValueZero).  Two objects or
    arrays are the same only when they are one object; the two sides
    compared in this program always come from different places of a
    parsed tree, so they never are. *)
Definition sameValueZero (a b : Value) : bool :=
  match a, b with
  | None, None => true
  | Some JNull, Some JNull => true
  | Some (JBool x), Some (JBool y) => Bool.eqb x y
  | Some (JNum x), Some (JNum y) => Qeq_bool x y
  | Some (JStr x), Some (JStr y) => String.eqb x y
  | _, _ => false
  end.

Definition nonNull (v : Json) : Prop := v <> JNull.

(** The decimal digits of an array index, for [`node${index}`]. *)
Definition showIndex (n : nat) : string :=
  DecimalString.NilEmpty.string_of_uint (Nat.to_uint n).

(** [xs.map((x, index) => f(x, index))] with a callback that may throw. *)
Fixpoint mapi_from {A B} (f : A -> nat -> Except B) (i : nat) (l : list A)
  : Except (list B) :=
  match l with
  | [] => Ok []
  | a :: l' =>
      match f a i with
      | Throw e => Throw e
      | Ok b =>
          match mapi_from f (S i) l' with
          | Throw e => Throw e
          | Ok bs => Ok (b :: bs)
          end
      end
  end.

Definition mapi {A B} (f : A -> nat -> Except B) (l : list A) :=
  mapi_from f 0 l.

End Js.

(* ===================================================================== *)
(** ** Text extraction *)
(* ===================================================================== *)

Module Extract.

Import Js.

Import Regex.

(** [/```(?:json)?\s*([\s\S]*?)\s*```/] *)
Definition codeBlockRegex : list item :=
  [Lit "```"; Opt "json"; Star true Str.isSpace;
   Mark; Star false any; Mark;
   Star true Str.isSpace; Lit "```"].

(** [codeBlockMatch[1]] *)
Definition codeBlockMatch (text : string) : option string :=
  group1 (search [codeBlockRegex] text).

(** [/\{[\s\S]*?\}/] *)
Definition inlineJsonRegex : list item :=
  [Lit "{"; Star false any; Lit "}"].

(** [inlineMatch[0]] *)
Definition inlineMatch (text : string) : option string :=
  matched (search [inlineJsonRegex] text).

(** [/(\{[\s\S]*?\})/] *)
Definition strictJsonRegex : list item :=
  [Mark; Lit "{"; Star false any; Lit "}"; Mark].

(** [strictJsonMatch[1]] *)
Definition strictMatch (jsonText : string) : option string :=
  group1 (search [strictJsonRegex] jsonText).

(** [/\{[\s\S]*\}/], the second expression of
    [processInitialDescription]. *)
Definition greedyJsonRegex : list item :=
  [Lit "{"; Star true any; Lit "}"].

Definition greedyMatch (text : string) : option string :=
  matched (search [greedyJsonRegex] text).

(** *** The two brace expressions, read directly *)

(** Up to the first [}]: what [[\s\S]*?\}] matches at the head of [s]. *)
Fixpoint upToFirstClose (s : string) : option string :=
  match s with
  | EmptyString => None
  | String c r =>
      if Ascii.eqb c "}" then Some (String c EmptyString)
      else option_map (String c) (upToFirstClose r)
  end.

(** From the first [{] to the first [}] after it. *)
Fixpoint firstBraceToFirstClose (s : string) : option string :=
  match s with
  | EmptyString => None
  | String c r =>
      if Ascii.eqb c "{" then option_map (String c) (upToFirstClose r)
      else firstBraceToFirstClose r
  end.

(** Up to the last [}]: what [[\s\S]*\}] matches at the head of [s]. *)
Fixpoint upToLastClose (s : string) : option string :=
  match s with
  | EmptyString => None
  | String c r =>
      match upToLastClose r with
      | Some m => Some (String c m)
      | None => if Ascii.eqb c "}" then Some (String c EmptyString) else None
      end
  end.

(** From the first [{] to the last [}]. *)
Fixpoint firstBraceToLastClose (s : string) : option string :=
  match s with
  | EmptyString => None
  | String c r =>
      if Ascii.eqb c "{" then option_map (String c) (upToLastClose r)
      else firstBraceToLastClose r
  end.

Definition nonEmpty (s : string) : bool := negb (String.eqb s "").

(** Lines 1473-1500 of [generateSystemDiagram]: the choice of [jsonText]. *)
Definition selectJsonText (text : string) : Except string :=
  if Str.startsWith (Str.trim text) "{"
     && Str.endsWithChar (Str.trim text) "}"
  then Ok (Str.trim text)
  else
    match codeBlockMatch text with
    | Some g =>
        if nonEmpty g then Ok (Str.trim g)
        else
          match inlineMatch text with
          | Some m => Ok m
          | None => Throw (PlainError "Invalid response format: no JSON found")
          end
    | None =>
        match inlineMatch text with
        | Some m => Ok m
        | None => Throw (PlainError "Invalid response format: no JSON found")
        end
    end.

(** *** [processInitialDescription], lines 341-350 *)

(** [/```json\s*([\s\S]*?)\s*```/] *)
Definition jsonFenceRegex : list item :=
  [Lit "```json"; Star true Str.isSpace;
   Mark; Star false any; Mark;
   Star true Str.isSpace; Lit "```"].

(** [jsonMatch[0]] when the first expression matches. *)
Definition jsonFenceMatch (text : string) : option string :=
  matched (search [jsonFenceRegex] text).

(** [/```json\s*|\s*```/g] *)
Definition fenceRegex : list (list item) :=
  [[Lit "```json"; Star true Str.isSpace];
   [Star true Str.isSpace; Lit "```"]].

(** [s.replace(/```json\s*|\s*```/g, '')] *)
Definition removeFences (s : string) : string := removeAll fenceRegex O s.

(** The string [processInitialDescription] hands to [JSON.parse]. *)
Definition cleanedJson (text : string) : Except string :=
  match jsonFenceMatch text with
  | Some m => Ok (removeFences m)
  | None =>
      match greedyMatch text with
      | Some m => Ok (removeFences m)
      | None => Throw (PlainError "Failed to extract JSON from Gemini response")
      end
  end.

Section Parsing.

(** [JSON.parse], a builtin of the runtime. *)
Variable JSON_parse : string -> Except Json.

(** Lines 1502-1515, with the list of the strings given to
    [JSON.parse], in order. *)
Definition parseWithFallback (jsonText : string)
  : Except Json * list string :=
  match JSON_parse jsonText with
  | Ok v => (Ok v, [jsonText])
  | Throw parseError =>
      match strictMatch jsonText with
      | Some m => (JSON_parse m, [jsonText; m])
      | None => (Throw parseError, [jsonText])
      end
  end.

(** The extraction step of [generateSystemDiagram]. *)
Definition extractJson (text : string) : Except Json :=
  match selectJsonText text with
  | Throw e => Throw e
  | Ok jsonText => fst (parseWithFallback jsonText)
  end.


End Parsing.

End Extract.

(* ===================================================================== *)
(** ** Diagram normalisation: [generateSystemDiagram] *)
(* ===================================================================== *)

Module Diagram.

Import Js.

(** [node.style || { shape: node.shape, color: node.color }] *)
Inductive NodeStyle : Type :=
| NodeStyleGiven (style : Json)
| NodeStyleBuilt (shape color : Value).

Record DiagramNode := {
  node_id : Value;
  node_label : Value;
  node_type : Value;
  node_role : Value;
  node_category : Value;
  node_description : Value;
  node_size : Value;
  node_style : option NodeStyle
}.

Inductive EdgeStyle : Type :=
| EdgeStyleGiven (style : Json)
| EdgeStyleBuilt (lineStyle thickness color bidirectional : Value).

Record DiagramEdge := {
  edge_id : Value;
  edge_source : Value;
  edge_target : Value;
  edge_label : Value;
  edge_type : Value;
  edge_style : EdgeStyle
}.

Inductive GroupStyle : Type :=
| GroupStyleGiven (style : Json)
| GroupStyleBuilt (color : Value).

Record DiagramGroup := {
  group_id : Value;
  group_label : Value;
  group_nodes : Value;
  group_style : GroupStyle
}.

Record DiagramData := {
  nodes : list DiagramNode;
  edges : list DiagramEdge;
  layout : Value;
  groups : option (list DiagramGroup)
}.

Local Open Scope except_scope.

Definition styleOr {S} (given : Json -> S) (built : S) (style : Value) : S :=
  match style with
  | Some s => if truthy style then given s else built
  | None => built
  end.

(** The callback of [nodeData.map].  Every read is on [node] itself: the
    first one throws when [node] is [null], and none does otherwise. *)
Definition normalizeNode (node : Json) (index : nat) : Except DiagramNode :=
  id <- get node "id" ;;
  label <- get node "label" ;;
  name <- get node "name" ;;
  type <- get node "type" ;;
  role <- get node "role" ;;
  category <- get node "category" ;;
  description <- get node "description" ;;
  size <- get node "size" ;;
  style <- get node "style" ;;
  shape <- get node "shape" ;;
  color <- get node "color" ;;
  Ok {| node_id := or id (str ("node" ++ showIndex index));
        node_label := or (or label name) (str ("Node " ++ showIndex index));
        node_type := or type (str "agent");
        node_role := role;
        node_category := category;
        node_description := description;
        node_size := or size (Some (JNum 1));
        node_style :=
          Some (styleOr NodeStyleGiven (NodeStyleBuilt shape color) style) |}.

(** The callback of [agents.map], in the branch without nodes and in the
    fallback after an exception. *)
Definition agentNode (agent : Json) : Except DiagramNode :=
  id <- get agent "id" ;;
  name <- get agent "name" ;;
  description <- get agent "description" ;;
  Ok {| node_id := id;
        node_label := name;
        node_type := str "agent";
        node_role := None;
        node_category := None;
        node_description := description;
        node_size := None;
        node_style := None |}.

(** The callback of [edgeData.map]. *)
Definition normalizeEdge (edge : Json) (index : nat) : Except DiagramEdge :=
  id <- get edge "id" ;;
  source <- get edge "source" ;;
  from <- get edge "from" ;;
  source_id <- get edge "source_id" ;;
  target <- get edge "target" ;;
  to <- get edge "to" ;;
  target_id <- get edge "target_id" ;;
  label <- get edge "label" ;;
  type <- get edge "type" ;;
  style <- get edge "style" ;;
  lineStyle <- get edge "lineStyle" ;;
  thickness <- get edge "thickness" ;;
  color <- get edge "color" ;;
  bidirectional <- get edge "bidirectional" ;;
  Ok {| edge_id := or id (str ("edge" ++ showIndex index));
        edge_source := or (or (or source from) source_id) (str "");
        edge_target := or (or (or target to) target_id) (str "");
        edge_label := or label (str "");
        edge_type := or type (str "sequential");
        edge_style :=
          styleOr EdgeStyleGiven
                  (EdgeStyleBuilt lineStyle thickness color bidirectional)
                  style |}.

(** The callback of [jsonResponse.groups.map]. *)
Definition normalizeGroup (group : Json) (index : nat) : Except DiagramGroup :=
  id <- get group "id" ;;
  label <- get group "label" ;;
  name <- get group "name" ;;
  gnodes <- get group "nodes" ;;
  nodeIds <- get group "nodeIds" ;;
  style <- get group "style" ;;
  color <- get group "color" ;;
  Ok {| group_id := or id (str ("group" ++ showIndex index));
        group_label :=
          or (or label name) (str ("Group " ++ showIndex index));
        group_nodes := or (or gnodes nodeIds) (Some (JArr []));
        group_style := styleOr GroupStyleGiven (GroupStyleBuilt color) style |}.

(** [nodeIds.has(v)] for [nodeIds = new Set(nodes.map(n => n.id))]. *)
Definition has (nodeIds : list Value) (v : Value) : bool :=
  existsb (sameValueZero v) nodeIds.

(** The predicate of [edges.filter]. *)
Definition edgeValid (nodeIds : list Value) (edge : DiagramEdge) : bool :=
  let sourceExists := has nodeIds (edge_source edge) in
  let targetExists := has nodeIds (edge_target edge) in
  sourceExists && targetExists.

(** [typeof v === 'string' && v.trim() !== ''] *)
Definition nonBlankString (v : Value) : bool :=
  match v with
  | Some (JStr s) => negb (String.eqb (Str.trim s) "")
  | _ => false
  end.

(** Lines 1517-1609: from the parsed response to the diagram. *)
Definition normalize (agents : list Json) (jsonResponse : Json)
  : Except DiagramData :=
  (* Object.keys(jsonResponse), then jsonResponse.layout *)
  layout0 <- get jsonResponse "layout" ;;
  let layout1 := or layout0 (str "dagre") in
  n1 <- get jsonResponse "nodes" ;;
  n2 <- get jsonResponse "vertices" ;;
  n3 <- get jsonResponse "agents" ;;
  let nodeData := or (or (or n1 n2) n3) (Some (JArr [])) in
  nodes <-
    match asArray nodeData with
    | Some ((_ :: _) as items) => mapi normalizeNode items
    | _ =>
        ns <- mapM agentNode agents ;;
        match ns with
        | [] => Throw (PlainError
                         "Missing required nodes array in diagram data")
        | _ => Ok ns
        end
    end ;;
  e1 <- get jsonResponse "edges" ;;
  e2 <- get jsonResponse "links" ;;
  e3 <- get jsonResponse "relationships" ;;
  let edgeData := or (or (or e1 e2) e3) (Some (JArr [])) in
  edges <-
    match asArray edgeData with
    | Some items =>
        es <- mapi normalizeEdge items ;;
        let nodeIds := List.map node_id nodes in
        Ok (List.filter (edgeValid nodeIds) es)
    | None => Ok []
    end ;;
  gs <- get jsonResponse "groups" ;;
  groups <-
    match asArray gs with
    | Some items => g <- mapi normalizeGroup items ;; Ok (Some g)
    | None => Ok None
    end ;;
  let layout2 :=
    if nonBlankString layout0 then layout0
    else if negb (truthy layout1) then str "dagre"
    else layout1 in
  Ok {| nodes := nodes; edges := edges; layout := layout2;
        groups := groups |}.

(** The [catch] of lines 1610-1631: a diagram of the input agents alone. *)
Definition fallbackDiagram (agents : list Json) : Except DiagramData :=
  try_catch
    (fallbackNodes <- mapM agentNode agents ;;
     Ok {| nodes := fallbackNodes; edges := []; layout := str "dagre";
           groups := None |})
    (fun _ =>
       Throw (PlainError
         "Invalid diagram format from AI model and failed to create fallback.")).



Section Generate.

Variable JSON_parse : string -> Except Json.

(** The callback handed to [withRetry], from the response text on. *)
Definition diagramFromText (agents : list Json) (text : string)
  : Except DiagramData :=
  try_catch
    (jsonResponse <- Extract.extractJson JSON_parse text ;;
     normalize agents jsonResponse)
    (fun _ => fallbackDiagram agents).

End Generate.

End Diagram.

(* ===================================================================== *)
(** ** Entity-match evaluator *)
(* ===================================================================== *)

(** The evaluator with exact quotients and sums.  [Matcher64], further
    down, rounds each of them as the engine does. *)

Module Matcher.

Import Js.
Import Num.

(** [new Set(xs)] as the list of its elements in insertion order. *)
Fixpoint dedupe (seen : list string) (xs : list string) : list string :=
  match xs with
  | [] => []
  | x :: r =>
      if existsb (String.eqb x) seen then dedupe seen r
      else x :: dedupe (x :: seen) r
  end.

Definition setOf (xs : list string) : list string := dedupe [] xs.

(** [s.split(/\s+/)]: the pieces between the maximal runs of white
    space.  [cur] is the piece being read. *)
Fixpoint splitFrom (inSpace : bool) (cur : string) (s : string)
  : list string :=
  match s with
  | EmptyString => [cur]
  | String c r =>
      if Str.isSpace c
      then if inSpace then splitFrom true cur r
           else cur :: splitFrom true EmptyString r
      else splitFrom false (cur ++ String c EmptyString)%string r
  end.

Definition split (s : string) : list string := splitFrom false EmptyString s.

Definition calculateStringSimilarity (str1 str2 : string) : JsNum :=
  if String.eqb str1 str2 then Fin 1
  else if (String.length str1 =? 0)%nat || (String.length str2 =? 0)%nat
  then Fin 0
  else
    let words1 := setOf (split str1) in
    let words2 := setOf (split str2) in
    let intersection :=
      setOf (List.filter (fun word => existsb (String.eqb word) words2)
                         words1) in
    let union := setOf (words1 ++ words2) in
    divCount (ofNat (List.length intersection)) (List.length union).

(** The indices of an array or of a string as property keys. *)
Definition indexKeys (n : nat) : list string := List.map showIndex (seq 0 n).

Definition chars (s : string) : list Json :=
  List.map (fun c => JStr (String c EmptyString)) (list_ascii_of_string s).

(** [Object.keys(v)] *)
Definition keys (v : Json) : Except (list string) :=
  match v with
  | JNull =>
      Throw (TypeError "Cannot convert undefined or null to object")
  | JObj fields => Ok (List.map fst fields)
  | JArr items => Ok (indexKeys (List.length items))
  | JStr s => Ok (indexKeys (String.length s))
  | JNum _ | JBool _ => Ok []
  end.

(** The properties [v[key]] can find on [v] itself, each value [x] with a
    datum attached: [f x] for an own property of an object or an element
    of an array, [d0] for a character of a string and for [length].  A key
    that names a member inherited from a prototype ([toString],
    [constructor], ...) is outside the model. *)
Definition props {D} (f : Json -> D) (d0 : D) (v : Json)
  : list (string * (Json * D)) :=
  let lengthOf n := ("length", (JNum (inject_Z (Z.of_nat n)), d0)) in
  match v with
  | JObj fields =>
      List.map (fun kv => (fst kv, (snd kv, f (snd kv)))) fields
  | JArr items =>
      List.combine (indexKeys (List.length items))
                   (List.map (fun x => (x, f x)) items)
      ++ [lengthOf (List.length items)]
  | JStr s =>
      List.combine (indexKeys (String.length s))
                   (List.map (fun x => (x, d0)) (chars s))
      ++ [lengthOf (String.length s)]
  | JNull | JNum _ | JBool _ => []
  end.

Fixpoint find {D} (key : string) (table : list (string * D)) : option D :=
  match table with
  | [] => None
  | (k, d) :: rest => if String.eqb key k then Some d else find key rest
  end.

(** [typeof v === 'object' && v !== null] *)
Definition isObject (v : Json) : bool :=
  match v with
  | JArr _ | JObj _ => true
  | _ => false
  end.

(** [a === b] when at least one side is not an object. *)
Definition strictEquals (a b : Json) : bool :=
  match a, b with
  | JNull, JNull => true
  | JBool x, JBool y => Bool.eqb x y
  | JNum x, JNum y => Qeq_bool x y
  | JStr x, JStr y => String.eqb x y
  | _, _ => false
  end.

(** What one key adds to [matchScore] when [expected[key]] is [ev] and
    [actual[key]] is [av]; [recur] is the recursive call on [ev]. *)
Definition keyScore (ev av : Json) (recur : Json -> Except JsNum)
  : Except JsNum :=
  match ev, av with
  | JArr eitems, JArr aitems =>
      let matchingItems :=
        List.filter
          (fun item => existsb (fun x => sameValueZero (Some item) (Some x))
                               eitems)
          aitems in
      Ok (divCount (ofNat (List.length matchingItems))
                   (Nat.max (List.length eitems) (List.length aitems)))
  | _, _ =>
      if isObject ev && isObject av then recur av
      else if strictEquals ev av then Ok (Fin 1)
      else
        match ev, av with
        | JStr es, JStr as_ =>
            let similarity :=
              calculateStringSimilarity (Str.toLowerCase es)
                                        (Str.toLowerCase as_) in
            Ok (if gt similarity (Fin (7 # 10)) then similarity else Fin 0)
        | _, _ => Ok (Fin 0)
        end
  end.

(** The [for (const key of allKeys)] loop, with [matchScore] and
    [totalKeys] as accumulators. *)
Fixpoint keyLoop (allKeys : list string)
         (expectedProps : list (string * (Json * (Json -> Except JsNum))))
         (actualProps : list (string * (Json * unit)))
         (matchScore : JsNum) (totalKeys : nat) : Except (JsNum * nat) :=
  match allKeys with
  | [] => Ok (matchScore, totalKeys)
  | key :: rest =>
      match find key expectedProps with
      | None => keyLoop rest expectedProps actualProps matchScore totalKeys
      | Some (ev, recur) =>
          let totalKeys := S totalKeys in
          match find key actualProps with
          | None => keyLoop rest expectedProps actualProps matchScore totalKeys
          | Some (av, _) =>
              match keyScore ev av recur with
              | Throw e => Throw e
              | Ok s =>
                  keyLoop rest expectedProps actualProps
                          (add matchScore s) totalKeys
              end
          end
      end
  end.

(** [calculateEntityMatchScore(actual, expected)].  The recursion is on
    [expected]: the table of its properties carries, for each value that
    can be an object, the recursive call on it. *)
Fixpoint matchScoreOn (expected : Json) (actual : Json) {struct expected}
  : Except JsNum :=
  match keys actual with
  | Throw e => Throw e
  | Ok actualKeys =>
      match keys expected with
      | Throw e => Throw e
      | Ok expectedKeys =>
          let allKeys := setOf (actualKeys ++ expectedKeys) in
          let expectedProps :=
            props matchScoreOn (fun _ => Ok (Fin 0)) expected in
          let actualProps := props (fun _ => tt) tt actual in
          match keyLoop allKeys expectedProps actualProps (Fin 0) O with
          | Throw e => Throw e
          | Ok (matchScore, totalKeys) =>
              Ok (if (0 <? totalKeys)%nat
                  then divCount matchScore totalKeys
                  else Fin 0)
          end
      end
  end.

Definition calculateEntityMatchScore (actual expected : Json)
  : Except JsNum :=
  matchScoreOn expected actual.

(** The recursive call stored with a property value returns whenever that
    value and the actual one are both objects. *)
Definition recursionReturns (entry : string * (Json * (Json -> Except JsNum)))
  : Prop :=
  forall av, isObject (fst (snd entry)) = true -> isObject av = true ->
             exists s, snd (snd entry) av = Ok s.

(** The inner loop of [calculateEntityAccuracy]. *)
Fixpoint bestMatch (actual : list Json) (expectedEntity : Json)
         (bestMatchScore : JsNum) : Except JsNum :=
  match actual with
  | [] => Ok bestMatchScore
  | actualEntity :: rest =>
      match calculateEntityMatchScore actualEntity expectedEntity with
      | Throw e => Throw e
      | Ok matchScore =>
          bestMatch rest expectedEntity
                    (if gt matchScore bestMatchScore then matchScore
                     else bestMatchScore)
      end
  end.

(** The outer loop. *)
Fixpoint accumulate (actual expected : list Json) (matchCount : JsNum)
  : Except JsNum :=
  match expected with
  | [] => Ok matchCount
  | expectedEntity :: rest =>
      match bestMatch actual expectedEntity (Fin 0) with
      | Throw e => Throw e
      | Ok bestMatchScore =>
          accumulate actual rest (add matchCount bestMatchScore)
      end
  end.

Definition calculateEntityAccuracy (actual expected : list Json)
  : Except JsNum :=
  if (List.length expected =? 0)%nat
  then Ok (if (List.length actual =? 0)%nat then Fin 1 else Fin 0)
  else if (List.length actual =? 0)%nat then Ok (Fin 0)
  else
    match accumulate actual expected (Fin 0) with
    | Throw e => Throw e
    | Ok matchCount => Ok (divCount matchCount (List.length expected))
    end.

End Matcher.

(* ===================================================================== *)
(** ** The formulas of the specification *)
(* ===================================================================== *)

(** The scores as section 4.3 of the specification words them, to compare
    with what the scorer computes. *)
Module Spec.

Local Open Scope Q_scope.

(** [detailScore = min(15, len(description)/20)], 0 without description. *)
Definition detailScore (description : option string) : Q :=
  match description with
  | Some d => Qmin 15 (inject_Z (Str.len d) / 20)
  | None => 0
  end.

(** [occurrences_of(name, sourceText)]: the places, found from left to
    right without overlap, where the characters of [name] stand in the
    text, letter case apart. *)
Definition occurrences_of (name sourceText : string) : Z :=
  Regex.countAll
    [List.map Scorer.ignoringCase (list_ascii_of_string name)] O sourceText.

(** [mentionScore = min(10, 2 * occurrences)] *)
Definition mentionScore (name sourceText : string) : Q :=
  Qmin 10 (2 * inject_Z (occurrences_of name sourceText)).

(** [roleScore = 10 if len(role) > 10 else 0] *)
Definition roleScore (role : string) : Q :=
  if (10 <? Str.len role)%Z then 10 else 0.

(** Per-agent confidence: baseline 70 plus the three scores, rounded,
    capped at 100. *)
Definition agentConfidence (name role : string)
           (description : option string) (sourceText : string) : Z :=
  Z.min 100 (Num.round (70 + detailScore description
                        + mentionScore name sourceText + roleScore role)).

Definition mean (xs : list Z) : Q :=
  inject_Z (fold_right Z.add 0%Z xs) / inject_Z (Z.of_nat (List.length xs)).

(** [agentTermContribution] *)
Definition agentTerm (agentConfidences : list Z) : Q :=
  match agentConfidences with
  | [] => - (15)
  | _ => Qmin 10 (mean agentConfidences / 10)
  end.

(** System-level overall: [round(clamp(65 + ..., max = 95))]. *)
Definition overall (agentConfidences : list Z) (hasTools hasRelationships : bool)
           (sourceText : string) : Z :=
  Num.round
    (Qmin 95 (65 + Qmin 10 (inject_Z (Str.len sourceText) / 200)
              + agentTerm agentConfidences
              + (if hasTools then 5 else 0)
              + (if hasRelationships then 10 else 0))).

(** Section 4.1: the whole trimmed text when it starts with [{] and ends
    with [}]; else the inside of a fenced block; else the span from the
    first [{] to the last [}]. *)
Definition selectJsonText (rawText : string) : Except string :=
  if Str.startsWith (Str.trim rawText) "{"
     && Str.endsWithChar (Str.trim rawText) "}"
  then Ok (Str.trim rawText)
  else
    match Extract.codeBlockMatch rawText with
    | Some (String c g) => Ok (Str.trim (String c g))
    | _ =>
        match Extract.greedyMatch rawText with
        | Some m => Ok m
        | None => Throw (PlainError "NoJsonFound")
        end
    end.


(** Section 4.5.  The larger of two scores; a score that is not a number
    (the overlap of two empty arrays) is larger than nothing. *)
Definition larger (a b : Num.JsNum) : Num.JsNum :=
  if Num.gt a b then a else b.

(** The maximum of the match scores of one expected entity; no score is
    below 0. *)
Definition maxScore (scores : list Num.JsNum) : Num.JsNum :=
  fold_right larger (Num.Fin 0) scores.

Definition total (xs : list Num.JsNum) : Num.JsNum :=
  fold_right Num.add (Num.Fin 0) xs.

(** The best match of every expected entity, each found on its own among
    all the actual entities. *)
Definition bestMatches (actual expected : list Js.Json)
  : Except (list Num.JsNum) :=
  mapM (fun expectedEntity =>
          match mapM (fun actualEntity =>
                        Matcher.calculateEntityMatchScore actualEntity
                                                          expectedEntity)
                     actual with
          | Ok scores => Ok (maxScore scores)
          | Throw e => Throw e
          end)
       expected.

(** [accuracy(actual, expected)] *)
Definition accuracy (actual expected : list Js.Json) : Except Num.JsNum :=
  match expected, actual with
  | [], [] => Ok (Num.Fin 1)
  | [], _ :: _ => Ok (Num.Fin 0)
  | _ :: _, [] => Ok (Num.Fin 0)
  | _ :: _, _ :: _ =>
      match bestMatches actual expected with
      | Ok bests => Ok (Num.divCount (total bests) (List.length expected))
      | Throw e => Throw e
      end
  end.

End Spec.

(* ===================================================================== *)
(** ** Sample inputs *)
(* ===================================================================== *)

Module Samples.

(** An operation that counts its invocations in the world state, fails twice
    with "rate limit exceeded" and then resolves to 42. *)
Definition flaky (calls : nat) : (Z + string) * nat :=
  if (calls <? 2)%nat then (inr "rate limit exceeded", S calls)
  else (inl 42, S calls).

(** An operation that always fails with "permission denied". *)
Definition denied (calls : nat) : (Z + string) * nat :=
  (inr "permission denied", S calls).

(** The double quote, and a string between two of them. *)
Definition dq : string := String (ascii_of_nat 34) EmptyString.

Definition quoted (s : string) : string := (dq ++ s ++ dq)%string.

(** A diagram with one node, written without a code fence and with a
    sentence before and after it. *)
Definition wholeObject : string :=
  ("{" ++ quoted "nodes" ++ ":[{" ++ quoted "id" ++ ":" ++ quoted "a"
       ++ "}]," ++ quoted "edges" ++ ":[]}")%string.

Definition nestedReply : string :=
  ("Here is the diagram: " ++ wholeObject ++ " Hope this helps.")%string.

(** The same object cut after its first closing brace. *)
Definition truncatedObject : string :=
  ("{" ++ quoted "nodes" ++ ":[{" ++ quoted "id" ++ ":" ++ quoted "a"
       ++ "}")%string.

(** What [wholeObject] parses to. *)
Definition wholeValue : Js.Json :=
  Js.JObj [("nodes", Js.JArr [Js.JObj [("id", Js.JStr "a")]]);
           ("edges", Js.JArr [])].




(** A parser that accepts nothing. *)
Definition rejectAll (s : string) : Except Js.Json :=
  Throw (SyntaxError "Unexpected end of JSON input").

(** The parsed scenario of the specification:
    vertices [{id: n1, name: X}], links [{from: n1, to: n2}]. *)
Definition verticesLinks : Js.Json :=
  Js.JObj
    [("vertices",
      Js.JArr [Js.JObj [("id", Js.JStr "n1"); ("name", Js.JStr "X")]]);
     ("links",
      Js.JArr [Js.JObj [("from", Js.JStr "n1"); ("to", Js.JStr "n2")]])].

(** The text of that scenario. *)
Definition verticesLinksText : string :=
  ("{" ++ quoted "vertices" ++ ":[{" ++ quoted "id" ++ ":" ++ quoted "n1"
       ++ "," ++ quoted "name" ++ ":" ++ quoted "X" ++ "}],"
       ++ quoted "links" ++ ":[{" ++ quoted "from" ++ ":" ++ quoted "n1"
       ++ "," ++ quoted "to" ++ ":" ++ quoted "n2" ++ "}]}")%string.

(** A parser that knows one text and its value. *)
Definition parserFor (text : string) (v : Js.Json) (s : string)
  : Except Js.Json :=
  if String.eqb s text then Ok v
  else Throw (SyntaxError "Unexpected token").

Definition oneAgent : list Js.Json :=
  [Js.JObj [("id", Js.JStr "a1"); ("name", Js.JStr "Planner");
            ("description", Js.JStr "plans")]].

(** Two extractions of the same agents, the second with other words and
    one tool fewer. *)
Definition expectedEntities : list Js.Json :=
  [Js.JObj [("name", Js.JStr "Task Manager agent");
            ("tools", Js.JArr [Js.JStr "x"; Js.JStr "y"])];
   Js.JObj [("name", Js.JStr "Reviewer")]].

Definition actualEntities : list Js.Json :=
  [Js.JObj [("name", Js.JStr "task manager Agent");
            ("tools", Js.JArr [Js.JStr "y"]);
            ("extra", Js.JNull)];
   Js.JObj [("name", Js.JStr "Reviewer"); ("tools", Js.JArr [])]].

(** An entity whose tool list is empty. *)
Definition idle : Js.Json :=
  Js.JObj [("name", Js.JStr "A"); ("tools", Js.JArr [])].



Definition description : string := "The planner does planning. PLANNER!".

(** The same with an agent the model gave no name. *)
Definition nameless : Scorer.Components :=
  {| Scorer.agents :=
       Some [{| Scorer.agent_name := None;
                Scorer.agent_role := Some "plans the work";
                Scorer.agent_description := None |}];
     Scorer.tools := Some [];
     Scorer.relationships := Some [];
     Scorer.orchestrationPattern := None |}.

End Samples.

(* ===================================================================== *)
(** ** Error messages and counts *)
(* ===================================================================== *)

(** [error.message] *)
Definition errorMessage (e : JsError) : string :=
  match e with
  | TypeError msg | SyntaxError msg | PlainError msg => msg
  end.

Module Lists.

(** [xs.length] as a number. *)
Definition count {A} (xs : list A) : Q := Num.ofZ (Z.of_nat (List.length xs)).

End Lists.

(* ===================================================================== *)
(** ** Tool-selection scorer: [calculateToolSelectionConfidenceScores] *)
(* ===================================================================== *)

Module ToolScorer.

Local Open Scope Q_scope.

(** The entities of the refined design with the fields the scorer reads,
    typed as the prompt of [processToolSelections] asks for them: strings
    and arrays of strings.  A field the model left out is [None]. *)
Record Agent := {
  agent_name : option string;
  agent_description : option string;
  agent_capabilities : option (list string);
  agent_tools : option (list string)
}.

Record Tool := {
  tool_name : option string;
  tool_description : option string;
  tool_parameters : Js.Value
}.

Record Relationship := {
  rel_type : option string;
  rel_source : option string;
  rel_target : option string;
  rel_description : option string
}.

Record Design := {
  agents : option (list Agent);
  tools : option (list Tool);
  relationships : option (list Relationship)
}.

(** An object used as a map from property names to numbers: its own
    properties, oldest first. *)
Definition Scores : Type := list (string * Z).

Record ConfidenceScores := {
  overall : Z;
  agentScores : Scores;
  orchestration : Z;
  toolIntegration : Z
}.

(** [s && s.length > n] *)
Definition longerThan (n : Z) (s : option string) : bool :=
  match s with
  | Some x => Scorer.truthy (Some x) && (n <? Str.len x)%Z
  | None => false
  end.

(** [toolSelections.includes(tool)] *)
Definition includes (toolSelections : list string) (tool : string) : bool :=
  existsb (String.eqb tool) toolSelections.

Definition calculateToolSelectionAgentConfidence
           (agent : Agent) (toolSelections : list string) : Z :=
  let score := 0%Z in
  let score :=
    if longerThan 0 (agent_name agent) then (score + 15)%Z else score in
  let score :=
    if longerThan 20 (agent_description agent) then (score + 20)%Z
    else score in
  let score :=
    if Scorer.nonEmpty (agent_capabilities agent) then (score + 20)%Z
    else score in
  let score :=
    match agent_tools agent with
    | Some ((_ :: _) as agentTools) =>
        let toolCompatibility :=
          Lists.count (List.filter (includes toolSelections) agentTools)
          / Lists.count agentTools in
        (score + Num.round (toolCompatibility * 30))%Z
    | _ => score
    end in
  Z.min 100 score.

Definition calculateToolSelectionToolConfidence (tool : Tool) : Z :=
  let score := 50%Z in
  let score :=
    if longerThan 0 (tool_name tool) then (score + 10)%Z else score in
  let score :=
    if longerThan 20 (tool_description tool) then (score + 20)%Z
    else score in
  let score :=
    if Js.truthy (tool_parameters tool)
       && Scorer.isSome (Js.asArray (tool_parameters tool))
    then (score + 20)%Z else score in
  Z.min 100 score.

Definition calculateToolSelectionRelationshipConfidence
           (relationship : Relationship) : Z :=
  let score := 50%Z in
  let score :=
    if longerThan 0 (rel_type relationship) then (score + 15)%Z else score in
  let score :=
    if Scorer.truthy (rel_source relationship)
       && Scorer.truthy (rel_target relationship)
    then (score + 15)%Z else score in
  let score :=
    if longerThan 10 (rel_description relationship) then (score + 20)%Z
    else score in
  Z.min 100 score.

(** [scores.reduce((sum, score) => sum + score, 0) / scores.length] *)
Definition average (scores : list Z) : Q :=
  Num.sum (List.map Num.ofZ scores) / Lists.count scores.

Definition calculateToolSelectionOverallConfidence
           (design : Design) (toolSelections : list string) : Z :=
  let score : Q := 0 in
  let score :=
    match agents design with
    | Some ((_ :: _) as ags) =>
        let agentScores :=
          List.map (fun agent =>
                      calculateToolSelectionAgentConfidence agent
                                                            toolSelections)
                   ags in
        let avgAgentScore := average agentScores in
        score + avgAgentScore * (4 # 10)
    | _ => score
    end in
  let score :=
    match tools design with
    | Some ((_ :: _) as tls) =>
        let toolScores :=
          List.map calculateToolSelectionToolConfidence tls in
        let avgToolScore := average toolScores in
        score + avgToolScore * (3 # 10)
    | _ => score
    end in
  let score :=
    match relationships design with
    | Some ((_ :: _) as rels) =>
        let relScores :=
          List.map calculateToolSelectionRelationshipConfidence rels in
        let avgRelScore := average relScores in
        score + avgRelScore * (3 # 10)
    | _ => score
    end in
  Z.min 95 (Num.round score).

(** The key [agent.name] names in [scores[agent.name]]: a missing name
    reads as the string of [undefined]. *)
Definition propertyKey (name : option string) : string :=
  match name with
  | Some s => s
  | None => "undefined"
  end.

(** An own property [key] with the value [value]: an existing one takes
    the new value, a new one is added. *)
Fixpoint defineProperty (key : string) (value : Z) (scores : Scores)
  : Scores :=
  match scores with
  | [] => [(key, value)]
  | (k, v) :: rest =>
      if String.eqb key k then (k, value) :: rest
      else (k, v) :: defineProperty key value rest
  end.

(** [scores[key] = value] on an object that started as [{}].  The key
    [__proto__] is the accessor of [Object.prototype]: its setter ignores
    a number, and nothing is stored. *)
Definition setProperty (key : string) (value : Z) (scores : Scores)
  : Scores :=
  if String.eqb key "__proto__" then scores
  else defineProperty key value scores.

(** The own property [scores[key]], if there is one. *)
Fixpoint getProperty (key : string) (scores : Scores) : option Z :=
  match scores with
  | [] => None
  | (k, v) :: rest =>
      if String.eqb key k then Some v else getProperty key rest
  end.

(** [if (xs) { xs.forEach(f) }] for a callback that updates [acc]. *)
Definition forEachIfPresent {A S} (f : S -> A -> S) (xs : option (list A))
           (acc : S) : S :=
  match xs with
  | Some l => List.fold_left f l acc
  | None => acc
  end.

Definition calculateToolSelectionConfidenceScores
           (design : Design) (toolSelections : list string)
  : ConfidenceScores :=
  let agentScores :=
    forEachIfPresent
      (fun scores agent =>
         setProperty (propertyKey (agent_name agent))
                     (calculateToolSelectionAgentConfidence agent
                                                            toolSelections)
                     scores)
      (agents design) [] in
  let toolIntegration :=
    forEachIfPresent
      (fun total tool =>
         (total + calculateToolSelectionToolConfidence tool)%Z)
      (tools design) 0%Z in
  let orchestration :=
    forEachIfPresent
      (fun total rel =>
         (total + calculateToolSelectionRelationshipConfidence rel)%Z)
      (relationships design) 0%Z in
  {| overall := calculateToolSelectionOverallConfidence design toolSelections;
     agentScores := agentScores;
     orchestration := orchestration;
     toolIntegration := toolIntegration |}.

(** The last agent of the list filed under [key]. *)
Definition lastNamed (key : string) (ags : list Agent) : option Agent :=
  List.find (fun a => String.eqb key (propertyKey (agent_name a)))
            (List.rev ags).

(** The agent whose score is the own property [key] of
    [confidenceScores.agents]: none under [__proto__]. *)
Definition lastStored (key : string) (ags : list Agent) : option Agent :=
  if String.eqb key "__proto__" then None else lastNamed key ags.

(** [xs.length] for a list that may be absent: none has no element. *)
Definition size {A} (xs : option (list A)) : Z :=
  match xs with
  | Some l => Z.of_nat (List.length l)
  | None => 0%Z
  end.

End ToolScorer.

(* ===================================================================== *)
(** ** Reply handling of the other model calls *)
(* ===================================================================== *)

Module Replies.

Import Js.
Import Regex.

(** The line feed, [\n]. *)
Definition LF : string := String "010"%char EmptyString.

(** The number of parentheses of an expression. *)
Fixpoint countMarks (items : list item) : nat :=
  match items with
  | [] => O
  | Mark :: rest => S (countMarks rest)
  | _ :: rest => countMarks rest
  end.

(** *** [generateDiagram]: the Mermaid code of a reply *)

(** [/```mermaid\n([\s\S]*?)\n```/] *)
Definition mermaidFenceRegex : list item :=
  [Lit "```mermaid"; Lit LF; Mark; Star false any; Mark; Lit LF; Lit "```"].

(** [/```\n([\s\S]*?)\n```/] *)
Definition lineFenceRegex : list item :=
  [Lit "```"; Lit LF; Mark; Star false any; Mark; Lit LF; Lit "```"].

(** The directions of [(TD|LR|RL|BT)]. *)
Definition directions : list string := ["TD"; "LR"; "RL"; "BT"].

(** [/graph (TD|LR|RL|BT)[\s\S]*/]: one alternative for each direction,
    the text around the group repeated in each. *)
Definition graphRegex : list (list item) :=
  List.map (fun d => [Lit "graph "; Lit d; Star true any]) directions.

(** [m[1].trim()] for a match [m]; a match without a first group would
    make the read of [trim] throw. *)
Definition trimmedGroup (m : result) : Except string :=
  match group1 (Some m) with
  | Some g => Ok (Str.trim g)
  | None =>
      Throw (TypeError "Cannot read properties of undefined (reading 'trim')")
  end.

(** Lines 1024-1055: from the text of the reply to [diagramCode]. *)
Definition extractDiagramCode (text : string) : Except string :=
  let mermaidMatch :=
    orElse (search [mermaidFenceRegex] text)
           (fun _ => search [lineFenceRegex] text) in
  match mermaidMatch with
  | Some m => trimmedGroup m
  | None =>
      match matched (search graphRegex text) with
      | Some whole => Ok (Str.trim whole)
      | None =>
          if Str.includes text "->"
             && (Str.includes text "graph" || Str.includes text "flowchart")
          then Ok (Str.trim text)
          else Throw (PlainError
                        "Could not extract Mermaid diagram from response")
      end
  end.

(** [generateDiagram] from the outcome of the model call on: every
    exception leaves as a new [Error] with a prefixed message. *)
Definition generateDiagram (reply : Except string) : Except string :=
  try_catch
    (match reply with
     | Ok text => extractDiagramCode text
     | Throw e => Throw e
     end)
    (fun error =>
       Throw (PlainError ("Failed to generate diagram: "
                          ++ errorMessage error))).

(** *** [processToolSelections]: the refined design of a reply *)

(** [/```json\n([\s\S]*?)\n```/] *)
Definition jsonLineFenceRegex : list item :=
  [Lit "```json"; Lit LF; Mark; Star false any; Mark; Lit LF; Lit "```"].

(** [text.match(a) || text.match(b) || text.match(c)] of lines 938-940. *)
Definition jsonMatch (text : string) : option result :=
  orElse (search [jsonLineFenceRegex] text)
         (fun _ => orElse (search [lineFenceRegex] text)
                          (fun _ => search [Extract.greedyJsonRegex] text)).

(** The argument of [JSON.parse] as a string: [undefined] reads as its
    name. *)
Definition parseArgument (s : option string) : string :=
  match s with
  | Some x => x
  | None => "undefined"
  end.

(** [jsonMatch[0].startsWith('{') ? jsonMatch[0] : jsonMatch[1]] *)
Definition jsonStr (m : result) : string :=
  if Str.startsWith (fst m) "{" then fst m
  else parseArgument (group1 (Some m)).

(** The errors of lines 956-964. *)
Definition noJsonFound : JsError :=
  PlainError "No JSON found in the response".

Definition noValidJson : JsError :=
  PlainError "Failed to extract valid JSON from response".

(** The error of the callbacks of [generateInitialAnalysis] and
    [refineAgentDesign]. *)
Definition invalidFormat : JsError :=
  PlainError "Invalid response format from AI model".

(** The error of the fallback of [generateSystemDiagram]. *)
Definition fallbackFailed : JsError :=
  PlainError
    "Invalid diagram format from AI model and failed to create fallback.".

(** The diagram without nodes. *)
Definition emptyDiagram : Diagram.DiagramData :=
  {| Diagram.nodes := []; Diagram.edges := [];
     Diagram.layout := Js.str "dagre"; Diagram.groups := None |}.

Section Parsing.

Variable JSON_parse : string -> Except Json.

(** Lines 937-965, with the strings given to [JSON.parse], in order. *)
Definition refinedDesignFromText (text : string)
  : Except Json * list string :=
  match jsonMatch text with
  | Some m =>
      match JSON_parse (jsonStr m) with
      | Ok refinedDesign => (Ok refinedDesign, [jsonStr m])
      | Throw _ =>
          match Extract.greedyMatch text with
          | Some full =>
              (try_catch (JSON_parse full) (fun _ => Throw noValidJson),
               [jsonStr m; full])
          | None =>
              (try_catch
                 (Throw (PlainError
                           "Could not extract valid JSON from response"))
                 (fun _ => Throw noValidJson),
               [jsonStr m])
          end
      end
  | None => (Throw noJsonFound, [])
  end.

(** *** [generateInitialAnalysis]: the analysis of a reply *)

(** [/```(?:json)?\s*({[\s\S]*?})\s*```/] *)
Definition fencedObjectRegex : list item :=
  [Lit "```"; Opt "json"; Star true Str.isSpace;
   Mark; Lit "{"; Star false any; Lit "}"; Mark;
   Star true Str.isSpace; Lit "```"].

(** Lines 1249-1257: the choice of [jsonText]. *)
Definition analysisJsonText (text : string) : string :=
  match group1 (search [fencedObjectRegex] text) with
  | Some g => if Extract.nonEmpty g then g else text
  | None => text
  end.

(** The callback handed to [withRetry], from the text of the reply on. *)
Definition analysisFromText (text : string) : Except Json :=
  try_catch
    (JSON_parse (analysisJsonText text))
    (fun _ => Throw invalidFormat).

(** *** [refineAgentDesign]: the agents of a reply *)

(** A code block with a language tag: [/```tag\s*([\s\S]*?)\s*```/]. *)
Definition taggedFenceRegex (tag : string) : list item :=
  [Lit ("```" ++ tag); Star true Str.isSpace;
   Mark; Star false any; Mark;
   Star true Str.isSpace; Lit "```"].

(** [/`([\s\S]*?)`/] *)
Definition inlineCodeRegex : list item :=
  [Lit "`"; Mark; Star false any; Mark; Lit "`"].

Definition codeBlockPatterns : list (list item) :=
  [taggedFenceRegex "json";
   taggedFenceRegex "javascript";
   taggedFenceRegex "js";
   taggedFenceRegex "";
   inlineCodeRegex].

(** The loop over [codeBlockPatterns]: the first expression that matches
    with a first group that is not empty decides. *)
Fixpoint fromCodeBlock (patterns : list (list item)) (text : string)
  : option string :=
  match patterns with
  | [] => None
  | pattern :: rest =>
      match group1 (search [pattern] text) with
      | Some g =>
          if Extract.nonEmpty g then Some (Str.trim g)
          else fromCodeBlock rest text
      | None => fromCodeBlock rest text
      end
  end.

(** [/(\[[\s\S]*\]|\{[\s\S]*\})/] *)
Definition jsonPattern : list (list item) :=
  [[Mark; Lit "["; Star true any; Lit "]"; Mark];
   [Mark; Lit "{"; Star true any; Lit "}"; Mark]].

(** Lines 1308-1341: the choice of [jsonText]. *)
Definition agentsJsonText (text : string) : string :=
  let jsonText :=
    match fromCodeBlock codeBlockPatterns text with
    | Some t => t
    | None => text
    end in
  if String.eqb jsonText text
  then match group1 (search jsonPattern text) with
       | Some g => if Extract.nonEmpty g then Str.trim g else jsonText
       | None => jsonText
       end
  else jsonText.

(** Lines 1346-1359: an array as it is, the [agents] array of an object,
    or the object alone in an array. *)
Definition agentsOf (jsonResponse : Json) : Except (list Json) :=
  match jsonResponse with
  | JArr items => Ok items
  | JObj fields =>
      match asArray (lookup "agents" fields) with
      | Some items => Ok items
      | None => Ok [jsonResponse]
      end
  | _ => Throw (PlainError "Invalid response structure from AI model")
  end.

(** The callback handed to [withRetry], from the text of the reply on. *)
Definition agentsFromText (text : string) : Except (list Json) :=
  try_catch
    (bind (JSON_parse (agentsJsonText text)) agentsOf)
    (fun _ => Throw invalidFormat).

(** *** The calls under [withRetry] *)

(** One call of the model: the text of the reply, or what the call
    rejects with; [W] is the state of the service. *)
Variable W : Type.
Variable generateContent : W -> Except string * W.

(** [async () => { text = ...generateContent(prompt)...; handle(text) }] *)
Definition callback {A} (handle : string -> Except A) (w : W)
  : (A + JsError) * W :=
  match generateContent w with
  | (Ok text, w') =>
      match handle text with
      | Ok a => (inl a, w')
      | Throw e => (inr e, w')
      end
  | (Throw e, w') => (inr e, w')
  end.

Definition generateInitialAnalysis (w : W) :=
  Retry.withRetry errorMessage (callback analysisFromText) w.

Definition refineAgentDesign (w : W) :=
  Retry.withRetry errorMessage (callback agentsFromText) w.

Definition generateSystemDiagram (agents : list Json) (w : W) :=
  Retry.withRetry errorMessage
                  (callback (Diagram.diagramFromText JSON_parse agents)) w.

End Parsing.

End Replies.

(* ===================================================================== *)
(** ** What a score can be *)
(* ===================================================================== *)

Module Score.

Import Num.
Local Open Scope Q_scope.

(** A number between 0 and [hi]. *)
Definition within (hi : Q) (a : JsNum) : Prop :=
  exists q, a = Fin q /\ 0 <= q <= hi.

(** A score: a number between 0 and 1. *)
Definition unit (a : JsNum) : Prop := within 1 a.

(** What a match score can be: a score, or [NaN]. *)
Definition unitOrNaN (a : JsNum) : Prop := a = NaN \/ unit a.

(** The accumulators of the key loop: the sum of the scores of at most
    [totalKeys] keys. *)
Definition partialSum (matchScore : JsNum) (totalKeys : nat) : Prop :=
  matchScore = NaN \/ within (inject_Z (Z.of_nat totalKeys)) matchScore.

(** The recursive call stored with a property value yields a score. *)
Definition recursionScores
           (entry : string * (Js.Json * (Js.Json -> Except JsNum))) : Prop :=
  forall av s, snd (snd entry) av = Ok s -> unitOrNaN s.

(** A value that is neither an array nor an object. *)
Definition primitive (v : Js.Json) : Prop := Matcher.isObject v = false.

End Score.

(* ===================================================================== *)
(** ** Prompt testing: [PromptTestingService] *)
(* ===================================================================== *)

Module Testing.

Import Js.
Import Num.
Local Open Scope Q_scope.

(** *** Test case files *)


(** [s.replace(pattern, replacement)] for a pattern that is a string: the
    first occurrence is replaced.  (The replacement is taken as it is;
    the source passes the empty string.) *)
Fixpoint replace (s pattern replacement : string) : string :=
  match Regex.dropPrefix pattern s with
  | Some rest => (replacement ++ rest)%string
  | None =>
      match s with
      | EmptyString => EmptyString
      | String c r => String c (replace r pattern replacement)
      end
  end.



(** *** The metrics of one run *)

Record Metrics := {
  processingTime : JsNum;
  overallConfidence : JsNum;
  completeness : JsNum;
  consistency : JsNum;
  clarity : JsNum;
  agentCount : JsNum;
  toolCount : JsNum;
  relationshipCount : JsNum
}.

(** *** A batch of runs *)

(** What [runTestCase] resolves to: [R] is the type of the analysis. *)
Record TestCaseResult (R : Type) := {
  testCase : string;
  result : R;
  metrics : Metrics;
  timestamp : string
}.

Record ErrorResult := {
  message : string
}.

Record BatchMetrics := {
  averageConfidence : JsNum;
  averageProcessingTime : JsNum;
  successRate : JsNum;
  totalAgents : JsNum;
  totalTools : JsNum;
  totalRelationships : JsNum
}.

Record BatchResult (R : Type) := {
  testCases : list string;
  batchMetrics : BatchMetrics;
  individualResults : list (TestCaseResult R)
}.

Definition initialMetrics : BatchMetrics :=
  {| averageConfidence := Fin 0; averageProcessingTime := Fin 0;
     successRate := Fin 0; totalAgents := Fin 0; totalTools := Fin 0;
     totalRelationships := Fin 0 |}.

Section Batch.

(** [runTestCase] reads the test case, calls the model and writes the
    result: [W] is the state of all that.  It settles with a result or
    with an error result. *)
Variables R W : Type.
Variable runTestCase : string -> W -> (TestCaseResult R + ErrorResult) * W.

(** The [for] loop of [runBatchTests]. *)
Fixpoint batchLoop (testCaseNames : list string) (w : W)
         (results : list (TestCaseResult R)) (m : BatchMetrics)
         (successCount : nat)
  : list (TestCaseResult R) * BatchMetrics * nat * W :=
  match testCaseNames with
  | [] => (results, m, successCount, w)
  | name :: rest =>
      match runTestCase name w with
      | (inl result, w') =>
          batchLoop rest w' (results ++ [result])
            {| averageConfidence :=
                 Binary64.add (averageConfidence m)
                              (overallConfidence (metrics result));
               averageProcessingTime :=
                 Binary64.add (averageProcessingTime m)
                              (processingTime (metrics result));
               successRate := successRate m;
               totalAgents :=
                 Binary64.add (totalAgents m) (agentCount (metrics result));
               totalTools :=
                 Binary64.add (totalTools m) (toolCount (metrics result));
               totalRelationships :=
                 Binary64.add (totalRelationships m)
                              (relationshipCount (metrics result)) |}
            (S successCount)
      | (inr _, w') => batchLoop rest w' results m successCount
      end
  end.

(** [runBatchTests] up to the value it saves and returns (the time
    stamp apart). *)
Definition runBatchTests (testCaseNames : list string) (w : W)
  : BatchResult R * W :=
  let '(results, m, successCount, w') :=
    batchLoop testCaseNames w [] initialMetrics O in
  let testCount := List.length results in
  let m :=
    if (0 <? testCount)%nat
    then {| averageConfidence :=
              Binary64.divCount (averageConfidence m) testCount;
            averageProcessingTime :=
              Binary64.divCount (averageProcessingTime m) testCount;
            successRate :=
              Binary64.times 100
                (Binary64.divCount (ofNat successCount)
                                   (List.length testCaseNames));
            totalAgents := totalAgents m;
            totalTools := totalTools m;
            totalRelationships := totalRelationships m |}
    else m in
  ({| testCases := testCaseNames; batchMetrics := m;
      individualResults := results |}, w').

(** One metric of the results of a batch, added up from 0 in the order
    of the results. *)
Definition total (f : Metrics -> JsNum) (results : list (TestCaseResult R))
  : JsNum :=
  Binary64.sum (List.map (fun r => f (metrics r)) results).

(** The running totals of the loop are the sums over the results kept so
    far, and one result is kept for every success counted. *)
Definition summed (results : list (TestCaseResult R)) (m : BatchMetrics)
           (successCount : nat) : Prop :=
  successCount = List.length results
  /\ m = {| averageConfidence := total overallConfidence results;
            averageProcessingTime := total processingTime results;
            successRate := Fin 0;
            totalAgents := total agentCount results;
            totalTools := total toolCount results;
            totalRelationships := total relationshipCount results |}.

(** No metric of the run that a batch adds up is NaN or below 0. *)
Definition countsUp (r : TestCaseResult R) : Prop :=
  Binary64.le (Fin 0) (overallConfidence (metrics r))
  /\ Binary64.le (Fin 0) (processingTime (metrics r))
  /\ Binary64.le (Fin 0) (agentCount (metrics r))
  /\ Binary64.le (Fin 0) (toolCount (metrics r))
  /\ Binary64.le (Fin 0) (relationshipCount (metrics r)).

End Batch.

(** No metric of the batch is NaN or below 0. *)
Definition nonNegative (m : BatchMetrics) : Prop :=
  Binary64.le (Fin 0) (averageConfidence m)
  /\ Binary64.le (Fin 0) (averageProcessingTime m)
  /\ Binary64.le (Fin 0) (successRate m)
  /\ Binary64.le (Fin 0) (totalAgents m)
  /\ Binary64.le (Fin 0) (totalTools m)
  /\ Binary64.le (Fin 0) (totalRelationships m).

(** *** The accuracy of an extraction *)

(** What [evaluateExtraction] reads of the two sides: the three entity
    lists, each an array or absent, and [orchestrationPattern]. *)
Record Extraction := {
  agents : option (list Json);
  tools : option (list Json);
  relationships : option (list Json);
  orchestrationPattern : Value
}.

Record Accuracy := {
  agentsAccuracy : JsNum;
  toolsAccuracy : JsNum;
  relationshipsAccuracy : JsNum;
  orchestrationPatternAccuracy : JsNum
}.

(** [xs || []] *)
Definition orEmpty (xs : option (list Json)) : list Json :=
  match xs with
  | Some l => l
  | None => []
  end.

(** [p?.type] *)
Definition optionalType (p : Value) : Except Value :=
  match p with
  | None | Some JNull => Ok None
  | Some v => get v "type"
  end.

(** [a === b] on what two property reads gave. *)
Definition strictEqualsValue (a b : Value) : bool :=
  match a, b with
  | None, None => true
  | Some x, Some y => Matcher.strictEquals x y
  | _, _ => false
  end.

Local Open Scope except_scope.

(** The [accuracy] object of [evaluateExtraction]. *)
Definition accuracyOf (actual expectedValues : Extraction) : Except Accuracy :=
  a <- Matcher.calculateEntityAccuracy (orEmpty (agents actual))
                                       (orEmpty (agents expectedValues)) ;;
  t <- Matcher.calculateEntityAccuracy (orEmpty (tools actual))
                                       (orEmpty (tools expectedValues)) ;;
  r <- Matcher.calculateEntityAccuracy
         (orEmpty (relationships actual))
         (orEmpty (relationships expectedValues)) ;;
  actualType <- optionalType (orchestrationPattern actual) ;;
  expectedType <- optionalType (orchestrationPattern expectedValues) ;;
  Ok {| agentsAccuracy := a; toolsAccuracy := t; relationshipsAccuracy := r;
        orchestrationPatternAccuracy :=
          if strictEqualsValue actualType expectedType then Fin 1
          else Fin 0 |}.

(** [Object.values(accuracy).reduce((sum, val) => sum + val, 0)
     / accuracyValues.length] *)
Definition overallAccuracy (accuracy : Accuracy) : JsNum :=
  let accuracyValues :=
    [agentsAccuracy accuracy; toolsAccuracy accuracy;
     relationshipsAccuracy accuracy; orchestrationPatternAccuracy accuracy] in
  divCount (List.fold_left add accuracyValues (Fin 0))
           (List.length accuracyValues).

(** Every entity of the extraction is an object or a value, not
    [null]. *)
Definition entitiesNonNull (e : Extraction) : Prop :=
  Forall nonNull (orEmpty (agents e))
  /\ Forall nonNull (orEmpty (tools e))
  /\ Forall nonNull (orEmpty (relationships e)).

End Testing.

(* ===================================================================== *)
(** ** Code blocks in a reply *)
(* ===================================================================== *)

Module Fences.

(** White space only. *)
Fixpoint allSpace (s : string) : bool :=
  match s with
  | EmptyString => true
  | String c r => Str.isSpace c && allSpace r
  end.

(** A text that begins and ends with a character that is not white
    space. *)
Definition tight (s : string) : bool :=
  match s with
  | String c _ => negb (Str.isSpace c)
  | EmptyString => false
  end
  && match Str.last s with
     | Some d => negb (Str.isSpace d)
     | None => false
     end.

(** A payload in a code block tagged json, with white space around it
    inside the block. *)
Definition fenced (ws1 body ws2 : string) : string :=
  ("```json" ++ ws1 ++ body ++ ws2 ++ "```")%string.

End Fences.

(* ===================================================================== *)
(** ** Property names *)
(* ===================================================================== *)

Module Keys.

(** The names a plain object inherits from [Object.prototype]: a read of
    one of them finds a value on every object. *)
Definition inheritedNames : list string :=
  ["constructor"; "hasOwnProperty"; "isPrototypeOf"; "propertyIsEnumerable";
   "toLocaleString"; "toString"; "valueOf"; "__proto__";
   "__defineGetter__"; "__defineSetter__"; "__lookupGetter__";
   "__lookupSetter__"].

Definition inherited (k : string) : bool :=
  existsb (String.eqb k) inheritedNames.

(** [x !== k] *)
Definition other (k x : string) : bool := negb (String.eqb x k).

End Keys.

(* ===================================================================== *)
(** ** The synthesis controller *)
(* ===================================================================== *)

Module Controller.

Import Js Retry.

(** What [res.status(n).json(body)] sends: [{status: 'success', data}] or
    [{status: 'error', message, errorCode}]. *)
Inductive Body (A : Type) : Type :=
| Data (data : A)
| Message (message : string) (errorCode : option string).

Arguments Message {A} message errorCode.

Definition Response (A : Type) : Type := (Z * Body A)%type.

(** [error.message || fallback] *)
Definition messageOr (e : JsError) (fallback : string) : string :=
  if Extract.nonEmpty (errorMessage e) then errorMessage e else fallback.

(** The [data] of the tool selection endpoint. *)
Record RefinedAgents := {
  agents : list Json;
  orchestrationType : Value
}.

Section Endpoints.

Variable JSON_parse : string -> Except Json.
Variable W : Type.
Variable generateContent : W -> Except string * W.

(** The [catch] of [processToolSelections]. *)
Definition toolSelectionsFailure (e : JsError) : Response RefinedAgents :=
  if Str.includes (errorMessage e) "Failed to extract"
  then (500, Message "Failed to process the AI response. Please try again."
                     None)
  else (500, Message
               (messageOr e
                  "An error occurred while processing tool selections")
               None).

(** [v.k] for a value that may be [undefined]. *)
Definition read (v : Value) (k : string) : Except Value :=
  match v with
  | Some x => get x k
  | None =>
      Throw (TypeError ("Cannot read properties of undefined (reading '"
                        ++ k ++ "')"))
  end.

(** [Array.isArray(v)] *)
Definition isArray (v : Value) : bool :=
  match asArray v with
  | Some _ => true
  | None => false
  end.

(** [processToolSelections]; the two arguments are the properties
    [initialAnalysis] and [toolSelections] of the request body. *)
Definition processToolSelections (initialAnalysis toolSelections : Value)
           (w : W)
  : option (Response RefinedAgents * W * list event) :=
  if negb (truthy initialAnalysis)
  then Some ((400, Message "Initial analysis is required" None), w, [])
  else if negb (truthy toolSelections)
  then Some ((400, Message "Tool selections are required" None), w, [])
  else if negb (isArray toolSelections)
  then Some ((400, Message "Tool selections must be an array" None), w, [])
  else
    match read initialAnalysis "suggestedAgents" with
    | Throw e => Some (toolSelectionsFailure e, w, [])
    | Ok suggestedAgents =>
        if negb (truthy suggestedAgents) || negb (isArray suggestedAgents)
        then Some ((400,
                    Message
                      "Initial analysis must contain a suggestedAgents array"
                      None), w, [])
        else
          match Replies.refineAgentDesign JSON_parse generateContent w with
          | Some (Returned _ updatedAgents, w', trace) =>
              match read initialAnalysis "suggestedOrchestration" with
              | Ok suggested =>
                  Some ((200,
                         Data {| agents := updatedAgents;
                                 orchestrationType := suggested |}),
                        w', trace)
              | Throw e => Some (toolSelectionsFailure e, w', trace)
              end
          | Some (Rejected _ e, w', trace) =>
              Some (toolSelectionsFailure e, w', trace)
          | None => None
          end
    end.

(** [generateDiagram]; the two arguments are the properties [agents] and
    [orchestrationType] of the request body. *)
Definition generateDiagram (agents orchestrationType : Value) (w : W)
  : option (Response Diagram.DiagramData * W * list event) :=
  match asArray agents with
  | None => Some ((400, Message "Agents array is required" None), w, [])
  | Some items =>
      (* [!agents] is false for every array *)
      if negb (truthy orchestrationType)
      then Some ((400, Message "Orchestration type is required" None), w, [])
      else
        match Replies.generateSystemDiagram JSON_parse generateContent
                                            items w with
        | Some (Returned _ diagram, w', trace) =>
            Some ((200, Data diagram), w', trace)
        | Some (Rejected _ e, w', trace) =>
            Some ((500,
                   Message ("Failed to generate the diagram: "
                            ++ errorMessage e)
                           (Some "DIAGRAM_GENERATION_FAILED")),
                  w', trace)
        | None => None
        end
  end.

End Endpoints.

End Controller.

(* ===================================================================== *)
(** ** The confidence scorer on parsed JSON *)
(* ===================================================================== *)

(** [calculateConfidenceScores] takes [components: any]: whatever
    [JSON.parse] returned.  Here it is on every JSON value, with the
    arithmetic of the engine. *)
Module Scoring.

Import Js Num.

(** [{...entity, confidence}]: the entity and the score added to it. *)
Definition Scored : Type := (Json * JsNum)%type.

(** A property of [result] after [if (xs) { xs = xs.map(f) }]: the value
    left as it was, or the scored entities. *)
Inductive Entities : Type :=
| Kept (v : Value)
| Mapped (scored : list Scored).

Record SystemConfidence := {
  overall : JsNum;
  completeness : JsNum;
  consistency : JsNum;
  clarity : JsNum
}.

Record Result := {
  agents : Entities;
  tools : Entities;
  relationships : Entities;
  orchestrationPattern : Value;
  systemConfidence : SystemConfidence
}.

(** [{...components}.k] for one of the four keys read here: an own
    property of an object, nothing on any other value. *)
Definition field (components : Json) (k : string) : Value :=
  match components with
  | JObj fields => lookup k fields
  | _ => None
  end.

(** [v.length] *)
Definition lengthOf (v : Value) : Except Value :=
  match v with
  | None =>
      Throw (TypeError "Cannot read properties of undefined (reading 'length')")
  | Some JNull =>
      Throw (TypeError "Cannot read properties of null (reading 'length')")
  | Some (JStr s) => Ok (Some (JNum (inject_Z (Str.len s))))
  | Some (JArr items) =>
      Ok (Some (JNum (inject_Z (Z.of_nat (List.length items)))))
  | Some (JObj fields) => Ok (lookup "length" fields)
  | Some (JNum _) | Some (JBool _) => Ok None
  end.

(** [v.method(...)] for a method of strings, [v] being written [expr]
    in the source: the string, or the [TypeError] of the call on anything
    else. *)
Definition stringFor (expr method : string) (v : Value) : Except string :=
  match v with
  | Some (JStr s) => Ok s
  | None =>
      Throw (TypeError ("Cannot read properties of undefined (reading '"
                        ++ method ++ "')"))
  | Some JNull =>
      Throw (TypeError ("Cannot read properties of null (reading '"
                        ++ method ++ "')"))
  | Some _ =>
      Throw (TypeError (expr ++ "." ++ method ++ " is not a function"))
  end.

Section Runtime.

(** [ToNumber] of a string, an array or an object, a builtin of the
    runtime: a string is read as a numeric literal, an array or object is
    first asked for a primitive value, which throws when it has none. *)
Variable ToNumber : Json -> Except JsNum.

Definition toNumber (v : Value) : Except JsNum :=
  match v with
  | None => Ok NaN
  | Some JNull => Ok (Fin 0)
  | Some (JBool b) => Ok (Fin (if b then 1 else 0))
  | Some (JNum q) => Ok (Fin q)
  | Some other => ToNumber other
  end.

(** [v && v.length > n] *)
Definition longerThan (n : Q) (v : Value) : Except bool :=
  if truthy v
  then bind (lengthOf v)
            (fun len => bind (toNumber len) (fun x => Ok (gt x (Fin n))))
  else Ok false.

Definition points (b : bool) (n : Q) : JsNum := Fin (if b then n else 0).

Definition baseline : JsNum := Fin 70.

(** [Math.min(100, Math.round(baseline + a + b + c))] *)
Definition confidenceOf (a b c : JsNum) : JsNum :=
  Binary64.min (Fin 100)
    (Binary64.round
       (Binary64.add (Binary64.add (Binary64.add baseline a) b) c)).

(** The callback of [result.agents.map]. *)
Definition scoreAgent (systemDescription : string) (agent : Json)
  : Except Scored :=
  bind (get agent "description") (fun description =>
  bind (if truthy description
        then bind (lengthOf description) (fun len =>
             bind (toNumber len) (fun n =>
             Ok (Binary64.min (Fin 15) (Binary64.divCount n 20))))
        else Ok (Fin 0)) (fun detailScore =>
  bind (get agent "name") (fun name =>
  bind (stringFor "agent.name" "replace" name) (fun name =>
  let mentionCount := Scorer.mentionCount name systemDescription in
  let mentionScore := Binary64.ofZ (Z.min 10 (mentionCount * 2)) in
  bind (get agent "role") (fun role =>
  bind (longerThan 10 role) (fun clear =>
  let roleScore := points clear 10 in
  Ok (agent, confidenceOf detailScore mentionScore roleScore))))))).

(** The callback of [result.tools.map]. *)
Definition scoreTool (systemDescription : string) (tool : Json)
  : Except Scored :=
  bind (get tool "name") (fun name =>
  bind (lengthOf name) (fun len =>
  bind (toNumber len) (fun n =>
  let specificityScore := points (gt n (Fin 3)) 10 in
  bind (get tool "purpose") (fun purpose =>
  bind (longerThan 15 purpose) (fun clear =>
  let purposeScore := points clear 15 in
  bind (stringFor "tool.name" "toLowerCase" name) (fun name =>
  let isExplicit :=
    Str.includes (Str.toLowerCase systemDescription) (Str.toLowerCase name) in
  let explicitScore := points isExplicit 15 in
  Ok (tool, confidenceOf specificityScore purposeScore explicitScore))))))).

(** The callback of [result.relationships.map]. *)
Definition scoreRelationship (rel : Json) : Except Scored :=
  bind (get rel "description") (fun description =>
  bind (longerThan 20 description) (fun clear =>
  let clarityScore := points clear 15 in
  bind (get rel "source") (fun source =>
  bind (get rel "target") (fun target =>
  let sourceTargetScore := points (truthy source && truthy target) 15 in
  bind (get rel "dataFlow") (fun dataFlow =>
  let dataFlowScore := points (truthy dataFlow) 10 in
  Ok (rel, confidenceOf clarityScore sourceTargetScore dataFlowScore)))))).

(** [if (result.k) { result.k = result.k.map(f) }] *)
Definition mapIfPresent (k : string) (f : Json -> Except Scored) (v : Value)
  : Except Entities :=
  if truthy v
  then match v with
       | Some (JArr items) =>
           bind (mapM f items) (fun scored => Ok (Mapped scored))
       | _ => Throw (TypeError ("result." ++ k ++ ".map is not a function"))
       end
  else Ok (Kept v).

(** [xs && xs.length > 0] for a property of [result]: what was kept is
    falsy. *)
Definition nonEmpty (xs : Entities) : bool :=
  match xs with
  | Mapped (_ :: _) => true
  | _ => false
  end.

(** The scores of the entities of [result.k], in order. *)
Definition confidences (xs : Entities) : list JsNum :=
  match xs with
  | Mapped scored => List.map snd scored
  | Kept _ => []
  end.

(** [calculateOverallConfidence] before [Math.round]. *)
Definition overallScore (ags tls rels : Entities) (systemDescription : string)
  : JsNum :=
  let score := Fin 65 in
  let score :=
    Binary64.add score
      (Binary64.min (Fin 10)
         (Binary64.divCount (Binary64.ofZ (Str.len systemDescription)) 200)) in
  let score :=
    if nonEmpty ags
    then
      let agentScores := List.map Binary64.orZero (confidences ags) in
      Binary64.add score
        (Binary64.min (Fin 10)
           (Binary64.divCount
              (Binary64.divCount (Binary64.sum agentScores)
                                 (List.length agentScores))
              10))
    else Binary64.add score (Fin (- (15))) in
  let score := if nonEmpty tls then Binary64.add score (Fin 5) else score in
  let score := if nonEmpty rels then Binary64.add score (Fin 10) else score in
  score.

Definition calculateOverallConfidence (ags tls rels : Entities)
           (systemDescription : string) : JsNum :=
  Binary64.round (overallScore ags tls rels systemDescription).

Definition assessCompleteness (ags tls rels : Entities) (pattern : Value)
  : JsNum :=
  let score := Fin 50 in
  let score := if nonEmpty ags then Binary64.add score (Fin 15) else score in
  let score := if nonEmpty tls then Binary64.add score (Fin 10) else score in
  let score := if nonEmpty rels then Binary64.add score (Fin 15) else score in
  let score := if truthy pattern then Binary64.add score (Fin 10) else score in
  Binary64.round score.

(** [entity.k] of a scored entity, which is never [null]. *)
Definition property (entity : Json) (k : string) : Value :=
  match get entity k with
  | Ok v => v
  | Throw _ => None
  end.

Definition assessConsistency (ags rels : Entities) : JsNum :=
  let score := Fin 70 in
  let score :=
    match rels, ags with
    | Mapped rels, Mapped ags =>
        let agentNames := List.map (fun a => property (fst a) "name") ags in
        let has x := existsb (sameValueZero x) agentNames in
        let totalRelations := List.length rels in
        let validRelations :=
          List.length
            (List.filter
               (fun rel => has (property (fst rel) "source")
                           && has (property (fst rel) "target"))
               rels) in
        if (0 <? totalRelations)%nat
        then Binary64.add score
               (Binary64.round
                  (Binary64.times 20
                     (Binary64.divCount
                        (Binary64.ofZ (Z.of_nat validRelations))
                        totalRelations)))
        else score
    | _, _ => score
    end in
  Binary64.round score.

Definition assessClarity (systemDescription : string) : JsNum :=
  let score := Fin 60 in
  let score :=
    if Scorer.hasSections systemDescription
    then Binary64.add score (Fin 15) else score in
  let score :=
    Binary64.add score
      (Binary64.min (Fin 10)
         (Binary64.divCount (Binary64.ofZ (Str.len systemDescription)) 300)) in
  let score :=
    if Str.includes systemDescription "example"
       || Str.includes systemDescription "for instance"
    then Binary64.add score (Fin 10) else score in
  Binary64.round score.

Definition calculateConfidenceScores (components : Json)
           (systemDescription : string) : Except Result :=
  bind (mapIfPresent "agents" (scoreAgent systemDescription)
                     (field components "agents")) (fun ags =>
  bind (mapIfPresent "tools" (scoreTool systemDescription)
                     (field components "tools")) (fun tls =>
  bind (mapIfPresent "relationships" scoreRelationship
                     (field components "relationships")) (fun rels =>
  let pattern := field components "orchestrationPattern" in
  Ok {| agents := ags; tools := tls; relationships := rels;
        orchestrationPattern := pattern;
        systemConfidence :=
          {| overall :=
               Binary64.min (Fin 95)
                 (calculateOverallConfidence ags tls rels systemDescription);
             completeness := assessCompleteness ags tls rels pattern;
             consistency := assessConsistency ags rels;
             clarity := assessClarity systemDescription |} |}))).

End Runtime.

(** *** The shape of a confidence *)

(** [Math.min(100, Math.round(x))]: never above 100. *)
Definition capped (c : JsNum) : Prop :=
  c = NaN \/ c = NInf \/ exists z, c = Fin (inject_Z z) /\ (z <= 100)%Z.

(** A confidence that takes nothing from the mean: not a number, or from
    70 to 100. *)
Definition sound (c : JsNum) : Prop :=
  c = NaN \/ Binary64.integerWithin 70 100 c.

(** The five values a tool or a relationship can get. *)
Definition steps : list JsNum := [Fin 70; Fin 80; Fin 85; Fin 95; Fin 100].

(** *** Components the scorer can read *)

(** A field that is no object: a string, a number, a boolean, an array,
    [null], or left out.  Its [length], where the scorer reads it, is a
    number or [undefined]. *)
Definition simple (v : Value) : bool :=
  match v with
  | Some (JObj _) => false
  | _ => true
  end.

Definition isString (v : Value) : bool :=
  match v with
  | Some (JStr _) => true
  | _ => false
  end.






(** The agent's description is no object with a [length] of its own. *)
Definition plainDescription (a : Json) : bool :=
  match get a "description" with
  | Ok (Some (JObj fields)) =>
      match lookup "length" fields with
      | Some _ => false
      | None => true
      end
  | _ => true
  end.

Definition plainDescriptions (components : Json) : bool :=
  match field components "agents" with
  | Some (JArr items) => forallb plainDescription items
  | _ => true
  end.

End Scoring.

(** The formulas of the specification, each operation rounded to binary64
    in the order written. *)
Module Spec64.

Import Num.

Definition mean (xs : list JsNum) : JsNum :=
  Binary64.divCount (Binary64.sum xs) (List.length xs).

(** [agentTermContribution] *)
Definition agentTerm (agentConfidences : list JsNum) : JsNum :=
  match agentConfidences with
  | [] => Fin (- (15))
  | _ => Binary64.min (Fin 10) (Binary64.divCount (mean agentConfidences) 10)
  end.

(** System-level overall: [round(clamp(65 + ..., max = 95))]. *)
Definition overall (agentConfidences : list JsNum)
           (hasTools hasRelationships : bool) (sourceText : string) : JsNum :=
  Binary64.round
    (Binary64.min (Fin 95)
       (Binary64.add
          (Binary64.add
             (Binary64.add
                (Binary64.add (Fin 65)
                   (Binary64.min (Fin 10)
                      (Binary64.divCount (Binary64.ofZ (Str.len sourceText))
                                         200)))
                (agentTerm agentConfidences))
             (if hasTools then Fin 5 else Fin 0))
          (if hasRelationships then Fin 10 else Fin 0))).

(** The sum of the best matches, taken in the order of the expected
    entities, each addition rounded. *)
Definition total (xs : list JsNum) : JsNum :=
  fold_left Binary64.add xs (Fin 0).

End Spec64.

(* ===================================================================== *)
(** ** The entity-match evaluator in binary64 *)
(* ===================================================================== *)

(** The evaluator of [Matcher] with every quotient and every sum rounded
    as the engine rounds it. *)
Module Matcher64.

Import Js Num.

(** The literal [0.7] *)
Definition threshold : JsNum := Binary64.rnd (7 # 10).

Definition calculateStringSimilarity (str1 str2 : string) : JsNum :=
  if String.eqb str1 str2 then Fin 1
  else if (String.length str1 =? 0)%nat || (String.length str2 =? 0)%nat
  then Fin 0
  else
    let words1 := Matcher.setOf (Matcher.split str1) in
    let words2 := Matcher.setOf (Matcher.split str2) in
    let intersection :=
      Matcher.setOf
        (List.filter (fun word => existsb (String.eqb word) words2) words1) in
    let union := Matcher.setOf (words1 ++ words2) in
    Binary64.divCount (ofNat (List.length intersection)) (List.length union).

(** What one key adds to [matchScore]. *)
Definition keyScore (ev av : Json) (recur : Json -> Except JsNum)
  : Except JsNum :=
  match ev, av with
  | JArr eitems, JArr aitems =>
      let matchingItems :=
        List.filter
          (fun item => existsb (fun x => sameValueZero (Some item) (Some x))
                               eitems)
          aitems in
      Ok (Binary64.divCount
            (ofNat (List.length matchingItems))
            (Nat.max (List.length eitems) (List.length aitems)))
  | _, _ =>
      if Matcher.isObject ev && Matcher.isObject av then recur av
      else if Matcher.strictEquals ev av then Ok (Fin 1)
      else
        match ev, av with
        | JStr es, JStr as_ =>
            let similarity :=
              calculateStringSimilarity (Str.toLowerCase es)
                                        (Str.toLowerCase as_) in
            Ok (if gt similarity threshold then similarity else Fin 0)
        | _, _ => Ok (Fin 0)
        end
  end.

(** The [for (const key of allKeys)] loop. *)
Fixpoint keyLoop (allKeys : list string)
         (expectedProps : list (string * (Json * (Json -> Except JsNum))))
         (actualProps : list (string * (Json * unit)))
         (matchScore : JsNum) (totalKeys : nat) : Except (JsNum * nat) :=
  match allKeys with
  | [] => Ok (matchScore, totalKeys)
  | key :: rest =>
      match Matcher.find key expectedProps with
      | None => keyLoop rest expectedProps actualProps matchScore totalKeys
      | Some (ev, recur) =>
          let totalKeys := S totalKeys in
          match Matcher.find key actualProps with
          | None => keyLoop rest expectedProps actualProps matchScore totalKeys
          | Some (av, _) =>
              match keyScore ev av recur with
              | Throw e => Throw e
              | Ok s =>
                  keyLoop rest expectedProps actualProps
                          (Binary64.add matchScore s) totalKeys
              end
          end
      end
  end.

(** [calculateEntityMatchScore(actual, expected)], by recursion on
    [expected]. *)
Fixpoint matchScoreOn (expected : Json) (actual : Json) {struct expected}
  : Except JsNum :=
  match Matcher.keys actual with
  | Throw e => Throw e
  | Ok actualKeys =>
      match Matcher.keys expected with
      | Throw e => Throw e
      | Ok expectedKeys =>
          let allKeys := Matcher.setOf (actualKeys ++ expectedKeys) in
          let expectedProps :=
            Matcher.props matchScoreOn (fun _ => Ok (Fin 0)) expected in
          let actualProps := Matcher.props (fun _ => tt) tt actual in
          match keyLoop allKeys expectedProps actualProps (Fin 0) O with
          | Throw e => Throw e
          | Ok (matchScore, totalKeys) =>
              Ok (if (0 <? totalKeys)%nat
                  then Binary64.divCount matchScore totalKeys
                  else Fin 0)
          end
      end
  end.

Definition calculateEntityMatchScore (actual expected : Json)
  : Except JsNum :=
  matchScoreOn expected actual.

Section Accuracy.

(** [this.calculateEntityMatchScore] *)
Variable matchScoreOf : Json -> Json -> Except JsNum.

(** The inner loop of [calculateEntityAccuracy]. *)
Fixpoint bestMatch (actual : list Json) (expectedEntity : Json)
         (bestMatchScore : JsNum) : Except JsNum :=
  match actual with
  | [] => Ok bestMatchScore
  | actualEntity :: rest =>
      match matchScoreOf actualEntity expectedEntity with
      | Throw e => Throw e
      | Ok matchScore =>
          bestMatch rest expectedEntity
                    (if gt matchScore bestMatchScore then matchScore
                     else bestMatchScore)
      end
  end.

(** The outer loop. *)
Fixpoint accumulate (actual expected : list Json) (matchCount : JsNum)
  : Except JsNum :=
  match expected with
  | [] => Ok matchCount
  | expectedEntity :: rest =>
      match bestMatch actual expectedEntity (Fin 0) with
      | Throw e => Throw e
      | Ok bestMatchScore =>
          accumulate actual rest (Binary64.add matchCount bestMatchScore)
      end
  end.

Definition accuracyWith (actual expected : list Json) : Except JsNum :=
  if (List.length expected =? 0)%nat
  then Ok (if (List.length actual =? 0)%nat then Fin 1 else Fin 0)
  else if (List.length actual =? 0)%nat then Ok (Fin 0)
  else
    match accumulate actual expected (Fin 0) with
    | Throw e => Throw e
    | Ok matchCount =>
        Ok (Binary64.divCount matchCount (List.length expected))
    end.

(** The best match of every expected entity, each found on its own among
    all the actual entities. *)
Definition bestMatches (actual expected : list Json)
  : Except (list JsNum) :=
  mapM (fun expectedEntity =>
          match mapM (fun actualEntity =>
                        matchScoreOf actualEntity expectedEntity)
                     actual with
          | Ok scores => Ok (Spec.maxScore scores)
          | Throw e => Throw e
          end)
       expected.

End Accuracy.

Definition calculateEntityAccuracy (actual expected : list Json)
  : Except JsNum :=
  accuracyWith calculateEntityMatchScore actual expected.


End Matcher64.

(* ===================================================================== *)
(** ** More sample inputs *)
(* ===================================================================== *)

Module Cases.

(** An operation that always fails with "request timeout". *)
Definition limited (calls : nat) : (Z + string) * nat :=
  (inr "request timeout", S calls).

(** A model that answers every call with the same text. *)
Definition answering (text : string) (calls : nat) : Except string * nat :=
  (Ok text, S calls).

(** A reply with the diagram in a tagged code block. *)
Definition fencedDiagram : string :=
  ("Here it is:" ++ Replies.LF ++ "```mermaid" ++ Replies.LF
   ++ "  graph TD; A-->B  " ++ Replies.LF ++ "```")%string.

(** A reply with the diagram after a greeting, no code block. *)
Definition bareDiagram : string := "Sure! graph LR; A-->B  ".

(** An entity whose values are all primitive. *)
Definition flatEntity : list (string * Js.Json) :=
  [("name", Js.JStr "Planner"); ("priority", Js.JNum 2);
   ("active", Js.JBool true); ("owner", Js.JNull)].

(** The two sides of an evaluation. *)
Definition extracted : Testing.Extraction :=
  {| Testing.agents := Some Samples.actualEntities;
     Testing.tools := None;
     Testing.relationships := Some [];
     Testing.orchestrationPattern :=
       Some (Js.JObj [("type", Js.JStr "Sequential")]) |}.

Definition expectedExtraction : Testing.Extraction :=
  {| Testing.agents := Some Samples.expectedEntities;
     Testing.tools := Some [];
     Testing.relationships := None;
     Testing.orchestrationPattern := None |}.


(** A reply with an agent list in a code block tagged json. *)
Definition greeting : string := ("Here are the agents:" ++ Replies.LF)%string.

Definition agentsPayload : string := "[{}]".

Definition agentsValue : Js.Json := Js.JArr [Js.JObj []].

Definition fencedAgents : string :=
  (greeting ++ Fences.fenced Replies.LF agentsPayload Replies.LF
   ++ " Let me know.")%string.

(** An entity with the score the confidence scorer adds. *)
Definition scoredEntity : list (string * Js.Json) :=
  flatEntity ++ [("confidence", Js.JNum 85)].

(** A request body of the tool selection endpoint. *)
Definition analysisFields : list (string * Js.Json) :=
  [("suggestedAgents", Js.JArr [Js.JObj []]);
   ("suggestedOrchestration", Js.JStr "Sequential")].

Definition selections : Js.Value := Some (Js.JArr [Js.JStr "search"]).

(** *** Components for the confidence scorer *)

(** A runtime whose [ToNumber] is never consulted: the components below
    hold no [length] that is a string, an array or an object. *)
Definition unread (v : Js.Json) : Except Num.JsNum :=
  Throw (PlainError "ToNumber").

Fixpoint copies (c : ascii) (n : nat) : string :=
  match n with
  | O => EmptyString
  | S n' => String c (copies c n')
  end.

Definition agentWith (name : string) (descriptionLength : nat) : Js.Json :=
  Js.JObj [("name", Js.JStr name); ("role", Js.JStr "worker");
           ("description", Js.JStr (copies "d" descriptionLength))].

(** Five agents the text never mentions, with descriptions of 100, 100,
    100, 100 and 60 characters, and a text of 1608 characters. *)
Definition fiveAgents : Js.Json :=
  Js.JObj [("agents",
            Js.JArr [agentWith "A" 100; agentWith "B" 100; agentWith "C" 100;
                     agentWith "D" 100; agentWith "E" 60])].

Definition longText : string := copies "x" 1608.

(** An agent whose description is an object with a [length] of its own. *)
Definition oddDescription : Js.Json :=
  Js.JObj [("agents",
            Js.JArr [Js.JObj [("name", Js.JStr "a");
                              ("description",
                               Js.JObj [("length",
                                         Js.JNum (- (100000)))])]])].



(** A tool named in the text, and a relationship between two agents. *)
Definition searchTool : Js.Json :=
  Js.JObj [("name", Js.JStr "search");
           ("purpose", Js.JStr "finds documents on the web")].

Definition handOver : Js.Json :=
  Js.JObj [("source", Js.JStr "A"); ("target", Js.JStr "B");
           ("description", Js.JStr "A hands the plan over to B")].

Definition twoAgents : Js.Json :=
  Js.JObj [("agents", Js.JArr [agentWith "A" 100; agentWith "B" 40]);
           ("tools", Js.JArr [searchTool]);
           ("relationships", Js.JArr [handOver])].

(** *** Entities for the evaluator *)

Definition letters (n : nat) : list Js.Json :=
  List.map (fun i => Js.JStr (Js.showIndex i)) (seq 0 n).

(** One actual entity with two one-item lists; two expected entities, one
    with ten items under [t], one with five under [u]. *)
Definition shortLists : list Js.Json :=
  [Js.JObj [("t", Js.JArr [Js.JStr "0"]); ("u", Js.JArr [Js.JStr "0"])]].

Definition longLists : list Js.Json :=
  [Js.JObj [("t", Js.JArr (letters 10))]; Js.JObj [("u", Js.JArr (letters 5))]].

(** *** Runs of a batch *)

(** A run that reports [confidence] and one agent. *)
Definition runOf (name : string) (confidence : Q)
  : Testing.TestCaseResult unit :=
  {| Testing.testCase := name; Testing.result := tt;
     Testing.metrics :=
       {| Testing.processingTime := Num.Fin 12;
          Testing.overallConfidence := Num.Fin confidence;
          Testing.completeness := Num.Fin 75;
          Testing.consistency := Num.Fin 70;
          Testing.clarity := Num.Fin 60;
          Testing.agentCount := Num.Fin 1;
          Testing.toolCount := Num.Fin 0;
          Testing.relationshipCount := Num.Fin 0 |};
     Testing.timestamp := "" |}.

(** A [runTestCase] that fails on the test case called [missing]. *)
Definition runStub (name : string) (w : unit)
  : (Testing.TestCaseResult unit + Testing.ErrorResult) * unit :=
  if String.eqb name "missing"
  then (inr {| Testing.message := "ENOENT" |}, w)
  else (inl (runOf name 80), w).

End Cases.

(* ===================================================================== *)
(** * Properties *)
(* ===================================================================== *)

(** ** Retry controller *)

Section RetryFacts.

Import Retry.

Variables T E W : Type.
Variable message : E -> string.
Variable fn : W -> (T + E) * W.

Local Abbreviation run := (loop message fn).

(** One iteration, read off the definition. *)
Lemma loop_step fuel retries delay w trace :
  run (S fuel) retries delay w trace
  = match fn w with
    | (inl v, w') => Some (Returned E v, w', trace ++ [Invoke])
    | (inr e, w') =>
        if (maxRetries RETRY_CONFIG <? S retries)%nat
           || negb (transient message e)
        then Some (Rejected T e, w', trace ++ [Invoke])
        else run fuel (S retries)
                 (Z.min (delay * 2) (maxDelay RETRY_CONFIG)) w'
                 (trace ++ [Invoke; Sleep delay])
    end.
Proof. reflexivity. Qed.

Lemma loop_success fuel retries delay w trace v w' :
  fn w = (inl v, w') ->
  run (S fuel) retries delay w trace
  = Some (Returned E v, w', trace ++ [Invoke]).
Proof. intros H. rewrite loop_step, H. reflexivity. Qed.

Lemma loop_give_up fuel retries delay w trace e w' :
  fn w = (inr e, w') ->
  (maxRetries RETRY_CONFIG <? S retries)%nat || negb (transient message e)
  = true ->
  run (S fuel) retries delay w trace
  = Some (Rejected T e, w', trace ++ [Invoke]).
Proof. intros H C. rewrite loop_step, H, C. reflexivity. Qed.

Lemma loop_retry fuel retries delay w trace e w' :
  fn w = (inr e, w') ->
  (S retries <= maxRetries RETRY_CONFIG)%nat ->
  transient message e = true ->
  run (S fuel) retries delay w trace
  = run fuel (S retries) (Z.min (delay * 2) (maxDelay RETRY_CONFIG)) w'
        (trace ++ [Invoke; Sleep delay]).
Proof.
  intros H Hle Ht. rewrite loop_step, H, Ht.
  destruct (maxRetries RETRY_CONFIG <? S retries)%nat eqn:C.
  - apply Nat.ltb_lt in C. lia.
  - reflexivity.
Qed.

(** The loop ends within the fuel left whenever the retries made and the
    fuel together exceed [maxRetries]. *)
Lemma loop_terminates fuel :
  forall retries delay w trace,
    (retries <= maxRetries RETRY_CONFIG)%nat ->
    (maxRetries RETRY_CONFIG < retries + fuel)%nat ->
    exists r, run fuel retries delay w trace = Some r.
Proof.
  induction fuel as [|fuel IH]; intros retries delay w trace Hr Hf.
  - lia.
  - destruct (fn w) as [[v|e] w'] eqn:H.
    + eexists. apply loop_success. exact H.
    + destruct ((maxRetries RETRY_CONFIG <? S retries)%nat
                || negb (transient message e)) eqn:C.
      * eexists. apply loop_give_up; eassumption.
      * apply orb_false_iff in C. destruct C as [C1 C2].
        apply Nat.ltb_ge in C1. apply negb_false_iff in C2.
        erewrite loop_retry by eassumption.
        apply IH; lia.
Qed.

(** More fuel than needed changes nothing. *)
Lemma loop_fuel_irrelevant fuel :
  forall retries delay w trace r,
    run fuel retries delay w trace = Some r ->
    forall fuel', (fuel <= fuel')%nat ->
                  run fuel' retries delay w trace = Some r.
Proof.
  induction fuel as [|fuel IH]; intros retries delay w trace r Hr fuel' Hle.
  - discriminate.
  - destruct fuel' as [|fuel']; [lia|].
    rewrite loop_step in *.
    destruct (fn w) as [[v|e] w']; [exact Hr|].
    destruct ((maxRetries RETRY_CONFIG <? S retries)%nat
              || negb (transient message e)); [exact Hr|].
    apply IH; [exact Hr | lia].
Qed.

(** [withRetry] always settles: [maxRetries + 1] iterations are enough,
    and any larger bound gives the same result. *)
Lemma withRetry_fuel w :
  exists r, withRetry message fn w = Some r
            /\ forall fuel, (maxRetries RETRY_CONFIG < fuel)%nat ->
                            withRetry_from message fn fuel w = Some r.
Proof.
  destruct (@loop_terminates (S (maxRetries RETRY_CONFIG)) 0%nat
              (initialDelay RETRY_CONFIG) w []) as [r Hr]; [lia|lia|].
  exists r. split; [exact Hr|].
  intros fuel Hf. unfold withRetry_from.
  eapply loop_fuel_irrelevant; [exact Hr | lia].
Qed.

(** C5.  An operation that fails with a "rate limit" message on its first
    two invocations and succeeds on the third: [withRetry] returns the
    success value, the operation has been invoked exactly three times, and
    the waits before the two retries are 1000 ms and 2000 ms: the delay
    starts at 1000 and each wait is followed by
    [delay := min (delay * 2) 8000]. *)
Theorem withRetry_rate_limit_twice_then_success w0 w1 w2 w3 e1 e2 v :
  fn w0 = (inr e1, w1) ->
  Str.includes (message e1) "rate limit" = true ->
  fn w1 = (inr e2, w2) ->
  Str.includes (message e2) "rate limit" = true ->
  fn w2 = (inl v, w3) ->
  withRetry message fn w0
  = Some (Returned E v, w3, [Invoke; Sleep 1000; Invoke; Sleep 2000; Invoke])
  /\ invocations [Invoke; Sleep 1000; Invoke; Sleep 2000; Invoke] = 3%nat
  /\ sleeps [Invoke; Sleep 1000; Invoke; Sleep 2000; Invoke] = [1000; 2000]
  /\ initialDelay RETRY_CONFIG = 1000
  /\ Z.min (1000 * 2) (maxDelay RETRY_CONFIG) = 2000
  /\ (forall delay, 4000 <= delay ->
                    Z.min (delay * 2) (maxDelay RETRY_CONFIG) = 8000).
Proof.
  intros H0 M1 H1 M2 H2.
  assert (T1 : transient message e1 = true)
    by (unfold transient; rewrite M1; reflexivity).
  assert (T2 : transient message e2 = true)
    by (unfold transient; rewrite M2; reflexivity).
  split; [|repeat split; try reflexivity; intros; cbn; lia].
  unfold withRetry, withRetry_from.
  change (S (maxRetries RETRY_CONFIG)) with 4%nat.
  erewrite loop_retry; [| exact H0 | cbn; lia | exact T1].
  erewrite loop_retry; [| exact H1 | cbn; lia | exact T2].
  erewrite loop_success by exact H2.
  reflexivity.
Qed.

(** C6.  An operation whose first invocation fails with a message that
    contains neither "rate limit" nor "timeout": it is invoked exactly
    once, nothing is waited for, and [withRetry] rejects with that very
    error. *)
Theorem withRetry_other_error_propagates w0 w1 e :
  fn w0 = (inr e, w1) ->
  Str.includes (message e) "rate limit" = false ->
  Str.includes (message e) "timeout" = false ->
  withRetry message fn w0 = Some (Rejected T e, w1, [Invoke])
  /\ invocations [Invoke] = 1%nat
  /\ sleeps [Invoke] = [].
Proof.
  intros H0 M1 M2.
  split; [|split; reflexivity].
  unfold withRetry, withRetry_from.
  erewrite loop_give_up; [reflexivity | exact H0 |].
  unfold transient. rewrite M1, M2. reflexivity.
Qed.

End RetryFacts.

Lemma withRetry_rate_limit_twice_then_success_witness :
  Retry.withRetry (fun m : string => m) Samples.flaky 0%nat
  = Some (Retry.Returned string 42, 3%nat,
          [Retry.Invoke; Retry.Sleep 1000; Retry.Invoke; Retry.Sleep 2000;
           Retry.Invoke]).
Proof.
  exact (proj1 (@withRetry_rate_limit_twice_then_success
                  Z string nat (fun m => m) Samples.flaky 0%nat 1%nat 2%nat 3%nat
                  "rate limit exceeded" "rate limit exceeded" 42
                  eq_refl eq_refl eq_refl eq_refl eq_refl)).
Defined.

Lemma withRetry_other_error_propagates_witness :
  Retry.withRetry (fun m : string => m) Samples.denied 0%nat
  = Some (Retry.Rejected Z "permission denied", 1%nat, [Retry.Invoke]).
Proof.
  exact (proj1 (@withRetry_other_error_propagates
                  Z string nat (fun m => m) Samples.denied 0%nat 1%nat
                  "permission denied" eq_refl eq_refl eq_refl)).
Defined.


(** ** Numbers *)

Section NumFacts.

Local Open Scope Q_scope.

Lemma Qfloor_unique (x : Q) (z : Z) :
  inject_Z z <= x -> x < inject_Z (z + 1) -> Qfloor x = z.
Proof.
  intros Hlo Hhi.
  pose proof (Qfloor_le x) as F1.
  pose proof (Qlt_floor x) as F2.
  assert (A : (Qfloor x < z + 1)%Z).
  { rewrite Zlt_Qlt. eapply Qle_lt_trans; eassumption. }
  assert (B : (z < Qfloor x + 1)%Z).
  { rewrite Zlt_Qlt. eapply Qle_lt_trans; eassumption. }
  lia.
Qed.

Lemma round_inject (z : Z) : Num.round (inject_Z z) = z.
Proof.
  unfold Num.round. apply Qfloor_unique.
  - lra.
  - rewrite inject_Z_plus. change (inject_Z 1) with 1. lra.
Qed.

Lemma round_mono (x y : Q) : x <= y -> (Num.round x <= Num.round y)%Z.
Proof. intros H. unfold Num.round. apply Qfloor_resp_le. lra. Qed.

Lemma round_between (lo hi : Z) (x : Q) :
  inject_Z lo <= x -> x <= inject_Z hi ->
  (lo <= Num.round x <= hi)%Z.
Proof.
  intros H1 H2. split.
  - rewrite <- (round_inject lo). apply round_mono, H1.
  - rewrite <- (round_inject hi). apply round_mono, H2.
Qed.

Lemma round_eqv (x y : Q) : x == y -> Num.round x = Num.round y.
Proof. intros H. unfold Num.round. rewrite H. reflexivity. Qed.

(** Rounding and an integer cap commute. *)
Lemma round_cap (cap : Z) (x : Q) :
  Num.round (Qmin (inject_Z cap) x) = Z.min cap (Num.round x).
Proof.
  destruct (Qlt_le_dec x (inject_Z cap)) as [Hlt|Hge].
  - rewrite (round_eqv (Q.min_r _ _ (Qlt_le_weak _ _ Hlt))).
    assert (Num.round x <= cap)%Z.
    { rewrite <- (round_inject cap). apply round_mono. lra. }
    lia.
  - rewrite (round_eqv (Q.min_l _ _ Hge)).
    assert (cap <= Num.round x)%Z.
    { rewrite <- (round_inject cap) at 1. apply round_mono. exact Hge. }
    rewrite round_inject. lia.
Qed.

Lemma inject_Z_min (a b : Z) :
  inject_Z (Z.min a b) == Qmin (inject_Z a) (inject_Z b).
Proof.
  destruct (Z.le_ge_cases a b) as [H|H].
  - rewrite Z.min_l by exact H. rewrite Q.min_l; [reflexivity|].
    rewrite <- Zle_Qle. exact H.
  - rewrite Z.min_r by exact H. rewrite Q.min_r; [reflexivity|].
    rewrite <- Zle_Qle. exact H.
Qed.

Lemma Qmin_bounds (c x lo : Q) : lo <= c -> lo <= x -> lo <= Qmin c x <= c.
Proof.
  intros Hc Hx. split.
  - apply Q.min_glb; assumption.
  - apply Q.le_min_l.
Qed.

(** [reduce] with [+] over integers. *)
Lemma sum_inject_from (xs : list Z) (acc : Z) :
  fold_left Qplus (List.map inject_Z xs) (inject_Z acc)
  == inject_Z (acc + fold_right Z.add 0%Z xs).
Proof.
  revert acc. induction xs as [|x xs IH]; intros acc; simpl.
  - rewrite Z.add_0_r. reflexivity.
  - rewrite <- inject_Z_plus, IH, Z.add_assoc. reflexivity.
Qed.

Lemma sum_inject (xs : list Z) :
  Num.sum (List.map inject_Z xs) == inject_Z (fold_right Z.add 0%Z xs).
Proof. unfold Num.sum. apply (sum_inject_from xs 0). Qed.

End NumFacts.

(** ** Confidence scorer *)

Section ScorerFacts.

Import Scorer.
Local Open Scope Q_scope.

(** The backslash is one of the escaped characters. *)
Lemma special_backslash (c : ascii) :
  Ascii.eqb c "\" = true -> isSpecial c = true.
Proof. intros H. apply Ascii.eqb_eq in H. subst c. reflexivity. Qed.

(** The pattern built from an escaped name matches the characters of the
    name and nothing else: escaping loses no character and lets none act
    as an operator. *)
Lemma literalPattern_escape (name : string) :
  literalPattern (escapeRegExp name) = Some (list_ascii_of_string name).
Proof.
  induction name as [|c r IH]; [reflexivity|].
  cbn [escapeRegExp list_ascii_of_string].
  destruct (isSpecial c) eqn:Sp.
  - cbn [literalPattern]. rewrite Ascii.eqb_refl, Sp, IH. reflexivity.
  - cbn [literalPattern].
    destruct (Ascii.eqb c "\") eqn:B.
    + apply special_backslash in B. congruence.
    + rewrite Sp, IH. reflexivity.
Qed.

Lemma mentionCount_occurrences (name systemDescription : string) :
  mentionCount name systemDescription
  = Spec.occurrences_of name systemDescription.
Proof.
  unfold mentionCount, Spec.occurrences_of.
  rewrite literalPattern_escape. reflexivity.
Qed.

Lemma countAll_nonneg (alts : list (list Regex.item)) (s : string) :
  forall skip, (0 <= Regex.countAll alts skip s)%Z.
Proof.
  induction s as [|c r IH]; intros [|k]; cbn [Regex.countAll]; try lia.
  - destruct (Regex.firstAlt alts EmptyString) as [[m marks]|]; lia.
  - destruct (Regex.firstAlt alts (String c r)) as [[m marks]|].
    + specialize (IH (Nat.pred (String.length m))). lia.
    + apply IH.
  - apply IH.
Qed.

Lemma len_nonneg (s : string) : (0 <= Str.len s)%Z.
Proof. unfold Str.len. lia. Qed.

(** What the code adds for the description is the formula's
    [detailScore]: for an empty description both are zero. *)
Lemma detailScore_code (description : option string) :
  match description with
  | Some d =>
      if truthy (Some d) then Qmin 15 (Num.ofZ (Str.len d) / 20) else 0
  | None => 0
  end == Spec.detailScore description.
Proof.
  destruct description as [[|c d]|]; cbn [truthy Spec.detailScore];
    reflexivity.
Qed.

Lemma roleScore_code (role : string) :
  (if truthy (Some role) && (10 <? Str.len role)%Z then 10 else 0)
  = Spec.roleScore role.
Proof. destruct role; reflexivity. Qed.

Lemma mentionScore_code (name systemDescription : string) :
  Num.ofZ (Z.min 10 (mentionCount name systemDescription * 2))
  == Spec.mentionScore name systemDescription.
Proof.
  unfold Num.ofZ, Spec.mentionScore.
  rewrite inject_Z_min, mentionCount_occurrences, inject_Z_mult.
  change (inject_Z 10) with 10. change (inject_Z 2) with 2.
  rewrite (Qmult_comm (inject_Z _) 2). reflexivity.
Qed.

(** C3.  For an agent with a string name, a string role and a description
    that may be absent, the confidence the scorer assigns is
    min(100, round(70 + min(15, len(description)/20) (0 without one)
    + min(10, 2 x the occurrences of the escaped name in the text, letter
    case apart) + (10 if len(role) > 10 else 0))). *)
Theorem agent_confidence_formula
        (name role : string) (description : option string)
        (systemDescription : string) :
  let agent := {| agent_name := Some name; agent_role := Some role;
                  agent_description := description |} in
  scoreAgent systemDescription agent
  = Ok {| entity := agent;
          confidence :=
            Spec.agentConfidence name role description systemDescription |}.
Proof.
  intros agent. unfold scoreAgent, Spec.agentConfidence.
  cbn [agent agent_name agent_role agent_description requireName].
  do 3 f_equal. apply round_eqv.
  rewrite detailScore_code, mentionScore_code, roleScore_code.
  reflexivity.
Qed.

(** *** What [map] with a throwing callback returns *)

Lemma mapM_Forall2 {A B} (f : A -> Except B) (l : list A) :
  forall l', mapM f l = Ok l' -> Forall2 (fun a b => f a = Ok b) l l'.
Proof.
  induction l as [|a l IH]; intros l' H; cbn [mapM] in H.
  - inversion H. constructor.
  - destruct (f a) as [b|e] eqn:Fa; [|discriminate].
    destruct (mapM f l) as [bs|e] eqn:Fl; [|discriminate].
    inversion H; subst. constructor; [exact Fa | apply IH; reflexivity].
Qed.

Lemma mapM_total {A B} (f : A -> Except B) (l : list A) :
  Forall (fun a => exists b, f a = Ok b) l -> exists l', mapM f l = Ok l'.
Proof.
  induction 1 as [|a l [b Hb] _ [l' Hl']]; cbn [mapM].
  - eexists; reflexivity.
  - rewrite Hb, Hl'. eexists; reflexivity.
Qed.

Lemma mapM_throws {A B} (f : A -> Except B) (l : list A) :
  Exists (fun a => exists e, f a = Throw e) l -> exists e, mapM f l = Throw e.
Proof.
  induction 1 as [a l [e He]|a l _ [e He]]; cbn [mapM].
  - rewrite He. eexists; reflexivity.
  - destruct (f a); [rewrite He|]; eexists; reflexivity.
Qed.

Lemma mapIfPresent_nonEmpty {A B} (f : A -> Except B) xs ys :
  mapIfPresent f xs = Ok ys -> nonEmpty ys = nonEmpty xs.
Proof.
  destruct xs as [l|]; cbn [mapIfPresent]; intros H.
  - destruct (mapM f l) as [l'|e] eqn:M; [|discriminate].
    inversion H; subst. apply mapM_Forall2 in M.
    destruct M; reflexivity.
  - inversion H. reflexivity.
Qed.

(** *** Ranges *)

Lemma inject_nonneg (n : Z) : (0 <= n)%Z -> 0 <= inject_Z n.
Proof. intros H. change 0 with (inject_Z 0). rewrite <- Zle_Qle. exact H. Qed.

Lemma ratio_nonneg (n : Z) (d : Q) : (0 <= n)%Z -> 0 < d -> 0 <= inject_Z n / d.
Proof.
  intros Hn Hd. apply Qle_shift_div_l; [exact Hd|].
  rewrite Qmult_0_l. apply inject_nonneg, Hn.
Qed.

Lemma detailScore_range (description : option string) :
  0 <= Spec.detailScore description <= 15.
Proof.
  destruct description as [d|]; cbn [Spec.detailScore]; [|lra].
  apply Qmin_bounds; [lra|]. apply ratio_nonneg; [apply len_nonneg|lra].
Qed.

(** Every confidence the agent callback assigns lies between the baseline
    and the cap. *)
Lemma scoreAgent_range systemDescription agent scored :
  scoreAgent systemDescription agent = Ok scored ->
  (70 <= confidence scored <= 100)%Z.
Proof.
  unfold scoreAgent.
  destruct (agent_name agent) as [name|]; cbn [requireName]; [|discriminate].
  intros H. inversion H; subst; clear H. cbn [confidence].
  split; [|apply Z.le_min_l].
  apply Z.min_glb; [lia|].
  rewrite <- (round_inject 70). apply round_mono.
  rewrite detailScore_code.
  pose proof (detailScore_range (agent_description agent)) as D.
  assert (M : 0 <= Num.ofZ (Z.min 10 (mentionCount name systemDescription * 2))).
  { apply inject_nonneg. apply Z.min_glb; [lia|].
    unfold mentionCount. destruct (literalPattern (escapeRegExp name)); [|lia].
    pose proof (countAll_nonneg [List.map ignoringCase l]
                                systemDescription O). lia. }
  unfold baseline. change (inject_Z 70) with 70.
  destruct (agent_role agent) as [[|ch r]|]; cbn [truthy andb];
    try destruct (10 <? Str.len (String ch r))%Z; lra.
Qed.

Lemma assessCompleteness_range (c : ScoredComponents) :
  (50 <= assessCompleteness c <= 100)%Z.
Proof.
  unfold assessCompleteness.
  destruct (nonEmpty (s_agents c)), (nonEmpty (s_tools c)),
           (nonEmpty (s_relationships c)), (isSome (s_orchestrationPattern c));
    vm_compute; split; discriminate.
Qed.

Lemma assessClarity_range (systemDescription : string) :
  (60 <= assessClarity systemDescription <= 95)%Z.
Proof.
  unfold assessClarity.
  assert (L : 0 <= Qmin 10 (Num.ofZ (Str.len systemDescription) / 300) <= 10).
  { apply Qmin_bounds; [lra|]. apply ratio_nonneg; [apply len_nonneg|lra]. }
  apply round_between; change (inject_Z 60) with 60;
    change (inject_Z 95) with 95;
    destruct (hasSections systemDescription),
             (Str.includes systemDescription "example"
              || Str.includes systemDescription "for instance"); lra.
Qed.

Lemma assessConsistency_range (c : ScoredComponents) :
  (70 <= assessConsistency c <= 90)%Z.
Proof.
  unfold assessConsistency.
  destruct (s_relationships c) as [rels|], (s_agents c) as [ags|];
    try (vm_compute; split; discriminate).
  set (valid := List.filter _ rels).
  destruct (0 <? Z.of_nat (List.length rels))%Z eqn:Pos;
    [|vm_compute; split; discriminate].
  apply Z.ltb_lt in Pos.
  assert (V : (Z.of_nat (List.length valid) <= Z.of_nat (List.length rels))%Z).
  { apply Nat2Z.inj_le. apply filter_length_le. }
  set (t := Z.of_nat (List.length rels)) in *.
  set (v := Z.of_nat (List.length valid)) in *.
  assert (Tq : 0 < Num.ofZ t).
  { unfold Num.ofZ. change 0 with (inject_Z 0). rewrite <- Zlt_Qlt. exact Pos. }
  assert (F : 0 <= Num.ofZ v / Num.ofZ t <= 1).
  { split.
    - apply ratio_nonneg; [subst v; lia | exact Tq].
    - apply Qle_shift_div_r; [exact Tq|]. rewrite Qmult_1_l.
      unfold Num.ofZ. rewrite <- Zle_Qle. exact V. }
  assert (K : (0 <= Num.round (20 * (Num.ofZ v / Num.ofZ t)) <= 20)%Z).
  { revert F. generalize (Num.ofZ v / Num.ofZ t). intros f F.
    apply round_between; [change (inject_Z 0) with 0
                         | change (inject_Z 20) with 20];
      lra. }
  apply round_between; unfold Num.ofZ in *.
  - change 70 with (inject_Z 70). rewrite <- inject_Z_plus, <- Zle_Qle. lia.
  - change 70 with (inject_Z 70). rewrite <- inject_Z_plus, <- Zle_Qle. lia.
Qed.

(** *** The overall score *)

Lemma orZero_id (c : Z) : orZero c = c.
Proof. unfold orZero. destruct (c =? 0)%Z eqn:E; [|reflexivity].
       apply Z.eqb_eq in E. congruence. Qed.

Lemma agentTerm_code (a : Scored Agent) (l : list (Scored Agent)) :
  let agentScores :=
    List.map (fun a => Num.ofZ (orZero (confidence a))) (a :: l) in
  Qmin 10 (Num.sum agentScores
           / Num.ofZ (Z.of_nat (List.length agentScores)) / 10)
  == Spec.agentTerm (List.map (@confidence Agent) (a :: l)).
Proof.
  intros agentScores.
  assert (E : agentScores
              = List.map inject_Z (List.map (@confidence Agent) (a :: l))).
  { unfold agentScores. rewrite List.map_map. apply List.map_ext.
    intros x. unfold Num.ofZ. rewrite orZero_id. reflexivity. }
  rewrite E.
  change (Spec.agentTerm (List.map (@confidence Agent) (a :: l)))
    with (Qmin 10 (Spec.mean (List.map (@confidence Agent) (a :: l)) / 10)).
  generalize (List.map (@confidence Agent) (a :: l)). intros cs.
  unfold Spec.mean, Num.ofZ.
  rewrite sum_inject, List.length_map. reflexivity.
Qed.

(** [calculateOverallConfidence] is the rounded sum of the formula,
    before the cap. *)
Lemma calculateOverallConfidence_code (c : ScoredComponents)
      (systemDescription : string) :
  calculateOverallConfidence c systemDescription
  = Num.round (65 + Qmin 10 (inject_Z (Str.len systemDescription) / 200)
               + Spec.agentTerm (agentConfidences c)
               + (if nonEmpty (s_tools c) then 5 else 0)
               + (if nonEmpty (s_relationships c) then 10 else 0)).
Proof.
  unfold calculateOverallConfidence, agentConfidences, Num.ofZ.
  apply round_eqv.
  set (L := Qmin 10 (inject_Z (Str.len systemDescription) / 200)).
  destruct (s_agents c) as [[|a l]|].
  - cbn [List.map Spec.agentTerm].
    destruct (nonEmpty (s_tools c)), (nonEmpty (s_relationships c)); lra.
  - pose proof (agentTerm_code a l) as A. cbv zeta in A.
    unfold Num.ofZ in A. rewrite <- A.
    set (M := Qmin 10 _).
    destruct (nonEmpty (s_tools c)), (nonEmpty (s_relationships c)); lra.
  - cbn [Spec.agentTerm].
    destruct (nonEmpty (s_tools c)), (nonEmpty (s_relationships c)); lra.
Qed.

Lemma agentTerm_range (confs : list Z) :
  Forall (fun x => (0 <= x)%Z) confs ->
  - (15) <= Spec.agentTerm confs <= 10.
Proof.
  intros H. destruct confs as [|x xs]; cbn [Spec.agentTerm]; [lra|].
  assert (S0 : (0 <= fold_right Z.add 0 (x :: xs))%Z).
  { induction H; cbn [fold_right]; lia. }
  assert (B : 0 <= Qmin 10 (Spec.mean (x :: xs) / 10) <= 10).
  { apply Qmin_bounds; [lra|].
    apply Qle_shift_div_l; [lra|]. rewrite Qmult_0_l.
    unfold Spec.mean. apply ratio_nonneg; [exact S0|].
    change 0 with (inject_Z 0). rewrite <- Zlt_Qlt. cbn [List.length]. lia. }
  lra.
Qed.

(** What [calculateConfidenceScores] returns, component by component. *)
Lemma calculateConfidenceScores_inv c systemDescription r :
  calculateConfidenceScores c systemDescription = Ok r ->
  mapIfPresent (scoreAgent systemDescription) (agents c)
  = Ok (s_agents (components r))
  /\ mapIfPresent (scoreTool systemDescription) (tools c)
     = Ok (s_tools (components r))
  /\ s_relationships (components r)
     = option_map (List.map scoreRelationship) (relationships c)
  /\ s_orchestrationPattern (components r) = orchestrationPattern c
  /\ systemConfidence r
     = {| overall := Z.min 95 (calculateOverallConfidence
                                 (components r) systemDescription);
          completeness := assessCompleteness (components r);
          consistency := assessConsistency (components r);
          clarity := assessClarity systemDescription |}.
Proof.
  unfold calculateConfidenceScores.
  destruct (mapIfPresent (scoreAgent systemDescription) (agents c))
    as [ags|e]; [|discriminate].
  destruct (mapIfPresent (scoreTool systemDescription) (tools c))
    as [tls|e]; [|discriminate].
  intros H. inversion H; subst; clear H. cbn. repeat split; reflexivity.
Qed.

Lemma scored_confidences_range c systemDescription r :
  calculateConfidenceScores c systemDescription = Ok r ->
  Forall (fun x => (70 <= x <= 100)%Z) (agentConfidences (components r)).
Proof.
  intros H. apply calculateConfidenceScores_inv in H.
  destruct H as (Ha & _). unfold agentConfidences.
  destruct (agents c) as [ags|]; cbn [mapIfPresent] in Ha.
  - destruct (mapM (scoreAgent systemDescription) ags) as [l|e] eqn:M;
      [|discriminate].
    inversion Ha as [Hs]. apply mapM_Forall2 in M.
    clear Ha Hs. induction M as [|a b ags l Hab _ IH]; cbn [List.map].
    + constructor.
    + constructor; [eapply scoreAgent_range; exact Hab | exact IH].
  - inversion Ha. constructor.
Qed.

(** The overall score before the cap, for any scored components whose
    agent confidences are not negative. *)
Lemma calculateOverallConfidence_range (c : ScoredComponents)
      (systemDescription : string) :
  Forall (fun x => (0 <= x)%Z) (agentConfidences c) ->
  (50 <= calculateOverallConfidence c systemDescription <= 100)%Z.
Proof.
  intros C. rewrite calculateOverallConfidence_code.
  pose proof (agentTerm_range C) as A.
  assert (L : 0 <= Qmin 10 (inject_Z (Str.len systemDescription) / 200) <= 10).
  { apply Qmin_bounds; [lra|]. apply ratio_nonneg; [apply len_nonneg|lra]. }
  revert A L.
  generalize (Spec.agentTerm (agentConfidences c)).
  generalize (Qmin 10 (inject_Z (Str.len systemDescription) / 200)).
  intros l a A L.
  apply round_between; change (inject_Z 50) with 50;
    change (inject_Z 100) with 100;
    destruct (nonEmpty (s_tools c)), (nonEmpty (s_relationships c)); lra.
Qed.

(** *** When the scorer returns *)

Lemma scoreAgent_named systemDescription agent :
  hasName (agent_name agent) ->
  exists scored, scoreAgent systemDescription agent = Ok scored.
Proof.
  intros [name Hn]. unfold scoreAgent. rewrite Hn. cbn [requireName].
  eexists; reflexivity.
Qed.

Lemma scoreTool_named systemDescription tool :
  hasName (tool_name tool) ->
  exists scored, scoreTool systemDescription tool = Ok scored.
Proof.
  intros [name Hn]. unfold scoreTool. rewrite Hn. cbn [requireName].
  eexists; reflexivity.
Qed.

Lemma calculateConfidenceScores_named c systemDescription :
  allNamed c -> exists r, calculateConfidenceScores c systemDescription = Ok r.
Proof.
  intros [Ha Ht]. unfold calculateConfidenceScores, mapIfPresent.
  destruct (agents c) as [ags|].
  - destruct (mapM_total (scoreAgent systemDescription) (l := ags)) as [l Hl].
    { eapply Forall_impl; [|apply Ha; reflexivity].
      intros a. apply scoreAgent_named. }
    rewrite Hl.
    destruct (tools c) as [tls|]; [|eexists; reflexivity].
    destruct (mapM_total (scoreTool systemDescription) (l := tls)) as [l' Hl'].
    { eapply Forall_impl; [|apply Ht; reflexivity].
      intros t. apply scoreTool_named. }
    rewrite Hl'. eexists; reflexivity.
  - destruct (tools c) as [tls|]; [|eexists; reflexivity].
    destruct (mapM_total (scoreTool systemDescription) (l := tls)) as [l' Hl'].
    { eapply Forall_impl; [|apply Ht; reflexivity].
      intros t. apply scoreTool_named. }
    rewrite Hl'. eexists; reflexivity.
Qed.

End ScorerFacts.

(** ** Diagram normalisation *)

(** Peels one [x <- c ;; k] off a hypothesis that says the whole
    computation returned. *)
Ltac bind_ok H :=
  match type of H with
  | bind ?c _ = Ok _ =>
      let E := fresh "E" in
      destruct c eqn:E; cbn [bind] in H; [|discriminate H]
  end.

Section DiagramFacts.

Import Js Diagram.










End DiagramFacts.


(** C8.  The parsed response with [vertices] and [links] normalises to
    exactly one node, with id "n1", label "X" (taken from [name]) and type
    "agent" (the default), and to no edge: the one link normalises to an
    edge from "n1" to "n2" (its target read from [to]), and "n2" is the id of
    no node. *)
Theorem vertices_links_scenario (agents : list Js.Json) :
  Diagram.normalize agents Samples.verticesLinks
  = Ok {| Diagram.nodes :=
            [{| Diagram.node_id := Js.str "n1";
                Diagram.node_label := Js.str "X";
                Diagram.node_type := Js.str "agent";
                Diagram.node_role := None;
                Diagram.node_category := None;
                Diagram.node_description := None;
                Diagram.node_size := Some (Js.JNum 1);
                Diagram.node_style :=
                  Some (Diagram.NodeStyleBuilt None None) |}];
          Diagram.edges := [];
          Diagram.layout := Js.str "dagre";
          Diagram.groups := None |}
  /\ Diagram.normalizeEdge
       (Js.JObj [("from", Js.JStr "n1"); ("to", Js.JStr "n2")]) 0
     = Ok {| Diagram.edge_id := Js.str "edge0";
             Diagram.edge_source := Js.str "n1";
             Diagram.edge_target := Js.str "n2";
             Diagram.edge_label := Js.str "";
             Diagram.edge_type := Js.str "sequential";
             Diagram.edge_style :=
               Diagram.EdgeStyleBuilt None None None None |}
  /\ Diagram.has [Js.str "n1"] (Js.str "n2") = false.
Proof. repeat split. Qed.

(** ** Text extraction *)

Section ExtractFacts.

Import Js Extract.

(** *** The order of the three rules *)




(** *** What the two brace expressions match *)

Lemma upToFirstClose_spec (s m : string) :
  upToFirstClose s = Some m ->
  exists body post,
    s = (body ++ "}" ++ post)%string
    /\ m = (body ++ "}")%string
    /\ Str.occurs "}" body = false.
Proof.
  revert m. induction s as [|c r IH]; intros m H; cbn [upToFirstClose] in H.
  - discriminate.
  - destruct (Ascii.eqb c "}") eqn:C.
    + apply Ascii.eqb_eq in C. subst c. inversion H; subst.
      exists EmptyString, r. repeat split.
    + destruct (upToFirstClose r) as [m'|]; [|discriminate].
      inversion H; subst.
      destruct (IH m' eq_refl) as (body & post & -> & -> & Hb).
      exists (String c body), post. repeat split.
      cbn [Str.occurs]. rewrite C, Hb. reflexivity.
Qed.

Lemma upToLastClose_spec (s m : string) :
  upToLastClose s = Some m ->
  exists body post,
    s = (body ++ "}" ++ post)%string
    /\ m = (body ++ "}")%string
    /\ Str.occurs "}" post = false.
Proof.
  revert m. induction s as [|c r IH]; intros m H; cbn [upToLastClose] in H.
  - discriminate.
  - destruct (upToLastClose r) as [m'|] eqn:R.
    + inversion H; subst.
      destruct (IH m' eq_refl) as (body & post & -> & -> & Hp).
      exists (String c body), post. repeat split. exact Hp.
    + destruct (Ascii.eqb c "}") eqn:C; [|discriminate].
      apply Ascii.eqb_eq in C. subst c. inversion H; subst.
      exists EmptyString, r. repeat split.
      clear H IH. induction r as [|d r IHr]; [reflexivity|].
      cbn [upToLastClose] in R. cbn [Str.occurs].
      destruct (upToLastClose r); [discriminate|].
      destruct (Ascii.eqb d "}"); [discriminate|]. apply IHr. reflexivity.
Qed.

(** *** The engine on the two brace expressions *)

Import Regex.

Lemma consume_map (c : ascii) (marks : list string) (o : option string) :
  consume (String c EmptyString) (option_map (fun m => (m, marks)) o)
  = option_map (fun m => (m, marks)) (option_map (String c) o).
Proof. destruct o; reflexivity. Qed.

Lemma star_lazy_step cls k (c : ascii) (r : string) :
  star false cls k (String c r)
  = orElse (k (String c r))
           (fun _ => if cls c
                     then consume (String c EmptyString) (star false cls k r)
                     else None).
Proof. reflexivity. Qed.

Lemma star_greedy_step cls k (c : ascii) (r : string) :
  star true cls k (String c r)
  = orElse (if cls c
            then consume (String c EmptyString) (star true cls k r)
            else None)
           (fun _ => k (String c r)).
Proof. reflexivity. Qed.

(** The continuation [\}] followed by a tail that matches the empty
    string. *)
Lemma close_then_tail (tail : list item) (marks : list string) :
  (forall s, matchSeq tail s = Some (EmptyString, marks)) ->
  forall (c : ascii) (r : string),
    matchSeq (Lit "}" :: tail) (String c r)
    = if Ascii.eqb c "}" then Some ("}", marks) else None.
Proof.
  intros Ht c r. cbn [matchSeq dropPrefix]. rewrite (Ascii.eqb_sym "}" c).
  destruct (Ascii.eqb c "}"); [rewrite Ht|]; reflexivity.
Qed.

Lemma lazy_star_close (tail : list item) (marks : list string) :
  (forall s, matchSeq tail s = Some (EmptyString, marks)) ->
  forall r,
    star false any (matchSeq (Lit "}" :: tail)) r
    = option_map (fun m => (m, marks)) (upToFirstClose r).
Proof.
  intros Ht. pose proof (@close_then_tail tail marks Ht) as Hk.
  induction r as [|c r IH]; [reflexivity|].
  rewrite star_lazy_step, Hk, IH. cbn [upToFirstClose any].
  destruct (Ascii.eqb c "}") eqn:C.
  - apply Ascii.eqb_eq in C. subst c. reflexivity.
  - cbn [orElse]. apply consume_map.
Qed.

Lemma greedy_star_close (tail : list item) (marks : list string) :
  (forall s, matchSeq tail s = Some (EmptyString, marks)) ->
  forall r,
    star true any (matchSeq (Lit "}" :: tail)) r
    = option_map (fun m => (m, marks)) (upToLastClose r).
Proof.
  intros Ht. pose proof (@close_then_tail tail marks Ht) as Hk.
  induction r as [|c r IH]; [reflexivity|].
  rewrite star_greedy_step, Hk, IH, consume_map.
  cbn [upToLastClose any].
  destruct (upToLastClose r) as [m|]; [reflexivity|].
  cbn [option_map orElse].
  destruct (Ascii.eqb c "}") eqn:C; [|reflexivity].
  apply Ascii.eqb_eq in C. subst c. reflexivity.
Qed.

Lemma no_close_no_span (r : string) :
  upToFirstClose r = None -> firstBraceToFirstClose r = None.
Proof.
  induction r as [|c r IH]; [reflexivity|].
  cbn [upToFirstClose firstBraceToFirstClose].
  destruct (Ascii.eqb c "}"); [discriminate|].
  destruct (upToFirstClose r); [discriminate|]. intros _.
  destruct (Ascii.eqb c "{"); [reflexivity | apply IH; reflexivity].
Qed.

Lemma no_close_no_wide_span (r : string) :
  upToLastClose r = None -> firstBraceToLastClose r = None.
Proof.
  induction r as [|c r IH]; [reflexivity|].
  cbn [upToLastClose firstBraceToLastClose].
  destruct (upToLastClose r); [discriminate|]. intros _.
  destruct (Ascii.eqb c "{"); [reflexivity | apply IH; reflexivity].
Qed.

Lemma search_lazy_braces (tail : list item) (marks : list string) :
  (forall s, matchSeq tail s = Some (EmptyString, marks)) ->
  forall s,
    search [Lit "{" :: Star false any :: Lit "}" :: tail] s
    = option_map (fun m => (m, marks)) (firstBraceToFirstClose s).
Proof.
  intros Ht. induction s as [|c r IH]; [reflexivity|].
  cbn [search firstAlt orElse firstBraceToFirstClose].
  change (matchSeq (Lit "{" :: Star false any :: Lit "}" :: tail) (String c r))
    with (match dropPrefix "{" (String c r) with
          | Some s' =>
              consume "{" (star false any (matchSeq (Lit "}" :: tail)) s')
          | None => None
          end).
  cbn [dropPrefix]. rewrite (Ascii.eqb_sym "{" c).
  destruct (Ascii.eqb c "{") eqn:C; [|cbn [orElse]; exact IH].
  apply Ascii.eqb_eq in C. subst c.
  rewrite (@lazy_star_close tail marks Ht).
  destruct (upToFirstClose r) as [m|] eqn:U; [reflexivity|].
  cbn [option_map consume orElse]. rewrite IH, (no_close_no_span _ U).
  reflexivity.
Qed.

Lemma search_greedy_braces (tail : list item) (marks : list string) :
  (forall s, matchSeq tail s = Some (EmptyString, marks)) ->
  forall s,
    search [Lit "{" :: Star true any :: Lit "}" :: tail] s
    = option_map (fun m => (m, marks)) (firstBraceToLastClose s).
Proof.
  intros Ht. induction s as [|c r IH]; [reflexivity|].
  cbn [search firstAlt orElse firstBraceToLastClose].
  change (matchSeq (Lit "{" :: Star true any :: Lit "}" :: tail) (String c r))
    with (match dropPrefix "{" (String c r) with
          | Some s' =>
              consume "{" (star true any (matchSeq (Lit "}" :: tail)) s')
          | None => None
          end).
  cbn [dropPrefix]. rewrite (Ascii.eqb_sym "{" c).
  destruct (Ascii.eqb c "{") eqn:C; [|cbn [orElse]; exact IH].
  apply Ascii.eqb_eq in C. subst c.
  rewrite (@greedy_star_close tail marks Ht).
  destruct (upToLastClose r) as [m|] eqn:U; [reflexivity|].
  cbn [option_map consume orElse]. rewrite IH, (no_close_no_wide_span _ U).
  reflexivity.
Qed.

Lemma search_mark (items : list item) (s : string) :
  search [Mark :: items] s
  = match search [items] s with
    | Some (m, marks) => Some (m, m :: marks)
    | None => None
    end.
Proof.
  induction s as [|c r IH]; cbn [search firstAlt matchSeq orElse].
  - destruct (matchSeq items EmptyString) as [[m marks]|]; reflexivity.
  - destruct (matchSeq items (String c r)) as [[m marks]|];
      [reflexivity | exact IH].
Qed.

Lemma substring_whole (m : string) : substring 0 (String.length m) m = m.
Proof. induction m as [|c m IH]; cbn; [reflexivity | rewrite IH; reflexivity]. Qed.

(** [/\{[\s\S]*?\}/] matches from the first [{] to the first [}] after
    it. *)
Lemma inlineMatch_direct (text : string) :
  inlineMatch text = firstBraceToFirstClose text.
Proof.
  unfold inlineMatch, inlineJsonRegex, matched.
  rewrite (@search_lazy_braces [] []) by reflexivity.
  destruct (firstBraceToFirstClose text); reflexivity.
Qed.

(** The expression of the second attempt matches the same. *)
Lemma strictMatch_direct (jsonText : string) :
  strictMatch jsonText = firstBraceToFirstClose jsonText.
Proof.
  unfold strictMatch, strictJsonRegex, group1.
  rewrite search_mark, (@search_lazy_braces [Mark] [EmptyString])
    by reflexivity.
  destruct (firstBraceToFirstClose jsonText) as [m|]; [|reflexivity].
  cbn [option_map String.length]. rewrite Nat.sub_0_r, substring_whole.
  reflexivity.
Qed.

(** [/\{[\s\S]*\}/] matches from the first [{] to the last [}]. *)
Lemma greedyMatch_direct (text : string) :
  greedyMatch text = firstBraceToLastClose text.
Proof.
  unfold greedyMatch, greedyJsonRegex, matched.
  rewrite (@search_greedy_braces [] []) by reflexivity.
  destruct (firstBraceToLastClose text); reflexivity.
Qed.

Lemma inlineMatch_spec (s m : string) :
  inlineMatch s = Some m ->
  exists pre body post,
    s = (pre ++ "{" ++ body ++ "}" ++ post)%string
    /\ m = ("{" ++ body ++ "}")%string
    /\ Str.occurs "{" pre = false
    /\ Str.occurs "}" body = false.
Proof.
  rewrite inlineMatch_direct.
  revert m. induction s as [|c r IH]; intros m H;
    cbn [firstBraceToFirstClose] in H.
  - discriminate.
  - destruct (Ascii.eqb c "{") eqn:C.
    + apply Ascii.eqb_eq in C. subst c.
      destruct (upToFirstClose r) as [m'|] eqn:U; [|discriminate].
      inversion H; subst.
      destruct (upToFirstClose_spec _ U) as (body & post & -> & -> & Hb).
      exists EmptyString, body, post. repeat split. exact Hb.
    + destruct (IH m H) as (pre & body & post & -> & -> & Hp & Hb).
      exists (String c pre), body, post. repeat split; [|exact Hb].
      cbn [Str.occurs]. rewrite C, Hp. reflexivity.
Qed.

Lemma greedyMatch_spec (s m : string) :
  greedyMatch s = Some m ->
  exists pre body post,
    s = (pre ++ "{" ++ body ++ "}" ++ post)%string
    /\ m = ("{" ++ body ++ "}")%string
    /\ Str.occurs "{" pre = false
    /\ Str.occurs "}" post = false.
Proof.
  rewrite greedyMatch_direct.
  revert m. induction s as [|c r IH]; intros m H;
    cbn [firstBraceToLastClose] in H.
  - discriminate.
  - destruct (Ascii.eqb c "{") eqn:C.
    + apply Ascii.eqb_eq in C. subst c.
      destruct (upToLastClose r) as [m'|] eqn:U; [|discriminate].
      inversion H; subst.
      destruct (upToLastClose_spec _ U) as (body & post & -> & -> & Hb).
      exists EmptyString, body, post. repeat split. exact Hb.
    + destruct (IH m H) as (pre & body & post & -> & -> & Hp & Hb).
      exists (String c pre), body, post. repeat split; [|exact Hb].
      cbn [Str.occurs]. rewrite C, Hp. reflexivity.
Qed.

(** *** The second attempt *)

Variable JSON_parse : string -> Except Json.


(** A candidate chosen by the third rule is its own re-scan: the second
    attempt parses the same string again. *)
Lemma strictMatch_inlineMatch (text m : string) :
  inlineMatch text = Some m -> strictMatch m = Some m.
Proof.
  intros H.
  destruct (inlineMatch_spec _ H) as (pre & body & post & _ & -> & _ & Hb).
  rewrite strictMatch_direct. cbn [append firstBraceToFirstClose].
  rewrite Ascii.eqb_refl.
  clear H. induction body as [|c b IH]; cbn [append upToFirstClose].
  - rewrite Ascii.eqb_refl. reflexivity.
  - cbn [Str.occurs] in Hb. apply orb_false_iff in Hb. destruct Hb as [Hc Hb].
    rewrite Hc. specialize (IH Hb). cbn [option_map] in *.
    destruct (upToFirstClose (b ++ "}")); [|discriminate].
    inversion IH; subst. reflexivity.
Qed.

End ExtractFacts.

(** The reply [Here is the diagram: {...nested object...} Hope this helps.]
    has no fence and does not start with a brace, so the third rule
    applies.  The code takes the span from the first [{] to the first [}]
    after it, which leaves the outer object unclosed; the second attempt scans
    the cut string with the same expression and parses the same cut string
    again; the step throws and the operation falls back to the diagram of the
    input agents.  The expression of [processInitialDescription] takes the
    whole object from the same reply. *)
Lemma nested_reply_cut_at_first_brace
      (JSON_parse : string -> Except Js.Json) (agents : list Js.Json)
      (parseError : JsError) :
  JSON_parse Samples.truncatedObject = Throw parseError ->
  Extract.selectJsonText Samples.nestedReply = Ok Samples.truncatedObject
  /\ Extract.greedyMatch Samples.nestedReply = Some Samples.wholeObject
  /\ Samples.truncatedObject <> Samples.wholeObject
  /\ Extract.parseWithFallback JSON_parse Samples.truncatedObject
     = (Throw parseError, [Samples.truncatedObject; Samples.truncatedObject])
  /\ Extract.extractJson JSON_parse Samples.nestedReply = Throw parseError
  /\ Diagram.diagramFromText JSON_parse agents Samples.nestedReply
     = Diagram.fallbackDiagram agents.
Proof.
  intros Hparse.
  assert (S1 : Extract.selectJsonText Samples.nestedReply
               = Ok Samples.truncatedObject) by (vm_compute; reflexivity).
  assert (S2 : Extract.strictMatch Samples.truncatedObject
               = Some Samples.truncatedObject) by (vm_compute; reflexivity).
  assert (P : Extract.parseWithFallback JSON_parse Samples.truncatedObject
              = (Throw parseError,
                 [Samples.truncatedObject; Samples.truncatedObject])).
  { unfold Extract.parseWithFallback. rewrite Hparse, S2, Hparse. reflexivity. }
  assert (X : Extract.extractJson JSON_parse Samples.nestedReply
              = Throw parseError).
  { unfold Extract.extractJson. rewrite S1, P. reflexivity. }
  repeat split; try assumption; try (vm_compute; reflexivity).
  - vm_compute. discriminate.
  - unfold Diagram.diagramFromText. rewrite X. reflexivity.
Qed.


Section ExtractionOrder.

Import Js Extract.

Variable JSON_parse : string -> Except Json.




End ExtractionOrder.


(** ** Numbers that may be NaN *)

Section JsNumFacts.

Import Num.
Local Open Scope Q_scope.

Lemma Qle_bool_false (a b : Q) : Qle_bool a b = false -> b < a.
Proof.
  intros H. apply Qnot_le_lt. intros L. apply Qle_bool_iff in L. congruence.
Qed.

Lemma Qeq_bool_false (a b : Q) : Qeq_bool a b = false -> ~ a == b.
Proof. intros H E. apply Qeq_bool_iff in E. congruence. Qed.

(** Case analysis on every comparison in sight, then linear arithmetic. *)
Ltac compare_step :=
  match goal with
  | |- context [Qle_bool ?a ?b] =>
      let E := fresh "E" in
      destruct (Qle_bool a b) eqn:E;
      [apply Qle_bool_iff in E | apply Qle_bool_false in E]
  | H : context [Qle_bool ?a ?b] |- _ =>
      let E := fresh "E" in
      destruct (Qle_bool a b) eqn:E;
      [apply Qle_bool_iff in E | apply Qle_bool_false in E]
  | |- context [Qeq_bool ?a ?b] =>
      let E := fresh "E" in
      destruct (Qeq_bool a b) eqn:E;
      [apply Qeq_bool_iff in E | apply Qeq_bool_false in E]
  end.

Ltac compare_all :=
  cbn in *; repeat (compare_step; cbn in *);
  try discriminate; try tauto; try reflexivity; try lra.

Ltac num_cases :=
  unfold Spec.larger, atLeastZero, gt, gtb, add, eqv, isNaN in *; compare_all.

Lemma eqv_refl (a : JsNum) : eqv a a.
Proof. destruct a; cbn; try exact I. reflexivity. Qed.

Lemma eqv_sym (a b : JsNum) : eqv a b -> eqv b a.
Proof. destruct a, b; cbn; try tauto. intros H. symmetry. exact H. Qed.

Lemma eqv_trans (a b c : JsNum) : eqv a b -> eqv b c -> eqv a c.
Proof.
  destruct a, b, c; cbn; try tauto. intros H1 H2. rewrite H1. exact H2.
Qed.

Lemma add_eqv (a a' b b' : JsNum) :
  eqv a a' -> eqv b b' -> eqv (add a b) (add a' b').
Proof.
  destruct a, a', b, b'; cbn; try tauto. intros H1 H2. rewrite H1, H2.
  reflexivity.
Qed.

Lemma add_assoc (a b c : JsNum) : eqv (add (add a b) c) (add a (add b c)).
Proof. destruct a, b, c; cbn; try exact I. ring. Qed.

Lemma add_zero_l (a : JsNum) : eqv (add (Fin 0) a) a.
Proof. destruct a; cbn; try exact I. ring. Qed.

Lemma add_zero_r (a : JsNum) : eqv (add a (Fin 0)) a.
Proof. destruct a; cbn; try exact I. ring. Qed.

Lemma divCount_eqv (a b : JsNum) (n : nat) :
  eqv a b -> eqv (divCount a n) (divCount b n).
Proof.
  destruct a, b; cbn; try tauto. intros H. destruct n.
  - compare_all.
  - cbn. rewrite H. reflexivity.
Qed.

(** [reduce] with [+], against the sum taken from the right. *)
Lemma fold_left_add (xs : list JsNum) :
  forall acc, eqv (fold_left add xs acc) (add acc (Spec.total xs)).
Proof.
  induction xs as [|x xs IH]; intros acc; cbn [fold_left Spec.total fold_right].
  - apply eqv_sym, add_zero_r.
  - eapply eqv_trans; [apply IH|]. apply add_assoc.
Qed.

Lemma larger_atLeastZero (s m : JsNum) :
  atLeastZero m -> atLeastZero (Spec.larger s m).
Proof.
  unfold atLeastZero. intros [H1 H2].
  destruct s, m; num_cases; split; num_cases.
Qed.

Lemma maxScore_atLeastZero (scores : list JsNum) :
  atLeastZero (Spec.maxScore scores).
Proof.
  induction scores as [|s l IH]; cbn [Spec.maxScore fold_right].
  - split; reflexivity.
  - apply larger_atLeastZero, IH.
Qed.

Lemma larger_eqv_r (s m m' : JsNum) :
  eqv m m' -> eqv (Spec.larger s m) (Spec.larger s m').
Proof. destruct s, m, m'; num_cases. Qed.

Lemma larger_swap (s acc m : JsNum) :
  atLeastZero acc -> atLeastZero m ->
  eqv (Spec.larger (Spec.larger s acc) m) (Spec.larger acc (Spec.larger s m)).
Proof.
  unfold atLeastZero. intros [A1 A2] [M1 M2].
  destruct s, acc, m; num_cases.
Qed.

(** The running best of the loop, against the maximum taken from the
    right. *)
Lemma fold_left_larger (scores : list JsNum) :
  forall acc,
    atLeastZero acc ->
    eqv (fold_left (fun best s => Spec.larger s best) scores acc)
        (Spec.larger acc (Spec.maxScore scores)).
Proof.
  induction scores as [|s l IH]; intros acc Hacc;
    cbn [fold_left Spec.maxScore fold_right].
  - destruct Hacc as [A1 A2]. destruct acc; num_cases.
  - eapply eqv_trans; [apply IH, larger_atLeastZero, Hacc|].
    apply larger_swap; [exact Hacc | apply maxScore_atLeastZero].
Qed.

Lemma running_best_is_maxScore (scores : list JsNum) :
  eqv (fold_left (fun best s => Spec.larger s best) scores (Fin 0))
      (Spec.maxScore scores).
Proof.
  eapply eqv_trans; [apply fold_left_larger; split; reflexivity|].
  destruct (maxScore_atLeastZero scores) as [M1 M2].
  destruct (Spec.maxScore scores); num_cases.
Qed.

(** The maximum is a number, no score exceeds it, and it is one of the
    scores unless none of them is above zero. *)
Lemma maxScore_upper_bound (scores : list JsNum) (s : JsNum) :
  In s scores -> gt s (Spec.maxScore scores) = false.
Proof.
  induction scores as [|x l IH]; [intros []|].
  intros [->|Hin]; cbn [Spec.maxScore fold_right].
  - pose proof (maxScore_atLeastZero l) as [M1 M2].
    fold (Spec.maxScore l). destruct s, (Spec.maxScore l); num_cases.
  - specialize (IH Hin). pose proof (maxScore_atLeastZero l) as [M1 M2].
    fold (Spec.maxScore l) in *.
    destruct s, x, (Spec.maxScore l); num_cases.
Qed.

Lemma maxScore_attained (scores : list JsNum) :
  In (Spec.maxScore scores) scores \/ Spec.maxScore scores = Fin 0.
Proof.
  induction scores as [|x l IH]; [right; reflexivity|].
  cbn [Spec.maxScore fold_right]. fold (Spec.maxScore l).
  unfold Spec.larger. destruct (gt x (Spec.maxScore l)).
  - left. left. reflexivity.
  - destruct IH as [IH|IH]; [left; right; exact IH | right; exact IH].
Qed.

End JsNumFacts.

(** ** Entity-match evaluator *)

Section MatcherFacts.

Import Js Num Matcher.

(** The inner loop computes the scores one after the other and keeps the
    running best. *)
Lemma bestMatch_fold (actual : list Json) (expectedEntity : Json) :
  forall best,
    bestMatch actual expectedEntity best
    = match mapM (fun actualEntity =>
                    calculateEntityMatchScore actualEntity expectedEntity)
                 actual with
      | Ok scores =>
          Ok (fold_left (fun best s => Spec.larger s best) scores best)
      | Throw e => Throw e
      end.
Proof.
  induction actual as [|a l IH]; intros best; cbn [bestMatch mapM].
  - reflexivity.
  - destruct (calculateEntityMatchScore a expectedEntity) as [s|e];
      [|reflexivity].
    rewrite IH.
    destruct (mapM (fun actualEntity =>
                      calculateEntityMatchScore actualEntity expectedEntity) l);
      reflexivity.
Qed.

(** The outer loop adds up the best matches of the specification, and
    throws what it throws. *)
Lemma accumulate_bestMatches (actual expected : list Json) :
  forall matchCount,
    match Spec.bestMatches actual expected with
    | Ok bests =>
        exists r, accumulate actual expected matchCount = Ok r
                  /\ eqv r (add matchCount (Spec.total bests))
    | Throw e => accumulate actual expected matchCount = Throw e
    end.
Proof.
  unfold Spec.bestMatches.
  induction expected as [|x l IH]; intros matchCount;
    cbn [accumulate mapM].
  - exists matchCount. split; [reflexivity|]. apply eqv_sym, add_zero_r.
  - rewrite bestMatch_fold.
    destruct (mapM (fun actualEntity =>
                      calculateEntityMatchScore actualEntity x) actual)
      as [scores|e]; [|reflexivity].
    set (best := fold_left (fun best s => Spec.larger s best) scores (Fin 0)).
    specialize (IH (add matchCount best)).
    destruct (mapM _ l) as [bests|e]; [|exact IH].
    destruct IH as (r & Hr & Er). exists r. split; [exact Hr|].
    eapply eqv_trans; [exact Er|].
    eapply eqv_trans; [apply add_assoc|].
    apply add_eqv; [apply eqv_refl|].
    cbn [Spec.total fold_right].
    apply add_eqv; [apply running_best_is_maxScore | apply eqv_refl].
Qed.

(** *** The evaluator returns *)

(** Induction on a JSON value, with the hypothesis for every element of an
    array and every property value of an object. *)
Lemma Json_nested_ind (P : Json -> Prop) :
  P JNull ->
  (forall b, P (JBool b)) ->
  (forall q, P (JNum q)) ->
  (forall s, P (JStr s)) ->
  (forall items, Forall P items -> P (JArr items)) ->
  (forall fields, Forall (fun kv => P (snd kv)) fields -> P (JObj fields)) ->
  forall v, P v.
Proof.
  intros Hnull Hbool Hnum Hstr Harr Hobj.
  fix IH 1. intros [ | b | q | s | items | fields ].
  - exact Hnull.
  - apply Hbool.
  - apply Hnum.
  - apply Hstr.
  - apply Harr. induction items as [|x l IHl]; constructor;
      [apply IH | exact IHl].
  - apply Hobj. induction fields as [|[k x] l IHl]; constructor;
      [apply IH | exact IHl].
Qed.

Lemma keys_nonNull (v : Json) : nonNull v -> exists ks, keys v = Ok ks.
Proof.
  intros H. destruct v; try (eexists; reflexivity). elim H. reflexivity.
Qed.

Lemma isObject_nonNull (v : Json) : isObject v = true -> nonNull v.
Proof. destruct v; cbn; intros H; try discriminate; intros E; discriminate. Qed.

Lemma find_In {D} (key : string) (table : list (string * D)) (d : D) :
  find key table = Some d -> exists k, In (k, d) table.
Proof.
  induction table as [|[k x] l IH]; cbn [find]; [discriminate|].
  destruct (String.eqb key k).
  - intros H. inversion H; subst. exists k. left. reflexivity.
  - intros H. destruct (IH H) as [k' Hk]. exists k'. right. exact Hk.
Qed.

Lemma keyScore_returns (ev av : Json) (recur : Json -> Except JsNum) :
  (isObject ev = true -> isObject av = true -> exists s, recur av = Ok s) ->
  exists s, keyScore ev av recur = Ok s.
Proof.
  intros H. unfold keyScore.
  destruct ev, av; cbn [isObject andb];
    try (eexists; reflexivity);
    try (apply H; reflexivity);
    try (destruct (strictEquals _ _); eexists; reflexivity).
Qed.

Lemma keyLoop_returns allKeys expectedProps actualProps :
  Forall recursionReturns expectedProps ->
  forall matchScore totalKeys,
    exists r, keyLoop allKeys expectedProps actualProps matchScore totalKeys
              = Ok r.
Proof.
  intros T. induction allKeys as [|key rest IH]; intros matchScore totalKeys;
    cbn [keyLoop].
  - eexists; reflexivity.
  - destruct (find key expectedProps) as [[ev recur]|] eqn:F; [|apply IH].
    destruct (find key actualProps) as [[av u]|]; [|apply IH].
    destruct (find_In _ _ F) as [k Hin].
    rewrite Forall_forall in T. specialize (T _ Hin).
    destruct (@keyScore_returns ev av recur) as [s ->]; [|apply IH].
    intros He Ha. exact (T av He Ha).
Qed.

Lemma props_recursionReturns (expected : Json) :
  match expected with
  | JArr items =>
      Forall (fun x => forall av, isObject x = true -> isObject av = true ->
                                  exists s, matchScoreOn x av = Ok s) items
  | JObj fields =>
      Forall (fun kv => forall av, isObject (snd kv) = true ->
                                   isObject av = true ->
                                   exists s, matchScoreOn (snd kv) av = Ok s)
             fields
  | _ => True
  end ->
  Forall recursionReturns
         (props matchScoreOn (fun _ => Ok (Fin 0)) expected).
Proof.
  intros H. unfold props.
  assert (L : forall n, recursionReturns
                          ("length", (JNum (inject_Z (Z.of_nat n)),
                                      fun _ : Json => Ok (Fin 0)))).
  { intros n av _ _. eexists; reflexivity. }
  destruct expected as [ | b | q | s | items | fields ]; try constructor.
  - apply Forall_app. split; [|constructor; [apply L | constructor]].
    apply Forall_forall. intros [k [x r]] Hin.
    apply in_combine_r in Hin. apply in_map_iff in Hin.
    destruct Hin as (c & Hc & _). inversion Hc; subst.
    intros av _ _. eexists; reflexivity.
  - apply Forall_app. split; [|constructor; [apply L | constructor]].
    apply Forall_forall. intros [k [x r]] Hin.
    apply in_combine_r in Hin. apply in_map_iff in Hin.
    destruct Hin as (y & Hy & Hin). inversion Hy; subst.
    rewrite Forall_forall in H. intros av He Ha. exact (H _ Hin av He Ha).
  - apply Forall_forall. intros [k [x r]] Hin. apply in_map_iff in Hin.
    destruct Hin as (kv & Hkv & Hin). inversion Hkv; subst.
    rewrite Forall_forall in H. intros av He Ha. exact (H _ Hin av He Ha).
Qed.

(** For two values that are not [null] the match score is computed. *)
Lemma matchScoreOn_returns (expected : Json) :
  nonNull expected ->
  forall actual, nonNull actual ->
                 exists s, matchScoreOn expected actual = Ok s.
Proof.
  assert (Finish : forall e a aks eks,
             keys a = Ok aks -> keys e = Ok eks ->
             Forall recursionReturns
                    (props matchScoreOn (fun _ => Ok (Fin 0)) e) ->
             exists s, matchScoreOn e a = Ok s).
  { intros e a aks eks Ha He T.
    destruct (@keyLoop_returns (setOf (aks ++ eks))
                (props matchScoreOn (fun _ => Ok (Fin 0)) e)
                (props (fun _ => tt) tt a) T (Fin 0) O) as [[ms tk] K].
    destruct e; cbn [matchScoreOn]; rewrite Ha;
      cbn [keys] in He |- *; try discriminate;
      inversion He; subst; rewrite K; eexists; reflexivity. }
  induction expected as [ | b | q | s | items IH | fields IH ]
    using Json_nested_ind; intros He actual Ha;
    destruct (keys_nonNull Ha) as [aks Haks].
  - elim He. reflexivity.
  - eapply Finish; [exact Haks | reflexivity |].
    apply props_recursionReturns. exact I.
  - eapply Finish; [exact Haks | reflexivity |].
    apply props_recursionReturns. exact I.
  - eapply Finish; [exact Haks | reflexivity |].
    apply props_recursionReturns. exact I.
  - eapply Finish; [exact Haks | reflexivity |].
    apply props_recursionReturns.
    eapply Forall_impl; [|exact IH]. cbn beta.
    intros x Hx av Hox Hoa. apply Hx; apply isObject_nonNull; assumption.
  - eapply Finish; [exact Haks | reflexivity |].
    apply props_recursionReturns.
    eapply Forall_impl; [|exact IH]. cbn beta.
    intros kv Hx av Hox Hoa. apply Hx; apply isObject_nonNull; assumption.
Qed.

Lemma calculateEntityMatchScore_returns (actual expected : Json) :
  nonNull actual -> nonNull expected ->
  exists s, calculateEntityMatchScore actual expected = Ok s.
Proof. intros Ha He. apply matchScoreOn_returns; assumption. Qed.

Lemma bestMatches_returns (actual expected : list Json) :
  Forall nonNull actual -> Forall nonNull expected ->
  exists bests, Spec.bestMatches actual expected = Ok bests.
Proof.
  intros Ha He. unfold Spec.bestMatches. apply mapM_total.
  eapply Forall_impl; [|exact He]. intros e Hne.
  destruct (mapM_total (fun a => calculateEntityMatchScore a e) (l := actual))
    as [scores ->]; [|eexists; reflexivity].
  eapply Forall_impl; [|exact Ha]. intros a Hna.
  apply calculateEntityMatchScore_returns; assumption.
Qed.

Lemma calculateEntityAccuracy_returns (actual expected : list Json) :
  Forall nonNull actual -> Forall nonNull expected ->
  exists s, calculateEntityAccuracy actual expected = Ok s.
Proof.
  intros Ha He. unfold calculateEntityAccuracy.
  destruct (List.length expected =? 0)%nat; [eexists; reflexivity|].
  destruct (List.length actual =? 0)%nat; [eexists; reflexivity|].
  pose proof (accumulate_bestMatches actual expected (Fin 0)) as H.
  destruct (bestMatches_returns Ha He) as [bests Hb]. rewrite Hb in H.
  destruct H as (r & -> & _). eexists; reflexivity.
Qed.

(** The overlap of two empty arrays is 0/0: two entities that agree on
    every key but carry an empty list score NaN, and NaN is no best match. *)
Lemma empty_arrays_score_NaN :
  calculateEntityMatchScore Samples.idle Samples.idle = Ok NaN
  /\ calculateEntityAccuracy [Samples.idle] [Samples.idle] = Ok (Fin 0).
Proof. split; vm_compute; reflexivity. Qed.

End MatcherFacts.

(** ** The scorer and the evaluator as total functions *)

Section Totality.

Import Js Num Scorer Matcher.

Lemma keyLoop_no_expected_props allKeys actualProps :
  forall matchScore totalKeys,
    keyLoop allKeys [] actualProps matchScore totalKeys
    = Ok (matchScore, totalKeys).
Proof.
  induction allKeys as [|k l IH]; intros; cbn [keyLoop Matcher.find];
    [reflexivity | apply IH].
Qed.

Lemma no_keys_scores_zero (actual : Json) :
  nonNull actual -> calculateEntityMatchScore actual (JObj []) = Ok (Fin 0).
Proof.
  intros Ha. unfold calculateEntityMatchScore. cbn [matchScoreOn].
  destruct (keys_nonNull Ha) as [aks ->]. cbn [keys props List.map].
  rewrite keyLoop_no_expected_props. reflexivity.
Qed.

Lemma nameless_agent_throws c systemDescription ags :
  agents c = Some ags ->
  Exists (fun a => agent_name a = None) ags ->
  exists e, calculateConfidenceScores c systemDescription = Throw e.
Proof.
  intros Hc Hex. unfold calculateConfidenceScores, mapIfPresent. rewrite Hc.
  destruct (mapM_throws (scoreAgent systemDescription) (l := ags)) as [e ->].
  - eapply Exists_impl; [|exact Hex]. intros a Hn.
    unfold scoreAgent. rewrite Hn. cbn [requireName]. eexists; reflexivity.
  - eexists; reflexivity.
Qed.

End Totality.

(** ** The retry controller, in general *)

Section RetryBounds.

Import Retry.

Variables T E W : Type.
Variable message : E -> string.
Variable fn : W -> (T + E) * W.

(** X1.  Whatever the operation does, [withRetry] settles: the operation
    is invoked at least once and at most four times (maxRetries + 1), one
    wait separates two invocations, and the waits are the first of 1000,
    2000 and 4000 ms, in that order: the cap of 8000 ms is never
    reached. *)
Theorem withRetry_at_most_four_invocations (w : W) :
  exists o w' trace,
    withRetry message fn w = Some (o, w', trace)
    /\ (1 <= invocations trace <= 4)%nat
    /\ S (List.length (sleeps trace)) = invocations trace
    /\ exists k, sleeps trace = firstn k [1000; 2000; 4000].
Proof.
  unfold withRetry, withRetry_from.
  change (S (maxRetries RETRY_CONFIG)) with 4%nat.
  change (initialDelay RETRY_CONFIG) with 1000.
  rewrite loop_step.
  destruct (fn w) as [[v|e1] w1].
  { do 3 eexists. split; [reflexivity|]. cbn. repeat split; try lia.
    exists 0%nat. reflexivity. }
  destruct (transient message e1); cbn [negb orb Nat.ltb Nat.leb maxRetries RETRY_CONFIG].
  2:{ do 3 eexists. split; [reflexivity|]. cbn. repeat split; try lia.
    exists 0%nat. reflexivity. }
  rewrite loop_step.
  destruct (fn w1) as [[v|e2] w2].
  { do 3 eexists. split; [reflexivity|]. cbn. repeat split; try lia.
    exists 1%nat. reflexivity. }
  destruct (transient message e2); cbn [negb orb Nat.ltb Nat.leb maxRetries RETRY_CONFIG].
  2:{ do 3 eexists. split; [reflexivity|]. cbn. repeat split; try lia.
    exists 1%nat. reflexivity. }
  rewrite loop_step.
  destruct (fn w2) as [[v|e3] w3].
  { do 3 eexists. split; [reflexivity|]. cbn. repeat split; try lia.
    exists 2%nat. reflexivity. }
  destruct (transient message e3); cbn [negb orb Nat.ltb Nat.leb maxRetries RETRY_CONFIG].
  2:{ do 3 eexists. split; [reflexivity|]. cbn. repeat split; try lia.
    exists 2%nat. reflexivity. }
  rewrite loop_step.
  destruct (fn w3) as [[v|e4] w4].
  { do 3 eexists. split; [reflexivity|]. cbn. repeat split; try lia.
    exists 3%nat. reflexivity. }
  cbn [negb orb Nat.ltb Nat.leb maxRetries RETRY_CONFIG].
  do 3 eexists. split; [reflexivity|]. cbn. repeat split; try lia.
  exists 3%nat. reflexivity.
Qed.

(** X2.  An operation that fails with a transient error ("rate limit" or
    "timeout" in the message) three times and then fails again:
    [withRetry] rejects with the fourth error, whatever it is, after four
    invocations and waits of 1000, 2000 and 4000 ms. *)
Theorem withRetry_gives_up_after_three_retries w0 w1 w2 w3 w4 e1 e2 e3 e4 :
  fn w0 = (inr e1, w1) -> transient message e1 = true ->
  fn w1 = (inr e2, w2) -> transient message e2 = true ->
  fn w2 = (inr e3, w3) -> transient message e3 = true ->
  fn w3 = (inr e4, w4) ->
  withRetry message fn w0
  = Some (Rejected T e4, w4,
          [Invoke; Sleep 1000; Invoke; Sleep 2000; Invoke; Sleep 4000;
           Invoke]).
Proof.
  intros H0 T1 H1 T2 H2 T3 H3.
  unfold withRetry, withRetry_from.
  change (S (maxRetries RETRY_CONFIG)) with 4%nat.
  erewrite loop_retry; [| exact H0 | cbn; lia | exact T1].
  erewrite loop_retry; [| exact H1 | cbn; lia | exact T2].
  erewrite loop_retry; [| exact H2 | cbn; lia | exact T3].
  erewrite loop_give_up; [reflexivity | exact H3 | reflexivity].
Qed.

End RetryBounds.

Lemma withRetry_gives_up_after_three_retries_witness :
  Retry.withRetry (fun m : string => m) Cases.limited 0%nat
  = Some (Retry.Rejected Z "request timeout", 4%nat,
          [Retry.Invoke; Retry.Sleep 1000; Retry.Invoke; Retry.Sleep 2000;
           Retry.Invoke; Retry.Sleep 4000; Retry.Invoke]).
Proof.
  exact (@withRetry_gives_up_after_three_retries
           Z string nat (fun m => m) Cases.limited 0%nat 1%nat 2%nat 3%nat 4%nat
           "request timeout" "request timeout" "request timeout"
           "request timeout" eq_refl eq_refl eq_refl eq_refl eq_refl eq_refl
           eq_refl).
Defined.

(** ** Tool-selection scorer *)

Section ToolScorerFacts.

Import Lists ToolScorer.
Local Open Scope Q_scope.

Lemma count_nonneg {A} (xs : list A) : 0 <= count xs.
Proof. unfold count, Num.ofZ. apply inject_nonneg. lia. Qed.

Lemma count_pos {A} (x : A) (xs : list A) : 0 < count (x :: xs).
Proof.
  unfold count, Num.ofZ. change 0 with (inject_Z 0). rewrite <- Zlt_Qlt.
  cbn [List.length]. lia.
Qed.

(** The share of an agent's tools that were selected. *)
Lemma toolCompatibility_range (toolSelections : list string)
      (t : string) (ts : list string) :
  0 <= count (List.filter (includes toolSelections) (t :: ts))
       / count (t :: ts) <= 1.
Proof.
  pose proof (count_pos t ts) as P.
  split.
  - apply Qle_shift_div_l; [exact P|]. rewrite Qmult_0_l. apply count_nonneg.
  - apply Qle_shift_div_r; [exact P|]. rewrite Qmult_1_l.
    unfold count, Num.ofZ. rewrite <- Zle_Qle.
    apply Nat2Z.inj_le, filter_length_le.
Qed.

Lemma agentConfidence_range (agent : Agent) (toolSelections : list string) :
  (0 <= calculateToolSelectionAgentConfidence agent toolSelections <= 85)%Z.
Proof.
  unfold calculateToolSelectionAgentConfidence.
  assert (R : forall t ts,
             (0 <= Num.round
                     (count (List.filter (includes toolSelections) (t :: ts))
                      / count (t :: ts) * 30) <= 30)%Z).
  { intros t ts. pose proof (toolCompatibility_range toolSelections t ts) as C.
    revert C. generalize (count (List.filter (includes toolSelections) (t :: ts))
                          / count (t :: ts)). intros q C.
    apply round_between; [change (inject_Z 0) with 0
                         | change (inject_Z 30) with 30]; lra. }
  destruct (longerThan 0 (agent_name agent)),
           (longerThan 20 (agent_description agent)),
           (Scorer.nonEmpty (agent_capabilities agent)),
           (agent_tools agent) as [[|t ts]|];
    try specialize (R t ts); lia.
Qed.

Lemma toolConfidence_range (tool : Tool) :
  (50 <= calculateToolSelectionToolConfidence tool <= 100)%Z.
Proof.
  unfold calculateToolSelectionToolConfidence.
  destruct (longerThan 0 (tool_name tool)),
           (longerThan 20 (tool_description tool)),
           (Js.truthy (tool_parameters tool)
            && Scorer.isSome (Js.asArray (tool_parameters tool)))%bool; lia.
Qed.

Lemma relationshipConfidence_range (rel : Relationship) :
  (50 <= calculateToolSelectionRelationshipConfidence rel <= 100)%Z.
Proof.
  unfold calculateToolSelectionRelationshipConfidence.
  destruct (longerThan 0 (rel_type rel)),
           (Scorer.truthy (rel_source rel)
            && Scorer.truthy (rel_target rel))%bool,
           (longerThan 10 (rel_description rel)); lia.
Qed.

(** The mean of scores that lie in a range lies in that range. *)
Lemma average_range (lo hi : Z) (scores : list Z) :
  scores <> [] ->
  Forall (fun s => (lo <= s <= hi)%Z) scores ->
  inject_Z lo <= average scores <= inject_Z hi.
Proof.
  intros N F. unfold average, Num.ofZ. rewrite sum_inject.
  assert (P : 0 < count scores).
  { destruct scores as [|x xs]; [congruence | apply count_pos]. }
  assert (S : (lo * Z.of_nat (List.length scores)
               <= fold_right Z.add 0%Z scores
               <= hi * Z.of_nat (List.length scores))%Z).
  { clear N P. induction F as [|y ys Hy _ IH].
    - cbn. lia.
    - cbn [fold_right List.length]. rewrite Nat2Z.inj_succ, !Z.mul_succ_r.
      lia. }
  split.
  - apply Qle_shift_div_l; [exact P|].
    unfold count, Num.ofZ. rewrite <- inject_Z_mult, <- Zle_Qle. lia.
  - apply Qle_shift_div_r; [exact P|].
    unfold count, Num.ofZ. rewrite <- inject_Z_mult, <- Zle_Qle. lia.
Qed.

Lemma Forall_map_range {A} (f : A -> Z) (lo hi : Z) (l : list A) :
  (forall a, (lo <= f a <= hi)%Z) ->
  Forall (fun s => (lo <= s <= hi)%Z) (List.map f l).
Proof. intros H. apply Forall_forall. intros s Hs.
       apply in_map_iff in Hs. destruct Hs as (a & <- & _). apply H. Qed.

(** X3.  In the tool-selection scorer the confidence of an agent lies
    between 0 and 85, so the cap of 100 in
    [calculateToolSelectionAgentConfidence] never applies; the confidence
    of a tool and that of a relationship lie between 50 and 100. *)
Theorem tool_selection_entity_confidence_ranges
        (agent : Agent) (tool : Tool) (rel : Relationship)
        (toolSelections : list string) :
  (0 <= calculateToolSelectionAgentConfidence agent toolSelections <= 85)%Z
  /\ (50 <= calculateToolSelectionToolConfidence tool <= 100)%Z
  /\ (50 <= calculateToolSelectionRelationshipConfidence rel <= 100)%Z.
Proof.
  split; [apply agentConfidence_range|].
  split; [apply toolConfidence_range | apply relationshipConfidence_range].
Qed.

(** X4.  The overall confidence of the tool-selection scorer lies between
    0 and 94: 40% of at most 85 and twice 30% of at most 100 make 94, so
    the cap of 95 is never reached. *)
Theorem tool_selection_overall_below_cap
        (design : Design) (toolSelections : list string) :
  (0 <= overall (calculateToolSelectionConfidenceScores design toolSelections)
   <= 94)%Z.
Proof.
  cbn [calculateToolSelectionConfidenceScores overall].
  unfold calculateToolSelectionOverallConfidence.
  assert (A : forall a ags,
             0 <= average (List.map (fun agent =>
                                       calculateToolSelectionAgentConfidence
                                         agent toolSelections) (a :: ags))
             <= 85).
  { intros a ags.
    apply (@average_range 0 85); [discriminate|].
    apply (@Forall_map_range _ _ 0%Z 85%Z (a :: ags)).
    intros x. apply agentConfidence_range. }
  assert (B : forall t tls,
             50 <= average (List.map calculateToolSelectionToolConfidence
                                     (t :: tls)) <= 100).
  { intros t tls.
    apply (@average_range 50 100); [discriminate|].
    apply (@Forall_map_range _ _ 50%Z 100%Z (t :: tls)).
    apply toolConfidence_range. }
  assert (C : forall r rels,
             50 <= average
                     (List.map calculateToolSelectionRelationshipConfidence
                               (r :: rels)) <= 100).
  { intros r rels.
    apply (@average_range 50 100); [discriminate|].
    apply (@Forall_map_range _ _ 50%Z 100%Z (r :: rels)).
    apply relationshipConfidence_range. }
  assert (K : forall q : Q, 0 <= q <= 94 ->
                            (0 <= Z.min 95 (Num.round q) <= 94)%Z).
  { intros q Hq.
    assert (0 <= Num.round q <= 94)%Z
      by (apply round_between; [change (inject_Z 0) with 0
                               | change (inject_Z 94) with 94]; lra).
    lia. }
  apply K.
  destruct (agents design) as [[|a ags]|], (tools design) as [[|t tls]|],
           (relationships design) as [[|r rels]|];
    try (specialize (A a ags); revert A;
         generalize (average (List.map (fun agent =>
                                       calculateToolSelectionAgentConfidence
                                         agent toolSelections) (a :: ags)));
         intros qa A);
    try (specialize (B t tls); revert B;
         generalize (average (List.map calculateToolSelectionToolConfidence
                                     (t :: tls)));
         intros qb B);
    try (specialize (C r rels); revert C;
         generalize (average
                     (List.map calculateToolSelectionRelationshipConfidence
                               (r :: rels)));
         intros qc C);
    lra.
Qed.

(** A running total of scores that lie in a range. *)
Lemma total_range {A} (f : A -> Z) (lo hi : Z) (l : list A) :
  (forall a, (lo <= f a <= hi)%Z) ->
  forall acc,
    (acc + lo * Z.of_nat (List.length l)
     <= List.fold_left (fun total a => (total + f a)%Z) l acc
     <= acc + hi * Z.of_nat (List.length l))%Z.
Proof.
  intros H. induction l as [|a l IH]; intros acc.
  - cbn. lia.
  - cbn [List.fold_left List.length]. rewrite Nat2Z.inj_succ, !Z.mul_succ_r.
    specialize (IH (acc + f a)%Z). specialize (H a). lia.
Qed.

(** X5.  [toolIntegration] and [orchestration] are sums, not averages:
    with n tools [toolIntegration] lies between 50 n and 100 n, and so
    does [orchestration] for n relationships; each is 0 without a
    list. *)
Theorem tool_selection_totals_are_sums
        (design : Design) (toolSelections : list string) :
  let scores := calculateToolSelectionConfidenceScores design toolSelections in
  (50 * size (tools design) <= toolIntegration scores
   <= 100 * size (tools design))%Z
  /\ (50 * size (relationships design) <= orchestration scores
      <= 100 * size (relationships design))%Z.
Proof.
  cbn [calculateToolSelectionConfidenceScores toolIntegration orchestration].
  split.
  - destruct (tools design) as [l|]; cbn [forEachIfPresent size]; [|lia].
    pose proof (@total_range _ calculateToolSelectionToolConfidence 50 100 l
                             toolConfidence_range 0%Z). lia.
  - destruct (relationships design) as [l|]; cbn [forEachIfPresent size];
      [|lia].
    pose proof (@total_range _ calculateToolSelectionRelationshipConfidence
                             50 100 l relationshipConfidence_range 0%Z). lia.
Qed.

Lemma getProperty_defineProperty (key k : string) (v : Z) (scores : Scores) :
  getProperty key (defineProperty k v scores)
  = if String.eqb key k then Some v else getProperty key scores.
Proof.
  induction scores as [|[k' v'] rest IH]; cbn [defineProperty getProperty].
  - reflexivity.
  - destruct (String.eqb k k') eqn:E; cbn [getProperty].
    + apply String.eqb_eq in E. subst k'.
      destruct (String.eqb key k); reflexivity.
    + destruct (String.eqb key k') eqn:E'.
      * apply String.eqb_eq in E'. subst k'.
        rewrite String.eqb_sym in E. rewrite E. reflexivity.
      * exact IH.
Qed.

Lemma find_last {A} (p : A -> bool) (l : list A) (a : A) :
  List.find p (l ++ [a])
  = match List.find p l with
    | Some x => Some x
    | None => if p a then Some a else None
    end.
Proof.
  induction l as [|x l IH]; cbn [List.find List.app].
  - reflexivity.
  - destruct (p x); [reflexivity | exact IH].
Qed.

Lemma getProperty_setProperty (key k : string) (v : Z) (scores : Scores) :
  getProperty key (setProperty k v scores)
  = if String.eqb k "__proto__" then getProperty key scores
    else if String.eqb key k then Some v
    else getProperty key scores.
Proof.
  unfold setProperty. destruct (String.eqb k "__proto__"); [reflexivity|].
  apply getProperty_defineProperty.
Qed.

Lemma agentScores_fold (toolSelections : list string) (key : string)
      (ags : list Agent) :
  forall scores,
    getProperty key
      (List.fold_left
         (fun scores agent =>
            setProperty (propertyKey (agent_name agent))
                        (calculateToolSelectionAgentConfidence
                           agent toolSelections) scores)
         ags scores)
    = match lastStored key ags with
      | Some a => Some (calculateToolSelectionAgentConfidence a toolSelections)
      | None => getProperty key scores
      end.
Proof.
  unfold lastStored, lastNamed.
  induction ags as [|a ags IH]; intros scores.
  - destruct (String.eqb key "__proto__"); reflexivity.
  - cbn [List.fold_left List.rev]. rewrite IH.
    destruct (String.eqb key "__proto__") eqn:P.
    + rewrite getProperty_setProperty.
      destruct (String.eqb (propertyKey (agent_name a)) "__proto__") eqn:Q;
        [reflexivity|].
      destruct (String.eqb key (propertyKey (agent_name a))) eqn:E;
        [|reflexivity].
      apply String.eqb_eq in E, P. subst key. rewrite <- E in Q.
      discriminate Q.
    + rewrite find_last.
      destruct (List.find _ (List.rev ags)); [reflexivity|].
      rewrite getProperty_setProperty.
      destruct (String.eqb key (propertyKey (agent_name a))) eqn:E.
      * apply String.eqb_eq in E. rewrite <- E, P. reflexivity.
      * destruct (String.eqb (propertyKey (agent_name a)) "__proto__");
          reflexivity.
Qed.

(** X6.  [confidenceScores.agents] holds one score for each agent name: the
    score read under a name is that of the last agent of the list with this
    name (an agent without a name is filed under "undefined"), and nothing
    is stored under a name no agent has.  Nothing is stored under
    [__proto__] either, whatever the agents are called: the assignment
    goes to the accessor of [Object.prototype], which ignores a
    number. *)
Theorem tool_selection_agent_scores_by_name
        (design : Design) (toolSelections : list string) (key : string) :
  getProperty key
    (agentScores (calculateToolSelectionConfidenceScores design toolSelections))
  = match agents design with
    | Some ags =>
        option_map (fun a => calculateToolSelectionAgentConfidence
                               a toolSelections)
                   (lastStored key ags)
    | None => None
    end.
Proof.
  cbn [calculateToolSelectionConfidenceScores agentScores].
  destruct (agents design) as [ags|]; cbn [forEachIfPresent]; [|reflexivity].
  rewrite agentScores_fold.
  destruct (lastStored key ags); reflexivity.
Qed.

End ToolScorerFacts.

(** ** Strings and regular expressions *)

Section StringFacts.

Lemma trimEnd_idempotent (s : string) : Str.trimEnd (Str.trimEnd s) = Str.trimEnd s.
Proof.
  induction s as [|c r IH]; [reflexivity|].
  cbn [Str.trimEnd].
  destruct (Str.trimEnd r) as [|d r'] eqn:E.
  - destruct (Str.isSpace c) eqn:Sp; [reflexivity|].
    cbn [Str.trimEnd]. rewrite Sp. reflexivity.
  - cbn [Str.trimEnd] in *. rewrite IH. reflexivity.
Qed.

(** What [trimStart] returns does not begin with white space. *)
Lemma trimStart_head (s : string) :
  match Str.trimStart s with
  | String c _ => Str.isSpace c = false
  | EmptyString => True
  end.
Proof.
  induction s as [|c r IH]; [exact I|].
  cbn [Str.trimStart]. destruct (Str.isSpace c) eqn:Sp; [exact IH | exact Sp].
Qed.

(** [trimEnd] keeps a first character that is not white space. *)
Lemma trimEnd_cons (c : ascii) (r : string) :
  Str.isSpace c = false ->
  Str.trimEnd (String c r) = String c (Str.trimEnd r).
Proof.
  intros Sp. cbn [Str.trimEnd]. rewrite Sp.
  destruct (Str.trimEnd r); reflexivity.
Qed.

Lemma trim_idempotent (s : string) : Str.trim (Str.trim s) = Str.trim s.
Proof.
  unfold Str.trim.
  pose proof (trimStart_head s) as H.
  destruct (Str.trimStart s) as [|c r]; [reflexivity|].
  rewrite (@trimEnd_cons c r H). cbn [Str.trimStart]. rewrite H.
  rewrite <- (@trimEnd_cons c r H). apply trimEnd_idempotent.
Qed.

(** [trimEnd] keeps everything up to a character that is not white
    space. *)
Lemma trimEnd_keeps (p : string) (c : ascii) (rest : string) :
  Str.isSpace c = false ->
  exists rest',
    Str.trimEnd (p ++ String c rest) = (p ++ String c rest')%string.
Proof.
  intros Sp. induction p as [|d p [rest' IH]].
  - exists (Str.trimEnd rest). cbn [append]. apply (@trimEnd_cons c rest Sp).
  - exists rest'. cbn [append Str.trimEnd]. rewrite IH.
    destruct p; reflexivity.
Qed.

End StringFacts.

Section RegexFacts.

Import Regex Replies.

Lemma dropPrefix_spec (p s : string) :
  dropPrefix p s
  = if String.prefix p s
    then Some (substring (String.length p) (String.length s - String.length p) s)
    else None.
Proof.
  revert s. induction p as [|a p IH]; intros s.
  - cbn [dropPrefix String.prefix String.length].
    rewrite Nat.sub_0_r.
    destruct s; cbn; [reflexivity | rewrite substring_whole; reflexivity].
  - destruct s as [|b s]; [reflexivity|].
    cbn [dropPrefix String.prefix String.length substring Nat.sub].
    destruct (Ascii.ascii_dec a b) as [E|N].
    + subst b. rewrite Ascii.eqb_refl. apply IH.
    + apply Ascii.eqb_neq in N. rewrite N. reflexivity.
Qed.

Lemma dropPrefix_sound (p s s' : string) :
  dropPrefix p s = Some s' -> s = (p ++ s')%string.
Proof.
  revert s. induction p as [|a p IH]; intros s H; cbn [dropPrefix] in H.
  - inversion H. reflexivity.
  - destruct s as [|b s]; [discriminate|].
    destruct (Ascii.eqb a b) eqn:E; [|discriminate].
    apply Ascii.eqb_eq in E. subst b. cbn [append]. f_equal. apply IH, H.
Qed.


Lemma prefix_split (p s : string) :
  String.prefix p s = true -> exists s', s = (p ++ s')%string.
Proof.
  intros H. pose proof (dropPrefix_spec p s) as D. rewrite H in D.
  eexists. apply dropPrefix_sound. exact D.
Qed.

(** An expression that begins with a literal finds nothing in a text
    that does not contain the literal. *)
Lemma search_literal_absent (p : string) (items : list item) (text : string) :
  Str.includes text p = false -> search [Lit p :: items] text = None.
Proof.
  induction text as [|c r IH]; cbn [Str.includes]; intros H.
  - destruct (String.prefix p EmptyString) eqn:P; [discriminate|].
    cbn [search firstAlt matchSeq orElse]. rewrite dropPrefix_spec, P.
    reflexivity.
  - destruct (String.prefix p (String c r)) eqn:P; [discriminate|].
    cbn [search firstAlt matchSeq orElse]. rewrite dropPrefix_spec, P.
    cbn [orElse]. apply IH, H.
Qed.

(** A search succeeds as soon as the expression matches at one place. *)
Lemma search_found (alts : list (list item)) (p text : string) :
  (forall s, String.prefix p s = true -> firstAlt alts s <> None) ->
  Str.includes text p = true -> search alts text <> None.
Proof.
  intros Hp. induction text as [|c r IH]; cbn [Str.includes search]; intros H.
  - destruct (firstAlt alts EmptyString) eqn:F; [discriminate|].
    destruct (String.prefix p EmptyString) eqn:P; [|discriminate].
    exfalso. exact (Hp _ P F).
  - destruct (firstAlt alts (String c r)) eqn:F; [discriminate|].
    destruct (String.prefix p (String c r)) eqn:P.
    + exfalso. exact (Hp _ P F).
    + apply IH, H.
Qed.

Lemma search_sound (alts : list (list item)) (text : string) (r : result) :
  search alts text = Some r -> exists s, firstAlt alts s = Some r.
Proof.
  induction text as [|c t IH]; cbn [search]; intros H.
  - destruct (firstAlt alts EmptyString) eqn:F; [|discriminate].
    exists EmptyString. congruence.
  - destruct (firstAlt alts (String c t)) eqn:F.
    + exists (String c t). congruence.
    + apply IH, H.
Qed.

Lemma firstAlt_sound (alts : list (list item)) (s : string) (r : result) :
  firstAlt alts s = Some r -> exists a, In a alts /\ matchSeq a s = Some r.
Proof.
  induction alts as [|a alts IH]; cbn [firstAlt]; intros H; [discriminate|].
  destruct (matchSeq a s) eqn:M; cbn [orElse] in H.
  - exists a. split; [left; reflexivity | congruence].
  - destruct (IH H) as (a' & Hin & Hm). exists a'. split; [right|]; assumption.
Qed.

(** *** The groups of a match *)

Lemma consume_marks (c : string) (o : option result) (r : result) :
  consume c o = Some r -> exists r', o = Some r' /\ snd r' = snd r.
Proof.
  destruct o as [[m marks]|]; cbn [consume]; intros H; [|discriminate].
  inversion H; subst. eexists; split; reflexivity.
Qed.

Lemma star_marks (P : list string -> Prop) greedy cls
      (k : string -> option result) :
  (forall s r, k s = Some r -> P (snd r)) ->
  forall s r, star greedy cls k s = Some r -> P (snd r).
Proof.
  intros Hk. induction s as [|c s IH]; intros r H.
  - destruct greedy; cbn in H.
    + apply (Hk _ _ H).
    + destruct (k EmptyString) eqn:K; cbn [orElse] in H; [|discriminate].
      inversion H; subst. apply (Hk _ _ K).
  - destruct greedy.
    + rewrite star_greedy_step in H.
      destruct (cls c).
      * destruct (consume (String c EmptyString) (star true cls k s)) eqn:C;
          cbn [orElse] in H.
        -- inversion H; subst.
           destruct (consume_marks _ _ C) as (r' & Hr' & <-).
           apply IH, Hr'.
        -- apply (Hk _ _ H).
      * cbn [orElse] in H. apply (Hk _ _ H).
    + rewrite star_lazy_step in H.
      destruct (k (String c s)) eqn:K; cbn [orElse] in H.
      * inversion H; subst. apply (Hk _ _ K).
      * destruct (cls c); [|discriminate].
        destruct (consume_marks _ _ H) as (r' & Hr' & <-).
        apply IH, Hr'.
Qed.

(** A match records one text for every parenthesis of the expression. *)
Lemma matchSeq_marks (items : list item) :
  forall s r, matchSeq items s = Some r ->
              List.length (snd r) = countMarks items.
Proof.
  induction items as [|it items IH]; intros s r H.
  - inversion H. reflexivity.
  - destruct it as [p|p|cls|greedy cls|]; cbn [matchSeq countMarks] in *.
    + destruct (dropPrefix p s); [|discriminate].
      destruct (consume_marks _ _ H) as (r' & Hr' & <-). apply (IH _ _ Hr').
    + destruct (dropPrefix p s).
      * destruct (consume p (matchSeq items s0)) eqn:C; cbn [orElse] in H.
        -- inversion H; subst.
           destruct (consume_marks _ _ C) as (r' & Hr' & <-).
           apply (IH _ _ Hr').
        -- apply (IH _ _ H).
      * cbn [orElse] in H. apply (IH _ _ H).
    + destruct s as [|c s]; [discriminate|].
      destruct (cls c); [|discriminate].
      destruct (consume_marks _ _ H) as (r' & Hr' & <-). apply (IH _ _ Hr').
    + revert s r H.
      apply (@star_marks (fun marks => List.length marks = countMarks items)
                         greedy cls (matchSeq items)).
      exact IH.
    + destruct (matchSeq items s) as [[m marks]|] eqn:M; [|discriminate].
      inversion H; subst. cbn [snd List.length]. f_equal.
      apply (IH _ _ M).
Qed.

(** An expression with one group: the group of a match is there. *)
Lemma group1_defined (items : list item) (text : string) (r : result) :
  countMarks items = 2%nat ->
  search [items] text = Some r ->
  exists g, group1 (Some r) = Some g.
Proof.
  intros C H. apply search_sound in H. destruct H as [s H].
  apply firstAlt_sound in H. destruct H as (a & [<-|[]] & H).
  apply matchSeq_marks in H. rewrite C in H.
  destruct r as [m [|x [|y marks]]]; try discriminate.
  eexists. reflexivity.
Qed.

(** A greedy [[\s\S]*] at the end of an expression takes the rest of the
    text. *)
Lemma star_any_rest (s : string) :
  star true any (matchSeq []) s = Some (s, []).
Proof.
  induction s as [|c s IH]; [reflexivity|].
  rewrite star_greedy_step, IH. reflexivity.
Qed.

End RegexFacts.

Section MermaidFacts.

Import Regex Replies.

Lemma trimmedGroup_trimmed (m : result) (d : string) :
  trimmedGroup m = Ok d -> Str.trim d = d.
Proof.
  unfold trimmedGroup. destruct (group1 (Some m)); [|discriminate].
  intros H. inversion H. apply trim_idempotent.
Qed.

(** X7.  The diagram code [generateDiagram] extracts from a reply has no
    white space at either end, whichever of its rules applied. *)
Theorem diagram_code_is_trimmed (text d : string) :
  extractDiagramCode text = Ok d -> Str.trim d = d.
Proof.
  unfold extractDiagramCode.
  destruct (orElse (search [mermaidFenceRegex] text) _) as [m|].
  - apply trimmedGroup_trimmed.
  - destruct (matched (search graphRegex text)) as [whole|].
    + intros H. inversion H. apply trim_idempotent.
    + destruct (Str.includes text "->"
                && (Str.includes text "graph"
                    || Str.includes text "flowchart"))%bool;
        [|discriminate].
      intros H. inversion H. apply trim_idempotent.
Qed.

(** What the graph expression matches at the head of a text. *)
Lemma graph_at_head (d rest : string) :
  In d directions ->
  firstAlt graphRegex ("graph " ++ d ++ rest)
  = Some (("graph " ++ d ++ rest)%string, []).
Proof.
  intros Hin. unfold directions in Hin. cbn [In] in Hin.
  destruct Hin as [<-|[<-|[<-|[<-|[]]]]];
    cbn [graphRegex directions List.map firstAlt matchSeq dropPrefix append
         Ascii.eqb Bool.eqb orElse consume];
    rewrite star_any_rest; reflexivity.
Qed.

Lemma graph_match_shape (text whole : string) :
  matched (search graphRegex text) = Some whole ->
  exists d rest, In d directions /\ whole = ("graph " ++ d ++ rest)%string.
Proof.
  unfold matched. destruct (search graphRegex text) as [r|] eqn:S;
    [|discriminate].
  cbn [option_map]. intros H. inversion H; subst; clear H.
  apply search_sound in S. destruct S as [s S].
  apply firstAlt_sound in S. destruct S as (a & Hin & M).
  unfold graphRegex in Hin. apply in_map_iff in Hin.
  destruct Hin as (d & <- & Hd). exists d.
  cbn [matchSeq] in M.
  destruct (dropPrefix "graph " s) as [s1|] eqn:D1; [|discriminate].
  destruct (dropPrefix d s1) as [s2|] eqn:D2; [|discriminate].
  rewrite star_any_rest in M. cbn [consume] in M.
  inversion M; subst. cbn [fst]. exists s2. split; [exact Hd|].
  apply dropPrefix_sound in D1. apply dropPrefix_sound in D2.
  subst s s1. reflexivity.
Qed.

Lemma prefix_append_l (p q s : string) :
  String.prefix (p ++ q) s = true -> String.prefix p s = true.
Proof.
  revert s. induction p as [|a p IH]; intros s H.
  - destruct s; reflexivity.
  - destruct s as [|b s]; [discriminate|].
    cbn [append String.prefix] in *.
    destruct (Ascii.ascii_dec a b); [apply IH, H | discriminate].
Qed.

Lemma includes_append_l (text p q : string) :
  Str.includes text (p ++ q) = true -> Str.includes text p = true.
Proof.
  induction text as [|c r IH]; cbn [Str.includes]; intros H.
  - destruct (String.prefix (p ++ q) EmptyString) eqn:P; [|discriminate].
    rewrite (prefix_append_l _ _ _ P). reflexivity.
  - destruct (String.prefix (p ++ q) (String c r)) eqn:P.
    + rewrite (prefix_append_l _ _ _ P). reflexivity.
    + destruct (String.prefix p (String c r)); [reflexivity | apply IH, H].
Qed.

Lemma no_fence_no_block (text : string) :
  Str.includes text "```" = false ->
  orElse (search [mermaidFenceRegex] text)
         (fun _ => search [lineFenceRegex] text) = None.
Proof.
  intros H. unfold mermaidFenceRegex, lineFenceRegex.
  rewrite (@search_literal_absent "```mermaid"), (@search_literal_absent "```");
    [reflexivity | exact H |].
  destruct (Str.includes text "```mermaid") eqn:E; [|reflexivity].
  rewrite (@includes_append_l text "```" "mermaid" E) in H. discriminate.
Qed.

(** X8.  A reply that contains a graph header ([graph TD], [graph LR],
    [graph RL] or [graph BT]) always yields diagram code; when the reply
    has no code fence the code begins with "graph ": what stood before the
    header is dropped. *)
Theorem graph_header_is_accepted (text d : string) :
  In d directions ->
  Str.includes text ("graph " ++ d) = true ->
  exists code,
    extractDiagramCode text = Ok code
    /\ (Str.includes text "```" = true
        \/ Str.startsWith code "graph " = true).
Proof.
  intros Hd Hin. unfold extractDiagramCode.
  destruct (orElse (search [mermaidFenceRegex] text) _) as [m|] eqn:F.
  - assert (G : exists g, group1 (Some m) = Some g).
    { destruct (search [mermaidFenceRegex] text) as [m'|] eqn:S1;
        cbn [orElse] in F.
      - inversion F; subst. eapply group1_defined; [|exact S1]. reflexivity.
      - eapply group1_defined; [|exact F]. reflexivity. }
    destruct G as [g G]. unfold trimmedGroup. rewrite G.
    eexists. split; [reflexivity|]. left.
    destruct (Str.includes text "```") eqn:E; [reflexivity|].
    rewrite (no_fence_no_block _ E) in F. discriminate.
  - assert (S : search graphRegex text <> None).
    { apply (@search_found graphRegex ("graph " ++ d)); [|exact Hin].
      intros s P. apply prefix_split in P. destruct P as [rest ->].
      pose proof (graph_at_head rest Hd) as E.
      cbn [append] in *. rewrite E. discriminate. }
    destruct (matched (search graphRegex text)) as [whole|] eqn:M.
    + eexists. split; [reflexivity|]. right.
      destruct (graph_match_shape _ M) as (d' & rest & Hd' & ->).
      unfold Str.trim. cbn [append Str.trimStart].
      replace (Str.isSpace "g") with false by reflexivity.
      unfold directions in Hd'. cbn [In] in Hd'.
      destruct Hd' as [<-|[<-|[<-|[<-|[]]]]];
        cbn [append];
        match goal with
        | |- context [String "g" (String "r" (String "a" (String "p"
                       (String "h" (String " " (String ?c ?r))))))] =>
            destruct (@trimEnd_keeps "graph " c r eq_refl) as [r' E]
        end;
        cbn [append] in E; rewrite E; reflexivity.
    + exfalso. apply S. unfold matched in M.
      destruct (search graphRegex text); [discriminate | reflexivity].
Qed.

End MermaidFacts.

Lemma diagram_code_is_trimmed_witness :
  Replies.extractDiagramCode Cases.fencedDiagram = Ok "graph TD; A-->B"
  /\ Str.trim "graph TD; A-->B" = "graph TD; A-->B".
Proof.
  split; [reflexivity|].
  exact (@diagram_code_is_trimmed Cases.fencedDiagram "graph TD; A-->B"
                                  eq_refl).
Defined.

Lemma graph_header_is_accepted_witness :
  exists code,
    Replies.extractDiagramCode Cases.bareDiagram = Ok code
    /\ (Str.includes Cases.bareDiagram "```" = true
        \/ Str.startsWith code "graph " = true).
Proof.
  apply (@graph_header_is_accepted Cases.bareDiagram "LR").
  - right. left. reflexivity.
  - reflexivity.
Defined.

(** ** The refined design of a reply *)

Section RefinedDesignFacts.

Import Js Regex Replies.

Variable JSON_parse : string -> Except Json.

(** X9.  The extraction step of [processToolSelections] fails in two ways
    only: with "No JSON found in the response", when the reply has no span
    from a [{] to a [}] and nothing was given to [JSON.parse]; or with
    "Failed to extract valid JSON from response", after one or two strings
    were given to [JSON.parse] and each of them was rejected.  The message
    of the parser is never passed on. *)
Theorem refined_design_failures (text : string) (e : JsError) :
  fst (refinedDesignFromText JSON_parse text) = Throw e ->
  (e = noJsonFound
   /\ Extract.greedyMatch text = None
   /\ snd (refinedDesignFromText JSON_parse text) = [])
  \/ (e = noValidJson
      /\ (1 <= List.length (snd (refinedDesignFromText JSON_parse text)) <= 2)%nat
      /\ Forall (fun s => exists parseError, JSON_parse s = Throw parseError)
                (snd (refinedDesignFromText JSON_parse text))).
Proof.
  unfold refinedDesignFromText.
  destruct (jsonMatch text) as [m|] eqn:J.
  - destruct (JSON_parse (jsonStr m)) as [d|pe] eqn:P1; [discriminate|].
    destruct (Extract.greedyMatch text) as [full|].
    + destruct (JSON_parse full) as [d|pe2] eqn:P2; [discriminate|].
      cbn [fst snd try_catch]. intros H. inversion H. right.
      split; [reflexivity|]. split; [cbn; lia|].
      repeat constructor; eexists; eassumption.
    + cbn [fst snd try_catch]. intros H. inversion H. right.
      split; [reflexivity|]. split; [cbn; lia|].
      repeat constructor; eexists; eassumption.
  - cbn [fst snd]. intros H. inversion H. left.
    split; [reflexivity|]. split; [|reflexivity].
    unfold jsonMatch in J.
    destruct (search [jsonLineFenceRegex] text); [discriminate|].
    destruct (search [lineFenceRegex] text); [discriminate|].
    cbn [orElse] in J. unfold Extract.greedyMatch. rewrite J. reflexivity.
Qed.

Lemma jsonMatch_without_fence (text : string) :
  Str.includes text "```" = false ->
  jsonMatch text = search [Extract.greedyJsonRegex] text.
Proof.
  intros H. unfold jsonMatch, jsonLineFenceRegex, lineFenceRegex.
  rewrite (@search_literal_absent "```json"), (@search_literal_absent "```");
    [reflexivity | exact H |].
  destruct (Str.includes text "```json") eqn:E; [|reflexivity].
  rewrite (@includes_append_l text "```" "json" E) in H. discriminate.
Qed.

Lemma greedy_search_some (text m : string) :
  Extract.greedyMatch text = Some m ->
  exists marks, search [Extract.greedyJsonRegex] text = Some (m, marks).
Proof.
  unfold Extract.greedyMatch, matched.
  destruct (search [Extract.greedyJsonRegex] text) as [[m' marks]|];
    [|discriminate].
  cbn. intros H. inversion H. eexists. reflexivity.
Qed.

Lemma jsonMatch_some (text m : string) :
  Extract.greedyMatch text = Some m -> exists r, jsonMatch text = Some r.
Proof.
  intros H. destruct (greedy_search_some _ H) as [marks S].
  unfold jsonMatch.
  destruct (search [jsonLineFenceRegex] text); [eexists; reflexivity|].
  destruct (search [lineFenceRegex] text); [eexists; reflexivity|].
  cbn [orElse]. rewrite S. eexists; reflexivity.
Qed.

(** X10.  When the span from the first [{] to the last [}] of the reply
    is valid JSON, the extraction step of [processToolSelections]
    succeeds, whatever the code fences of the reply hold; in a reply
    without a code fence the result is the value of that span. *)
Theorem parsable_span_is_enough (text span : string) (v : Json) :
  Extract.greedyMatch text = Some span ->
  JSON_parse span = Ok v ->
  exists design,
    fst (refinedDesignFromText JSON_parse text) = Ok design
    /\ (Str.includes text "```" = true \/ design = v).
Proof.
  intros G P. unfold refinedDesignFromText.
  destruct (Str.includes text "```") eqn:F.
  - destruct (jsonMatch_some _ G) as [r ->].
    destruct (JSON_parse (jsonStr r)) as [d|e'].
    + exists d. split; [reflexivity | left; reflexivity].
    + rewrite G, P. exists v. split; [reflexivity | left; reflexivity].
  - rewrite (jsonMatch_without_fence _ F).
    destruct (greedy_search_some _ G) as [marks ->].
    assert (S : jsonStr (span, marks) = span).
    { destruct (greedyMatch_spec _ G) as (pre & body & post & _ & -> & _).
      unfold jsonStr, Str.startsWith. destruct body; reflexivity. }
    rewrite S, P. exists v. split; [reflexivity | right; reflexivity].
Qed.

End RefinedDesignFacts.

Lemma refined_design_failures_witness :
  (Replies.noJsonFound = Replies.noJsonFound
   /\ Extract.greedyMatch "no design here" = None
   /\ snd (Replies.refinedDesignFromText Samples.rejectAll "no design here")
      = [])
  \/ (Replies.noJsonFound = Replies.noValidJson
      /\ (1 <= List.length
                 (snd (Replies.refinedDesignFromText Samples.rejectAll
                                                     "no design here"))
           <= 2)%nat
      /\ Forall (fun s => exists parseError,
                     Samples.rejectAll s = Throw parseError)
                (snd (Replies.refinedDesignFromText Samples.rejectAll
                                                    "no design here"))).
Proof.
  exact (@refined_design_failures Samples.rejectAll "no design here"
                                  Replies.noJsonFound eq_refl).
Defined.

Lemma parsable_span_is_enough_witness :
  exists design,
    fst (Replies.refinedDesignFromText
           (Samples.parserFor Samples.wholeObject Samples.wholeValue)
           Samples.nestedReply) = Ok design
    /\ (Str.includes Samples.nestedReply "```" = true
        \/ design = Samples.wholeValue).
Proof.
  exact (@parsable_span_is_enough
           (Samples.parserFor Samples.wholeObject Samples.wholeValue)
           Samples.nestedReply Samples.wholeObject Samples.wholeValue
           eq_refl eq_refl).
Defined.

(** ** Reply handling under the retry controller *)

Section UnderRetry.

Import Js Retry Replies.

Variable JSON_parse : string -> Except Json.
Variable W : Type.
Variable generateContent : W -> Except string * W.

(** A reply whose handling fails with an error that is not transient
    ends the call: one invocation, no wait. *)
Lemma callback_rejects {A} (handle : string -> Except A)
      (w0 w1 : W) (text : string) (e : JsError) :
  generateContent w0 = (Ok text, w1) ->
  handle text = Throw e ->
  transient errorMessage e = false ->
  withRetry errorMessage (callback generateContent handle) w0
  = Some (Rejected A e, w1, [Invoke]).
Proof.
  intros G H T. unfold withRetry, withRetry_from.
  erewrite loop_give_up; [reflexivity | |].
  - unfold callback. rewrite G, H. reflexivity.
  - rewrite T. apply orb_true_r.
Qed.

Lemma callback_returns {A} (handle : string -> Except A)
      (w0 w1 : W) (text : string) (a : A) :
  generateContent w0 = (Ok text, w1) ->
  handle text = Ok a ->
  withRetry errorMessage (callback generateContent handle) w0
  = Some (Returned JsError a, w1, [Invoke]).
Proof.
  intros G H. unfold withRetry, withRetry_from.
  erewrite loop_success; [reflexivity|].
  unfold callback. rewrite G, H. reflexivity.
Qed.

Lemma analysisFromText_error (text : string) (e : JsError) :
  analysisFromText JSON_parse text = Throw e -> e = invalidFormat.
Proof.
  unfold analysisFromText.
  destruct (JSON_parse (analysisJsonText text)); cbn [try_catch];
    intros H; inversion H; reflexivity.
Qed.

Lemma agentsFromText_error (text : string) (e : JsError) :
  agentsFromText JSON_parse text = Throw e -> e = invalidFormat.
Proof.
  unfold agentsFromText.
  destruct (bind (JSON_parse (agentsJsonText text)) agentsOf);
    cbn [try_catch]; intros H; inversion H; reflexivity.
Qed.

(** X11.  In [generateInitialAnalysis] and in [refineAgentDesign] a reply
    that cannot be turned into a result is never retried: whatever went
    wrong, the callback fails with "Invalid response format from AI
    model", which is no transient error, and [withRetry] rejects with it
    after one invocation and no wait.  Each of the two functions on its
    own: a reply may fail in one and not in the other. *)
Theorem malformed_reply_is_not_retried (w0 w1 : W) (text : string) :
  generateContent w0 = (Ok text, w1) ->
  ((forall v, analysisFromText JSON_parse text <> Ok v) ->
   generateInitialAnalysis JSON_parse generateContent w0
   = Some (Rejected Json invalidFormat, w1, [Invoke]))
  /\ ((forall v, agentsFromText JSON_parse text <> Ok v) ->
      refineAgentDesign JSON_parse generateContent w0
      = Some (Rejected (list Json) invalidFormat, w1, [Invoke])).
Proof.
  intros G. split; [intros Ha | intros Hr].
  - destruct (analysisFromText JSON_parse text) as [v|e] eqn:E;
      [elim (Ha v); reflexivity|].
    pose proof (analysisFromText_error _ E). subst e.
    eapply callback_rejects; [exact G | exact E | reflexivity].
  - destruct (agentsFromText JSON_parse text) as [v|e] eqn:E;
      [elim (Hr v); reflexivity|].
    pose proof (agentsFromText_error _ E). subst e.
    eapply callback_rejects; [exact G | exact E | reflexivity].
Qed.

Import Diagram.

Lemma mapM_null (agents : list Json) :
  forall e, mapM agentNode agents = Throw e -> In JNull agents.
Proof.
  induction agents as [|a agents IH]; intros e; cbn [mapM]; [discriminate|].
  destruct (agentNode a) as [n|e'] eqn:A.
  - destruct (mapM agentNode agents) as [ns|e2]; [discriminate|].
    intros _. right. apply (IH e2). reflexivity.
  - intros _. left. destruct a; try discriminate. reflexivity.
Qed.

Lemma diagramFromText_error (agents : list Json) (text : string)
      (e : JsError) :
  diagramFromText JSON_parse agents text = Throw e ->
  e = fallbackFailed /\ In JNull agents.
Proof.
  unfold diagramFromText.
  destruct (bind (Extract.extractJson JSON_parse text) (normalize agents));
    cbn [try_catch]; [discriminate|].
  unfold fallbackDiagram.
  destruct (mapM agentNode agents) as [ns|e'] eqn:M; cbn [bind try_catch];
    [discriminate|].
  intros H. inversion H. split; [reflexivity|]. eapply mapM_null, M.
Qed.

(** X12.  Once the model has replied, [generateSystemDiagram] settles with
    that one invocation: it resolves with the diagram made of the reply
    (the fallback diagram included) or, only when one of the input agents
    is [null], rejects with "Invalid diagram format from AI model and
    failed to create fallback.".  No other error of the reply handling
    reaches the caller, and none is retried. *)
Theorem system_diagram_settles_on_reply
        (agents : list Json) (w0 w1 : W) (text : string) :
  generateContent w0 = (Ok text, w1) ->
  (exists d,
      diagramFromText JSON_parse agents text = Ok d
      /\ generateSystemDiagram JSON_parse generateContent agents w0
         = Some (Returned JsError d, w1, [Invoke]))
  \/ (In JNull agents
      /\ generateSystemDiagram JSON_parse generateContent agents w0
         = Some (Rejected DiagramData fallbackFailed, w1, [Invoke])).
Proof.
  intros G.
  destruct (diagramFromText JSON_parse agents text) as [d|e] eqn:D.
  - left. exists d. split; [reflexivity|].
    eapply callback_returns; [exact G | exact D].
  - right. destruct (diagramFromText_error _ _ D) as [-> Hn].
    split; [exact Hn|].
    eapply callback_rejects; [exact G | exact D | reflexivity].
Qed.

Lemma mapi_from_nonempty {A B} (f : A -> nat -> Except B) (l : list A) :
  forall i l', mapi_from f i l = Ok l' -> l <> [] -> l' <> [].
Proof.
  destruct l as [|a l]; intros i l' H N; [congruence|].
  cbn [mapi_from] in H. destruct (f a i); [|discriminate].
  destruct (mapi_from f (S i) l); [|discriminate].
  inversion H. discriminate.
Qed.

Lemma agents_nodes_nonempty (agents : list Json) (ns : list DiagramNode) :
  bind (mapM agentNode agents)
       (fun ns => match ns with
                  | [] => Throw (PlainError
                                   "Missing required nodes array in diagram data")
                  | _ => Ok ns
                  end) = Ok ns ->
  ns <> [].
Proof.
  destruct (mapM agentNode agents) as [[|n l]|]; cbn [bind]; try discriminate.
  intros H. inversion H. discriminate.
Qed.

Lemma normalize_has_nodes (agents : list Json) (jsonResponse : Json)
      (d : DiagramData) :
  normalize agents jsonResponse = Ok d -> nodes d <> [].
Proof.
  unfold normalize. intros H.
  do 4 bind_ok H. cbv zeta in H. bind_ok H. do 3 bind_ok H.
  cbv zeta in H. bind_ok H. do 2 bind_ok H.
  inversion H; subst; clear H. cbn [nodes].
  match goal with
  | E : match asArray ?x with _ => _ end = Ok ?l |- ?l <> [] =>
      destruct (asArray x) as [[|y ys]|];
        [ apply (agents_nodes_nonempty _ E)
        | eapply mapi_from_nonempty; [exact E | discriminate]
        | apply (agents_nodes_nonempty _ E) ]
  end.
Qed.

(** X13.  With an empty list of agents the callback of
    [generateSystemDiagram] never throws: "Missing required nodes array in
    diagram data" is caught by the fallback, and the result either has the
    nodes of the reply or is the diagram with no node, no edge and the
    layout dagre. *)
Theorem no_agents_no_failure (text : string) :
  exists d,
    diagramFromText JSON_parse [] text = Ok d
    /\ (nodes d <> [] \/ d = emptyDiagram).
Proof.
  unfold diagramFromText.
  destruct (bind (Extract.extractJson JSON_parse text) (normalize []))
    as [d|e] eqn:B; cbn [try_catch].
  - exists d. split; [reflexivity|]. left.
    unfold bind in B.
    destruct (Extract.extractJson JSON_parse text); [|discriminate].
    eapply normalize_has_nodes, B.
  - exists emptyDiagram. split; [reflexivity | right; reflexivity].
Qed.

Lemma nonBlank_truthy (v : Value) : nonBlankString v = true -> truthy v = true.
Proof.
  destruct v as [[| | |s| |]|]; cbn [nonBlankString]; try discriminate.
  destruct s; [discriminate | reflexivity].
Qed.

(** X14.  The layout of a normalised diagram is
    [jsonResponse.layout || 'dagre']: the layout of the reply when that is
    truthy (a blank string or a number included) and "dagre" otherwise.  It
    is always truthy; the second check of the layout changes nothing. *)
Theorem layout_is_reply_or_dagre (agents : list Json) (jsonResponse : Json)
        (d : DiagramData) :
  normalize agents jsonResponse = Ok d ->
  exists layout0,
    get jsonResponse "layout" = Ok layout0
    /\ layout d = Js.or layout0 (str "dagre")
    /\ truthy (layout d) = true.
Proof.
  unfold normalize. intros H.
  destruct (get jsonResponse "layout") as [layout0|] eqn:L;
    cbn [bind] in H; [|discriminate].
  exists layout0. split; [reflexivity|].
  do 3 bind_ok H. cbv zeta in H. bind_ok H. do 3 bind_ok H.
  cbv zeta in H. bind_ok H. do 2 bind_ok H.
  inversion H; subst; clear H. cbn [layout].
  destruct (nonBlankString layout0) eqn:N.
  - pose proof (@nonBlank_truthy layout0 N) as T. unfold Js.or. rewrite T.
    split; [reflexivity | reflexivity].
  - unfold Js.or. destruct (truthy layout0) eqn:T; cbn [negb].
    + rewrite T. cbn [negb]. split; [reflexivity | exact T].
    + cbn. split; reflexivity.
Qed.

End UnderRetry.

Lemma malformed_reply_is_not_retried_witness :
  Replies.generateInitialAnalysis Samples.rejectAll
                                  (Cases.answering "I cannot help with that")
                                  0%nat
  = Some (Retry.Rejected Js.Json Replies.invalidFormat, 1%nat, [Retry.Invoke])
  /\ Replies.refineAgentDesign Samples.rejectAll
                               (Cases.answering "I cannot help with that")
                               0%nat
     = Some (Retry.Rejected (list Js.Json) Replies.invalidFormat, 1%nat,
             [Retry.Invoke]).
Proof.
  destruct (@malformed_reply_is_not_retried
              Samples.rejectAll nat (Cases.answering "I cannot help with that")
              0%nat 1%nat "I cannot help with that" eq_refl) as [Ha Hr].
  split; [apply Ha | apply Hr];
    intros v H; vm_compute in H; discriminate H.
Defined.

Lemma system_diagram_settles_on_reply_witness :
  (exists d,
      Diagram.diagramFromText
        (Samples.parserFor Samples.verticesLinksText Samples.verticesLinks)
        Samples.oneAgent Samples.verticesLinksText = Ok d
      /\ Replies.generateSystemDiagram
           (Samples.parserFor Samples.verticesLinksText Samples.verticesLinks)
           (Cases.answering Samples.verticesLinksText) Samples.oneAgent 0%nat
         = Some (Retry.Returned JsError d, 1%nat, [Retry.Invoke]))
  \/ (In Js.JNull Samples.oneAgent
      /\ Replies.generateSystemDiagram
           (Samples.parserFor Samples.verticesLinksText Samples.verticesLinks)
           (Cases.answering Samples.verticesLinksText) Samples.oneAgent 0%nat
         = Some (Retry.Rejected Diagram.DiagramData Replies.fallbackFailed,
                 1%nat, [Retry.Invoke])).
Proof.
  exact (@system_diagram_settles_on_reply
           (Samples.parserFor Samples.verticesLinksText Samples.verticesLinks)
           nat (Cases.answering Samples.verticesLinksText) Samples.oneAgent
           0%nat 1%nat Samples.verticesLinksText eq_refl).
Defined.

Lemma layout_is_reply_or_dagre_witness :
  exists d,
    Diagram.normalize [] Samples.verticesLinks = Ok d
    /\ Js.truthy (Diagram.layout d) = true.
Proof.
  eexists. split; [reflexivity|].
  destruct (@layout_is_reply_or_dagre [] Samples.verticesLinks _ eq_refl)
    as (layout0 & _ & _ & T).
  exact T.
Defined.

(** ** Word sets and string similarity *)

Section SetFacts.

Import Matcher.

Lemma existsb_eqb_In (x : string) (l : list string) :
  existsb (String.eqb x) l = true <-> In x l.
Proof.
  rewrite existsb_exists. split.
  - intros (y & Hin & E). apply String.eqb_eq in E. subst y. exact Hin.
  - intros H. exists x. split; [exact H | apply String.eqb_refl].
Qed.

Lemma dedupe_In (xs : list string) :
  forall seen x, In x (dedupe seen xs) <-> In x xs /\ ~ In x seen.
Proof.
  induction xs as [|y r IH]; intros seen x; cbn [dedupe].
  - cbn. tauto.
  - destruct (existsb (String.eqb y) seen) eqn:E.
    + apply existsb_eqb_In in E. rewrite IH. cbn [In].
      split; [tauto|]. intros [[->|H] N]; [contradiction | tauto].
    + assert (N : ~ In y seen).
      { intros H. apply existsb_eqb_In in H. congruence. }
      cbn [In]. rewrite IH. cbn [In].
      destruct (string_dec y x) as [->|D]; [tauto|].
      split.
      * intros [H|[H1 H2]]; [contradiction|]. split; [tauto|]. tauto.
      * intros [[H|H] H2]; [contradiction|]. right. split; [exact H|].
        intros [H3|H3]; [congruence | contradiction].
Qed.

Lemma dedupe_NoDup (xs : list string) :
  forall seen, NoDup (dedupe seen xs).
Proof.
  induction xs as [|y r IH]; intros seen; cbn [dedupe].
  - constructor.
  - destruct (existsb (String.eqb y) seen); [apply IH|].
    constructor; [|apply IH].
    rewrite dedupe_In. cbn [In]. tauto.
Qed.

Lemma setOf_In (xs : list string) (x : string) : In x (setOf xs) <-> In x xs.
Proof. unfold setOf. rewrite dedupe_In. cbn. tauto. Qed.

Lemma setOf_NoDup (xs : list string) : NoDup (setOf xs).
Proof. apply dedupe_NoDup. Qed.

(** Two sets with the same elements have the same size. *)
Lemma setOf_size (xs ys : list string) :
  (forall x, In x xs <-> In x ys) ->
  List.length (setOf xs) = List.length (setOf ys).
Proof.
  intros H. apply Nat.le_antisymm; apply NoDup_incl_length;
    try apply setOf_NoDup; intros x Hx;
    apply (proj2 (setOf_In _ x)); apply (proj1 (setOf_In _ x)) in Hx;
    apply H; exact Hx.
Qed.

Lemma setOf_size_le (xs ys : list string) :
  (forall x, In x xs -> In x ys) ->
  (List.length (setOf xs) <= List.length (setOf ys))%nat.
Proof.
  intros H. apply NoDup_incl_length; [apply setOf_NoDup|].
  intros x Hx. apply (proj2 (setOf_In _ x)).
  apply (proj1 (setOf_In _ x)) in Hx. apply H, Hx.
Qed.

Lemma splitFrom_nonempty (s : string) :
  forall inSpace cur, splitFrom inSpace cur s <> [].
Proof.
  induction s as [|c r IH]; intros inSpace cur; cbn [splitFrom].
  - discriminate.
  - destruct (Str.isSpace c); [destruct inSpace|]; try apply IH.
    discriminate.
Qed.

Lemma setOf_nonempty (xs : list string) : xs <> [] -> setOf xs <> [].
Proof.
  destruct xs as [|x r]; [congruence|]. intros _. discriminate.
Qed.

End SetFacts.

Section SimilarityFacts.

Import Num Matcher Score.
Local Open Scope Q_scope.

Lemma ratio_unit (n m : nat) :
  (n <= S m)%nat -> unit (divCount (ofNat n) (S m)).
Proof.
  intros H. unfold ofNat. cbn [divCount].
  eexists. split; [reflexivity|].
  assert (P : 0 < inject_Z (Z.of_nat (S m))).
  { change 0 with (inject_Z 0). rewrite <- Zlt_Qlt. lia. }
  split.
  - apply Qle_shift_div_l; [exact P|]. rewrite Qmult_0_l.
    apply inject_nonneg. lia.
  - apply Qle_shift_div_r; [exact P|]. rewrite Qmult_1_l.
    rewrite <- Zle_Qle. lia.
Qed.

Lemma unit_zero : unit (Fin 0).
Proof. exists 0. split; [reflexivity | lra]. Qed.

Lemma unit_one : unit (Fin 1).
Proof. exists 1. split; [reflexivity | lra]. Qed.

Lemma similarity_unit (str1 str2 : string) :
  unit (calculateStringSimilarity str1 str2).
Proof.
  unfold calculateStringSimilarity.
  destruct (String.eqb str1 str2); [apply unit_one|].
  destruct ((String.length str1 =? 0)%nat || (String.length str2 =? 0)%nat)%bool;
    [apply unit_zero|].
  set (words1 := setOf (split str1)).
  set (words2 := setOf (split str2)).
  destruct (List.length (setOf (words1 ++ words2))) as [|m] eqn:U.
  - exfalso. apply length_zero_iff_nil in U.
    apply (@setOf_nonempty (words1 ++ words2)); [|exact U].
    intros E. apply app_eq_nil in E. destruct E as [E _].
    apply (@setOf_nonempty (split str1)); [|exact E].
    apply splitFrom_nonempty.
  - apply ratio_unit. rewrite <- U. apply setOf_size_le.
    intros x Hx. apply filter_In in Hx. destruct Hx as [Hx _].
    apply in_or_app. left. exact Hx.
Qed.

(** X15.  [calculateStringSimilarity] is symmetric, its value is a number
    between 0 and 1 (never [NaN]), and a string has similarity 1 with
    itself. *)
Theorem string_similarity_is_symmetric_score (str1 str2 : string) :
  calculateStringSimilarity str1 str2 = calculateStringSimilarity str2 str1
  /\ unit (calculateStringSimilarity str1 str2)
  /\ calculateStringSimilarity str1 str1 = Fin 1.
Proof.
  split; [|split; [apply similarity_unit|]].
  2:{ unfold calculateStringSimilarity. rewrite String.eqb_refl. reflexivity. }
  unfold calculateStringSimilarity.
  rewrite (String.eqb_sym str2 str1).
  destruct (String.eqb str1 str2); [reflexivity|].
  rewrite (orb_comm (String.length str2 =? 0)%nat).
  destruct ((String.length str1 =? 0)%nat || (String.length str2 =? 0)%nat)%bool;
    [reflexivity|].
  set (words1 := setOf (split str1)).
  set (words2 := setOf (split str2)).
  rewrite (@setOf_size
             (List.filter (fun word => existsb (String.eqb word) words2) words1)
             (List.filter (fun word => existsb (String.eqb word) words1) words2)),
          (@setOf_size (words1 ++ words2) (words2 ++ words1)).
  - reflexivity.
  - intros x. rewrite !in_app_iff. tauto.
  - intros x. rewrite !filter_In, !existsb_eqb_In. tauto.
Qed.

End SimilarityFacts.

(** ** The range of the match scores *)

Section ScoreRanges.

Import Js Num Matcher Score.
Local Open Scope Q_scope.

Lemma overlap_unitOrNaN (eitems aitems : list Json) :
  unitOrNaN
    (divCount
       (ofNat (List.length
                 (List.filter
                    (fun item => existsb (fun x => sameValueZero (Some item)
                                                                 (Some x))
                                         eitems)
                    aitems)))
       (Nat.max (List.length eitems) (List.length aitems))).
Proof.
  set (matching := List.filter _ aitems).
  assert (L : (List.length matching <= List.length aitems)%nat)
    by apply filter_length_le.
  destruct (Nat.max (List.length eitems) (List.length aitems)) as [|m] eqn:M.
  - left. assert (List.length matching = 0%nat) by lia.
    rewrite H. reflexivity.
  - right. apply ratio_unit. lia.
Qed.

Lemma keyScore_unitOrNaN (ev av : Json) (recur : Json -> Except JsNum)
      (s : JsNum) :
  (forall r, recur av = Ok r -> unitOrNaN r) ->
  keyScore ev av recur = Ok s -> unitOrNaN s.
Proof.
  intros R. unfold keyScore.
  assert (Sim : forall es as_ r,
             Ok (if gt (calculateStringSimilarity (Str.toLowerCase es)
                                                  (Str.toLowerCase as_))
                       (Fin (7 # 10))
                 then calculateStringSimilarity (Str.toLowerCase es)
                                                (Str.toLowerCase as_)
                 else Fin 0) = Ok r -> unitOrNaN r).
  { intros es as_ r H. inversion H. right.
    destruct (gt _ _); [apply similarity_unit | apply unit_zero]. }
  destruct ev, av; cbn [isObject andb];
    try (intros H; inversion H; apply overlap_unitOrNaN);
    try (apply R);
    try (destruct (strictEquals _ _);
         [intros H; inversion H; right; apply unit_one|]);
    try (apply Sim);
    try (intros H; inversion H; right; apply unit_zero).
Qed.

Lemma partialSum_skip (ms : JsNum) (tk : nat) :
  partialSum ms tk -> partialSum ms (S tk).
Proof.
  intros [->|(q & -> & Hq)]; [left; reflexivity|].
  right. exists q. split; [reflexivity|].
  rewrite Nat2Z.inj_succ. unfold Z.succ. rewrite inject_Z_plus.
  change (inject_Z 1) with 1. lra.
Qed.

Lemma partialSum_add (ms s : JsNum) (tk : nat) :
  partialSum ms tk -> unitOrNaN s -> partialSum (add ms s) (S tk).
Proof.
  intros [->|(q & -> & Hq)] [->|(q' & -> & Hq')];
    try (left; reflexivity).
  right. exists (q + q'). split; [reflexivity|].
  rewrite Nat2Z.inj_succ. unfold Z.succ. rewrite inject_Z_plus.
  change (inject_Z 1) with 1. lra.
Qed.

Lemma keyLoop_partialSum allKeys expectedProps actualProps :
  Forall recursionScores expectedProps ->
  forall matchScore totalKeys r,
    partialSum matchScore totalKeys ->
    keyLoop allKeys expectedProps actualProps matchScore totalKeys = Ok r ->
    partialSum (fst r) (snd r).
Proof.
  intros T. induction allKeys as [|key rest IH];
    intros matchScore totalKeys r P; cbn [keyLoop].
  - intros H. inversion H. exact P.
  - destruct (Matcher.find key expectedProps) as [[ev recur]|] eqn:F;
      [|apply IH, P].
    destruct (Matcher.find key actualProps) as [[av u]|];
      [|apply IH, partialSum_skip, P].
    destruct (keyScore ev av recur) as [s|e] eqn:K; [|discriminate].
    apply IH. apply partialSum_add; [exact P|].
    destruct (find_In _ _ F) as [k Hin].
    rewrite Forall_forall in T. specialize (T _ Hin).
    eapply keyScore_unitOrNaN; [|exact K].
    intros r0 Hr0. exact (T av r0 Hr0).
Qed.

Lemma props_recursionScores (expected : Json) :
  match expected with
  | JArr items =>
      Forall (fun x => forall av s, matchScoreOn x av = Ok s -> unitOrNaN s)
             items
  | JObj fields =>
      Forall (fun kv => forall av s, matchScoreOn (snd kv) av = Ok s ->
                                     unitOrNaN s) fields
  | _ => True
  end ->
  Forall recursionScores (props matchScoreOn (fun _ => Ok (Fin 0)) expected).
Proof.
  intros H. unfold props.
  assert (Z0 : forall (x : Json) av s,
             (fun _ : Json => Ok (Fin 0)) av = Ok s -> unitOrNaN s).
  { intros x av s E. inversion E. right. apply unit_zero. }
  assert (L : forall n, recursionScores
                          ("length", (JNum (inject_Z (Z.of_nat n)),
                                      fun _ : Json => Ok (Fin 0)))).
  { intros n av s E. exact (Z0 JNull av s E). }
  destruct expected as [ | b | q | s | items | fields ]; try constructor.
  - apply Forall_app. split; [|constructor; [apply L | constructor]].
    apply Forall_forall. intros [k [x r]] Hin.
    apply in_combine_r in Hin. apply in_map_iff in Hin.
    destruct Hin as (c & Hc & _). inversion Hc; subst.
    intros av s0 E. exact (Z0 JNull av s0 E).
  - apply Forall_app. split; [|constructor; [apply L | constructor]].
    apply Forall_forall. intros [k [x r]] Hin.
    apply in_combine_r in Hin. apply in_map_iff in Hin.
    destruct Hin as (y & Hy & Hin). inversion Hy; subst.
    rewrite Forall_forall in H. intros av s0 E. exact (H _ Hin av s0 E).
  - apply Forall_forall. intros [k [x r]] Hin. apply in_map_iff in Hin.
    destruct Hin as (kv & Hkv & Hin). inversion Hkv; subst.
    rewrite Forall_forall in H. intros av s0 E. exact (H _ Hin av s0 E).
Qed.

Lemma mean_unitOrNaN (ms : JsNum) (tk : nat) :
  partialSum ms tk ->
  unitOrNaN (if (0 <? tk)%nat then divCount ms tk else Fin 0).
Proof.
  intros P. destruct tk as [|n]; cbn [Nat.ltb Nat.leb].
  - right. apply unit_zero.
  - destruct P as [->|(q & -> & Hq)]; [left; reflexivity|].
    right. cbn [divCount]. eexists. split; [reflexivity|].
    assert (Pn : 0 < inject_Z (Z.of_nat (S n))).
    { change 0 with (inject_Z 0). rewrite <- Zlt_Qlt. lia. }
    split.
    + apply Qle_shift_div_l; [exact Pn|]. rewrite Qmult_0_l. apply Hq.
    + apply Qle_shift_div_r; [exact Pn|]. rewrite Qmult_1_l. apply Hq.
Qed.

(** A match score is a number between 0 and 1, or [NaN]. *)
Lemma matchScoreOn_unitOrNaN (expected : Json) :
  forall actual s, matchScoreOn expected actual = Ok s -> unitOrNaN s.
Proof.
  assert (Finish : forall e a s,
             Forall recursionScores
                    (props matchScoreOn (fun _ => Ok (Fin 0)) e) ->
             matchScoreOn e a = Ok s -> unitOrNaN s).
  { intros e a s T.
    assert (K : forall aks eks r,
               keyLoop (setOf (aks ++ eks))
                       (props matchScoreOn (fun _ => Ok (Fin 0)) e)
                       (props (fun _ => tt) tt a) (Fin 0) O = Ok r ->
               partialSum (fst r) (snd r)).
    { intros aks eks r. apply keyLoop_partialSum; [exact T|].
      right. exists 0. split; [reflexivity|].
      change (inject_Z (Z.of_nat 0)) with 0. lra. }
    destruct e; cbn [matchScoreOn];
      destruct (keys a) as [aks|]; try discriminate;
      cbn [keys]; try discriminate;
      match goal with
      | |- match keyLoop ?ks ?ep ?ap ?m ?t with _ => _ end = _ -> _ =>
          destruct (keyLoop ks ep ap m t) as [[ms tk]|] eqn:E;
          [|discriminate];
          intros H; inversion H; apply mean_unitOrNaN;
          apply (K _ _ _ E)
      end. }
  induction expected as [ | b | q | s | items IH | fields IH ]
    using Json_nested_ind; intros actual r;
    try (apply Finish; apply props_recursionScores; exact I).
  - apply Finish. apply props_recursionScores. exact IH.
  - apply Finish. apply props_recursionScores. exact IH.
Qed.

Lemma bestMatch_unit (actual : list Json) (expectedEntity : Json) :
  forall best r,
    unit best ->
    bestMatch actual expectedEntity best = Ok r -> unit r.
Proof.
  induction actual as [|a l IH]; intros best r B; cbn [bestMatch].
  - intros H. inversion H. subst. exact B.
  - destruct (calculateEntityMatchScore a expectedEntity) as [s|e] eqn:S;
      [|discriminate].
    apply IH. destruct (gt s best) eqn:G; [|exact B].
    destruct (matchScoreOn_unitOrNaN _ _ S) as [->|U]; [discriminate|exact U].
Qed.

Lemma accumulate_within (actual expected : list Json) :
  forall matchCount (k : nat) r,
    within (inject_Z (Z.of_nat k)) matchCount ->
    accumulate actual expected matchCount = Ok r ->
    within (inject_Z (Z.of_nat (k + List.length expected))) r.
Proof.
  induction expected as [|x l IH]; intros matchCount k r W;
    cbn [accumulate List.length].
  - intros H. inversion H. subst. rewrite Nat.add_0_r. exact W.
  - destruct (bestMatch actual x (Fin 0)) as [b|e] eqn:B; [|discriminate].
    intros H. replace (k + S (List.length l))%nat
      with (S k + List.length l)%nat by lia.
    apply (IH (add matchCount b) (S k) r); [|exact H].
    destruct W as (q & -> & Hq).
    destruct (bestMatch_unit _ _ unit_zero B) as (q' & -> & Hq').
    exists (q + q'). split; [reflexivity|].
    rewrite Nat2Z.inj_succ. unfold Z.succ. rewrite inject_Z_plus.
    change (inject_Z 1) with 1. lra.
Qed.

Lemma calculateEntityAccuracy_unit (actual expected : list Json) (r : JsNum) :
  calculateEntityAccuracy actual expected = Ok r -> unit r.
Proof.
  unfold calculateEntityAccuracy.
  destruct expected as [|x l]; cbn [List.length Nat.eqb].
  - intros H. inversion H. destruct (List.length actual =? 0)%nat;
      [apply unit_one | apply unit_zero].
  - destruct (List.length actual =? 0)%nat.
    + intros H. inversion H. apply unit_zero.
    + destruct (accumulate actual (x :: l) (Fin 0)) as [mc|e] eqn:A;
        [|discriminate].
      intros H. inversion H. subst r.
      destruct (@accumulate_within actual (x :: l) (Fin 0) 0 mc) as (q & -> & Hq);
        [exists 0; split;
         [reflexivity | change (inject_Z (Z.of_nat 0)) with 0; lra]
        | exact A |].
      cbn [Nat.add List.length] in Hq. cbn [divCount].
      eexists. split; [reflexivity|].
      assert (Pn : 0 < inject_Z (Z.of_nat (S (List.length l)))).
      { change 0 with (inject_Z 0). rewrite <- Zlt_Qlt. lia. }
      split.
      * apply Qle_shift_div_l; [exact Pn|]. rewrite Qmult_0_l. apply Hq.
      * apply Qle_shift_div_r; [exact Pn|]. rewrite Qmult_1_l. apply Hq.
Qed.

(** X16.  For lists of entities none of which is [null],
    [calculateEntityAccuracy] returns a number between 0 and 1: a match
    score that is [NaN] is never a best match, so no [NaN] reaches the
    result. *)
Theorem accuracy_is_between_0_and_1 (actual expected : list Json) :
  Forall nonNull actual -> Forall nonNull expected ->
  exists q, calculateEntityAccuracy actual expected = Ok (Fin q)
            /\ 0 <= q <= 1.
Proof.
  intros Ha He.
  destruct (calculateEntityAccuracy_returns Ha He) as [r Hr].
  destruct (calculateEntityAccuracy_unit _ _ Hr) as (q & -> & Hq).
  exists q. split; [exact Hr | exact Hq].
Qed.

End ScoreRanges.

Lemma accuracy_is_between_0_and_1_witness :
  exists q,
    Matcher.calculateEntityAccuracy Samples.actualEntities
                                    Samples.expectedEntities
    = Ok (Num.Fin q)
    /\ (0 <= q <= 1)%Q.
Proof.
  apply (@accuracy_is_between_0_and_1 Samples.actualEntities
                                      Samples.expectedEntities);
    repeat constructor; discriminate.
Defined.

Section FlatEntities.

Import Js Num Matcher Score.
Local Open Scope Q_scope.

Lemma find_props {D} (g : Json -> D) (k : string)
      (fields : list (string * Json)) :
  Matcher.find k (List.map (fun kv => (fst kv, (snd kv, g (snd kv)))) fields)
  = option_map (fun v => (v, g v)) (lookup k fields).
Proof.
  induction fields as [|[k' v] rest IH]; cbn [List.map Matcher.find lookup fst snd].
  - reflexivity.
  - destruct (String.eqb k k'); [reflexivity | exact IH].
Qed.

Lemma lookup_key (k : string) (fields : list (string * Json)) :
  In k (List.map fst fields) ->
  exists v, lookup k fields = Some v /\ In v (List.map snd fields).
Proof.
  induction fields as [|[k' v] rest IH]; cbn [List.map In lookup fst snd];
    [intros []|].
  intros H. destruct (String.eqb k k') eqn:E.
  - exists v. split; [reflexivity | left; reflexivity].
  - destruct H as [H|H]; [subst; rewrite String.eqb_refl in E; discriminate|].
    destruct (IH H) as (v' & Hv & Hin). exists v'. split; [exact Hv|].
    right. exact Hin.
Qed.

Lemma keyScore_same (v : Json) (recur : Json -> Except JsNum) :
  primitive v -> keyScore v v recur = Ok (Fin 1).
Proof.
  unfold primitive, keyScore.
  destruct v as [ | b | q | s | items | fields ]; cbn [isObject andb strictEquals];
    try discriminate; intros _.
  - reflexivity.
  - rewrite Bool.eqb_reflx. reflexivity.
  - rewrite (proj2 (Qeq_bool_iff q q) (Qeq_refl q)). reflexivity.
  - rewrite String.eqb_refl. reflexivity.
Qed.

Lemma keyLoop_same (fields : list (string * Json)) (keys : list string) :
  Forall (fun v => primitive v) (List.map snd fields) ->
  (forall k, In k keys -> In k (List.map fst fields)) ->
  forall q n,
    q == inject_Z (Z.of_nat n) ->
    exists q',
      keyLoop keys
              (props matchScoreOn (fun _ => Ok (Fin 0)) (JObj fields))
              (props (fun _ => tt) tt (JObj fields))
              (Fin q) n
      = Ok (Fin q', (n + List.length keys)%nat)
      /\ q' == inject_Z (Z.of_nat (n + List.length keys)).
Proof.
  intros P. cbn [props]. induction keys as [|k rest IH]; intros Hk q n Hq;
    cbn [keyLoop List.length].
  - exists q. rewrite Nat.add_0_r. split; [reflexivity | exact Hq].
  - destruct (@lookup_key k fields) as (v & Hv & Hin);
      [apply Hk; left; reflexivity|].
    pose proof (find_props (fun _ : Json => tt) k fields) as F2.
    cbv beta in F2.
    rewrite find_props, F2, Hv. cbn [option_map]. cbv beta iota zeta.
    rewrite keyScore_same
      by (rewrite Forall_forall in P; apply P; exact Hin).
    cbn [add].
    destruct (IH (fun k' H => Hk k' (or_intror H)) (q + 1) (S n)) as (q' & E & Hq').
    { rewrite Hq, Nat2Z.inj_succ. unfold Z.succ. rewrite inject_Z_plus.
      reflexivity. }
    exists q'. replace (n + S (List.length rest))%nat
      with (S n + List.length rest)%nat by lia.
    split; [exact E | exact Hq'].
Qed.

(** X17.  An entity with at least one key and only primitive values
    (strings, numbers, booleans, [null]) has match score 1 against an
    equal entity. *)
Theorem identical_flat_entities_match (fields : list (string * Json)) :
  fields <> [] ->
  Forall (fun v => primitive v) (List.map snd fields) ->
  sameOutcome (calculateEntityMatchScore (JObj fields) (JObj fields))
              (Ok (Fin 1)).
Proof.
  intros N P. unfold calculateEntityMatchScore. cbn [matchScoreOn keys].
  set (ks := List.map fst fields).
  destruct (@keyLoop_same fields (setOf (ks ++ ks)) P) with (q := 0) (n := 0%nat)
    as (q' & E & Hq').
  { intros k Hk. apply (proj1 (setOf_In _ k)) in Hk.
    apply in_app_or in Hk. destruct Hk; assumption. }
  { reflexivity. }
  rewrite E. cbn [Nat.add] in *.
  destruct (List.length (setOf (ks ++ ks))) as [|m] eqn:L.
  - exfalso. apply length_zero_iff_nil in L.
    apply (@setOf_nonempty (ks ++ ks)); [|exact L].
    destruct fields; [congruence | discriminate].
  - cbn [Nat.ltb Nat.leb divCount sameOutcome eqv].
    rewrite Hq'.
    assert (Pn : ~ inject_Z (Z.of_nat (S m)) == 0).
    { intros H. change 0 with (inject_Z 0) in H.
      rewrite inject_Z_injective in H. lia. }
    field. exact Pn.
Qed.

End FlatEntities.

Lemma identical_flat_entities_match_witness :
  Num.sameOutcome
    (Matcher.calculateEntityMatchScore (Js.JObj Cases.flatEntity)
                                       (Js.JObj Cases.flatEntity))
    (Ok (Num.Fin 1)).
Proof.
  apply (@identical_flat_entities_match Cases.flatEntity).
  - discriminate.
  - repeat constructor.
Defined.

(** ** Prompt testing *)

Section TestCaseFiles.

Import Testing.




Lemma prefix_append (p s : string) : String.prefix p (p ++ s) = true.
Proof.
  induction p as [|c p IH]; cbn [append String.prefix].
  - destruct s; reflexivity.
  - destruct (Ascii.ascii_dec c c); [exact IH | congruence].
Qed.






Lemma dropPrefix_some (p s : string) :
  String.prefix p s = true -> exists rest, Regex.dropPrefix p s = Some rest.
Proof. intros H. rewrite dropPrefix_spec, H. eexists; reflexivity. Qed.

Lemma string_app_assoc (a b c : string) :
  ((a ++ b) ++ c = a ++ (b ++ c))%string.
Proof. induction a as [|x a IH]; cbn [append]; [reflexivity | rewrite IH; reflexivity]. Qed.






End TestCaseFiles.


Section EvaluationFacts.

Import Js Num Matcher Score Testing.
Local Open Scope Q_scope.

Lemma optionalType_returns (p : Value) : exists v, optionalType p = Ok v.
Proof.
  destruct p as [[ | b | q | s | items | fields ]|]; eexists; reflexivity.
Qed.

Lemma accuracy_unit (actual expected : list Json) :
  Forall nonNull actual -> Forall nonNull expected ->
  exists q, calculateEntityAccuracy actual expected = Ok (Fin q)
            /\ 0 <= q <= 1.
Proof.
  intros Ha He.
  destruct (calculateEntityAccuracy_returns Ha He) as [r Hr].
  destruct (calculateEntityAccuracy_unit _ _ Hr) as (q & -> & Hq).
  exists q. split; [exact Hr | exact Hq].
Qed.

(** X20.  For two extractions whose entities are not [null],
    [evaluateExtraction] computes its accuracy object without an
    exception: the accuracies of agents, tools and relationships are
    numbers between 0 and 1, and so is the overall accuracy, their mean
    with the 0-or-1 score of the orchestration pattern. *)
Theorem overall_accuracy_is_between_0_and_1
        (actual expectedValues : Extraction) :
  entitiesNonNull actual -> entitiesNonNull expectedValues ->
  exists accuracy q,
    accuracyOf actual expectedValues = Ok accuracy
    /\ unit (agentsAccuracy accuracy)
    /\ unit (toolsAccuracy accuracy)
    /\ unit (relationshipsAccuracy accuracy)
    /\ overallAccuracy accuracy = Fin q
    /\ 0 <= q <= 1.
Proof.
  intros (Aa & At & Ar) (Ea & Et & Er). unfold accuracyOf.
  destruct (accuracy_unit Aa Ea) as (qa & -> & Ha).
  destruct (accuracy_unit At Et) as (qt & -> & Ht).
  destruct (accuracy_unit Ar Er) as (qr & -> & Hr).
  destruct (optionalType_returns (orchestrationPattern actual)) as [ta ->].
  destruct (optionalType_returns (orchestrationPattern expectedValues))
    as [te ->].
  cbn [bind].
  assert (O : exists qo,
             (if strictEqualsValue ta te then Fin 1 else Fin 0) = Fin qo
             /\ 0 <= qo <= 1).
  { destruct (strictEqualsValue ta te); eexists; split;
      try reflexivity; lra. }
  destruct O as (qo & -> & Ho).
  eexists. exists ((0 + qa + qt + qr + qo) / 4).
  split; [reflexivity|].
  cbn [agentsAccuracy toolsAccuracy relationshipsAccuracy].
  split; [exists qa; split; [reflexivity | exact Ha]|].
  split; [exists qt; split; [reflexivity | exact Ht]|].
  split; [exists qr; split; [reflexivity | exact Hr]|].
  split; [reflexivity|].
  split.
  - apply Qle_shift_div_l; lra.
  - apply Qle_shift_div_r; lra.
Qed.

End EvaluationFacts.

Lemma overall_accuracy_is_between_0_and_1_witness :
  exists accuracy q,
    Testing.accuracyOf Cases.extracted Cases.expectedExtraction = Ok accuracy
    /\ Testing.overallAccuracy accuracy = Num.Fin q
    /\ (0 <= q <= 1)%Q.
Proof.
  destruct (@overall_accuracy_is_between_0_and_1 Cases.extracted
                                                Cases.expectedExtraction)
    as (accuracy & q & H & _ & _ & _ & Hq & B).
  - repeat split; repeat constructor; discriminate.
  - repeat split; repeat constructor; discriminate.
  - exists accuracy, q. repeat split; try assumption; apply B.
Defined.

(** ** More on the confidence scorer *)

Section ScorerMore.

Import Scorer.
Local Open Scope Q_scope.





End ScorerMore.


Section MentionFacts.

Import Scorer Regex.

Lemma consume_length (c : string) (o : option result) (m : string)
      (marks : list string) :
  consume c o = Some (m, marks) ->
  exists m', o = Some (m', marks) /\ m = (c ++ m')%string.
Proof.
  destruct o as [[m' marks']|]; cbn [consume]; intros H; [|discriminate].
  inversion H; subst. exists m'. split; reflexivity.
Qed.

(** A name read letter by letter matches a text of its own length. *)
Lemma literal_match_length (pat : list ascii) :
  forall s m marks,
    matchSeq (List.map ignoringCase pat) s = Some (m, marks) ->
    String.length m = List.length pat
    /\ (List.length pat <= String.length s)%nat.
Proof.
  induction pat as [|c pat IH]; intros s m marks H; cbn [List.map matchSeq] in H.
  - inversion H. cbn. split; [reflexivity | lia].
  - unfold ignoringCase at 1 in H. cbn [matchSeq] in H.
    destruct s as [|d s]; [discriminate|].
    destruct (Ascii.eqb (Str.canon d) (Str.canon c)); [|discriminate].
    destruct (consume_length _ _ H) as (m' & Hm' & ->).
    destruct (IH _ _ _ Hm') as [L1 L2].
    cbn [append String.length List.length]. split; lia.
Qed.

Lemma countAll_spread (pat : list ascii) (s : string) :
  (1 <= List.length pat)%nat ->
  forall skip,
    Z.of_nat (List.length pat)
    * countAll [List.map ignoringCase pat] skip s
    <= Z.max 0 (Z.of_nat (String.length s) - Z.of_nat skip).
Proof.
  intros L. induction s as [|c r IH]; intros [|k]; cbn [countAll].
  - cbn [firstAlt orElse].
    destruct (matchSeq (List.map ignoringCase pat) EmptyString)
      as [[m marks]|] eqn:M; cbn [orElse].
    + apply literal_match_length in M. cbn in M. lia.
    + lia.
  - lia.
  - cbn [firstAlt].
    destruct (matchSeq (List.map ignoringCase pat) (String c r))
      as [[m marks]|] eqn:M; cbn [orElse].
    + destruct (literal_match_length _ _ M) as [L1 L2].
      specialize (IH (Nat.pred (String.length m))).
      cbn [String.length] in *. lia.
    + specialize (IH O). cbn [String.length]. lia.
  - specialize (IH k). cbn [String.length]. lia.
Qed.

Lemma countAll_empty (s : string) :
  countAll [[]] O s = Z.of_nat (String.length s) + 1.
Proof.
  induction s as [|c r IH]; cbn [countAll firstAlt matchSeq orElse].
  - reflexivity.
  - cbn [String.length Nat.pred]. rewrite IH. lia.
Qed.

(** X23.  The mentions counted for an agent do not overlap: the count
    times the length of the name is at most the length of the
    description.  An empty name is counted once at every position, that is
    length + 1 times. *)
Theorem mentions_do_not_overlap (name systemDescription : string) :
  mentionCount name systemDescription * Str.len name
  <= Str.len systemDescription
  /\ mentionCount "" systemDescription = Str.len systemDescription + 1.
Proof.
  split.
  - unfold mentionCount. rewrite literalPattern_escape.
    unfold Str.len.
    assert (E : String.length name
                = List.length (list_ascii_of_string name)).
    { induction name as [|c r IH]; cbn; [reflexivity | rewrite IH; reflexivity]. }
    destruct name as [|c r]; [cbn [String.length]; lia|].
    pose proof (@countAll_spread (list_ascii_of_string (String c r))
                                 systemDescription) as H.
    rewrite <- E in H. specialize (H ltac:(cbn; lia) O).
    change (Z.of_nat 0) with 0 in H.
    rewrite Z.mul_comm. rewrite Z.sub_0_r in H. lia.
  - unfold mentionCount. cbn. apply countAll_empty.
Qed.

End MentionFacts.

(** ** A payload in a code block *)

Section FenceFacts.

Import Regex Extract Fences.


Lemma backtick_not_space (c : ascii) : Str.isSpace c = true -> Ascii.eqb "`" c = false.
Proof.
  intros H. destruct (Ascii.eqb "`" c) eqn:E; [|reflexivity].
  apply Ascii.eqb_eq in E. subst c. discriminate H.
Qed.

Lemma fence_needs_backtick (c : ascii) (r : string) (items : list item) (p : string) :
  Ascii.eqb "`" c = false ->
  matchSeq (Lit (String "`" p) :: items) (String c r) = None.
Proof. intros H. cbn [matchSeq dropPrefix]. rewrite H. reflexivity. Qed.

(** A greedy run of white space takes all the white space there is when
    the rest of the expression matches after it. *)
Lemma star_greedy_run (cls : ascii -> bool) (k : string -> option result)
      (ws rest : string) (r : result) :
  (forall c, Str.occurs c ws = true -> cls c = true) ->
  star true cls k rest = Some r ->
  star true cls k (ws ++ rest) = consume ws (Some r).
Proof.
  intros Hws Hr. induction ws as [|c ws IH]; cbn [append].
  - rewrite Hr. destruct r. reflexivity.
  - rewrite star_greedy_step.
    rewrite (Hws c) by (cbn [Str.occurs]; rewrite Ascii.eqb_refl; reflexivity).
    rewrite IH.
    + destruct r as [m marks]. reflexivity.
    + intros d Hd. apply Hws. cbn [Str.occurs]. rewrite Hd. apply orb_true_r.
Qed.

Lemma allSpace_occurs (ws : string) :
  allSpace ws = true -> forall c, Str.occurs c ws = true -> Str.isSpace c = true.
Proof.
  induction ws as [|d ws IH]; cbn [allSpace Str.occurs]; [discriminate|].
  intros H c Hc. apply andb_true_iff in H. destruct H as [Hd Hws].
  apply orb_true_iff in Hc. destruct Hc as [E|Hc].
  - apply Ascii.eqb_eq in E. subst. exact Hd.
  - apply IH; assumption.
Qed.

(** [\s*```] at the closing fence. *)
Lemma closing_fence (ws2 after : string) (tail : list item) (r : result) :
  allSpace ws2 = true ->
  matchSeq (Lit "```" :: tail) ("```" ++ after) = Some r ->
  star true Str.isSpace (matchSeq (Lit "```" :: tail)) (ws2 ++ "```" ++ after)
  = consume ws2 (Some r).
Proof.
  intros Hws Hr. apply star_greedy_run.
  - apply allSpace_occurs, Hws.
  - cbn [append]. rewrite star_greedy_step. cbn [Str.isSpace]. 
    replace (Str.isSpace "`") with false by reflexivity.
    cbn [orElse]. exact Hr.
Qed.

(** [\s*```] does not match where a text without backtick that ends in
    a character other than white space begins. *)
Lemma no_fence_inside (b tail : string) (items : list item) :
  b <> EmptyString ->
  Str.occurs "`" b = false ->
  match Str.last b with Some d => Str.isSpace d = false | None => False end ->
  star true Str.isSpace (matchSeq (Lit "```" :: items)) (b ++ tail) = None.
Proof.
  induction b as [|c b IH]; intros N O L; [congruence|].
  cbn [append]. rewrite star_greedy_step.
  cbn [Str.occurs] in O. apply orb_false_iff in O. destruct O as [Oc Ob].
  rewrite Ascii.eqb_sym in Oc.
  rewrite (@fence_needs_backtick c (b ++ tail) items "``" Oc).
  destruct (Str.isSpace c) eqn:Sp; [|reflexivity].
  destruct b as [|d b'].
  - cbn [Str.last] in L. congruence.
  - rewrite IH; [reflexivity | discriminate | exact Ob | exact L].
Qed.

(** A lazy [[\s\S]*?] takes a text in which the rest of the expression
    matches nowhere, when it matches after it. *)
Lemma star_lazy_run (k : string -> option result) (body tail : string)
      (r : result) :
  (forall pre b, body = (pre ++ b)%string -> b <> EmptyString ->
                 k (b ++ tail)%string = None) ->
  k tail = Some r ->
  star false any k (body ++ tail)%string = consume body (Some r).
Proof.
  intros Hb Hr. induction body as [|c body IH]; cbn [append].
  - destruct tail; cbn [star orElse]; rewrite Hr; destruct r; reflexivity.
  - rewrite star_lazy_step.
    assert (H0 := Hb EmptyString (String c body) eq_refl).
    cbn [append] in H0. rewrite H0 by discriminate.
    cbn [orElse any]. rewrite IH.
    + destruct r. reflexivity.
    + intros pre b E Nb. apply (Hb (String c pre) b); [|exact Nb].
      rewrite E. reflexivity.
Qed.

Lemma last_append (pre b : string) :
  b <> EmptyString -> Str.last (pre ++ b) = Str.last b.
Proof.
  intros N. induction pre as [|c pre IH]; [reflexivity|].
  cbn [append Str.last]. rewrite IH.
  destruct (pre ++ b)%string eqn:E; [|reflexivity].
  destruct pre, b; try discriminate; congruence.
Qed.

Lemma occurs_append (c : ascii) (a b : string) :
  Str.occurs c (a ++ b) = (Str.occurs c a || Str.occurs c b)%bool.
Proof.
  induction a as [|d a IH]; cbn [append Str.occurs]; [reflexivity|].
  rewrite IH. apply orb_assoc.
Qed.

Lemma tight_spec (body : string) :
  tight body = true ->
  body <> EmptyString
  /\ (exists c r, body = String c r /\ Str.isSpace c = false)
  /\ match Str.last body with
     | Some d => Str.isSpace d = false
     | None => False
     end.
Proof.
  unfold tight. intros H. apply andb_true_iff in H. destruct H as [H1 H2].
  destruct body as [|c r]; [discriminate|].
  split; [discriminate|]. split.
  - exists c, r. split; [reflexivity|]. apply negb_true_iff, H1.
  - destruct (Str.last (String c r)); [|discriminate].
    apply negb_true_iff, H2.
Qed.

(** Every place inside the payload: [\s*```] does not match there. *)
Lemma no_fence_in_payload (body tail : string) (items : list item) :
  Str.occurs "`" body = false ->
  tight body = true ->
  forall pre b, body = (pre ++ b)%string -> b <> EmptyString ->
                star true Str.isSpace (matchSeq (Lit "```" :: items))
                     (b ++ tail)%string = None.
Proof.
  intros O T pre b E N. destruct (tight_spec _ T) as (_ & _ & L).
  apply no_fence_inside; [exact N | |].
  - rewrite E, occurs_append in O. apply orb_false_iff in O. apply O.
  - rewrite E, (last_append pre N) in L. exact L.
Qed.



Lemma string_length_app (a b : string) :
  String.length (a ++ b) = (String.length a + String.length b)%nat.
Proof. induction a as [|c a IH]; cbn [append String.length]; [reflexivity|]. now rewrite IH. Qed.

Lemma string_app_empty_r (a : string) : (a ++ EmptyString)%string = a.
Proof. induction a as [|c a IH]; cbn [append]; [reflexivity|]. now rewrite IH. Qed.

Lemma head_not_space_star (k : string -> option result) (c : ascii) (r : string) :
  Str.isSpace c = false ->
  star true Str.isSpace k (String c r) = k (String c r).
Proof. intros H. rewrite star_greedy_step, H. reflexivity. Qed.

(** The first expression at the opening fence. *)
Lemma json_fence_at_head (ws1 body ws2 after : string) :
  allSpace ws1 = true -> allSpace ws2 = true ->
  Str.occurs "`" body = false -> tight body = true ->
  matchSeq jsonFenceRegex (fenced ws1 body ws2 ++ after)
  = Some (fenced ws1 body ws2,
          [(body ++ ws2 ++ "```")%string; (ws2 ++ "```")%string]).
Proof.
  intros W1 W2 O T.
  destruct (tight_spec _ T) as (N & (c & r & E & Sp) & L).
  assert (K3 : matchSeq [Lit "```"] ("```" ++ after) = Some ("```", [])).
  { reflexivity. }
  assert (K2 : matchSeq [Mark; Star true Str.isSpace; Lit "```"]
                        (ws2 ++ "```" ++ after)
               = Some ((ws2 ++ "```")%string, [(ws2 ++ "```")%string])).
  { cbn [matchSeq]. change (fun s => _) with (matchSeq [Lit "```"]).
    rewrite (@closing_fence ws2 after [] ("```", []) W2 K3). reflexivity. }
  assert (K1 : matchSeq [Mark; Star false any; Mark; Star true Str.isSpace;
                         Lit "```"] (body ++ ws2 ++ "```" ++ after)
               = Some ((body ++ ws2 ++ "```")%string,
                       [(body ++ ws2 ++ "```")%string; (ws2 ++ "```")%string])).
  { change (matchSeq (Mark :: Star false any :: ?rest) ?s)
      with (match star false any (matchSeq rest) s with
            | Some (m, marks) => Some (m, m :: marks)
            | None => None
            end).
    rewrite (@star_lazy_run _ body (ws2 ++ "```" ++ after)
               ((ws2 ++ "```")%string, [(ws2 ++ "```")%string])).
    - reflexivity.
    - intros pre b Eb Nb.
      change (matchSeq (Mark :: Star true Str.isSpace :: ?rest) ?s)
        with (match star true Str.isSpace (matchSeq rest) s with
              | Some (m, marks) => Some (m, m :: marks)
              | None => None
              end).
      rewrite (@no_fence_in_payload body (ws2 ++ "```" ++ after) [] O T pre b Eb Nb).
      reflexivity.
    - exact K2. }
  unfold fenced. rewrite !string_app_assoc.
  change (matchSeq jsonFenceRegex ("```json" ++ ?x))
    with (consume "```json"
            (star true Str.isSpace
               (matchSeq [Mark; Star false any; Mark; Star true Str.isSpace;
                          Lit "```"]) x)).
  rewrite (@star_greedy_run Str.isSpace _ ws1 (body ++ ws2 ++ "```" ++ after)
             ((body ++ ws2 ++ "```")%string,
              [(body ++ ws2 ++ "```")%string; (ws2 ++ "```")%string])).
  - reflexivity.
  - apply allSpace_occurs, W1.
  - rewrite E. cbn [append]. rewrite (@head_not_space_star _ c _ Sp).
    rewrite E in K1. cbn [append] in K1. exact K1.
Qed.

(** The search passes over a text without backtick. *)
Lemma search_skips (alts : list (list item)) (before rest : string) :
  (forall c r, Ascii.eqb "`" c = false -> firstAlt alts (String c r) = None) ->
  Str.occurs "`" before = false ->
  search alts (before ++ rest) = search alts rest.
Proof.
  intros H. induction before as [|c b IH]; intros O; [reflexivity|].
  cbn [Str.occurs] in O. apply orb_false_iff in O. destruct O as [Oc Ob].
  cbn [append search]. rewrite H by (rewrite Ascii.eqb_sym; exact Oc).
  apply IH, Ob.
Qed.

Lemma json_fence_search (before ws1 body ws2 after : string) :
  Str.occurs "`" before = false ->
  allSpace ws1 = true -> allSpace ws2 = true ->
  Str.occurs "`" body = false -> tight body = true ->
  search [jsonFenceRegex] (before ++ fenced ws1 body ws2 ++ after)
  = Some (fenced ws1 body ws2,
          [(body ++ ws2 ++ "```")%string; (ws2 ++ "```")%string]).
Proof.
  intros B W1 W2 O T.
  rewrite search_skips; [| |exact B].
  - pose proof (@json_fence_at_head ws1 body ws2 after W1 W2 O T) as M.
    unfold fenced in *. cbn [append] in *. cbn [search firstAlt orElse].
    rewrite M. reflexivity.
  - intros c r Hc. cbn [firstAlt]. unfold jsonFenceRegex.
    rewrite (@fence_needs_backtick c r _ "``json" Hc). reflexivity.
Qed.

Lemma jsonFenceMatch_fenced (before ws1 body ws2 after : string) :
  Str.occurs "`" before = false ->
  allSpace ws1 = true -> allSpace ws2 = true ->
  Str.occurs "`" body = false -> tight body = true ->
  jsonFenceMatch (before ++ fenced ws1 body ws2 ++ after)
  = Some (fenced ws1 body ws2).
Proof.
  intros B W1 W2 O T. unfold jsonFenceMatch.
  rewrite (@json_fence_search before ws1 body ws2 after B W1 W2 O T).
  reflexivity.
Qed.

Lemma substring_prefix (a b : string) :
  substring 0 (String.length a) (a ++ b) = a.
Proof.
  induction a as [|c a IH]; cbn [append String.length substring].
  - destruct b; reflexivity.
  - now rewrite IH.
Qed.

(** The first group of the match is the payload. *)
Lemma json_fence_group (before ws1 body ws2 after : string) :
  Str.occurs "`" before = false ->
  allSpace ws1 = true -> allSpace ws2 = true ->
  Str.occurs "`" body = false -> tight body = true ->
  group1 (search [jsonFenceRegex] (before ++ fenced ws1 body ws2 ++ after))
  = Some body.
Proof.
  intros B W1 W2 O T.
  rewrite (@json_fence_search before ws1 body ws2 after B W1 W2 O T).
  cbn [group1]. rewrite string_length_app.
  replace (String.length body + String.length (ws2 ++ "```")
           - String.length (ws2 ++ "```"))%nat
    with (String.length body) by lia.
  rewrite substring_prefix. reflexivity.
Qed.

Lemma trimEnd_last (s : string) :
  match Str.last s with
  | Some d => Str.isSpace d = false
  | None => True
  end ->
  Str.trimEnd s = s.
Proof.
  induction s as [|c r IH]; [reflexivity|].
  destruct r as [|d r'].
  - cbn [Str.last Str.trimEnd]. intros ->. reflexivity.
  - intros L. change (Str.last (String c (String d r')))
      with (Str.last (String d r')) in L.
    specialize (IH L).
    change (Str.trimEnd (String c (String d r')))
      with (match Str.trimEnd (String d r') with
            | EmptyString =>
                if Str.isSpace c then EmptyString else String c EmptyString
            | r0 => String c r0
            end).
    rewrite IH. reflexivity.
Qed.

Lemma trim_tight (body : string) : tight body = true -> Str.trim body = body.
Proof.
  intros T. destruct (tight_spec _ T) as (_ & (c & r & E & Sc) & L).
  unfold Str.trim. rewrite E at 1. cbn [Str.trimStart]. rewrite Sc, <- E.
  apply trimEnd_last. destruct (Str.last body); [exact L | exact I].
Qed.



Lemma removeAll_skip (alts : list (list item)) (p rest : string) :
  removeAll alts (String.length p) (p ++ rest) = removeAll alts O rest.
Proof. induction p as [|c p IH]; [reflexivity|]. exact IH. Qed.

Lemma removeAll_all (alts : list (list item)) (p : string) :
  removeAll alts (String.length p) p = EmptyString.
Proof. induction p as [|c p IH]; [reflexivity|]. exact IH. Qed.



(** The characters of the payload stay. *)
Lemma removeFences_payload (body tail : string) :
  Str.occurs "`" body = false -> tight body = true ->
  forall pre b, body = (pre ++ b)%string ->
    removeAll fenceRegex O (b ++ tail) = (b ++ removeAll fenceRegex O tail)%string.
Proof.
  intros O T pre b. revert pre.
  induction b as [|c b IH]; intros pre E; [reflexivity|].
  assert (Oc : Ascii.eqb "`" c = false).
  { rewrite E, occurs_append in O. apply orb_false_iff in O.
    destruct O as [_ O]. cbn [Str.occurs] in O.
    apply orb_false_iff in O. rewrite Ascii.eqb_sym. apply O. }
  cbn [append]. cbn [removeAll].
  assert (F : firstAlt fenceRegex (String c (b ++ tail)) = None).
  { unfold fenceRegex. cbn [firstAlt].
    rewrite (@fence_needs_backtick c (b ++ tail) _ "``json" Oc). cbn [orElse].
    change (matchSeq [Star true Str.isSpace; Lit "```"] ?s)
      with (star true Str.isSpace (matchSeq [Lit "```"]) s).
    pose proof (@no_fence_in_payload body tail [] O T pre (String c b) E) as H.
    cbn [append] in H. rewrite H by discriminate. reflexivity. }
  rewrite F. f_equal. apply (IH (pre ++ String c EmptyString)%string).
  rewrite E, string_app_assoc. reflexivity.
Qed.

(** The closing fence and the white space before it go. *)
Lemma removeFences_closing (ws2 : string) :
  allSpace ws2 = true ->
  removeAll fenceRegex O (ws2 ++ "```") = EmptyString.
Proof.
  intros W. destruct ws2 as [|c w]; [reflexivity|].
  pose proof W as W'. cbn [allSpace] in W'. apply andb_true_iff in W'.
  destruct W' as [Sc _].
  cbn [append removeAll].
  assert (F : firstAlt fenceRegex (String c (w ++ "```"))
              = Some ((String c w ++ "```")%string, [])).
  { unfold fenceRegex. cbn [firstAlt].
    rewrite (@fence_needs_backtick c (w ++ "```") _ "``json"
               (backtick_not_space _ Sc)).
    cbn [orElse].
    change (matchSeq [Star true Str.isSpace; Lit "```"] ?s)
      with (star true Str.isSpace (matchSeq [Lit "```"]) s).
    pose proof (@closing_fence (String c w) EmptyString [] ("```", []) W eq_refl)
      as H.
    cbn [append consume] in H. cbn [append]. rewrite H. reflexivity. }
  rewrite F. cbn [append String.length]. apply removeAll_all.
Qed.

(** The opening fence and the white space after it go. *)
Lemma removeFences_opening (ws1 rest : string) (c : ascii) :
  allSpace ws1 = true -> Str.isSpace c = false ->
  removeAll fenceRegex O ("```json" ++ ws1 ++ String c rest)
  = removeAll fenceRegex O (String c rest).
Proof.
  intros W Sc.
  assert (F : firstAlt fenceRegex ("```json" ++ ws1 ++ String c rest)
              = Some (("```json" ++ ws1)%string, [])).
  { unfold fenceRegex. cbn [firstAlt].
    change (matchSeq [Lit "```json"; Star true Str.isSpace] ("```json" ++ ?x))
      with (consume "```json" (star true Str.isSpace (matchSeq []) x)).
    rewrite (@star_greedy_run Str.isSpace (matchSeq []) ws1 (String c rest)
               (EmptyString, [])).
    - cbn [consume orElse]. rewrite string_app_empty_r. reflexivity.
    - apply allSpace_occurs, W.
    - rewrite (@head_not_space_star _ c rest Sc). reflexivity. }
  cbn [append] in *. cbn [removeAll]. rewrite F. cbn [String.length].
  apply (@removeAll_skip fenceRegex ("``json" ++ ws1) (String c rest)).
Qed.

Lemma removeFences_fenced (ws1 body ws2 : string) :
  allSpace ws1 = true -> allSpace ws2 = true ->
  Str.occurs "`" body = false -> tight body = true ->
  removeFences (fenced ws1 body ws2) = body.
Proof.
  intros W1 W2 O T. unfold removeFences, fenced.
  destruct (tight_spec _ T) as (_ & (c & r & E & Sc) & _).
  pose proof (@removeFences_payload body (ws2 ++ "```") O T EmptyString body
                eq_refl) as P.
  rewrite (@removeFences_closing ws2 W2), string_app_empty_r in P.
  rewrite E in *. cbn [append] in P |- *.
  pose proof (@removeFences_opening ws1 (r ++ ws2 ++ "```") c W1 Sc) as Q.
  cbn [append] in Q. rewrite Q. exact P.
Qed.

(** X24. A payload in a code block tagged json comes back as it is: when
    the reply has no backtick before the block, and the payload has none,
    begins and ends with a character other than white space and has only
    white space around it inside the block, the text handed to
    [JSON.parse] is the payload, whatever follows the block. *)
Theorem fenced_payload_round_trip (before ws1 body ws2 after : string) :
  Str.occurs "`" before = false ->
  allSpace ws1 = true -> allSpace ws2 = true ->
  Str.occurs "`" body = false -> tight body = true ->
  cleanedJson (before ++ fenced ws1 body ws2 ++ after) = Ok body.
Proof.
  intros B W1 W2 O T. unfold cleanedJson.
  rewrite (@jsonFenceMatch_fenced before ws1 body ws2 after B W1 W2 O T).
  rewrite (@removeFences_fenced ws1 body ws2 W1 W2 O T). reflexivity.
Qed.

End FenceFacts.

Lemma fenced_payload_round_trip_witness :
  Extract.cleanedJson Cases.fencedAgents = Ok Cases.agentsPayload.
Proof.
  exact (@fenced_payload_round_trip
           Cases.greeting Replies.LF Cases.agentsPayload Replies.LF
           " Let me know." eq_refl eq_refl eq_refl eq_refl eq_refl).
Defined.

Section FencedAgents.

Import Js Regex Extract Fences Retry Replies.

Variable JSON_parse : string -> Except Json.
Variable W : Type.
Variable generateContent : W -> Except string * W.

Lemma text_with_backtick (a b body : string) :
  Str.occurs "`" body = false ->
  String.eqb body (a ++ String "`" b) = false.
Proof.
  intros O. destruct (String.eqb _ _) eqn:E; [|reflexivity].
  apply String.eqb_eq in E. rewrite E, occurs_append in O.
  cbn [Str.occurs] in O. rewrite Ascii.eqb_refl, orb_true_r in O.
  discriminate O.
Qed.

(** The text [refineAgentDesign] parses is the payload of the block. *)
Lemma agentsJsonText_fenced (before ws1 body ws2 after : string) :
  Str.occurs "`" before = false ->
  allSpace ws1 = true -> allSpace ws2 = true ->
  Str.occurs "`" body = false -> tight body = true ->
  agentsJsonText (before ++ fenced ws1 body ws2 ++ after) = body.
Proof.
  intros B W1 W2 O T. unfold agentsJsonText, codeBlockPatterns.
  cbn [fromCodeBlock].
  change (taggedFenceRegex "json") with jsonFenceRegex.
  rewrite (@json_fence_group before ws1 body ws2 after B W1 W2 O T).
  assert (N : nonEmpty body = true).
  { destruct (tight_spec _ T) as (_ & (c & r & E & _) & _).
    rewrite E. reflexivity. }
  rewrite N, (trim_tight _ T).
  unfold fenced. cbn [append].
  rewrite (@text_with_backtick before _ body O). reflexivity.
Qed.

(** X25.  Agents in a code block tagged json are what [refineAgentDesign]
    resolves with: when the reply has no backtick before the block, and
    the payload has none, begins and ends with a character other than
    white space, has only white space around it inside the block and
    parses to an array, to an object with an [agents] array or to any
    other object, the call resolves with those agents after one
    invocation, whatever text surrounds the block. *)
Theorem fenced_agents_are_returned
        (before ws1 body ws2 after : string) (v : Json) (items : list Json)
        (w0 w1 : W) :
  Str.occurs "`" before = false ->
  allSpace ws1 = true -> allSpace ws2 = true ->
  Str.occurs "`" body = false -> tight body = true ->
  JSON_parse body = Ok v ->
  agentsOf v = Ok items ->
  generateContent w0 = (Ok (before ++ fenced ws1 body ws2 ++ after)%string, w1) ->
  refineAgentDesign JSON_parse generateContent w0
  = Some (Returned JsError items, w1, [Invoke]).
Proof.
  intros B W1 W2 O T P A G. unfold refineAgentDesign.
  eapply callback_returns; [exact G|].
  unfold agentsFromText.
  rewrite (@agentsJsonText_fenced before ws1 body ws2 after B W1 W2 O T).
  rewrite P. cbn [bind]. rewrite A. reflexivity.
Qed.

End FencedAgents.

Lemma fenced_agents_are_returned_witness :
  Replies.refineAgentDesign
    (Samples.parserFor Cases.agentsPayload Cases.agentsValue)
    (Cases.answering Cases.fencedAgents) 0%nat
  = Some (Retry.Returned JsError [Js.JObj []], 1%nat, [Retry.Invoke]).
Proof.
  exact (@fenced_agents_are_returned
           (Samples.parserFor Cases.agentsPayload Cases.agentsValue)
           nat (Cases.answering Cases.fencedAgents)
           Cases.greeting Replies.LF Cases.agentsPayload Replies.LF
           " Let me know." Cases.agentsValue [Js.JObj []] 0%nat 1%nat
           eq_refl eq_refl eq_refl eq_refl eq_refl eq_refl eq_refl eq_refl).
Defined.

(** ** Properties the expected entity does not have *)

Section ExtraKeys.

Import Js Num Matcher Keys.

Lemma dedupe_ext (xs : list string) :
  forall seen seen',
    (forall x, In x xs ->
               existsb (String.eqb x) seen = existsb (String.eqb x) seen') ->
    dedupe seen xs = dedupe seen' xs.
Proof.
  induction xs as [|x r IH]; intros seen seen' H; [reflexivity|].
  cbn [dedupe]. rewrite <- (H x (or_introl eq_refl)).
  destruct (existsb (String.eqb x) seen) eqn:E.
  - apply IH. intros y Hy. apply H. right. exact Hy.
  - f_equal. apply IH. intros y Hy. cbn [existsb].
    rewrite (H y (or_intror Hy)). reflexivity.
Qed.

Lemma filter_other_In (k x : string) (xs : list string) :
  In x (List.filter (other k) xs) -> String.eqb x k = false.
Proof.
  intros H. apply filter_In in H. destruct H as [_ H].
  unfold other in H. apply negb_true_iff in H. exact H.
Qed.

(** Removing a key from the elements of a set removes it from the set. *)
Lemma filter_dedupe (k : string) (xs : list string) :
  forall seen,
    List.filter (other k) (dedupe seen xs)
    = dedupe seen (List.filter (other k) xs).
Proof.
  induction xs as [|x r IH]; intros seen; [reflexivity|].
  cbn [dedupe List.filter]. unfold other at 2.
  destruct (String.eqb x k) eqn:E; cbn [negb].
  - apply String.eqb_eq in E. subst x.
    destruct (existsb (String.eqb k) seen); [apply IH|].
    cbn [List.filter]. unfold other at 1. rewrite String.eqb_refl. cbn [negb].
    rewrite IH. apply dedupe_ext. intros y Hy.
    cbn [existsb]. rewrite (filter_other_In _ _ _ Hy). reflexivity.
  - cbn [dedupe]. destruct (existsb (String.eqb x) seen); [apply IH|].
    cbn [List.filter]. unfold other at 1. rewrite E. cbn [negb].
    rewrite IH. reflexivity.
Qed.

(** A key [expected] does not have adds nothing to either counter. *)
Lemma keyLoop_filter (k : string)
      (expectedProps : list (string * (Json * (Json -> Except JsNum))))
      (actualProps : list (string * (Json * unit))) :
  Matcher.find k expectedProps = None ->
  forall allKeys matchScore totalKeys,
    keyLoop allKeys expectedProps actualProps matchScore totalKeys
    = keyLoop (List.filter (other k) allKeys) expectedProps actualProps
              matchScore totalKeys.
Proof.
  intros F. induction allKeys as [|x r IH]; intros m t; [reflexivity|].
  cbn [List.filter]. unfold other at 1.
  destruct (String.eqb x k) eqn:E; cbn [negb].
  - apply String.eqb_eq in E. subst x. cbn [keyLoop]. rewrite F. apply IH.
  - cbn [keyLoop].
    destruct (Matcher.find x expectedProps) as [[ev recur]|]; [|apply IH].
    destruct (Matcher.find x actualProps) as [[av u]|]; [|apply IH].
    destruct (keyScore ev av recur); [apply IH | reflexivity].
Qed.

(** The loop reads [actual] only at the keys it visits. *)
Lemma keyLoop_actual (expectedProps : list (string * (Json * (Json -> Except JsNum))))
      (actualProps actualProps' : list (string * (Json * unit))) :
  forall allKeys matchScore totalKeys,
    (forall x, In x allKeys ->
               Matcher.find x actualProps = Matcher.find x actualProps') ->
    keyLoop allKeys expectedProps actualProps matchScore totalKeys
    = keyLoop allKeys expectedProps actualProps' matchScore totalKeys.
Proof.
  induction allKeys as [|x r IH]; intros m t H; [reflexivity|].
  cbn [keyLoop]. rewrite <- (H x (or_introl eq_refl)).
  assert (H' : forall y, In y r ->
                 Matcher.find y actualProps = Matcher.find y actualProps')
    by (intros y Hy; apply H; right; exact Hy).
  destruct (Matcher.find x expectedProps) as [[ev recur]|]; [|apply IH, H'].
  destruct (Matcher.find x actualProps) as [[av u]|]; [|apply IH, H'].
  destruct (keyScore ev av recur); [apply IH, H' | reflexivity].
Qed.

Lemma lookup_app_other (k x : string) (v : Json)
      (a b : list (string * Json)) :
  String.eqb x k = false ->
  lookup x (a ++ (k, v) :: b) = lookup x (a ++ b).
Proof.
  intros E. induction a as [|[k' v'] a IH]; cbn [app lookup].
  - rewrite E. reflexivity.
  - destruct (String.eqb x k'); [reflexivity | exact IH].
Qed.

Lemma lookup_absent (k : string) (fields : list (string * Json)) :
  existsb (String.eqb k) (List.map fst fields) = false ->
  lookup k fields = None.
Proof.
  induction fields as [|[k' v] rest IH]; cbn [List.map existsb lookup fst];
    [reflexivity|].
  intros H. apply orb_false_iff in H. destruct H as [E H].
  rewrite E. apply IH, H.
Qed.

Lemma filter_other_app_key (k : string) (a b : list string) :
  List.filter (other k) (a ++ k :: b) = List.filter (other k) (a ++ b).
Proof.
  rewrite !filter_app. cbn [List.filter]. unfold other at 2.
  rewrite String.eqb_refl. reflexivity.
Qed.

(** X26.  A property of the actual entity that the expected entity does
    not have never changes the match score: with or without it, wherever
    it stands among the properties, [calculateEntityMatchScore] gives the
    same result.  The key is any name other than the members of
    [Object.prototype], which every expected object has. *)
Theorem extra_property_of_actual_is_ignored
        (expected before after : list (string * Json)) (k : string)
        (v : Json) :
  inherited k = false ->
  existsb (String.eqb k) (List.map fst expected) = false ->
  calculateEntityMatchScore (JObj (before ++ (k, v) :: after)) (JObj expected)
  = calculateEntityMatchScore (JObj (before ++ after)) (JObj expected).
Proof.
  intros _ Hk. unfold calculateEntityMatchScore.
  cbn [matchScoreOn keys props].
  assert (F : Matcher.find k
                (List.map (fun kv => (fst kv, (snd kv, matchScoreOn (snd kv))))
                          expected) = None).
  { rewrite find_props, (lookup_absent _ _ Hk). reflexivity. }
  rewrite (@keyLoop_filter k _ _ F).
  rewrite (@keyLoop_filter k _ _ F
             (setOf (List.map fst (before ++ after) ++ List.map fst expected))).
  rewrite (@keyLoop_actual _
             (List.map (fun kv => (fst kv, (snd kv, tt)))
                       (before ++ (k, v) :: after))
             (List.map (fun kv => (fst kv, (snd kv, tt))) (before ++ after))).
  - assert (K : List.filter (other k)
                  (setOf (List.map fst (before ++ (k, v) :: after)
                          ++ List.map fst expected))
                = List.filter (other k)
                    (setOf (List.map fst (before ++ after)
                            ++ List.map fst expected))).
    { unfold setOf. rewrite !filter_dedupe.
      rewrite !List.map_app. cbn [List.map fst].
      rewrite <- !List.app_assoc. cbn [app].
      rewrite filter_other_app_key. reflexivity. }
    rewrite K. reflexivity.
  - intros x Hx.
    pose proof (find_props (fun _ : Json => tt) x (before ++ (k, v) :: after))
      as F1.
    pose proof (find_props (fun _ : Json => tt) x (before ++ after)) as F2.
    cbv beta in F1, F2. rewrite F1, F2.
    rewrite lookup_app_other; [reflexivity|].
    exact (filter_other_In _ _ _ Hx).
Qed.

End ExtraKeys.

Lemma extra_property_of_actual_is_ignored_witness :
  Matcher.calculateEntityMatchScore (Js.JObj Cases.scoredEntity)
                                    (Js.JObj Cases.flatEntity)
  = Matcher.calculateEntityMatchScore (Js.JObj (Cases.flatEntity ++ []))
                                      (Js.JObj Cases.flatEntity).
Proof.
  exact (@extra_property_of_actual_is_ignored
           Cases.flatEntity Cases.flatEntity [] "confidence" (Js.JNum 85)
           eq_refl eq_refl).
Defined.

(** ** The endpoints once the model has replied *)

Section ControllerFacts.

Import Js Retry Replies Controller Diagram.

Variable JSON_parse : string -> Except Json.
Variable W : Type.
Variable generateContent : W -> Except string * W.

(** X27.  The tool selection endpoint, for a request that passes its
    checks, once the model has replied: the answer is 200 with the agents
    read from the reply and the [suggestedOrchestration] of the request,
    or 500 with the message "Invalid response format from AI model".  The
    message "Failed to process the AI response. Please try again." is
    never the answer to a reply: the service has replaced whatever the
    reply handling threw before the controller looks for "Failed to
    extract". *)
Theorem tool_selection_endpoint_on_reply
        (fields : list (string * Json)) (toolSelections : Value)
        (w0 w1 : W) (text : string) :
  isArray toolSelections = true ->
  isArray (lookup "suggestedAgents" fields) = true ->
  generateContent w0 = (Ok text, w1) ->
  (exists updatedAgents,
      agentsFromText JSON_parse text = Ok updatedAgents
      /\ processToolSelections JSON_parse generateContent
                               (Some (JObj fields)) toolSelections w0
         = Some ((200,
                  Data {| agents := updatedAgents;
                          orchestrationType :=
                            lookup "suggestedOrchestration" fields |}),
                 w1, [Invoke]))
  \/ processToolSelections JSON_parse generateContent
                           (Some (JObj fields)) toolSelections w0
     = Some ((500, Message "Invalid response format from AI model" None),
             w1, [Invoke]).
Proof.
  intros T S G. unfold processToolSelections.
  assert (Tt : truthy toolSelections = true).
  { unfold isArray, asArray in T.
    destruct toolSelections as [[ | | | | |]|]; try discriminate; reflexivity. }
  assert (St : truthy (lookup "suggestedAgents" fields) = true).
  { unfold isArray, asArray in S.
    destruct (lookup "suggestedAgents" fields) as [[ | | | | |]|];
      try discriminate; reflexivity. }
  cbn [truthy negb read get]. rewrite Tt, T, St, S. cbn [negb orb].
  destruct (agentsFromText JSON_parse text) as [updatedAgents|e] eqn:A.
  - left. exists updatedAgents. split; [reflexivity|].
    unfold refineAgentDesign.
    rewrite (@callback_returns W generateContent _ _ w0 w1 text updatedAgents G A).
    reflexivity.
  - right. pose proof (@agentsFromText_error JSON_parse text e A) as ->.
    unfold refineAgentDesign.
    rewrite (@callback_rejects W generateContent _ _ w0 w1 text invalidFormat
               G A eq_refl).
    reflexivity.
Qed.

(** X28.  The diagram endpoint, for an array of agents none of which is
    [null] and an orchestration type, once the model has replied: the
    answer is 200 with a diagram, whatever the reply says.  The code
    DIAGRAM_GENERATION_FAILED is never the answer to a reply. *)
Theorem diagram_endpoint_on_reply
        (items : list Json) (orchestrationType : Value)
        (w0 w1 : W) (text : string) :
  ~ In JNull items ->
  truthy orchestrationType = true ->
  generateContent w0 = (Ok text, w1) ->
  exists diagram,
    diagramFromText JSON_parse items text = Ok diagram
    /\ generateDiagram JSON_parse generateContent
                       (Some (JArr items)) orchestrationType w0
       = Some ((200, Data diagram), w1, [Invoke]).
Proof.
  intros N T G. unfold generateDiagram. cbn [asArray]. rewrite T. cbn [negb].
  destruct (diagramFromText JSON_parse items text) as [d|e] eqn:D.
  - exists d. split; [reflexivity|].
    unfold generateSystemDiagram.
    rewrite (@callback_returns W generateContent _ _ w0 w1 text d G D).
    reflexivity.
  - destruct (@diagramFromText_error JSON_parse items text e D) as [_ H].
    contradiction.
Qed.

End ControllerFacts.

Lemma tool_selection_endpoint_on_reply_witness :
  (exists updatedAgents,
      Replies.agentsFromText
        (Samples.parserFor Cases.agentsPayload Cases.agentsValue)
        Cases.agentsPayload = Ok updatedAgents
      /\ Controller.processToolSelections
           (Samples.parserFor Cases.agentsPayload Cases.agentsValue)
           (Cases.answering Cases.agentsPayload)
           (Some (Js.JObj Cases.analysisFields)) Cases.selections 0%nat
         = Some ((200,
                  Controller.Data
                    {| Controller.agents := updatedAgents;
                       Controller.orchestrationType :=
                         Some (Js.JStr "Sequential") |}),
                 1%nat, [Retry.Invoke]))
  \/ Controller.processToolSelections
       (Samples.parserFor Cases.agentsPayload Cases.agentsValue)
       (Cases.answering Cases.agentsPayload)
       (Some (Js.JObj Cases.analysisFields)) Cases.selections 0%nat
     = Some ((500,
              Controller.Message "Invalid response format from AI model" None),
             1%nat, [Retry.Invoke]).
Proof.
  exact (@tool_selection_endpoint_on_reply
           (Samples.parserFor Cases.agentsPayload Cases.agentsValue)
           nat (Cases.answering Cases.agentsPayload)
           Cases.analysisFields
           Cases.selections 0%nat 1%nat Cases.agentsPayload
           eq_refl eq_refl eq_refl).
Defined.

Lemma diagram_endpoint_on_reply_witness :
  exists diagram,
    Diagram.diagramFromText Samples.rejectAll Samples.oneAgent
                            "I cannot help with that" = Ok diagram
    /\ Controller.generateDiagram
         Samples.rejectAll (Cases.answering "I cannot help with that")
         (Some (Js.JArr Samples.oneAgent)) (Some (Js.JStr "Sequential"))
         0%nat
       = Some ((200, Controller.Data diagram), 1%nat, [Retry.Invoke]).
Proof.
  apply (@diagram_endpoint_on_reply
           Samples.rejectAll nat (Cases.answering "I cannot help with that")
           Samples.oneAgent (Some (Js.JStr "Sequential")) 0%nat 1%nat
           "I cannot help with that").
  - intros [H|[]]. discriminate H.
  - reflexivity.
  - reflexivity.
Defined.

(** ** Binary64 rounding *)

Section Pow2Facts.

Import Num Binary64.
Local Open Scope Q_scope.

Lemma two_nonzero : ~ 2 == 0.
Proof. intros H. discriminate H. Qed.

Lemma pow2_pos (k : Z) : 0 < pow2 k.
Proof. apply Qpower_0_lt. reflexivity. Qed.

Lemma pow2_add (a b : Z) : pow2 (a + b) == pow2 a * pow2 b.
Proof. apply Qpower_plus, two_nonzero. Qed.

Lemma pow2_le (a b : Z) : (a <= b)%Z -> pow2 a <= pow2 b.
Proof. intros H. apply Qpower_le_compat_l; [exact H | discriminate]. Qed.

Lemma pow2_lt (a b : Z) : (a < b)%Z -> pow2 a < pow2 b.
Proof. intros H. apply Qpower_lt_compat_l; [exact H | reflexivity]. Qed.

Lemma pow2_le_inv (a b : Z) : pow2 a <= pow2 b -> (a <= b)%Z.
Proof. intros H. eapply Qpower_le_compat_l_inv; [exact H | reflexivity]. Qed.

Lemma pow2_lt_inv (a b : Z) : pow2 a < pow2 b -> (a < b)%Z.
Proof. intros H. eapply Qpower_lt_compat_l_inv; [exact H | reflexivity]. Qed.

Lemma pow2_Z (k : Z) : (0 <= k)%Z -> pow2 k == inject_Z (2 ^ k).
Proof. intros H. unfold pow2. rewrite Zpower_Qpower by exact H. reflexivity. Qed.

Lemma pow2_sub (a b : Z) : pow2 (a - b) == pow2 a / pow2 b.
Proof.
  unfold Z.sub. rewrite pow2_add. unfold pow2 at 2. rewrite Qpower_opp.
  reflexivity.
Qed.

Lemma pow2_succ (a : Z) : pow2 (a + 1) == 2 * pow2 a.
Proof. rewrite pow2_add. change (pow2 1) with 2. ring. Qed.

(** [q / 2^a] against [2^b] *)
Lemma div_pow2_lt (q : Q) (a b : Z) : q < pow2 (a + b) -> q / pow2 a < pow2 b.
Proof.
  intros H. apply Qlt_shift_div_r; [apply pow2_pos|].
  rewrite Qmult_comm, <- pow2_add. exact H.
Qed.

Lemma div_pow2_le (q : Q) (a b : Z) : q <= pow2 (a + b) -> q / pow2 a <= pow2 b.
Proof.
  intros H. apply Qle_shift_div_r; [apply pow2_pos|].
  rewrite Qmult_comm, <- pow2_add. exact H.
Qed.

Lemma div_pow2_ge (q : Q) (a b : Z) : pow2 (a + b) <= q -> pow2 b <= q / pow2 a.
Proof.
  intros H. apply Qle_shift_div_l; [apply pow2_pos|].
  rewrite Qmult_comm, <- pow2_add. exact H.
Qed.

End Pow2Facts.

Section Ilog2Facts.

Import Num Binary64.
Local Open Scope Q_scope.

Lemma Zlog2_bounds (n : Z) :
  (0 < n)%Z ->
  inject_Z (2 ^ Z.log2 n) <= inject_Z n
  /\ inject_Z n < inject_Z (2 ^ (Z.log2 n + 1)).
Proof.
  intros H. destruct (Z.log2_spec n H) as [L U].
  split.
  - rewrite <- Zle_Qle. exact L.
  - rewrite <- Zlt_Qlt. replace (Z.log2 n + 1)%Z with (Z.succ (Z.log2 n)) by lia.
    exact U.
Qed.

(** [ilog2 q] is the binary exponent of [q]. *)
Lemma ilog2_spec (q : Q) :
  0 < q -> pow2 (ilog2 q) <= q /\ q < pow2 (ilog2 q + 1).
Proof.
  intros Hq. destruct q as [n d].
  assert (Hn : (0 < n)%Z).
  { unfold Qlt in Hq. cbn in Hq. lia. }
  unfold ilog2. cbn [Qnum Qden].
  set (a := Z.log2 n). set (b := Z.log2 (Zpos d)).
  destruct (Zlog2_bounds Hn) as [La Ua]. fold a in La, Ua.
  destruct (Zlog2_bounds (n := Zpos d) eq_refl) as [Lb Ub]. fold b in Lb, Ub.
  assert (Ha : (0 <= a)%Z) by apply Z.log2_nonneg.
  assert (Hb : (0 <= b)%Z) by apply Z.log2_nonneg.
  rewrite <- pow2_Z in La, Ua, Lb, Ub by lia.
  assert (E : n # d == inject_Z n / inject_Z (Zpos d)) by apply Qmake_Qdiv.
  assert (Dpos : 0 < inject_Z (Zpos d)) by reflexivity.
  assert (Up : n # d < pow2 (a - b + 1)).
  { rewrite E. apply Qlt_shift_div_r; [exact Dpos|].
    eapply Qlt_le_trans; [exact Ua|].
    replace (a + 1)%Z with ((a - b + 1) + b)%Z by lia.
    rewrite pow2_add. apply Qmult_le_l; [apply pow2_pos | exact Lb]. }
  assert (Lo : pow2 (a - b - 1) <= n # d).
  { rewrite E. apply Qle_shift_div_l; [exact Dpos|].
    eapply Qle_trans; [|exact La].
    replace a with ((a - b - 1) + (b + 1))%Z at 2 by lia.
    rewrite pow2_add. apply Qmult_le_l; [apply pow2_pos|].
    apply Qlt_le_weak. exact Ub. }
  destruct (Qle_bool (pow2 (a - b)) (n # d)) eqn:C.
  - apply Qle_bool_iff in C. split; [exact C | exact Up].
  - split; [exact Lo|].
    replace (a - b - 1 + 1)%Z with (a - b)%Z by lia.
    apply Qnot_le_lt. intros H. apply Qle_bool_iff in H. congruence.
Qed.

(** The exponent is determined by the two bounds. *)
Lemma ilog2_unique (q : Q) (e : Z) :
  pow2 e <= q -> q < pow2 (e + 1) -> ilog2 q = e.
Proof.
  intros L U.
  assert (Hq : 0 < q) by (eapply Qlt_le_trans; [apply pow2_pos | exact L]).
  destruct (ilog2_spec Hq) as [L' U'].
  assert (A : (e < ilog2 q + 1)%Z).
  { apply pow2_lt_inv. eapply Qle_lt_trans; [exact L | exact U']. }
  assert (B : (ilog2 q < e + 1)%Z).
  { apply pow2_lt_inv. eapply Qle_lt_trans; [exact L' | exact U]. }
  lia.
Qed.

Lemma ilog2_comp (q q' : Q) : 0 < q -> q == q' -> ilog2 q = ilog2 q'.
Proof.
  intros Hq E. symmetry. destruct (ilog2_spec Hq) as [L U].
  apply ilog2_unique; rewrite <- E; assumption.
Qed.

Lemma ilog2_mono (q q' : Q) : 0 < q -> q <= q' -> (ilog2 q <= ilog2 q')%Z.
Proof.
  intros Hq H.
  assert (Hq' : 0 < q') by (eapply Qlt_le_trans; eassumption).
  destruct (ilog2_spec Hq) as [L _]. destruct (ilog2_spec Hq') as [_ U'].
  assert (A : (ilog2 q < ilog2 q' + 1)%Z).
  { apply pow2_lt_inv. eapply Qle_lt_trans; [exact L|].
    eapply Qle_lt_trans; [exact H | exact U']. }
  lia.
Qed.

Lemma ilog2_pow2 (e : Z) : ilog2 (pow2 e) = e.
Proof.
  apply ilog2_unique; [apply Qle_refl | apply pow2_lt; lia].
Qed.

End Ilog2Facts.

Section RneFacts.

Import Num Binary64.
Local Open Scope Q_scope.

Lemma rne_cases (x : Q) : rne x = Qfloor x \/ rne x = (Qfloor x + 1)%Z.
Proof.
  unfold rne. destruct (Qcompare _ _); [destruct (Z.even _)| |]; auto.
Qed.

(** An integer is its own nearest integer. *)
Lemma rne_integral (x : Q) (z : Z) : x == inject_Z z -> rne x = z.
Proof.
  intros E. unfold rne.
  assert (F : Qfloor x = z) by (rewrite E; apply Qfloor_Z).
  rewrite F.
  assert (C : Qcompare (x - inject_Z z) (1 # 2) = Lt).
  { rewrite <- Qlt_alt. rewrite E. ring_simplify. reflexivity. }
  rewrite C. reflexivity.
Qed.

Lemma rne_Z (z : Z) : rne (inject_Z z) = z.
Proof. apply rne_integral. reflexivity. Qed.

Lemma rne_comp (x y : Q) : x == y -> rne x = rne y.
Proof.
  intros E. unfold rne.
  assert (F : Qfloor x = Qfloor y) by (rewrite E; reflexivity).
  rewrite F.
  assert (C : Qcompare (x - inject_Z (Qfloor y)) (1 # 2)
              = Qcompare (y - inject_Z (Qfloor y)) (1 # 2))
    by (rewrite E; reflexivity).
  rewrite C. reflexivity.
Qed.

Lemma rne_mono (x y : Q) : x <= y -> (rne x <= rne y)%Z.
Proof.
  intros H. pose proof (Qfloor_resp_le _ _ H) as F.
  destruct (Z.eq_dec (Qfloor x) (Qfloor y)) as [E|N].
  - unfold rne. rewrite E.
    destruct (Qcompare (y - inject_Z (Qfloor y)) (1 # 2)) eqn:Cy;
      destruct (Qcompare (x - inject_Z (Qfloor y)) (1 # 2)) eqn:Cx;
      try destruct (Z.even (Qfloor y)); try lia; exfalso;
      repeat match goal with
             | C : Qcompare _ _ = Eq |- _ => apply Qeq_alt in C
             | C : Qcompare _ _ = Lt |- _ => rewrite <- Qlt_alt in C
             | C : Qcompare _ _ = Gt |- _ => rewrite <- Qgt_alt in C
             end; lra.
  - destruct (rne_cases x) as [-> | ->]; destruct (rne_cases y) as [-> | ->];
      lia.
Qed.

Lemma rne_le_Z (x : Q) (z : Z) : x <= inject_Z z -> (rne x <= z)%Z.
Proof. intros H. rewrite <- (rne_Z z). apply rne_mono, H. Qed.

Lemma rne_ge_Z (x : Q) (z : Z) : inject_Z z <= x -> (z <= rne x)%Z.
Proof. intros H. rewrite <- (rne_Z z). apply rne_mono, H. Qed.

(** The nearest integer is within one half. *)
Lemma rne_near (x : Q) :
  x - (1 # 2) <= inject_Z (rne x) /\ inject_Z (rne x) <= x + (1 # 2).
Proof.
  pose proof (Qfloor_le x) as L. pose proof (Qlt_floor x) as U.
  rewrite inject_Z_plus in U. change (inject_Z 1) with 1 in U.
  unfold rne.
  destruct (Qcompare (x - inject_Z (Qfloor x)) (1 # 2)) eqn:C.
  - apply Qeq_alt in C.
    destruct (Z.even (Qfloor x)); [|rewrite inject_Z_plus;
                                     change (inject_Z 1) with 1]; lra.
  - rewrite <- Qlt_alt in C. lra.
  - rewrite <- Qgt_alt in C. rewrite inject_Z_plus.
    change (inject_Z 1) with 1. lra.
Qed.

End RneFacts.

Section RndFacts.

Import Num Binary64.
Local Open Scope Q_scope.

Lemma lastPlace_comp (q q' : Q) : 0 < q -> q == q' -> lastPlace q = lastPlace q'.
Proof. intros H E. unfold lastPlace. rewrite (ilog2_comp H E). reflexivity. Qed.

Lemma lastPlace_mono (q q' : Q) :
  0 < q -> q <= q' -> (lastPlace q <= lastPlace q')%Z.
Proof.
  intros H L. unfold lastPlace. pose proof (ilog2_mono H L). lia.
Qed.

(** Below the end of its binade ... *)
Lemma below_binade (q : Q) : 0 < q -> q < pow2 (lastPlace q + 53).
Proof.
  intros H. destruct (ilog2_spec H) as [_ U].
  eapply Qlt_le_trans; [exact U|]. apply pow2_le. unfold lastPlace. lia.
Qed.

(** ... and, for a number that is not subnormal, at or above its
    beginning. *)
Lemma above_binade (q : Q) :
  0 < q -> (-1022 <= ilog2 q)%Z -> pow2 (lastPlace q + 52) <= q.
Proof.
  intros H N. destruct (ilog2_spec H) as [L _].
  eapply Qle_trans; [|exact L]. apply pow2_le. unfold lastPlace. lia.
Qed.

Lemma nearest_comp (q q' : Q) : 0 < q -> q == q' -> nearest q == nearest q'.
Proof.
  intros H E. unfold nearest. rewrite (lastPlace_comp H E).
  rewrite (@rne_comp (q / pow2 (lastPlace q')) (q' / pow2 (lastPlace q'))).
  - reflexivity.
  - rewrite E. reflexivity.
Qed.

Lemma pow2_53 : pow2 53 == inject_Z (2 ^ 53).
Proof. apply pow2_Z. lia. Qed.

Lemma pow2_52 : pow2 52 == inject_Z (2 ^ 52).
Proof. apply pow2_Z. lia. Qed.

(** The significand has at most 53 bits (54 when the rounding carries
    into the next binade). *)
Lemma significand_le (q : Q) :
  0 < q -> (rne (q / pow2 (lastPlace q)) <= 2 ^ 53)%Z.
Proof.
  intros H. apply rne_le_Z. rewrite <- pow2_53.
  apply Qlt_le_weak, div_pow2_lt, below_binade, H.
Qed.

Lemma significand_ge (q : Q) :
  0 < q -> (-1022 <= ilog2 q)%Z ->
  (2 ^ 52 <= rne (q / pow2 (lastPlace q)))%Z.
Proof.
  intros H N. apply rne_ge_Z. rewrite <- pow2_52.
  apply div_pow2_ge, above_binade; assumption.
Qed.

Lemma significand_nonneg (q : Q) :
  0 < q -> (0 <= rne (q / pow2 (lastPlace q)))%Z.
Proof.
  intros H. apply rne_ge_Z. change (inject_Z 0) with 0.
  apply Qlt_le_weak, Qlt_shift_div_l; [apply pow2_pos|].
  rewrite Qmult_0_l. exact H.
Qed.

Lemma nearest_nonneg (q : Q) : 0 < q -> 0 <= nearest q.
Proof.
  intros H. unfold nearest. apply Qmult_le_0_compat.
  - change 0 with (inject_Z 0). rewrite <- Zle_Qle.
    apply significand_nonneg, H.
  - apply Qlt_le_weak, pow2_pos.
Qed.

Lemma nearest_le_binade (q : Q) : 0 < q -> nearest q <= pow2 (lastPlace q + 53).
Proof.
  intros H. unfold nearest.
  rewrite (Z.add_comm (lastPlace q) 53), pow2_add.
  apply Qmult_le_compat_r; [|apply Qlt_le_weak, pow2_pos].
  rewrite pow2_53, <- Zle_Qle. apply significand_le, H.
Qed.

Lemma nearest_ge_binade (q : Q) :
  0 < q -> (-1022 <= ilog2 q)%Z -> pow2 (lastPlace q + 52) <= nearest q.
Proof.
  intros H N. unfold nearest.
  rewrite (Z.add_comm (lastPlace q) 52), pow2_add.
  apply Qmult_le_compat_r; [|apply Qlt_le_weak, pow2_pos].
  rewrite pow2_52, <- Zle_Qle. apply significand_ge; assumption.
Qed.

(** Rounding keeps the order. *)
Lemma nearest_mono (q q' : Q) : 0 < q -> q <= q' -> nearest q <= nearest q'.
Proof.
  intros H L.
  assert (H' : 0 < q') by (eapply Qlt_le_trans; eassumption).
  pose proof (lastPlace_mono H L) as P.
  destruct (Z.eq_dec (lastPlace q) (lastPlace q')) as [E|N].
  - unfold nearest. rewrite E.
    apply Qmult_le_compat_r; [|apply Qlt_le_weak, pow2_pos].
    rewrite <- Zle_Qle. apply rne_mono.
    apply Qmult_le_compat_r; [exact L|].
    apply Qlt_le_weak, Qinv_lt_0_compat, pow2_pos.
  - (* two binades: the end of the first is below the beginning of the
       second *)
    assert (N' : (-1022 <= ilog2 q')%Z) by (unfold lastPlace in *; lia).
    eapply Qle_trans; [apply nearest_le_binade, H|].
    eapply Qle_trans; [|apply nearest_ge_binade; assumption].
    apply pow2_le. lia.
Qed.

Lemma rndPos_cases (q : Q) :
  (rndPos q = PInf /\ pow2 1024 <= nearest q)
  \/ (rndPos q = Fin (Qred (nearest q)) /\ nearest q < pow2 1024).
Proof.
  unfold rndPos. cbv zeta.
  destruct (Qle_bool (pow2 1024) (nearest q)) eqn:C.
  - left. split; [reflexivity | apply Qle_bool_iff, C].
  - right. split; [reflexivity|]. apply Qnot_le_lt. intros H.
    apply Qle_bool_iff in H. congruence.
Qed.

Lemma rndPos_mono (q q' : Q) : 0 < q -> q <= q' -> le (rndPos q) (rndPos q').
Proof.
  intros H L. pose proof (nearest_mono H L) as M.
  destruct (rndPos_cases q) as [[-> A] | [-> A]];
    destruct (rndPos_cases q') as [[-> B] | [-> B]]; cbn [le]; try exact I.
  - lra.
  - rewrite !Qred_correct. exact M.
Qed.

Lemma rndPos_comp (q q' : Q) : 0 < q -> q == q' -> rndPos q = rndPos q'.
Proof.
  intros H E. pose proof (nearest_comp H E) as N. unfold rndPos. cbv zeta.
  assert (C : Qle_bool (pow2 1024) (nearest q)
              = Qle_bool (pow2 1024) (nearest q'))
    by (rewrite N; reflexivity).
  rewrite C, (Qred_complete _ _ N). reflexivity.
Qed.

Lemma rndPos_nonneg (q : Q) : 0 < q -> le (Fin 0) (rndPos q).
Proof.
  intros H. destruct (rndPos_cases q) as [[-> _] | [-> _]]; cbn [le];
    [exact I|]. rewrite Qred_correct. apply nearest_nonneg, H.
Qed.

End RndFacts.

Section RoundingFacts.

Import Num Binary64.
Local Open Scope Q_scope.

Lemma le_trans (a b c : JsNum) : le a b -> le b c -> le a c.
Proof.
  destruct a, b, c; cbn [le]; intros H1 H2; try exact I; try contradiction.
  eapply Qle_trans; eassumption.
Qed.

Lemma le_neg (a b : JsNum) : le a b -> le (neg b) (neg a).
Proof.
  destruct a, b; cbn [le neg]; intros H; try exact I; try contradiction.
  lra.
Qed.

Lemma neg_neg_Fin (q : Q) : neg (neg (Fin q)) = Fin (- - q).
Proof. reflexivity. Qed.

Lemma rnd_pos (q : Q) : 0 < q -> rnd q = rndPos q.
Proof.
  intros H. unfold rnd. destruct (Qcompare q 0) eqn:C; [| |reflexivity].
  - apply Qeq_alt in C. lra.
  - rewrite <- Qlt_alt in C. lra.
Qed.

Lemma rnd_neg (q : Q) : q < 0 -> rnd q = neg (rndPos (- q)).
Proof.
  intros H. unfold rnd. destruct (Qcompare q 0) eqn:C; [|reflexivity|].
  - apply Qeq_alt in C. lra.
  - rewrite <- Qgt_alt in C. lra.
Qed.

Lemma rnd_zero (q : Q) : q == 0 -> rnd q = Fin 0.
Proof.
  intros H. unfold rnd. destruct (Qcompare q 0) eqn:C; [reflexivity| |].
  - rewrite <- Qlt_alt in C. lra.
  - rewrite <- Qgt_alt in C. lra.
Qed.

Lemma rnd_comp (q q' : Q) : q == q' -> rnd q = rnd q'.
Proof.
  intros E. destruct (Q_dec q 0) as [[N|P]|Z].
  - rewrite (rnd_neg N), (@rnd_neg q') by (rewrite <- E; exact N).
    f_equal. apply rndPos_comp; [lra | rewrite E; reflexivity].
  - rewrite (rnd_pos P), (@rnd_pos q') by (rewrite <- E; exact P).
    apply rndPos_comp; assumption.
  - rewrite (rnd_zero Z), (@rnd_zero q') by (rewrite <- E; exact Z).
    reflexivity.
Qed.

(** Rounding keeps the order of two numbers. *)
Lemma rnd_mono (q q' : Q) : q <= q' -> le (rnd q) (rnd q').
Proof.
  intros L.
  destruct (Q_dec q 0) as [[N|P]|Z]; destruct (Q_dec q' 0) as [[N'|P']|Z'];
    try (exfalso; lra).
  - rewrite (rnd_neg N), (rnd_neg N'). apply le_neg, rndPos_mono; lra.
  - rewrite (rnd_neg N), (rnd_pos P').
    eapply le_trans with (b := Fin 0); [|apply rndPos_nonneg, P'].
    change (Fin 0) with (neg (Fin 0)). apply le_neg, rndPos_nonneg. lra.
  - rewrite (rnd_neg N), (rnd_zero Z').
    change (Fin 0) with (neg (Fin 0)). apply le_neg, rndPos_nonneg. lra.
  - rewrite (rnd_pos P), (rnd_pos P'). apply rndPos_mono; assumption.
  - rewrite (rnd_zero Z), (rnd_pos P'). apply rndPos_nonneg, P'.
  - rewrite (rnd_zero Z), (rnd_zero Z'). cbn [le]. lra.
Qed.


(** A multiple of its last place below [2^1024] is a binary64 number. *)
Lemma rndPos_exact (q : Q) (m : Z) :
  0 < q -> q == inject_Z m * pow2 (lastPlace q) -> q < pow2 1024 ->
  rndPos q = Fin (Qred q).
Proof.
  intros H E U.
  assert (N : nearest q == q).
  { unfold nearest. rewrite (@rne_integral (q / pow2 (lastPlace q)) m).
    - symmetry. exact E.
    - rewrite E at 1. field. apply Qnot_eq_sym, Qlt_not_eq, pow2_pos. }
  destruct (rndPos_cases q) as [[_ A] | [-> _]].
  - exfalso. rewrite N in A. lra.
  - rewrite (Qred_complete _ _ N). reflexivity.
Qed.

(** What rounding gives is a binary64 number: rounding it again changes
    nothing. *)
Lemma rndPos_idem (q r : Q) : 0 < q -> rndPos q = Fin r -> rnd r = Fin r.
Proof.
  intros H E. destruct (rndPos_cases q) as [[F _] | [F U]];
    [congruence|].
  assert (Er : r = Qred (nearest q)) by congruence.
  rewrite Er. clear E F Er r.
  pose (m := rne (q / pow2 (lastPlace q))).
  assert (Hn : nearest q == inject_Z m * pow2 (lastPlace q)) by reflexivity.
  pose proof (significand_nonneg H) as M0. change (0 <= m)%Z in M0.
  pose proof (significand_le H) as M1. change (m <= 2 ^ 53)%Z in M1.
  clearbody m.
  destruct (Z.eq_dec m 0) as [Z|NZ].
  - (* rounded to zero *)
    assert (Z0 : nearest q == 0) by (rewrite Hn, Z; ring).
    rewrite (Qred_complete _ _ Z0). reflexivity.
  - assert (Pn : 0 < nearest q).
    { rewrite Hn. apply Qmult_lt_0_compat; [|apply pow2_pos].
      change 0 with (inject_Z 0). rewrite <- Zlt_Qlt. lia. }
    assert (Pr : 0 < Qred (nearest q)) by (rewrite Qred_correct; exact Pn).
    rewrite (rnd_pos Pr).
    rewrite (@rndPos_comp (Qred (nearest q)) (nearest q) Pr (Qred_correct _)).
    destruct (Z.eq_dec m (2 ^ 53)) as [C|NC].
    + (* the rounding carried into the next binade *)
      assert (V : nearest q == pow2 (lastPlace q + 53)).
      { rewrite Hn, C, (Z.add_comm _ 53), pow2_add, pow2_53. reflexivity. }
      assert (I : ilog2 (nearest q) = (lastPlace q + 53)%Z).
      { rewrite (ilog2_comp Pn V). apply ilog2_pow2. }
      assert (P : lastPlace (nearest q) = (lastPlace q + 1)%Z).
      { unfold lastPlace at 1. rewrite I. unfold lastPlace. lia. }
      apply (@rndPos_exact (nearest q) (2 ^ 52)); [exact Pn | | exact U].
      rewrite P, V. rewrite <- pow2_52, <- pow2_add. 
      replace (52 + (lastPlace q + 1))%Z with (lastPlace q + 53)%Z by lia.
      reflexivity.
    + (* the same last place, or a finer one *)
      assert (V : nearest q < pow2 (lastPlace q + 53)).
      { rewrite Hn, (Z.add_comm _ 53), pow2_add, pow2_53.
        apply Qmult_lt_compat_r; [apply pow2_pos|].
        rewrite <- Zlt_Qlt. lia. }
      assert (I : (ilog2 (nearest q) < lastPlace q + 53)%Z).
      { apply pow2_lt_inv. eapply Qle_lt_trans; [|exact V].
        apply (ilog2_spec Pn). }
      assert (P : (lastPlace (nearest q) <= lastPlace q)%Z).
      { unfold lastPlace in *. lia. }
      apply (@rndPos_exact (nearest q)
                           (m * 2 ^ (lastPlace q - lastPlace (nearest q))));
        [exact Pn | | exact U].
      rewrite inject_Z_mult, <- pow2_Z by lia.
      rewrite <- Qmult_assoc, <- pow2_add.
      replace (lastPlace q - lastPlace (nearest q) + lastPlace (nearest q))%Z
        with (lastPlace q) by lia.
      exact Hn.
Qed.

End RoundingFacts.

Section Binary64Numbers.

Import Num Binary64.
Local Open Scope Q_scope.

Lemma Qopp_opp (q : Q) : - - q = q.
Proof. destruct q as [n d]. unfold Qopp. cbn. f_equal. lia. Qed.

Lemma neg_neg (a : JsNum) : neg (neg a) = a.
Proof. destruct a; cbn [neg]; try reflexivity. rewrite Qopp_opp. reflexivity. Qed.

Lemma Qred_zero (q : Q) : q == 0 -> Qred q = 0.
Proof. intros H. rewrite (Qred_complete _ _ H). reflexivity. Qed.

(** Rounding commutes with the change of sign. *)
Lemma rnd_opp (q : Q) : rnd (- q) = neg (rnd q).
Proof.
  destruct (Q_dec q 0) as [[N|P]|Z].
  - rewrite (rnd_neg N), (@rnd_pos (- q)) by lra.
    rewrite neg_neg. reflexivity.
  - rewrite (rnd_pos P), (@rnd_neg (- q)) by lra.
    f_equal. apply rndPos_comp; [lra | ring].
  - rewrite (rnd_zero Z), (@rnd_zero (- q)) by lra. reflexivity.
Qed.

(** What [rnd] gives is a binary64 number: rounding it again changes
    nothing. *)
Lemma rnd_idem (q r : Q) : rnd q = Fin r -> rnd r = Fin r.
Proof.
  intros E. destruct (Q_dec q 0) as [[N|P]|Z].
  - rewrite (rnd_neg N) in E.
    destruct (rndPos (- q)) as [ | | |r0] eqn:R; cbn [neg] in E;
      try discriminate.
    inversion E; subst r.
    rewrite rnd_opp, (@rndPos_idem (- q) r0) by (lra || exact R).
    reflexivity.
  - rewrite (rnd_pos P) in E. eapply rndPos_idem; eassumption.
  - rewrite (rnd_zero Z) in E. inversion E. reflexivity.
Qed.

Lemma Qred_inject_Z (z : Z) : Qred (inject_Z z) = inject_Z z.
Proof. apply Qcanon.Qred_identity. cbn. apply Z.gcd_1_r. Qed.

(** Every integer up to [2^53] is a binary64 number. *)
Lemma rnd_inject_Z (z : Z) :
  (Z.abs z <= 2 ^ 53)%Z -> rnd (inject_Z z) = Fin (inject_Z z).
Proof.
  assert (P : forall z, (0 < z <= 2 ^ 53)%Z ->
                        rnd (inject_Z z) = Fin (inject_Z z)).
  { clear z. intros z [Hz Hb].
    assert (Hq : 0 < inject_Z z).
    { change 0 with (inject_Z 0). rewrite <- Zlt_Qlt. exact Hz. }
    rewrite (rnd_pos Hq).
    replace (Fin (inject_Z z)) with (Fin (Qred (inject_Z z)))
      by (rewrite Qred_inject_Z; reflexivity).
    assert (U : inject_Z z < pow2 1024).
    { eapply Qle_lt_trans; [|apply (@pow2_lt 53 1024); lia].
      rewrite pow2_53, <- Zle_Qle. exact Hb. }
    assert (L0 : (0 < ilog2 (inject_Z z) + 1)%Z).
    { apply pow2_lt_inv. eapply Qle_lt_trans; [|apply (ilog2_spec Hq)].
      change (pow2 0) with (inject_Z 1). rewrite <- Zle_Qle. lia. }
    destruct (Z.eq_dec z (2 ^ 53)) as [E|NE].
    - assert (I : ilog2 (inject_Z z) = 53%Z).
      { apply ilog2_unique.
        - rewrite pow2_53, <- Zle_Qle. lia.
        - rewrite (@pow2_Z (53 + 1)), <- Zlt_Qlt by lia. rewrite E.
          apply Z.pow_lt_mono_r; lia. }
      apply (@rndPos_exact (inject_Z z) (2 ^ 52)); [exact Hq | | exact U].
      unfold lastPlace. rewrite I, E. reflexivity.
    - assert (I : (ilog2 (inject_Z z) < 53)%Z).
      { apply pow2_lt_inv. eapply Qle_lt_trans; [apply (ilog2_spec Hq)|].
        rewrite pow2_53, <- Zlt_Qlt. lia. }
      apply (@rndPos_exact (inject_Z z)
                           (z * 2 ^ (- lastPlace (inject_Z z))));
        [exact Hq | | exact U].
      assert (Lp : (lastPlace (inject_Z z) <= 0)%Z)
        by (unfold lastPlace; lia).
      rewrite inject_Z_mult, <- pow2_Z by lia.
      rewrite <- Qmult_assoc, <- pow2_add.
      replace (- lastPlace (inject_Z z) + lastPlace (inject_Z z))%Z
        with 0%Z by lia.
      change (pow2 0) with 1. ring. }
  intros H. destruct (Z.lt_trichotomy z 0) as [N|[Z|Pz]].
  - replace (inject_Z z) with (- inject_Z (- z)).
    + rewrite rnd_opp, P by lia. reflexivity.
    + unfold inject_Z, Qopp. cbn. f_equal. lia.
  - subst z. reflexivity.
  - apply P. lia.
Qed.

(** A number between two binary64 numbers rounds to a number between
    them. *)
Lemma rnd_between (a b q : Q) :
  rnd a = Fin a -> rnd b = Fin b -> a <= q <= b ->
  exists r, rnd q = Fin r /\ a <= r <= b.
Proof.
  intros Ha Hb [L U].
  pose proof (rnd_mono L) as A. pose proof (rnd_mono U) as B.
  rewrite Ha in A. rewrite Hb in B.
  destruct (rnd q) as [ | | |r]; cbn [le] in A, B; try contradiction.
  exists r. split; [reflexivity | split; assumption].
Qed.

End Binary64Numbers.

Section OperationFacts.

Import Num Binary64.
Local Open Scope Q_scope.

Lemma le_refl_Fin (q : Q) : le (Fin q) (Fin q).
Proof. cbn [le]. apply Qle_refl. Qed.

(** Adding zero to what an addition gave changes nothing. *)
Lemma rnd_plus_zero (q : Q) : add (rnd q) (Fin 0) = rnd q.
Proof.
  destruct (rnd q) as [ | | |r] eqn:E; try reflexivity.
  cbn [add]. rewrite (@rnd_comp (r + 0) r) by ring.
  eapply rnd_idem, E.
Qed.

Lemma add_plus_zero (a b : JsNum) : add (add a b) (Fin 0) = add a b.
Proof.
  destruct a as [ | | |x], b as [ | | |y]; try reflexivity.
  cbn [add]. apply rnd_plus_zero.
Qed.

Lemma integer_exact (z : Z) : (Z.abs z <= 2 ^ 53)%Z -> rnd (inject_Z z) = Fin (inject_Z z).
Proof. apply rnd_inject_Z. Qed.

(** The sum of two numbers in ranges with integer ends. *)
Lemma add_within (a b c d : Z) (x y : JsNum) :
  (Z.abs (a + c) <= 2 ^ 53)%Z -> (Z.abs (b + d) <= 2 ^ 53)%Z ->
  within (inject_Z a) (inject_Z b) x -> within (inject_Z c) (inject_Z d) y ->
  within (inject_Z (a + c)) (inject_Z (b + d)) (add x y).
Proof.
  intros Ha Hb (p & -> & Hp) (q & -> & Hq). cbn [add].
  destruct (@rnd_between (inject_Z (a + c)) (inject_Z (b + d)) (p + q))
    as (r & E & R).
  - apply rnd_inject_Z, Ha.
  - apply rnd_inject_Z, Hb.
  - rewrite !inject_Z_plus. lra.
  - exists r. split; assumption.
Qed.

Lemma within_weaken (lo hi lo' hi' : Q) (x : JsNum) :
  lo' <= lo -> hi <= hi' -> within lo hi x -> within lo' hi' x.
Proof. intros L H (q & -> & Hq). exists q. split; [reflexivity | lra]. Qed.

Lemma within_Fin (lo hi q : Q) : lo <= q <= hi -> within lo hi (Fin q).
Proof. intros H. exists q. split; [reflexivity | exact H]. Qed.

(** [Math.min(c, x)] of a number that is not below zero, or infinite. *)
Lemma min_within (c : Z) (x : JsNum) :
  (0 <= c)%Z -> le (Fin 0) x -> within 0 (inject_Z c) (min (Fin (inject_Z c)) x).
Proof.
  intros Hc H. destruct x as [ | | |q]; cbn [le] in H; try contradiction.
  - cbn [min]. apply within_Fin. split; [|apply Qle_refl].
    change 0 with (inject_Z 0). rewrite <- Zle_Qle. exact Hc.
  - cbn [min]. apply within_Fin. split.
    + apply Q.min_glb; [|exact H].
      change 0 with (inject_Z 0). rewrite <- Zle_Qle. exact Hc.
    + apply Q.le_min_l.
Qed.

(** A quotient of a number that is not below zero. *)
Lemma divCount_nonneg (x : JsNum) (n : nat) :
  (0 < n)%nat -> le (Fin 0) x -> le (Fin 0) (divCount x n).
Proof.
  intros Hn H. destruct x as [ | | |q]; cbn [le] in H; try contradiction.
  - exact I.
  - destruct n as [|n]; [lia|]. cbn [divCount].
    change (Fin 0) with (rnd 0). apply rnd_mono.
    apply Qle_shift_div_l.
    + change 0 with (inject_Z 0). rewrite <- Zlt_Qlt. lia.
    + rewrite Qmult_0_l. exact H.
Qed.

Lemma add_nonneg (x y : JsNum) :
  le (Fin 0) x -> le (Fin 0) y -> le (Fin 0) (add x y).
Proof.
  intros Hx Hy. destruct x as [ | | |p], y as [ | | |q]; cbn [le] in Hx, Hy;
    try contradiction; try exact I.
  cbn [add]. change (Fin 0) with (rnd 0). apply rnd_mono. lra.
Qed.

Lemma sum_nonneg_from (xs : list JsNum) :
  Forall (le (Fin 0)) xs ->
  forall acc, le (Fin 0) acc -> le (Fin 0) (fold_left add xs acc).
Proof.
  induction 1 as [|x xs Hx _ IH]; intros acc Ha; [exact Ha|].
  cbn [fold_left]. apply IH, add_nonneg; assumption.
Qed.

Lemma sum_nonneg (xs : list JsNum) :
  Forall (le (Fin 0)) xs -> le (Fin 0) (sum xs).
Proof. intros H. apply sum_nonneg_from; [exact H | apply le_refl_Fin]. Qed.

(** [Math.round] of a number in a range with integer ends. *)
Lemma round_within (a b : Z) (x : JsNum) :
  within (inject_Z a) (inject_Z b) x -> integerWithin a b (round x).
Proof.
  intros (q & -> & Hq). exists (Num.round q). split; [reflexivity|].
  apply round_between; apply Hq.
Qed.

Lemma integerWithin_within (a b : Z) (x : JsNum) :
  integerWithin a b x -> within (inject_Z a) (inject_Z b) x.
Proof.
  intros (z & -> & Hz). exists (inject_Z z). split; [reflexivity|].
  rewrite <- !Zle_Qle. exact Hz.
Qed.

Lemma Qmin_inject_Z (c z : Z) :
  Qmin (inject_Z c) (inject_Z z) = inject_Z (Z.min c z).
Proof.
  unfold Qmin, GenericMinMax.gmin, Z.min, Qcompare.
  cbn [inject_Z Qnum Qden]. rewrite !Z.mul_1_r.
  destruct (c ?= z)%Z; reflexivity.
Qed.

Lemma min_integer (c a b : Z) (x : JsNum) :
  integerWithin a b x -> (a <= c)%Z ->
  integerWithin a (Z.min c b) (min (Fin (inject_Z c)) x).
Proof.
  intros (z & -> & Hz) Hc. cbn [min]. rewrite Qmin_inject_Z.
  exists (Z.min c z). split; [reflexivity | lia].
Qed.

End OperationFacts.


(** ** The scorer on parsed JSON *)

Ltac small := change (2 ^ 53)%Z with 9007199254740992%Z; lia.

Section ScoringFacts.

Import Js Num Scoring.
Local Open Scope Q_scope.

Variable ToNumber : Json -> Except JsNum.

Lemma mentionCount_nonneg (name text : string) :
  (0 <= Scorer.mentionCount name text)%Z.
Proof.
  unfold Scorer.mentionCount.
  destruct (Scorer.literalPattern _); [apply countAll_nonneg | lia].
Qed.

Lemma points_within (b : bool) (n : Z) :
  (0 <= n)%Z -> Binary64.within 0 (inject_Z n) (points b (inject_Z n)).
Proof.
  intros H. apply within_Fin.
  destruct b; split; try apply Qle_refl;
    change 0 with (inject_Z 0); rewrite <- Zle_Qle; exact H.
Qed.

Lemma confidenceOf_capped (a b c : JsNum) : capped (confidenceOf a b c).
Proof.
  unfold confidenceOf.
  destruct (Binary64.add (Binary64.add (Binary64.add baseline a) b) c)
    as [ | | |q]; cbn [Binary64.round Binary64.min].
  - left. reflexivity.
  - right. right. exists 100%Z. split; [reflexivity | lia].
  - right. left. reflexivity.
  - right. right. change 100 with (inject_Z 100). rewrite Qmin_inject_Z.
    eexists. split; [reflexivity | lia].
Qed.

(** [c || 0] is [c] for a confidence that is a number. *)
Lemma orZero_capped (c : JsNum) :
  capped c -> isNaN c = false -> Binary64.orZero c = c.
Proof.
  intros [-> | [-> | (z & -> & _)]]; [discriminate | reflexivity |].
  intros _. cbn [Binary64.orZero].
  destruct (Qeq_bool (inject_Z z) 0) eqn:E; [|reflexivity].
  apply Qeq_bool_eq in E. change 0 with (inject_Z 0) in E.
  rewrite inject_Z_injective in E. subst z. reflexivity.
Qed.

Lemma confidenceOf_range (a b c : JsNum) (ha hb hc : Z) :
  (0 <= ha <= 100)%Z -> (0 <= hb <= 100)%Z -> (0 <= hc <= 100)%Z ->
  Binary64.within 0 (inject_Z ha) a ->
  Binary64.within 0 (inject_Z hb) b ->
  Binary64.within 0 (inject_Z hc) c ->
  Binary64.integerWithin 70 (Z.min 100 (70 + ha + hb + hc))
                         (confidenceOf a b c).
Proof.
  intros Ha Hb Hc A B C. unfold confidenceOf.
  apply min_integer; [|lia].
  apply round_within.
  assert (S0 : Binary64.within (inject_Z 70) (inject_Z 70) baseline)
    by (apply within_Fin; split; apply Qle_refl).
  assert (S1 := @add_within 70 70 0 ha _ _ ltac:(small) ltac:(small) S0 A).
  assert (S2 := @add_within (70 + 0) (70 + ha) 0 hb _ _
                            ltac:(small) ltac:(small) S1 B).
  assert (S3 := @add_within (70 + 0 + 0) (70 + ha + hb) 0 hc _ _
                            ltac:(small) ltac:(small) S2 C).
  replace (70 + 0 + 0 + 0)%Z with 70%Z in S3 by lia.
  exact S3.
Qed.

(** [Math.min(15, text.length / 20)] *)
Lemma share_within (cap : Z) (len : Z) (n : nat) :
  (0 <= cap)%Z -> (0 <= len)%Z -> (0 < n)%nat ->
  Binary64.within 0 (inject_Z cap)
    (Binary64.min (Fin (inject_Z cap))
                  (Binary64.divCount (Binary64.ofZ len) n)).
Proof.
  intros Hc Hl Hn. apply min_within; [exact Hc|].
  apply divCount_nonneg; [exact Hn|]. cbn [Binary64.ofZ Binary64.le].
  change 0 with (inject_Z 0). rewrite <- Zle_Qle. exact Hl.
Qed.

(** What the description adds, for a description whose [length] is a
    number or [undefined]: nothing that is a number ([NaN]), or from 0 to
    15. *)
Lemma detail_plain (description : Value) :
  match description with
  | Some (JObj fields) => lookup "length" fields = None
  | _ => True
  end ->
  exists d,
    (if truthy description
     then bind (lengthOf description) (fun len =>
          bind (toNumber ToNumber len) (fun n =>
          Ok (Binary64.min (Fin 15) (Binary64.divCount n 20))))
     else Ok (Fin 0)) = Ok d
    /\ (d = NaN \/ Binary64.within 0 15 d).
Proof.
  intros P.
  assert (Z0 : exists d, Ok (Fin 0) = Ok d
                         /\ (d = NaN \/ Binary64.within 0 15 d)).
  { exists (Fin 0). split; [reflexivity | right; apply within_Fin; lra]. }
  assert (N0 : exists d, Ok NaN = Ok d
                         /\ (d = NaN \/ Binary64.within 0 15 d)).
  { exists NaN. split; [reflexivity | left; reflexivity]. }
  destruct description as [[ | b | q | s | items | fields]|].
  - exact Z0.
  - destruct b; [exact N0 | exact Z0].
  - cbn [truthy]. destruct (negb (Qeq_bool q 0)); [exact N0 | exact Z0].
  - cbn [truthy]. destruct (negb (String.eqb s "")); [|exact Z0].
    cbn [lengthOf bind toNumber]. eexists. split; [reflexivity|]. right.
    apply (@share_within 15 (Str.len s) 20); [lia | apply len_nonneg | lia].
  - cbn [truthy lengthOf bind toNumber]. eexists. split; [reflexivity|].
    right. apply (@share_within 15 (Z.of_nat (List.length items)) 20); lia.
  - cbn [truthy lengthOf bind]. rewrite P. exact N0.
  - exact Z0.
Qed.


Lemma longerThan_simple (n : Q) (v : Value) :
  simple v = true -> exists b, longerThan ToNumber n v = Ok b.
Proof.
  intros T. unfold longerThan.
  destruct v as [[ | b | q | s | items | fields]|]; try discriminate T;
    cbn [truthy]; try (eexists; reflexivity).
  - destruct b; eexists; reflexivity.
  - destruct (negb (Qeq_bool q 0)); eexists; reflexivity.
  - destruct (negb (String.eqb s "")); eexists; reflexivity.
Qed.


Lemma confidenceOf_steps (b1 b2 b3 : bool) :
  In (confidenceOf (points b1 10) (points b2 15) (points b3 15)) steps
  /\ In (confidenceOf (points b1 15) (points b2 15) (points b3 10)) steps.
Proof.
  destruct b1, b2, b3; vm_compute; intuition.
Qed.


(** A tool with a string for a name is scored, with one of the five
    values. *)
Lemma scoreTool_with_name (text : string) (t : Json) (name : string) :
  property t "name" = Some (JStr name) ->
  simple (property t "purpose") = true ->
  exists c, scoreTool ToNumber text t = Ok (t, c) /\ In c steps.
Proof.
  intros Hn Hp. unfold scoreTool, property in *.
  destruct (get t "name") as [n|e] eqn:G; [|discriminate Hn]. subst n.
  cbn [bind lengthOf toNumber].
  assert (Gp : exists p, get t "purpose" = Ok p /\ simple p = true).
  { destruct t; cbn [get] in *; try discriminate G;
      eexists; split; try reflexivity; exact Hp. }
  destruct Gp as (p & -> & Tp). cbn [bind].
  destruct (longerThan_simple 15 _ Tp) as (b & ->). cbn [bind stringFor].
  eexists. split; [reflexivity|]. apply confidenceOf_steps.
Qed.

(** Without a string for a name, scoring a tool throws. *)
Lemma scoreTool_unnamed (text : string) (t : Json) :
  isString (property t "name") = false ->
  exists e, scoreTool ToNumber text t = Throw e.
Proof.
  intros Hn. unfold scoreTool, property in *.
  destruct (get t "name") as [n|e] eqn:G; [|eexists; reflexivity].
  cbn [bind].
  destruct (lengthOf n) as [len|e]; [|eexists; reflexivity]. cbn [bind].
  destruct (toNumber ToNumber len) as [x|e]; [|eexists; reflexivity].
  cbn [bind].
  destruct (get t "purpose") as [p|e]; [|eexists; reflexivity]. cbn [bind].
  destruct (longerThan ToNumber 15 p) as [b|e]; [|eexists; reflexivity].
  cbn [bind].
  destruct n as [[ | | |s| | ]|]; try discriminate Hn;
    eexists; reflexivity.
Qed.

Lemma scoreRelationship_simple (r : Json) :
  nonNull r -> simple (property r "description") = true ->
  exists c, scoreRelationship ToNumber r = Ok (r, c) /\ In c steps.
Proof.
  intros N Hd. unfold scoreRelationship, property in *.
  assert (G : forall k, exists v, get r k = Ok v).
  { intros k. destruct r; try (eexists; reflexivity). elim N. reflexivity. }
  destruct (G "description") as (d & Gd). rewrite Gd in *. cbn [bind].
  destruct (longerThan_simple 20 _ Hd) as (b & ->). cbn [bind].
  destruct (G "source") as (src & ->). destruct (G "target") as (tgt & ->).
  destruct (G "dataFlow") as (df & ->). cbn [bind].
  eexists. split; [reflexivity|]. apply confidenceOf_steps.
Qed.







(** *** The system-level metrics *)

Lemma confidenceOf_NaN (b c : JsNum) : confidenceOf NaN b c = NaN.
Proof. reflexivity. Qed.

Lemma scoreAgent_plain (text : string) (a : Json) (scored : Scored) :
  plainDescription a = true ->
  scoreAgent ToNumber text a = Ok scored ->
  sound (snd scored).
Proof.
  unfold plainDescription, scoreAgent. intros P H.
  destruct (get a "description") as [d|e]; [|discriminate H].
  cbn [bind] in H.
  assert (D : exists x,
             (if truthy d
              then bind (lengthOf d) (fun len =>
                   bind (toNumber ToNumber len) (fun n =>
                   Ok (Binary64.min (Fin 15) (Binary64.divCount n 20))))
              else Ok (Fin 0)) = Ok x
             /\ (x = NaN \/ Binary64.within 0 15 x)).
  { apply detail_plain.
    destruct d as [[ | b | q | s | items | fields]|]; try exact I.
    destruct (lookup "length" fields); [discriminate P | reflexivity]. }
  destruct D as (x & E & Hx). rewrite E in H. cbn [bind] in H.
  destruct (get a "name") as [n|e]; [|discriminate H]. cbn [bind] in H.
  destruct (stringFor "agent.name" "replace" n) as [name|e];
    [|discriminate H]. cbn [bind] in H.
  destruct (get a "role") as [role|e]; [|discriminate H]. cbn [bind] in H.
  destruct (longerThan ToNumber 10 role) as [b|e]; [|discriminate H].
  cbn [bind] in H. inversion H. cbn [snd].
  destruct Hx as [-> | W]; [left; reflexivity | right].
  change 100%Z with (Z.min 100 (70 + 15 + 10 + 10)).
  apply confidenceOf_range; try lia.
  - exact W.
  - apply within_Fin. pose proof (mentionCount_nonneg name text).
    change 0 with (inject_Z 0). rewrite <- !Zle_Qle. lia.
  - apply (@points_within b 10). lia.
Qed.

Lemma mapM_Forall_result {A B} (f : A -> Except B) (P : A -> Prop)
      (Q : B -> Prop) :
  (forall a b, P a -> f a = Ok b -> Q b) ->
  forall l l', Forall P l -> mapM f l = Ok l' -> Forall Q l'.
Proof.
  intros H l l' F M. apply mapM_Forall2 in M.
  induction M as [|a b l l' Hab _ IH]; [constructor|].
  inversion F; subst. constructor; [eapply H; eassumption | apply IH; assumption].
Qed.

(** The agents of a result, when no description was an object. *)
Lemma agents_sound (c : Json) (text : string) (ags : Entities) :
  plainDescriptions c = true ->
  mapIfPresent "agents" (scoreAgent ToNumber text) (field c "agents") = Ok ags ->
  Forall sound (confidences ags).
Proof.
  unfold plainDescriptions, mapIfPresent. intros P H.
  destruct (field c "agents") as [[ | b | q | s | items | fields]|];
    cbn [truthy] in H;
    try (inversion H; constructor);
    try (destruct (negb _); [discriminate H | inversion H; constructor]);
    try (destruct b; [discriminate H | inversion H; constructor]);
    try discriminate H.
  destruct (mapM (scoreAgent ToNumber text) items) as [scored|e] eqn:M;
    [|discriminate H].
  cbn [bind] in H. inversion H. cbn [confidences].
  apply Forall_map.
  eapply (@mapM_Forall_result _ _ (scoreAgent ToNumber text)
            (fun a => plainDescription a = true)
            (fun s => sound (snd s))); [| |exact M].
  - intros a b Pa Hb. eapply scoreAgent_plain; eassumption.
  - apply Forall_forall. rewrite forallb_forall in P. exact P.
Qed.

Lemma orZero_sound (c : JsNum) : sound c -> Binary64.le (Fin 0) (Binary64.orZero c).
Proof.
  intros [-> | (z & -> & Hz)]; [apply le_refl_Fin|].
  cbn [Binary64.orZero]. destruct (Qeq_bool (inject_Z z) 0);
    [apply le_refl_Fin|].
  cbn [Binary64.le]. change 0 with (inject_Z 0). rewrite <- Zle_Qle. lia.
Qed.

(** The term of the agents lies between 0 and 10. *)
Lemma agentTerm_within (cs : list JsNum) :
  cs <> [] -> Forall sound cs ->
  Binary64.within 0 10
    (Binary64.min (Fin 10)
       (Binary64.divCount
          (Binary64.divCount (Binary64.sum (List.map Binary64.orZero cs))
                             (List.length (List.map Binary64.orZero cs)))
          10)).
Proof.
  intros N S. apply (@min_within 10); [lia|].
  apply divCount_nonneg; [lia|]. apply divCount_nonneg.
  - rewrite List.length_map. destruct cs; [congruence | cbn; lia].
  - apply sum_nonneg. apply Forall_map.
    eapply Forall_impl; [|exact S]. intros c. apply orZero_sound.
Qed.

Lemma within_step (lo hi : Z) (k : Z) (b : bool) (x : JsNum) :
  (0 <= k)%Z -> (Z.abs lo + k <= 1000)%Z -> (Z.abs hi + k <= 1000)%Z ->
  Binary64.within (inject_Z lo) (inject_Z hi) x ->
  Binary64.within (inject_Z lo) (inject_Z (hi + k))
    (if b then Binary64.add x (Fin (inject_Z k)) else x).
Proof.
  intros Hk Hl Hh W. destruct b.
  - eapply within_weaken;
      [| |apply (@add_within lo hi k k); try small; [exact W|]].
    + rewrite <- Zle_Qle. lia.
    + apply Qle_refl.
    + apply within_Fin. split; apply Qle_refl.
  - eapply within_weaken; [apply Qle_refl | |exact W].
    rewrite <- Zle_Qle. lia.
Qed.

Lemma overallScore_within (ags tls rels : Entities) (text : string) :
  Forall sound (confidences ags) ->
  Binary64.within 50 100 (overallScore ags tls rels text).
Proof.
  intros S. unfold overallScore.
  assert (S1 : Binary64.within (inject_Z 65) (inject_Z 75)
                 (Binary64.add (Fin 65)
                    (Binary64.min (Fin 10)
                       (Binary64.divCount (Binary64.ofZ (Str.len text)) 200)))).
  { apply (@add_within 65 65 0 10); try small.
    - apply within_Fin. split; apply Qle_refl.
    - apply (@share_within 10); [lia | apply len_nonneg | lia]. }
  set (s1 := Binary64.add (Fin 65) _) in *.
  assert (S2 : Binary64.within (inject_Z 50) (inject_Z 85)
                 (if nonEmpty ags
                  then Binary64.add s1
                         (Binary64.min (Fin 10)
                            (Binary64.divCount
                               (Binary64.divCount
                                  (Binary64.sum
                                     (List.map Binary64.orZero (confidences ags)))
                                  (List.length
                                     (List.map Binary64.orZero (confidences ags))))
                               10))
                  else Binary64.add s1 (Fin (- (15))))).
  { destruct (nonEmpty ags) eqn:NE.
    - eapply within_weaken;
        [| |apply (@add_within 65 75 0 10); try small;
            [exact S1 | apply agentTerm_within; [|exact S]]].
      + rewrite <- Zle_Qle. lia.
      + rewrite <- Zle_Qle. lia.
      + destruct ags as [v|[|x l]]; try discriminate NE. discriminate.
    - eapply within_weaken;
        [| |apply (@add_within 65 75 (-15) (-15)); try small;
            [exact S1 | apply within_Fin; split; apply Qle_refl]].
      + rewrite <- Zle_Qle. lia.
      + rewrite <- Zle_Qle. lia. }
  set (s2 := if nonEmpty ags then _ else _) in *.
  pose proof (@within_step 50 85 5 (nonEmpty tls) s2
                ltac:(lia) ltac:(lia) ltac:(lia) S2) as S3.
  pose proof (@within_step 50 (85 + 5) 10 (nonEmpty rels) _
                ltac:(lia) ltac:(lia) ltac:(lia) S3) as S4.
  exact S4.
Qed.

Lemma assessCompleteness_within (ags tls rels : Entities) (pattern : Value) :
  Binary64.integerWithin 50 100 (assessCompleteness ags tls rels pattern).
Proof.
  unfold assessCompleteness.
  destruct (nonEmpty ags), (nonEmpty tls), (nonEmpty rels), (truthy pattern);
    eexists; (split; [vm_compute; reflexivity | lia]).
Qed.

Lemma assessConsistency_within (ags rels : Entities) :
  Binary64.integerWithin 70 90 (assessConsistency ags rels).
Proof.
  unfold assessConsistency.
  assert (Z70 : Binary64.integerWithin 70 90 (Binary64.round (Fin 70))).
  { exists 70%Z. split; [reflexivity | lia]. }
  destruct rels as [v|rels]; [exact Z70|].
  destruct ags as [v|ags]; [exact Z70|].
  cbv zeta.
  match goal with
  | |- context [List.length (List.filter ?f rels)] =>
      set (valid := List.length (List.filter f rels))
  end.
  assert (V : (valid <= List.length rels)%nat) by apply List.filter_length_le.
  destruct (0 <? List.length rels)%nat eqn:T; [|exact Z70].
  apply Nat.ltb_lt in T.
  apply round_within.
  apply (@add_within 70 70 0 20); try small.
  { apply within_Fin. split; apply Qle_refl. }
  apply integerWithin_within, round_within.
  (* valid / total lies between 0 and 1, and 20 times it between 0 and 20 *)
  destruct (List.length rels) as [|n] eqn:L; [lia|].
  cbn [Binary64.divCount Binary64.ofZ].
  destruct (@rnd_between 0 1 (inject_Z (Z.of_nat valid)
                              / inject_Z (Z.of_nat (S n))))
    as (r & -> & Hr); [reflexivity | reflexivity | |].
  { assert (P : 0 < inject_Z (Z.of_nat (S n))).
    { change 0 with (inject_Z 0). rewrite <- Zlt_Qlt. lia. }
    split.
    - apply Qle_shift_div_l; [exact P|]. rewrite Qmult_0_l.
      change 0 with (inject_Z 0). rewrite <- Zle_Qle. lia.
    - apply Qle_shift_div_r; [exact P|]. rewrite Qmult_1_l.
      rewrite <- Zle_Qle. lia. }
  cbn [Binary64.times].
  destruct (@rnd_between 0 20 (inject_Z 20 * r))
    as (r' & -> & Hr'); [reflexivity | reflexivity | |].
  { change (inject_Z 20) with 20. lra. }
  apply within_Fin. exact Hr'.
Qed.

Lemma assessClarity_within (text : string) :
  Binary64.integerWithin 60 95 (assessClarity text).
Proof.
  unfold assessClarity. apply round_within.
  set (s0 := if Scorer.hasSections text then _ else _).
  assert (S0 : Binary64.within (inject_Z 60) (inject_Z 75) s0).
  { unfold s0. destruct (Scorer.hasSections text).
    - apply within_Fin. vm_compute. split; discriminate.
    - apply within_Fin. vm_compute. split; discriminate. }
  assert (S1 := @add_within 60 75 0 10 _ _ ltac:(small) ltac:(small) S0
                  (@share_within 10 (Str.len text) 300 ltac:(lia)
                                 (len_nonneg text) ltac:(lia))).
  exact (@within_step (60 + 0) (75 + 10) 10 _ _
           ltac:(lia) ltac:(lia) ltac:(lia) S1).
Qed.


(** *** The overall score against the formula *)

Lemma round_min (cap : Z) (x : JsNum) :
  Binary64.round (Binary64.min (Fin (inject_Z cap)) x)
  = Binary64.min (Fin (inject_Z cap)) (Binary64.round x).
Proof.
  destruct x as [ | | |q]; cbn [Binary64.min Binary64.round];
    try reflexivity.
  - rewrite round_inject. reflexivity.
  - rewrite round_cap, Qmin_inject_Z. reflexivity.
Qed.

Lemma min_never_above (cap : Q) (x : JsNum) :
  gt (Binary64.min (Fin cap) x) (Fin cap) = false.
Proof.
  destruct x as [ | | |q]; cbn [Binary64.min gt]; try reflexivity.
  - unfold gtb. rewrite (proj2 (Qle_bool_iff cap cap) (Qle_refl cap)).
    reflexivity.
  - unfold gtb. rewrite (proj2 (Qle_bool_iff _ _) (Q.le_min_l cap q)).
    reflexivity.
Qed.

Lemma scoreAgent_capped (text : string) (a : Json) (scored : Scored) :
  scoreAgent ToNumber text a = Ok scored -> capped (snd scored).
Proof.
  unfold scoreAgent. intros H.
  destruct (get a "description") as [d|e]; [|discriminate H].
  cbn [bind] in H.
  match type of H with
  | bind ?x _ = _ => destruct x as [detail|e]
  end; [|discriminate H].
  cbn [bind] in H.
  destruct (get a "name") as [n|e]; [|discriminate H]. cbn [bind] in H.
  destruct (stringFor "agent.name" "replace" n) as [name|e];
    [|discriminate H]. cbn [bind] in H.
  destruct (get a "role") as [role|e]; [|discriminate H]. cbn [bind] in H.
  destruct (longerThan ToNumber 10 role) as [b|e]; [|discriminate H].
  cbn [bind] in H. inversion H. cbn [snd]. apply confidenceOf_capped.
Qed.

Lemma agents_capped (v : Value) (text : string) (ags : Entities) :
  mapIfPresent "agents" (scoreAgent ToNumber text) v = Ok ags ->
  Forall capped (confidences ags).
Proof.
  unfold mapIfPresent. intros H.
  destruct (truthy v); [|inversion H; constructor].
  destruct v as [[ | b | q | s | items | fields]|]; try discriminate H.
  destruct (mapM (scoreAgent ToNumber text) items) as [scored|e] eqn:M;
    [|discriminate H].
  cbn [bind] in H. inversion H. cbn [confidences]. apply Forall_map.
  eapply (@mapM_Forall_result _ _ (scoreAgent ToNumber text)
            (fun _ => True) (fun s => capped (snd s))); [| |exact M].
  - intros a b _ Hb. eapply scoreAgent_capped, Hb.
  - apply Forall_forall. intros; exact I.
Qed.

Lemma orZero_numbers (cs : list JsNum) :
  Forall capped cs -> Forall (fun c => isNaN c = false) cs ->
  List.map Binary64.orZero cs = cs.
Proof.
  induction 1 as [|c cs Hc _ IH]; intros N; [reflexivity|].
  inversion N; subst. cbn [List.map].
  rewrite orZero_capped, IH by assumption. reflexivity.
Qed.

Lemma nonEmpty_confidences (ags : Entities) :
  nonEmpty ags = match confidences ags with [] => false | _ => true end.
Proof. destruct ags as [v|[|x l]]; reflexivity. Qed.

(** The code's score is the sum of the formula, term by term, on the
    confidences as [a.confidence || 0] reads them. *)
Lemma overallScore_formula (ags tls rels : Entities) (text : string) :
  overallScore ags tls rels text
  = Binary64.add
      (Binary64.add
         (Binary64.add
            (Binary64.add (Fin 65)
               (Binary64.min (Fin 10)
                  (Binary64.divCount (Binary64.ofZ (Str.len text)) 200)))
            (Spec64.agentTerm (List.map Binary64.orZero (confidences ags))))
         (if nonEmpty tls then Fin 5 else Fin 0))
      (if nonEmpty rels then Fin 10 else Fin 0).
Proof.
  unfold overallScore. cbv zeta.
  rewrite (@nonEmpty_confidences ags).
  unfold Spec64.agentTerm, Spec64.mean.
  destruct (confidences ags) as [|c0 cs]; destruct (nonEmpty tls), (nonEmpty rels);
    cbn [List.map]; rewrite ?add_plus_zero; reflexivity.
Qed.

Lemma calculateConfidenceScores_inv64 (c : Json) (text : string) (r : Result) :
  calculateConfidenceScores ToNumber c text = Ok r ->
  mapIfPresent "agents" (scoreAgent ToNumber text) (field c "agents")
  = Ok (agents r)
  /\ systemConfidence r
     = {| overall :=
            Binary64.min (Fin 95)
              (calculateOverallConfidence (agents r) (tools r)
                                          (relationships r) text);
          completeness :=
            assessCompleteness (agents r) (tools r) (relationships r)
                               (orchestrationPattern r);
          consistency := assessConsistency (agents r) (relationships r);
          clarity := assessClarity text |}.
Proof.
  unfold calculateConfidenceScores. intros H.
  destruct (mapIfPresent "agents" _ _) as [ags|e]; [|discriminate H].
  cbn [bind] in H.
  destruct (mapIfPresent "tools" _ _) as [tls|e]; [|discriminate H].
  cbn [bind] in H.
  destruct (mapIfPresent "relationships" _ _) as [rels|e]; [|discriminate H].
  cbn [bind] in H. inversion H. split; reflexivity.
Qed.

(** C4, as the code has it.  Whenever the scorer produces a result, on
    any parsed value, its overall confidence is never above 95, and it is
    the rounded value of 65 + min(10, len(text)/200) + (min(10,
    mean(agent confidences)/10) if there are agents, else -15) + (5 if
    tools is non-empty) + (10 if relationships is non-empty), clamped
    above at 95, every sum and quotient being the binary64 one, taken in
    the order written.  The agent confidences are those the scorer has
    just assigned, read as [a.confidence || 0]: one that is [NaN] counts
    as 0, and when none is, they are the confidences themselves. *)
Theorem overall_confidence_rounded_formula
        (c : Json) (text : string) (r : Result) :
  calculateConfidenceScores ToNumber c text = Ok r ->
  let agentConfidences :=
    List.map Binary64.orZero (confidences (agents r)) in
  gt (overall (systemConfidence r)) (Fin 95) = false
  /\ overall (systemConfidence r)
     = Spec64.overall agentConfidences (nonEmpty (tools r))
                      (nonEmpty (relationships r)) text
  /\ (Forall (fun x => isNaN x = false) (confidences (agents r)) ->
      agentConfidences = confidences (agents r)).
Proof.
  intros H. cbv zeta.
  destruct (calculateConfidenceScores_inv64 _ _ H) as [Ha ->].
  cbn [overall]. split; [apply min_never_above|]. split.
  - unfold calculateOverallConfidence, Spec64.overall.
    change 95 with (inject_Z 95).
    rewrite round_min. do 2 f_equal.
    apply overallScore_formula.
  - intros N. apply orZero_numbers; [|exact N].
    eapply agents_capped, Ha.
Qed.

(** C10, as the code has it.  Whenever the scorer produces a result for
    components in which no agent's description is an object with a
    [length] of its own, the overall score before the cap is an integer
    from 50 to 100 and after it from 50 to 95, completeness is an integer
    from 50 to 100, consistency from 70 to 90 and clarity from 60 to
    95. *)
Theorem system_metrics_bounded_for_plain_descriptions
        (c : Json) (text : string) (r : Result) :
  plainDescriptions c = true ->
  calculateConfidenceScores ToNumber c text = Ok r ->
  Binary64.integerWithin 50 100
    (calculateOverallConfidence (agents r) (tools r) (relationships r) text)
  /\ Binary64.integerWithin 50 95 (overall (systemConfidence r))
  /\ Binary64.integerWithin 50 100 (completeness (systemConfidence r))
  /\ Binary64.integerWithin 70 90 (consistency (systemConfidence r))
  /\ Binary64.integerWithin 60 95 (clarity (systemConfidence r)).
Proof.
  intros P H. destruct (calculateConfidenceScores_inv64 _ _ H) as [Ha ->].
  cbn [overall completeness consistency clarity].
  assert (O : Binary64.integerWithin 50 100
                (calculateOverallConfidence (agents r) (tools r)
                                            (relationships r) text)).
  { unfold calculateOverallConfidence. apply round_within.
    apply overallScore_within. eapply agents_sound; eassumption. }
  split; [exact O|]. split.
  - change 95 with (inject_Z 95). change 95%Z with (Z.min 95 100) at 1.
    apply min_integer; [exact O | lia].
  - split; [apply assessCompleteness_within|].
    split; [apply assessConsistency_within | apply assessClarity_within].
Qed.

(** X22.  A tool whose purpose is no object is scored exactly when its
    name is a string, and scoring it throws otherwise (a number or an
    array for a name included); a relationship that is not [null] and
    whose description is no object is always scored.  The confidence of
    either takes one of five values: 70, 80, 85, 95 and 100 (the raw 110
    of a fully described one is capped at 100). *)
Theorem tool_and_relationship_confidence_steps
        (text : string) (tool rel : Json) :
  (simple (property tool "purpose") = true ->
   match scoreTool ToNumber text tool with
   | Ok scored =>
       isString (property tool "name") = true
       /\ fst scored = tool /\ In (snd scored) steps
   | Throw _ => isString (property tool "name") = false
   end)
  /\ (nonNull rel -> simple (property rel "description") = true ->
      exists confidence,
        scoreRelationship ToNumber rel = Ok (rel, confidence)
        /\ In confidence steps).
Proof.
  split.
  - intros Hp. destruct (isString (property tool "name")) eqn:N.
    + destruct (property tool "name") as [[ | | |name| | ]|] eqn:E;
        try discriminate N.
      destruct (@scoreTool_with_name text tool name E Hp) as (c0 & -> & Hc).
      cbn [fst snd]. auto.
    + destruct (@scoreTool_unnamed text tool N) as [e ->]. reflexivity.
  - intros N Hd. apply scoreRelationship_simple; assumption.
Qed.


End ScoringFacts.

(** ** The evaluator in binary64 *)

Section Matcher64Facts.

Import Js Num Matcher64.
Local Open Scope Q_scope.

Lemma add64_eqv (a a' b b' : JsNum) :
  eqv a a' -> eqv b b' -> Binary64.add a b = Binary64.add a' b'.
Proof.
  destruct a, a', b, b'; cbn [eqv Binary64.add]; try tauto.
  intros H1 H2. apply rnd_comp. rewrite H1, H2. reflexivity.
Qed.

Lemma divCount64_eqv (a b : JsNum) (n : nat) :
  eqv a b -> Binary64.divCount a n = Binary64.divCount b n.
Proof.
  destruct a as [ | | |x], b as [ | | |y]; cbn [eqv Binary64.divCount];
    try tauto.
  intros H. destruct n.
  - assert (E1 : Qeq_bool x 0 = Qeq_bool y 0).
    { destruct (Qeq_bool x 0) eqn:A, (Qeq_bool y 0) eqn:B; try reflexivity.
      - apply Qeq_bool_eq in A. apply Qeq_bool_neq in B. lra.
      - apply Qeq_bool_eq in B. apply Qeq_bool_neq in A. lra. }
    assert (E2 : Qle_bool 0 x = Qle_bool 0 y).
    { destruct (Qle_bool 0 x) eqn:A, (Qle_bool 0 y) eqn:B; try reflexivity.
      - apply Qle_bool_iff in A. apply Qle_bool_false in B. lra.
      - apply Qle_bool_iff in B. apply Qle_bool_false in A. lra. }
    rewrite E1, E2. reflexivity.
  - apply rnd_comp. rewrite H. reflexivity.
Qed.

Section WithScore.

Variable matchScoreOf : Json -> Json -> Except JsNum.

(** The inner loop computes the scores one after the other and keeps the
    running best. *)
Lemma bestMatch64_fold (actual : list Json) (expectedEntity : Json) :
  forall best,
    bestMatch matchScoreOf actual expectedEntity best
    = match mapM (fun actualEntity =>
                    matchScoreOf actualEntity expectedEntity)
                 actual with
      | Ok scores =>
          Ok (fold_left (fun best s => Spec.larger s best) scores best)
      | Throw e => Throw e
      end.
Proof.
  induction actual as [|a l IH]; intros best; cbn [bestMatch mapM].
  - reflexivity.
  - destruct (matchScoreOf a expectedEntity) as [s|e]; [|reflexivity].
    rewrite IH.
    destruct (mapM (fun actualEntity =>
                      matchScoreOf actualEntity expectedEntity) l);
      reflexivity.
Qed.

(** The outer loop adds the best matches one after the other, and throws
    what the first failing match throws. *)
Lemma accumulate64_bestMatches (actual expected : list Json) :
  forall matchCount,
    match bestMatches matchScoreOf actual expected with
    | Ok bests =>
        exists r,
          accumulate matchScoreOf actual expected matchCount = Ok r
          /\ eqv r (fold_left Binary64.add bests matchCount)
    | Throw e => accumulate matchScoreOf actual expected matchCount = Throw e
    end.
Proof.
  unfold bestMatches.
  induction expected as [|x l IH]; intros matchCount; cbn [accumulate mapM].
  - exists matchCount. split; [reflexivity | apply eqv_refl].
  - rewrite bestMatch64_fold.
    destruct (mapM (fun actualEntity => matchScoreOf actualEntity x) actual)
      as [scores|e]; [|reflexivity].
    set (best := fold_left (fun best s => Spec.larger s best) scores (Fin 0)).
    specialize (IH (Binary64.add matchCount best)).
    destruct (mapM _ l) as [bests|e]; [|exact IH].
    destruct IH as (r & Hr & Er). exists r. split; [exact Hr|].
    cbn [fold_left].
    rewrite <- (@add64_eqv matchCount matchCount best (Spec.maxScore scores)
                  (eqv_refl _) (running_best_is_maxScore scores)).
    exact Er.
Qed.

(** C7, as the code has it.  accuracy([], []) = 1; accuracy(actual, []) =
    0 for a non-empty [actual]; accuracy([], expected) = 0 for a non-empty
    [expected]; and for two non-empty lists the accuracy is the sum of the
    best matches divided by the number of expected entities, in binary64:
    the best match of an expected entity is the maximum of its match
    scores against the actual entities (each maximum taken on its own; a
    score that is not a number counts for nothing and no maximum is below
    0), the best matches are added one after the other in the order of
    the expected entities, each addition rounded, and the sum is divided
    once.  Whatever a match score throws, the accuracy throws. *)
Theorem accuracy_is_rounded_mean_of_best_matches
        (actual expected : list Json) :
  accuracyWith matchScoreOf [] [] = Ok (Fin 1)
  /\ (actual <> [] -> accuracyWith matchScoreOf actual [] = Ok (Fin 0))
  /\ (expected <> [] -> accuracyWith matchScoreOf [] expected = Ok (Fin 0))
  /\ (actual <> [] -> expected <> [] ->
      accuracyWith matchScoreOf actual expected
      = match bestMatches matchScoreOf actual expected with
        | Ok bests =>
            Ok (Binary64.divCount (Spec64.total bests) (List.length expected))
        | Throw e => Throw e
        end).
Proof.
  split; [reflexivity|]. split; [|split].
  - intros Ha. destruct actual; [congruence | reflexivity].
  - intros He. destruct expected; [congruence | reflexivity].
  - intros Ha He. unfold accuracyWith.
    destruct expected as [|e0 es]; [congruence|].
    destruct actual as [|a0 acts]; [congruence|].
    cbn [List.length Nat.eqb].
    pose proof (accumulate64_bestMatches (a0 :: acts) (e0 :: es) (Fin 0)) as H.
    destruct (bestMatches matchScoreOf (a0 :: acts) (e0 :: es)) as [bests|e].
    + destruct H as (r & -> & Er). f_equal.
      apply divCount64_eqv. exact Er.
    + rewrite H. reflexivity.
Qed.

End WithScore.


(** *** When the evaluator returns *)










End Matcher64Facts.

(** ** The scorer and the evaluator as total functions *)

Section Returning.

Import Js Num.

Variable ToNumber : Json -> Except JsNum.


End Returning.

(** ** Batches of test cases *)

Section BatchFacts.

Import Num Lists Testing.
Local Open Scope Q_scope.

Variables R W : Type.
Variable runTestCase : string -> W -> (TestCaseResult R + ErrorResult) * W.

Lemma total_snoc (f : Metrics -> JsNum) (results : list (TestCaseResult R))
      (r : TestCaseResult R) :
  total f (results ++ [r]) = Binary64.add (total f results) (f (metrics r)).
Proof.
  unfold total, Binary64.sum. rewrite List.map_app, fold_left_app.
  reflexivity.
Qed.

Lemma batchLoop_summed (testCaseNames : list string) :
  forall w results m successCount,
    summed results m successCount ->
    let '(results', m', successCount', _) :=
      batchLoop runTestCase testCaseNames w results m successCount in
    summed results' m' successCount'
    /\ (List.length results'
        <= List.length results + List.length testCaseNames)%nat.
Proof.
  induction testCaseNames as [|name rest IH];
    intros w results m successCount S; cbn [batchLoop List.length].
  - split; [exact S | lia].
  - destruct (runTestCase name w) as [[result|err] w'].
    + match goal with
      | |- context [batchLoop _ rest w' ?rs ?m' ?sc] =>
          specialize (IH w' rs m' sc)
      end.
      destruct (batchLoop runTestCase rest w' _ _ _) as [[[rs' m'] sc'] w''].
      destruct IH as [IH L].
      * destruct S as (Sc & ->).
        split; [rewrite length_app; cbn; lia|].
        cbn [averageConfidence averageProcessingTime successRate totalAgents
             totalTools totalRelationships].
        rewrite !total_snoc. reflexivity.
      * split; [exact IH|]. rewrite length_app in L. cbn in L. lia.
    + specialize (IH w' results m successCount S).
      destruct (batchLoop runTestCase rest w' results m successCount)
        as [[[rs' m'] sc'] w''].
      destruct IH as [IH L]. split; [exact IH | lia].
Qed.

Lemma total_nonneg (f : Metrics -> JsNum) (results : list (TestCaseResult R)) :
  Forall (fun r => Binary64.le (Fin 0) (f (metrics r))) results ->
  Binary64.le (Fin 0) (total f results).
Proof.
  intros H. unfold total. apply sum_nonneg.
  rewrite Forall_map. exact H.
Qed.

Lemma share_is_rate (k n : nat) :
  (k <= n)%nat -> (0 < n)%nat ->
  Binary64.within 0 100
    (Binary64.times 100 (Binary64.divCount (ofNat k) n)).
Proof.
  intros Hk Hn. unfold ofNat. destruct n as [|n']; [lia|].
  cbn [Binary64.divCount].
  assert (Q0 : 0 <= inject_Z (Z.of_nat k) / inject_Z (Z.of_nat (S n')) <= 1).
  { assert (P : 0 < inject_Z (Z.of_nat (S n'))).
    { change 0 with (inject_Z 0). rewrite <- Zlt_Qlt. lia. }
    split.
    - apply Qle_shift_div_l; [exact P|]. rewrite Qmult_0_l.
      change 0 with (inject_Z 0). rewrite <- Zle_Qle. lia.
    - apply Qle_shift_div_r; [exact P|]. rewrite Qmult_1_l.
      rewrite <- Zle_Qle. lia. }
  destruct (@rnd_between 0 1 _ (rnd_inject_Z 0 ltac:(cbn; lia))
                         (rnd_inject_Z 1 ltac:(cbn; lia)) Q0)
    as (r & -> & Hr).
  cbn [Binary64.times].
  assert (Q1 : 0 <= inject_Z 100 * r <= 100)
    by (change (inject_Z 100) with 100; lra).
  destruct (@rnd_between 0 100 _ (rnd_inject_Z 0 ltac:(cbn; lia))
                         (rnd_inject_Z 100 ltac:(cbn; lia)) Q1)
    as (s & E & Hs).
  exists s. split; [exact E | exact Hs].
Qed.

(** X19.  [runBatchTests] never divides by zero.  No more results are kept
    than test cases were given.  With no result every metric is 0.
    Otherwise the two averages are the sums of the results' values, added
    up in order, over the number of results, and the success rate is 100
    times the share of the test cases that gave a result, each operation
    rounded to binary64.  The totals are the sums; the success rate lies
    between 0 and 100; and when no run reports a value that is NaN or
    below 0, no metric of the batch is. *)
Theorem batch_metrics_are_numbers (testCaseNames : list string) (w : W) :
  let batch := fst (runBatchTests runTestCase testCaseNames w) in
  let results := individualResults batch in
  let m := batchMetrics batch in
  (List.length results <= List.length testCaseNames)%nat
  /\ (results = [] -> m = initialMetrics)
  /\ (results <> [] ->
      averageConfidence m
      = Binary64.divCount (total overallConfidence results)
                          (List.length results)
      /\ averageProcessingTime m
         = Binary64.divCount (total processingTime results)
                             (List.length results)
      /\ successRate m
         = Binary64.times 100
             (Binary64.divCount (ofNat (List.length results))
                                (List.length testCaseNames)))
  /\ totalAgents m = total agentCount results
  /\ totalTools m = total toolCount results
  /\ totalRelationships m = total relationshipCount results
  /\ Binary64.within 0 100 (successRate m)
  /\ (Forall (@countsUp R) results -> nonNegative m).
Proof.
  cbv zeta. unfold runBatchTests.
  pose proof (@batchLoop_summed testCaseNames w [] initialMetrics O) as H.
  destruct (batchLoop runTestCase testCaseNames w [] initialMetrics O)
    as [[[results m] successCount] w'].
  destruct H as [[Sc ->] L]; [split; reflexivity|].
  cbn [fst individualResults batchMetrics]. cbn [List.length Nat.add] in L.
  split; [exact L|].
  destruct results as [|r0 rs].
  - cbn [List.length Nat.ltb Nat.leb].
    split; [intros _; reflexivity|].
    split; [intros C; contradiction C; reflexivity|].
    cbn [totalAgents totalTools totalRelationships successRate].
    repeat (split; [reflexivity|]).
    split; [apply within_Fin; lra|].
    intros _. unfold nonNegative, total. cbn. repeat split; lra.
  - set (results := r0 :: rs) in *.
    assert (P : (0 < List.length results)%nat) by (cbn; lia).
    destruct (Nat.ltb_spec 0 (List.length results)) as [_|C]; [|lia].
    cbn [averageConfidence averageProcessingTime successRate totalAgents
         totalTools totalRelationships].
    split; [intros C; discriminate C|].
    split; [intros _; subst successCount; repeat split|].
    repeat (split; [reflexivity|]).
    subst successCount.
    split; [apply share_is_rate; lia|].
    intros F. unfold nonNegative.
    cbn [averageConfidence averageProcessingTime successRate totalAgents
         totalTools totalRelationships].
    assert (T : forall f,
               (forall r : TestCaseResult R,
                   countsUp r -> Binary64.le (Fin 0) (f (metrics r))) ->
               Binary64.le (Fin 0) (total f results)).
    { intros f Hf. apply total_nonneg.
      eapply Forall_impl; [|exact F]. exact Hf. }
    split; [apply divCount_nonneg; [exact P|]; apply T; intros r C; apply C|].
    split; [apply divCount_nonneg; [exact P|]; apply T; intros r C; apply C|].
    split.
    { destruct (@share_is_rate (List.length results)
                               (List.length testCaseNames)) as (s & -> & Hs);
        [lia | lia | cbn; lra]. }
    repeat split; apply T; intros r C; apply C.
Qed.

End BatchFacts.

(** ** Concrete inputs *)

(** Five agents with the confidences 75, 75, 75, 75 and 73 and a text of
    1608 characters: 65 + 8.04 + 7.46 is 80.49999999999999 in binary64,
    and the scorer returns 80 where the formula over the rationals gives
    81. *)
Lemma overall_confidence_is_not_the_exact_formula :
  exists r,
    Scoring.calculateConfidenceScores Cases.unread Cases.fiveAgents
                                      Cases.longText = Ok r
    /\ Scoring.confidences (Scoring.agents r)
       = [Num.Fin 75; Num.Fin 75; Num.Fin 75; Num.Fin 75; Num.Fin 73]
    /\ Scoring.overall (Scoring.systemConfidence r) = Num.Fin 80
    /\ Spec.overall [75; 75; 75; 75; 73] false false Cases.longText = 81.
Proof.
  eexists. split; [vm_compute; reflexivity|].
  split; [vm_compute; reflexivity|].
  split; vm_compute; reflexivity.
Qed.

Lemma overall_confidence_rounded_formula_witness :
  exists r,
    Scoring.calculateConfidenceScores Cases.unread Cases.twoAgents
                                      Samples.description = Ok r
    /\ Scoring.overall (Scoring.systemConfidence r)
       = Spec64.overall
           (List.map Binary64.orZero (Scoring.confidences (Scoring.agents r)))
           (Scoring.nonEmpty (Scoring.tools r))
           (Scoring.nonEmpty (Scoring.relationships r))
           Samples.description.
Proof.
  eexists. split; [vm_compute; reflexivity|].
  destruct (@overall_confidence_rounded_formula
              Cases.unread Cases.twoAgents Samples.description _ eq_refl)
    as (_ & H & _).
  exact H.
Defined.

(** An agent whose description is an object with a [length] of -100000:
    its confidence is -4930 and the overall confidence of the system
    -428. *)
Lemma negative_length_leaves_the_ranges :
  exists r,
    Scoring.calculateConfidenceScores Cases.unread Cases.oddDescription "x"
    = Ok r
    /\ Scoring.confidences (Scoring.agents r) = [Num.Fin (- (4930))]
    /\ Scoring.calculateOverallConfidence
         (Scoring.agents r) (Scoring.tools r) (Scoring.relationships r) "x"
       = Num.Fin (- (428))
    /\ Scoring.overall (Scoring.systemConfidence r) = Num.Fin (- (428))
    /\ ~ Binary64.integerWithin 50 95
           (Scoring.overall (Scoring.systemConfidence r)).
Proof.
  eexists. split; [vm_compute; reflexivity|].
  split; [vm_compute; reflexivity|].
  split; [vm_compute; reflexivity|].
  split; [vm_compute; reflexivity|].
  intros (z & E & Hz). vm_compute in E. inversion E. lia.
Qed.

Lemma system_metrics_bounded_for_plain_descriptions_witness :
  exists r,
    Scoring.calculateConfidenceScores Cases.unread Cases.fiveAgents
                                      Cases.longText = Ok r
    /\ Binary64.integerWithin 50 95
         (Scoring.overall (Scoring.systemConfidence r))
    /\ Binary64.integerWithin 70 90
         (Scoring.consistency (Scoring.systemConfidence r)).
Proof.
  eexists. split; [vm_compute; reflexivity|].
  destruct (@system_metrics_bounded_for_plain_descriptions
              Cases.unread Cases.fiveAgents Cases.longText _
              eq_refl eq_refl)
    as (_ & Ho & _ & Hc & _).
  split; [exact Ho | exact Hc].
Defined.

(** One actual entity against two expected ones with best matches 0.1 and
    0.2: the code adds them to 0.30000000000000004 and returns
    0.15000000000000002, which is not 3/20. *)
Lemma accuracy_is_not_the_exact_mean :
  Matcher64.calculateEntityAccuracy Cases.shortLists Cases.longLists
  = Ok (Num.Fin (1351079888211149 # 9007199254740992))
  /\ Num.sameOutcome (Spec.accuracy Cases.shortLists Cases.longLists)
                     (Ok (Num.Fin (3 # 20)))
  /\ ~ (1351079888211149 # 9007199254740992 == 3 # 20)%Q.
Proof.
  split; [vm_compute; reflexivity|].
  split; [vm_compute; reflexivity|].
  intros H. vm_compute in H. discriminate H.
Qed.

Lemma accuracy_is_rounded_mean_of_best_matches_witness :
  Matcher64.calculateEntityAccuracy Samples.actualEntities
                                    Samples.expectedEntities
  = match Matcher64.bestMatches Matcher64.calculateEntityMatchScore
                                Samples.actualEntities
                                Samples.expectedEntities with
    | Ok bests =>
        Ok (Binary64.divCount (Spec64.total bests)
                              (List.length Samples.expectedEntities))
    | Throw e => Throw e
    end.
Proof.
  destruct (@accuracy_is_rounded_mean_of_best_matches
              Matcher64.calculateEntityMatchScore
              Samples.actualEntities Samples.expectedEntities)
    as (_ & _ & _ & H).
  apply H; discriminate.
Defined.



Lemma tool_and_relationship_confidence_steps_witness :
  match Scoring.scoreTool Cases.unread Samples.description
                          Cases.searchTool with
  | Ok scored =>
      Scoring.isString (Scoring.property Cases.searchTool "name") = true
      /\ fst scored = Cases.searchTool
      /\ In (snd scored) Scoring.steps
  | Throw _ =>
      Scoring.isString (Scoring.property Cases.searchTool "name") = false
  end
  /\ exists confidence,
      Scoring.scoreRelationship Cases.unread Cases.handOver
      = Ok (Cases.handOver, confidence)
      /\ In confidence Scoring.steps.
Proof.
  destruct (@tool_and_relationship_confidence_steps
              Cases.unread Samples.description Cases.searchTool
              Cases.handOver) as [Ht Hr].
  split; [apply Ht; reflexivity | apply Hr; [discriminate | reflexivity]].
Defined.

Lemma batch_metrics_are_numbers_witness :
  Testing.nonNegative
    (Testing.batchMetrics
       (fst (Testing.runBatchTests Cases.runStub ["a"; "missing"; "b"] tt))).
Proof.
  apply (batch_metrics_are_numbers Cases.runStub ["a"; "missing"; "b"] tt).
  repeat constructor; cbn; lra.
Defined.
